(** * seekgzip: random access into gzip files through an index of access points

    Shallow embedding of [seekgzip.c] (the zran-derived index builder and
    extractor, the index lookup, the build/open/close/seek/read API) and of
    the C++ wrapper [export.cpp], with the properties of the specification
    stated and settled against it.

    Conventions of the embedding.
    - [off_t] and [int] values are [Z]; the quantities the code computes stay
      far below 2^63 (file offsets) so no wrap-around is reachable, and the
      bit operations of the source ([&], [>>], [<<]) are [Z.land],
      [Z.shiftr], [Z.shiftl].  Where the source computes in [int] on a value
      its caller chooses ([size + 1] in [reader::read]), the overflow is
      written out.
    - An [unsigned char] is a [Z] in [0,255]; buffers are [list uchar].
    - A pointer that may be [NULL] is an [option].
    - zlib is not part of the repository: its entry points are parameters of
      the sections that use them, with the parts of zlib's documented
      contract a proof needs stated as hypotheses. *)

From Stdlib Require Import ZArith Lia List Bool.
From stdpp Require Import base list gmap strings.

Local Open Scope Z_scope.

(** ** Constants of seekgzip.c and zlib.h *)

Definition uchar := Z.

Definition SPAN : Z := 1048576.
Definition WINSIZE : Z := 32768.
Definition CHUNK : Z := 16384.

Definition Z_OK : Z := 0.
Definition Z_STREAM_END : Z := 1.
Definition Z_NEED_DICT : Z := 2.
Definition Z_ERRNO : Z := -1.
Definition Z_STREAM_ERROR : Z := -2.
Definition Z_DATA_ERROR : Z := -3.
Definition Z_MEM_ERROR : Z := -4.
Definition Z_BUF_ERROR : Z := -5.

Definition Z_NO_FLUSH : Z := 0.
Definition Z_BLOCK : Z := 5.

(** The largest [int] (32 bits). *)
Definition INT_MAX : Z := 2147483647.

(** The enum of seekgzip.h: [SEEKGZIP_ERROR=-1024] and the following
    enumerators count up from it. *)
Definition SEEKGZIP_SUCCESS : Z := 0.
Definition SEEKGZIP_ERROR : Z := -1024.
Definition SEEKGZIP_OPENERROR : Z := -1023.
Definition SEEKGZIP_READERROR : Z := -1022.
Definition SEEKGZIP_WRITEERROR : Z := -1021.
Definition SEEKGZIP_DATAERROR : Z := -1020.
Definition SEEKGZIP_OUTOFMEMORY : Z := -1019.
Definition SEEKGZIP_IMCOMPATIBLE : Z := -1018.
Definition SEEKGZIP_ZLIBERROR : Z := -1017.

(** ** Access points and the access point list *)

(** [struct point]. *)
Record point := mkpoint {
  out : Z;               (* corresponding offset in uncompressed data *)
  in_ : Z;               (* offset in input file of first full byte *)
  bits : Z;              (* number of bits (1-7) from byte at in - 1, or 0 *)
  window : list uchar    (* preceding 32K of uncompressed data *)
}.

(** [struct access] ([size_] and [list_] are the fields [size] and [list]).
    [list_] holds the [have] entries filled in so far; the
    [size - have] allocated entries after them have no defined content. *)
Record access := mkaccess {
  have : Z;              (* number of list entries filled in *)
  size_ : Z;             (* number of list entries allocated *)
  list_ : list point     (* allocated list *)
}.

(** The filled entries are exactly the first [have] ones. *)
Definition access_ok (index : access) : Prop :=
  have index = Z.of_nat (length (list_ index)).

(** [memcpy (dst + doff, src + soff, n)] on buffers as lists: the [n] bytes
    of [src] from [soff] replace the [n] bytes of [dst] from [doff]. *)
Definition memcpy (dst : list uchar) (doff : Z) (src : list uchar) (soff n : Z)
  : list uchar :=
  take (Z.to_nat doff) dst
  ++ take (Z.to_nat n) (drop (Z.to_nat soff) src)
  ++ drop (Z.to_nat (doff + n)) dst.

(** Sizes of the structures ([off_t] of 8 bytes, [int] of 4). *)
Definition sizeof_point : Z := 32792.
Definition sizeof_access : Z := 16.

(** The C runtime as far as the code depends on it.  [can_alloc n]: whether
    the allocator grants a request for [n] bytes ([malloc]/[realloc]
    returning non-NULL); [junk i]: the content of byte [i] of memory that
    was allocated and not yet written. *)
Class Runtime := {
  can_alloc : Z -> bool;
  junk : nat -> uchar
}.

Section Alloc.

Context `{RT : Runtime}.

Definition uninit (n : Z) : list uchar := map junk (seq 0 (Z.to_nat n)).

(** "fill in entry and increment how many we have". *)
Definition fill_entry (index : access) (bits in_ out left : Z)
           (window : list uchar) : access :=
  let w0 := uninit WINSIZE in
  let w1 := if left =? 0 then w0
            else memcpy w0 0 window (WINSIZE - left) left in
  let w2 := if left <? WINSIZE
            then memcpy w1 left window 0 (WINSIZE - left) else w1 in
  {| have := have index + 1;
     size_ := size_ index;
     list_ := list_ index ++ [mkpoint out in_ bits w2] |}.

(** [addpoint]: [None] is the [NULL] index on entry, and the [NULL]
    returned when out of memory. *)
Definition addpoint (index : option access) (bits in_ out left : Z)
           (window : list uchar) : option access :=
  match index with
  | None =>
      (* if list is empty, create it (start with eight points) *)
      if can_alloc sizeof_access then
        if can_alloc (Z.shiftl sizeof_point 3) then
          Some (fill_entry {| have := 0; size_ := 8; list_ := [] |}
                           bits in_ out left window)
        else None
      else None
  | Some index =>
      (* if list is full, make it bigger *)
      if have index =? size_ index then
        let size' := Z.shiftl (size_ index) 1 in
        if can_alloc (sizeof_point * size') then
          Some (fill_entry {| have := have index; size_ := size';
                              list_ := list_ index |}
                           bits in_ out left window)
        else None
      else Some (fill_entry index bits in_ out left window)
  end.

End Alloc.

(** The linearization as the specification words it: [WINSIZE - avail_out]
    bytes from [buf + WINSIZE - avail_out], followed by the first
    [avail_out] bytes of [buf]. *)
Definition spec_window (avail_out : Z) (buf : list uchar) : list uchar :=
  take (Z.to_nat (WINSIZE - avail_out)) (drop (Z.to_nat (WINSIZE - avail_out)) buf)
  ++ take (Z.to_nat avail_out) buf.

(** The sliding window in chronological order: the bytes from the write
    position [WINSIZE - left] to the end are the oldest, those before it
    the newest. *)
Definition chronological (left : Z) (buf : list uchar) : list uchar :=
  drop (Z.to_nat (WINSIZE - left)) buf ++ take (Z.to_nat (WINSIZE - left)) buf.

(** A buffer of [WINSIZE] bytes counting up: byte [i] is [i mod 256]. *)
Definition ramp : list uchar :=
  map (fun i => Z.of_nat i mod 256) (seq 0 (Z.to_nat WINSIZE)).

(** ** findpoint *)

(** The [while (0 < len)] loop of [findpoint], on the position [first] in
    the list; [len] at least halves in every round, so [fuel] rounds with
    [len <= fuel] reach the exit. *)
Fixpoint findpoint_loop (fuel : nat) (l : list point) (offset first len : Z) : Z :=
  match fuel with
  | O => first
  | S fuel' =>
      if 0 <? len then
        let half := Z.shiftr len 1 in
        let middle := first + half in
        match l !! Z.to_nat middle with
        | Some m =>
            if offset <? out m
            then findpoint_loop fuel' l offset first half
            else findpoint_loop fuel' l offset (middle + 1) (len - half - 1)
        | None => first
        end
      else first
  end.

(** [findpoint]: [None] is [NULL]. *)
Definition findpoint (index : access) (offset : Z) : option point :=
  let first := findpoint_loop (Z.to_nat (have index)) (list_ index) offset 0 (have index) in
  if first =? 0 then None else list_ index !! Z.to_nat (first - 1).

(** The list is ordered by [out], equal neighbours allowed. *)
Definition sorted_by_out (l : list point) : Prop :=
  forall (i j : nat) (p q : point),
    l !! i = Some p -> l !! j = Some q -> (i <= j)%nat -> out p <= out q.

(** The list is strictly increasing in [out]. *)
Definition strictly_sorted_by_out (l : list point) : Prop :=
  forall (i j : nat) (p q : point),
    l !! i = Some p -> l !! j = Some q -> (i < j)%nat -> out p < out q.

(** The strict order, as a test on neighbours. *)
Fixpoint strictly_sorted_outs (l : list point) : bool :=
  match l with
  | p :: (q :: _) as rest => (out p <? out q) && strictly_sorted_outs rest
  | _ => true
  end.

(** ** stdio: the compressed file

    A [FILE] opened for reading: its bytes, the position of the next read,
    whether the device fails on reads ([ioerr]) and the error indicator that
    [ferror] reports. *)
Record FILE := mkFILE {
  contents : list uchar;
  pos : Z;
  ioerr : bool;
  ferror : bool
}.

(** [fread (buf, 1, n, f)]: the bytes read (their count is the value
    returned) and the file after the call. *)
Definition fread (f : FILE) (n : Z) : FILE * list uchar :=
  if ioerr f then
    ({| contents := contents f; pos := pos f; ioerr := true; ferror := true |}, [])
  else
    let got := take (Z.to_nat n) (drop (Z.to_nat (pos f)) (contents f)) in
    ({| contents := contents f; pos := pos f + Z.of_nat (length got);
        ioerr := false; ferror := ferror f |}, got).

(** [fseeko (f, off, SEEK_SET)]: [-1] for a negative target. *)
Definition fseeko (f : FILE) (off : Z) : FILE * Z :=
  if off <? 0 then (f, -1)
  else ({| contents := contents f; pos := off; ioerr := ioerr f;
           ferror := ferror f |}, 0).

(** [getc (f)]: the byte, or [-1] ([EOF]) at the end of the file or on a
    read error. *)
Definition getc (f : FILE) : FILE * Z :=
  if ioerr f then
    ({| contents := contents f; pos := pos f; ioerr := true; ferror := true |}, -1)
  else
    match contents f !! Z.to_nat (pos f) with
    | Some b => ({| contents := contents f; pos := pos f + 1; ioerr := false;
                    ferror := ferror f |}, b)
    | None => (f, -1)
    end.

(** The file [f] positioned at [p]. *)
Definition at_pos (f : FILE) (p : Z) : FILE :=
  mkFILE (contents f) p (ioerr f) (ferror f).

(** What a function of the embedding does: it returns, or it runs into
    behaviour C leaves undefined, or the fuel given to its loops ran out. *)
Inductive outcome (A : Type) : Type :=
| Returns (a : A)
| Undefined
| NoFuel.
Arguments Returns {A} a.
Arguments Undefined {A}.
Arguments NoFuel {A}.


(** ** The builder and the extractor over zlib *)

(** Does bit [mask] of [data_type] hold: the C test [(data_type & mask)]. *)
Definition flag (data_type mask : Z) : bool := negb (Z.land data_type mask =? 0).

(** The condition under which [build_index] adds an access point after a
    call of [inflate]. *)
Definition want_point (data_type totout last span : Z) : bool :=
  flag data_type 128 && negb (flag data_type 64) &&
  ((totout =? 0) || (span <? totout - last)).

(** What a call of [inflate] does, for a state type [S]. *)
Record z_result (S : Type) := mk_z_result {
  z_ret : Z;               (* the value inflate returns *)
  z_used : Z;              (* input bytes consumed *)
  z_out : list uchar;      (* bytes written at next_out *)
  z_data_type : Z;         (* strm.data_type on return *)
  z_next : S
}.
Arguments mk_z_result {S} _ _ _ _ _.
Arguments z_ret {S} _.
Arguments z_used {S} _.
Arguments z_out {S} _.
Arguments z_data_type {S} _.
Arguments z_next {S} _.

(** zlib's inflate interface: the internal state and the entry points the
    code calls.  [inflateInit2 windowBits] gives the return code and the
    state; [inflate state input avail_out flush], on the [avail_in] bytes at
    [next_in] and room for [avail_out] bytes, gives a [z_result]. *)
Class Zlib := {
  zstate : Type;
  inflateInit2 : Z -> Z * zstate;
  inflate : zstate -> list uchar -> Z -> Z -> z_result zstate;
  inflatePrime : zstate -> Z -> Z -> zstate;
  inflateSetDictionary : zstate -> list uchar -> zstate
}.

(** The file system and zlib's gz layer: [fopen (path, "rb")],
    [gzopen (path, "wb")], [gzwrite] (the handle after the call and the
    value returned, 0 on failure), [gzclose]. *)
Class GzIO := {
  gzFile : Type;
  fopen : string -> option FILE;
  gzopen : string -> option gzFile;
  gzwrite : gzFile -> list uchar -> gzFile * Z;
  gzclose : gzFile -> Z
}.

(** The fields of [z_stream] the code uses, for an inflate state of type
    [S]; [next_in] is the [avail_in] bytes at the pointer of that name. *)
Record z_stream (S : Type) := mk_z_stream {
  next_in : list uchar;
  avail_out : Z;
  data_type : Z;
  state : S
}.
Arguments mk_z_stream {S} _ _ _ _.
Arguments next_in {S} _.
Arguments avail_out {S} _.
Arguments data_type {S} _.
Arguments state {S} _.

(** What [build_index] sees after a call of [inflate] that neither failed
    nor ended the stream: [data_type], the counters, [avail_out]. *)
Record event := mk_event {
  ev_data_type : Z;
  ev_totin : Z;
  ev_totout : Z;
  ev_left : Z
}.

(** The variables of [build_index] that live across its loops, and a ghost
    record [b_events] of the calls of [inflate] after which the code
    considered adding an access point, oldest first. *)
Record bstate (S : Type) := mk_bstate {
  b_strm : z_stream S;
  totin : Z;
  totout : Z;
  last : Z;                   (* totout value of last access point *)
  b_index : option access;    (* access points being generated *)
  b_window : list uchar;      (* the sliding window buffer *)
  b_events : list event
}.
Arguments mk_bstate {S} _ _ _ _ _ _ _.
Arguments b_strm {S} _.
Arguments totin {S} _.
Arguments totout {S} _.
Arguments last {S} _.
Arguments b_index {S} _.
Arguments b_window {S} _.
Arguments b_events {S} _.

(** How the inner loop of [build_index] is left. *)
Inductive build_ctl (S : Type) : Type :=
| BuildExit (ret : Z) (st : bstate S)  (* by [break] or by the loop condition *)
| BuildError (ret : Z)                 (* by [goto build_index_error] *)
| BuildFuel.
Arguments BuildExit {S} _ _.
Arguments BuildError {S} _.
Arguments BuildFuel {S}.

(** The variables of [extract] that live across its loops.  [e_tobuf]
    tells whether [next_out] points into the caller's buffer (at
    [buf + len - avail_out]) or into [discard]. *)
Record estate (S : Type) := mk_estate {
  e_in : FILE;
  e_strm : z_stream S;
  e_offset : Z;
  e_skip : bool;
  e_tobuf : bool;
  e_buf : list uchar
}.
Arguments mk_estate {S} _ _ _ _ _ _.
Arguments e_in {S} _.
Arguments e_strm {S} _.
Arguments e_offset {S} _.
Arguments e_skip {S} _.
Arguments e_tobuf {S} _.
Arguments e_buf {S} _.

(** How the loops of [extract] are left. *)
Inductive extract_ctl (S : Type) : Type :=
| ExtractExit (ret : Z) (st : estate S)   (* by [break] or by the loop condition *)
| ExtractError (ret : Z) (st : estate S)  (* by [goto extract_ret] *)
| ExtractFuel.
Arguments ExtractExit {S} _ _.
Arguments ExtractError {S} _ _.
Arguments ExtractFuel {S}.

Section Zlib.

Context `{RT : Runtime} `{ZL : Zlib} `{IO : GzIO}.


Definition avail_in {S : Type} (strm : z_stream S) : Z := Z.of_nat (length (next_in strm)).

Definition set_next_in {S : Type} (strm : z_stream S) (input : list uchar) : z_stream S :=
  {| next_in := input; avail_out := avail_out strm;
     data_type := data_type strm; state := state strm |}.

Definition set_avail_out {S : Type} (strm : z_stream S) (n : Z) : z_stream S :=
  {| next_in := next_in strm; avail_out := n;
     data_type := data_type strm; state := state strm |}.

(** [ret = inflate (&strm, flush)]: the value returned, the bytes written at
    [next_out], and the stream with its counters moved. *)
Definition inflate_call (strm : z_stream zstate) (flush : Z)
  : Z * list uchar * z_stream zstate :=
  let r := inflate (state strm) (next_in strm) (avail_out strm) flush in
  (z_ret r, z_out r,
   {| next_in := drop (Z.to_nat (z_used r)) (next_in strm);
      avail_out := avail_out strm - Z.of_nat (length (z_out r));
      data_type := z_data_type r;
      state := z_next r |}).

(** *** build_index *)


(** The inner loop: "process all of that, or until end of stream". *)
Fixpoint build_inner (fuel : nat) (span : Z) (st : bstate zstate) : build_ctl zstate :=
  match fuel with
  | O => BuildFuel
  | S fuel' =>
      (* reset sliding window if necessary *)
      let strm1 := if avail_out (b_strm st) =? 0
                   then set_avail_out (b_strm st) WINSIZE else b_strm st in
      (* inflate until out of input, output, or at end of block --
         update the total input and output counters *)
      let totin1 := totin st + avail_in strm1 in
      let totout1 := totout st + avail_out strm1 in
      let '(ret, produced, strm2) := inflate_call strm1 Z_BLOCK in
      let window2 := memcpy (b_window st) (WINSIZE - avail_out strm1)
                            produced 0 (Z.of_nat (length produced)) in
      let totin2 := totin1 - avail_in strm2 in
      let totout2 := totout1 - avail_out strm2 in
      let ret := if ret =? Z_NEED_DICT then Z_DATA_ERROR else ret in
      if (ret =? Z_MEM_ERROR) || (ret =? Z_DATA_ERROR) then BuildError ret
      else if ret =? Z_STREAM_END then
        BuildExit ret (mk_bstate strm2 totin2 totout2 (last st) (b_index st) window2
                                 (b_events st))
      else
        let events2 := b_events st
                       ++ [mk_event (data_type strm2) totin2 totout2 (avail_out strm2)] in
        let continue (st' : bstate zstate) :=
          if avail_in strm2 =? 0 then BuildExit ret st'
          else build_inner fuel' span st' in
        (* if at end of block, consider adding an index entry *)
        if want_point (data_type strm2) totout2 (last st) span then
          match addpoint (b_index st) (Z.land (data_type strm2) 7)
                         totin2 totout2 (avail_out strm2) window2 with
          | None => BuildError Z_MEM_ERROR
          | Some index =>
              continue (mk_bstate strm2 totin2 totout2 totout2 (Some index) window2 events2)
          end
        else continue (mk_bstate strm2 totin2 totout2 (last st) (b_index st) window2 events2)
  end.

(** The outer loop: one chunk of the file per round.  [fuel] bounds the
    rounds, [ifuel] the rounds of each run of the inner loop. *)
Fixpoint build_outer (fuel ifuel : nat) (span : Z) (inp : FILE) (st : bstate zstate)
  : outcome (Z * bstate zstate) :=
  match fuel with
  | O => NoFuel
  | S fuel' =>
      (* get some compressed data from input file *)
      let '(inp1, input) := fread inp CHUNK in
      if ferror inp1 then Returns (Z_ERRNO, st)
      else if Z.of_nat (length input) =? 0 then Returns (Z_DATA_ERROR, st)
      else
        match build_inner ifuel span
                (mk_bstate (set_next_in (b_strm st) input) (totin st) (totout st)
                           (last st) (b_index st) (b_window st) (b_events st)) with
        | BuildFuel => NoFuel
        | BuildError ret => Returns (ret, st)
        | BuildExit ret st' =>
            if ret =? Z_STREAM_END then Returns (ret, st')
            else build_outer fuel' ifuel span inp1 st'
        end
  end.

(** The variables of [build_index] when its loops are entered:
    [totin = totout = last = 0], [index = NULL], [avail_out = 0], the window
    buffer unwritten. *)
Definition build_start (s : zstate) : bstate zstate :=
  mk_bstate (mk_z_stream [] 0 0 s) 0 0 0 None (uninit WINSIZE) [].

(** [build_index (in, span, &built)]: the value returned and [*built]
    ([None] where the code leaves it unset). *)
Definition build_index (fuel : nat) (inp : FILE) (span : Z)
  : outcome (Z * option access) :=
  (* initialize inflate *)
  let '(ret, s) := inflateInit2 47 in
  if negb (ret =? Z_OK) then Returns (ret, None)
  else
    match build_outer fuel fuel span inp (build_start s) with
    | NoFuel => NoFuel
    | Undefined => Undefined
    | Returns (ret, st) =>
        if ret =? Z_STREAM_END then
          (* clean up and return index (release unused entries in list) *)
          match b_index st with
          | None => Undefined              (* index->have through NULL *)
          | Some index =>
              if can_alloc (sizeof_point * have index) then
                Returns (have index,
                         Some {| have := have index; size_ := have index;
                                 list_ := list_ index |})
              else Undefined               (* index->size through NULL *)
          end
        else Returns (ret, None)
    end.

(** *** The rule for emitting access points, over the calls of inflate

    [emit rule span (last, chosen) e]: at the return [e] of [inflate], an
    access point is emitted when [data_type] signals a block boundary
    (bit 7) that is not the end of the last block (bit 6) and [rule] holds
    of [totout], [last] and [span]; [last] is then set to [totout]. *)
Definition emit (rule : Z -> Z -> Z -> bool) (span : Z)
           (acc : Z * list event) (e : event) : Z * list event :=
  if flag (ev_data_type e) 128 && negb (flag (ev_data_type e) 64)
     && rule (ev_totout e) (fst acc) span
  then (ev_totout e, snd acc ++ [e])
  else acc.

Definition emitted (rule : Z -> Z -> Z -> bool) (span : Z) (events : list event)
  : Z * list event :=
  fold_left (emit rule span) events (0, []).

(** The rule of the code: [totout == 0 || totout - last > span]. *)
Definition rule_gt (totout last span : Z) : bool :=
  (totout =? 0) || (span <? totout - last).

(** The rule as the specification words it:
    [totout == 0 OR totout - last >= span]. *)
Definition rule_ge (totout last span : Z) : bool :=
  (totout =? 0) || (span <=? totout - last).

(** The [out], [in] and [bits] of the points of an index under
    construction, and those an event gives to its point. *)
Definition summary (index : option access) : list (Z * Z * Z) :=
  match index with
  | None => []
  | Some index => map (fun p => (out p, in_ p, bits p)) (list_ index)
  end.

Definition point_of (e : event) : Z * Z * Z :=
  (ev_totout e, ev_totin e, Z.land (ev_data_type e) 7).

(** *** extract *)


(** The inner loop: "uncompress until avail_out filled, or end of stream". *)
Fixpoint extract_inner (fuel : nat) (len : Z) (st : estate zstate) : extract_ctl zstate :=
  match fuel with
  | O => ExtractFuel
  | S fuel' =>
      let refill :=
        if avail_in (e_strm st) =? 0 then
          let '(inp1, input) := fread (e_in st) CHUNK in
          (inp1, set_next_in (e_strm st) input, true)
        else (e_in st, e_strm st, false) in
      let '(inp1, strm1, filled) := refill in
      let st1 := mk_estate inp1 strm1 (e_offset st) (e_skip st) (e_tobuf st) (e_buf st) in
      if filled && ferror inp1 then ExtractError Z_ERRNO st1
      else if filled && (avail_in strm1 =? 0) then ExtractError Z_DATA_ERROR st1
      else
        let '(ret, produced, strm2) := inflate_call strm1 Z_NO_FLUSH in   (* normal inflate *)
        let buf2 := if e_tobuf st
                    then memcpy (e_buf st) (len - avail_out strm1) produced 0
                                (Z.of_nat (length produced))
                    else e_buf st in
        let st2 := mk_estate inp1 strm2 (e_offset st) (e_skip st) (e_tobuf st) buf2 in
        let ret := if ret =? Z_NEED_DICT then Z_DATA_ERROR else ret in
        if (ret =? Z_MEM_ERROR) || (ret =? Z_DATA_ERROR) then ExtractError ret st2
        else if ret =? Z_STREAM_END then ExtractExit ret st2
        else if avail_out strm2 =? 0 then ExtractExit ret st2
        else extract_inner fuel' len st2
  end.

(** The outer loop: "skip uncompressed bytes until offset reached, then
    satisfy request". *)
Fixpoint extract_outer (fuel ifuel : nat) (len : Z) (st : estate zstate) : extract_ctl zstate :=
  match fuel with
  | O => ExtractFuel
  | S fuel' =>
      (* define where to put uncompressed data, and how much *)
      let st1 :=
        if (e_offset st =? 0) && e_skip st then        (* at offset now *)
          mk_estate (e_in st) (set_avail_out (e_strm st) len) (e_offset st)
                    false true (e_buf st)
        else st in
      let st2 :=
        if WINSIZE <? e_offset st1 then                (* skip WINSIZE bytes *)
          mk_estate (e_in st1) (set_avail_out (e_strm st1) WINSIZE)
                    (e_offset st1 - WINSIZE) (e_skip st1) false (e_buf st1)
        else if negb (e_offset st1 =? 0) then          (* last skip *)
          mk_estate (e_in st1) (set_avail_out (e_strm st1) (e_offset st1 mod 2 ^ 32))
                    0 (e_skip st1) false (e_buf st1)
        else st1 in
      (* uncompress until avail_out filled, or end of stream *)
      match extract_inner ifuel len st2 with
      | ExtractFuel => ExtractFuel
      | ExtractError ret st3 => ExtractError ret st3
      | ExtractExit ret st3 =>
          (* if reach end of stream, then don't keep trying to get more *)
          if ret =? Z_STREAM_END then ExtractExit ret st3
          (* do until offset reached and requested data read, or stream ends *)
          else if e_skip st3 then extract_outer fuel' ifuel len st3
          else ExtractExit ret st3
      end
  end.

(** The start of [extract], from the access point found to the state in
    which the loops are entered: raw inflate, the file positioned, the
    leftover bits primed, the window set as dictionary.  [inl ret] is a
    return through [extract_ret] (or directly, for [inflateInit2]). *)
Definition extract_start (inp : FILE) (here : point) (offset : Z) (buf : list uchar)
  : Z * FILE + estate zstate :=
  let '(ret, s) := inflateInit2 (-15) in                (* raw inflate *)
  if negb (ret =? Z_OK) then inl (ret, inp)
  else
    let '(inp1, ret) := fseeko inp (in_ here - (if negb (bits here =? 0) then 1 else 0)) in
    if ret =? -1 then inl (ret, inp1)
    else
      let primed :=
        if negb (bits here =? 0) then
          let '(inp2, ret) := getc inp1 in
          if ret =? -1 then inl (if ferror inp2 then Z_ERRNO else Z_DATA_ERROR, inp2)
          else inr (inp2, inflatePrime s (bits here) (Z.shiftr ret (8 - bits here)))
        else inr (inp1, s) in
      match primed with
      | inl e => inl e
      | inr (inp2, s) =>
          let s := inflateSetDictionary s (take (Z.to_nat WINSIZE) (window here)) in
          inr (mk_estate inp2 (mk_z_stream [] 0 0 s) (offset - out here) true false buf)
      end.

(** [extract (in, index, offset, buf, len)]: the value returned, the
    caller's buffer and the file after the call. *)
Definition extract (fuel : nat) (inp : FILE) (index : access) (offset : Z)
           (buf : list uchar) (len : Z) : outcome (Z * list uchar * FILE) :=
  (* proceed only if something reasonable to do *)
  if len <? 0 then Returns (0, buf, inp)
  else
    (* find where in stream to start *)
    match findpoint index offset with
    | None => Returns (0, buf, inp)          (* possibly out of range. *)
    | Some here =>
        (* initialize file and inflate state to start there *)
        match extract_start inp here offset buf with
        | inl (ret, inp1) => Returns (ret, buf, inp1)
        | inr st =>
            match extract_outer fuel fuel len st with
            | ExtractFuel => NoFuel
            | ExtractError ret st' => Returns (ret, e_buf st', e_in st')
            | ExtractExit _ st' =>
                (* compute number of uncompressed bytes read after offset *)
                Returns (if e_skip st' then 0 else len - avail_out (e_strm st'),
                         e_buf st', e_in st')
            end
        end
    end.

(** *** The query session *)

(** [struct tag_seekgzip]. *)
Record seekgzip_t := mk_seekgzip {
  fp : FILE;
  index : access;
  offset : Z;
  errorcode : Z
}.

Definition seekgzip_seek (zs : seekgzip_t) (offset : Z) : seekgzip_t :=
  {| fp := fp zs; index := index zs; offset := offset; errorcode := errorcode zs |}.

Definition seekgzip_tell (zs : seekgzip_t) : Z := offset zs.

(** [seekgzip_read (zs, buffer, size)]: the value returned, the buffer and
    the session after the call. *)
Definition seekgzip_read (fuel : nat) (zs : seekgzip_t) (buffer : list uchar) (size : Z)
  : outcome (Z * list uchar * seekgzip_t) :=
  match extract fuel (fp zs) (index zs) (offset zs) buffer size with
  | Returns (len, buffer', fp') =>
      Returns (len, buffer',
               {| fp := fp'; index := index zs;
                  offset := if 0 <? len then offset zs + len else offset zs;
                  errorcode := errorcode zs |})
  | Undefined => Undefined
  | NoFuel => NoFuel
  end.

(** *** seekgzip_build *)

(** A C [switch] whose cases assign [ret] and have no [break]: control
    enters at the first case labelled with the value ([None] is [default])
    and runs every assignment from there to the end. *)
Fixpoint switch_entry (cases : list (option Z * Z)) (v : Z) : option nat :=
  match cases with
  | [] => None
  | (label, _) :: rest =>
      if decide (label = Some v) then Some O
      else match switch_entry rest v with
           | Some i => Some (S i)
           | None => if decide (label = None) then Some O else None
           end
  end.

Definition switch_fallthrough (cases : list (option Z * Z)) (v ret : Z) : Z :=
  match switch_entry cases v with
  | None => ret
  | Some i => fold_left (fun _ c => snd c) (drop i cases) ret
  end.

(** The cases of the [switch (len)] of [seekgzip_build], in source order. *)
Definition build_error_cases : list (option Z * Z) :=
  [ (Some Z_MEM_ERROR, SEEKGZIP_OUTOFMEMORY);
    (Some Z_DATA_ERROR, SEEKGZIP_DATAERROR);
    (Some Z_ERRNO, SEEKGZIP_READERROR);
    (None, SEEKGZIP_ERROR) ].

(** The [n] bytes of an integer in the byte order of the host (little
    endian). *)
Fixpoint host_bytes (n : nat) (v : Z) : list uchar :=
  match n with
  | O => []
  | S n' => Z.land v 255 :: host_bytes n' (Z.shiftr v 8)
  end.

(** [get_index_file]: [None] when the name cannot be allocated. *)
Definition get_index_file (target : string) : option string :=
  if can_alloc (Z.of_nat (String.length target) + 4 + 1)
  then Some (target +:+ ".idx") else None.

(** [write_uint32]. *)
Definition write_uint32 (gz : gzFile) (v : Z) : gzFile * Z :=
  gzwrite gz (host_bytes 4 (v mod 2 ^ 32)).

(** The body of the loop "Write out entry points"; the values returned by
    [gzwrite] are dropped, as in the source. *)
Definition write_point (gz : gzFile) (p : point) : gzFile :=
  let gz := fst (gzwrite gz (host_bytes 8 (out p))) in
  let gz := fst (gzwrite gz (host_bytes 8 (in_ p))) in
  let gz := fst (gzwrite gz (host_bytes 4 (bits p))) in
  fst (gzwrite gz (take (Z.to_nat WINSIZE) (window p))).

(** [seekgzip_build (target)]: the value returned, and the index file
    handle as it was when closed (when it was opened). *)
Definition seekgzip_build (fuel : nat) (target : string) : outcome (Z * option gzFile) :=
  (* Open the target gzip file. *)
  match fopen target with
  | None => Returns (SEEKGZIP_OPENERROR, None)
  | Some fp =>
      (* Build an index for the file. *)
      match build_index fuel fp SPAN with
      | NoFuel => NoFuel
      | Undefined => Undefined
      | Returns (len, index) =>
          if len <? 0 then
            Returns (switch_fallthrough build_error_cases len SEEKGZIP_SUCCESS, None)
          else
            (* Prepare the name for the index file. *)
            match get_index_file target with
            | None => Returns (SEEKGZIP_OUTOFMEMORY, None)
            | Some target_idx =>
                (* Open the index file for writing. *)
                match gzopen target_idx with
                | None => Returns (SEEKGZIP_OPENERROR, None)
                | Some gz =>
                    (* Write a header. *)
                    let gz := fst (gzwrite gz [90; 83; 69; 75]) in   (* "ZSEK" *)
                    let gz := fst (write_uint32 gz 8) in             (* sizeof(off_t) *)
                    match index with
                    | None => Undefined                              (* index->have through NULL *)
                    | Some index =>
                        let gz := fst (write_uint32 gz (have index)) in
                        (* Write out entry points. *)
                        let gz := fold_left write_point
                                    (take (Z.to_nat (have index)) (list_ index)) gz in
                        Returns (SEEKGZIP_SUCCESS, Some gz)
                    end
                end
            end
      end
  end.

(** *** Sessions on the heap, and the reader of export.cpp *)

(** A [seekgzip_t*] is [NULL] or the address of a block; [live] maps the
    addresses of the blocks allocated and not yet freed to their content.
    Reading or freeing through any other address is undefined. *)
Definition seekgzip_close (zs : option positive) (live : gmap positive seekgzip_t)
  : outcome (gmap positive seekgzip_t) :=
  match zs with
  | None => Returns live
  | Some a =>
      match live !! a with
      | None => Undefined
      | Some _ => Returns (delete a live)     (* fclose, free the list, free zs *)
      end
  end.

(** [class reader]: its one member, [void *m_obj]. *)
Record reader := mk_reader { m_obj : option positive }.

Definition reader_close (r : reader) (live : gmap positive seekgzip_t)
  : outcome (reader * gmap positive seekgzip_t) :=
  match m_obj r with
  | Some a =>
      match seekgzip_close (Some a) live with
      | Returns live' => Returns (mk_reader None, live')
      | Undefined => Undefined
      | NoFuel => NoFuel
      end
  | None => Returns (r, live)
  end.

Definition reader_seek (r : reader) (live : gmap positive seekgzip_t) (offset : Z)
  : outcome (gmap positive seekgzip_t) :=
  match m_obj r with
  | Some a =>
      match live !! a with
      | None => Undefined
      | Some zs => Returns (<[a := seekgzip_seek zs offset]> live)
      end
  | None => Returns live
  end.

Definition reader_tell (r : reader) (live : gmap positive seekgzip_t) : outcome Z :=
  match m_obj r with
  | Some a =>
      match live !! a with
      | None => Undefined
      | Some zs => Returns (seekgzip_tell zs)
      end
  | None => Returns (-1)
  end.

(** Assignment of a C string to a [std::string]: the bytes before the first
    zero byte. *)
Fixpoint c_str (buffer : list uchar) : list uchar :=
  match buffer with
  | [] => []
  | b :: rest => if b =? 0 then [] else b :: c_str rest
  end.

(** [reader::read (size)]: the string returned and the heap after the
    call.  [size + 1] is computed in [int]: for [size = INT_MAX] the
    addition overflows, which is undefined.  [new char[size+1]] gives
    [size+1] unwritten bytes (a negative size makes it throw, which the
    embedding reports as [Undefined]); [buffer[n] = 0] outside the array
    is undefined. *)
Definition reader_read (fuel : nat) (r : reader) (live : gmap positive seekgzip_t)
           (size : Z) : outcome (list uchar * gmap positive seekgzip_t) :=
  match m_obj r with
  | Some a =>
      match live !! a with
      | None => Undefined
      | Some zs =>
          if INT_MAX <? size + 1 then Undefined      (* signed overflow *)
          else if size + 1 <? 0 then Undefined
          else
            let buffer := uninit (size + 1) in
            match seekgzip_read fuel zs buffer size with
            | Returns (n, buffer, zs') =>
                if (0 <=? n) && (n <? Z.of_nat (length buffer)) then
                  let buffer := <[Z.to_nat n := 0]> buffer in
                  Returns (c_str buffer, <[a := zs']> live)
                else Undefined
            | Undefined => Undefined
            | NoFuel => NoFuel
            end
      end
  | None => Returns ([], live)
  end.

End Zlib.

(** ** An inflater for stored blocks

    zlib's [inflate] state machine (inflate.c) restricted to what a gzip
    member made of stored deflate blocks needs: the ten-byte gzip header
    without optional fields, block headers, stored blocks, the eight-byte
    trailer.  It follows inflate.c mode by mode, with the bit accumulator
    [hold]/[bits], the return at a block boundary under [Z_BLOCK] and the
    [data_type] word.  Compressed blocks, optional header fields and zlib
    headers are reported as data errors, and the check values of the
    trailer are read without being compared. *)
Module Stored.

Inductive inflate_mode : Set :=
| HEAD | FLAGS | TIME | OS | TYPE | TYPEDO | STORED | COPY | CHECK | LENGTH
| DONE | BAD.

Record inflate_state := mk_state {
  mode : inflate_mode;
  wrap : bool;        (* a gzip wrapper is expected (false: raw deflate) *)
  last_ : bool;       (* true if processing last block *)
  hold : Z;           (* input bit accumulator *)
  bits_ : Z;          (* number of bits in hold *)
  length_ : Z         (* bytes of the stored block still to copy *)
}.

Definition set_mode (s : inflate_state) (m : inflate_mode) : inflate_state :=
  mk_state m (wrap s) (last_ s) (hold s) (bits_ s) (length_ s).

(** INITBITS, then the next mode. *)
Definition initbits (s : inflate_state) (m : inflate_mode) : inflate_state :=
  mk_state m (wrap s) (last_ s) 0 0 (length_ s).

(** BYTEBITS: drop the bits up to the next byte boundary. *)
Definition bytebits (s : inflate_state) : inflate_state :=
  mk_state (mode s) (wrap s) (last_ s)
           (Z.shiftr (hold s) (Z.land (bits_ s) 7))
           (bits_ s - Z.land (bits_ s) 7) (length_ s).

(** PULLBYTE. *)
Definition pullbyte (s : inflate_state) (b : uchar) : inflate_state :=
  mk_state (mode s) (wrap s) (last_ s)
           (hold s + Z.shiftl b (bits_ s)) (bits_ s + 8) (length_ s).

(** One move of the machine. *)
Inductive move : Type :=
| Go (s : inflate_state) (input : list uchar) (produced : list uchar)
| Leave (s : inflate_state).

(** NEEDBITS(n) followed by [k]: pull a byte when fewer than [n] bits are
    held, leave when there is none to pull. *)
Definition needbits (n : Z) (s : inflate_state) (input : list uchar)
           (k : inflate_state -> inflate_state) : move :=
  if n <=? bits_ s then Go (k s) input []
  else match input with
       | [] => Leave s
       | b :: input' => Go (pullbyte s b) input' []
       end.

(** One pass through the [switch (state->mode)] of inflate.c. *)
Definition step (flush : Z) (s : inflate_state) (input : list uchar) (left : Z) : move :=
  match mode s with
  | HEAD =>
      if negb (wrap s) then Go (set_mode s TYPEDO) input []
      else needbits 16 s input (fun s =>
             if hold s =? 35615 (* 0x8b1f *) then initbits s FLAGS else set_mode s BAD)
  | FLAGS =>
      needbits 16 s input (fun s =>
        if (Z.land (hold s) 255 =? 8) && (Z.shiftr (hold s) 8 =? 0)
        then initbits s TIME else set_mode s BAD)
  | TIME => needbits 32 s input (fun s => initbits s OS)
  | OS => needbits 16 s input (fun s => initbits s TYPE)
  | TYPE =>
      if flush =? Z_BLOCK then Leave s else Go (set_mode s TYPEDO) input []
  | TYPEDO =>
      if last_ s then Go (set_mode (bytebits s) CHECK) input []
      else needbits 3 s input (fun s =>
             let last' := negb (Z.land (hold s) 1 =? 0) in
             let type := Z.land (Z.shiftr (hold s) 1) 3 in
             mk_state (if type =? 0 then STORED else BAD) (wrap s) last'
                      (Z.shiftr (hold s) 3) (bits_ s - 3) (length_ s))
  | STORED =>
      needbits 32 (bytebits s) input (fun s =>
        if Z.land (hold s) 65535 =? Z.lxor (Z.shiftr (hold s) 16) 65535
        then mk_state COPY (wrap s) (last_ s) 0 0 (Z.land (hold s) 65535)
        else set_mode s BAD)
  | COPY =>
      if 0 <? length_ s then
        let copy := Z.min (length_ s) (Z.min (Z.of_nat (length input)) left) in
        if copy =? 0 then Leave s
        else Go (mk_state COPY (wrap s) (last_ s) (hold s) (bits_ s) (length_ s - copy))
                (drop (Z.to_nat copy) input) (take (Z.to_nat copy) input)
      else Go (set_mode s TYPE) input []
  | CHECK =>
      if wrap s then needbits 32 s input (fun s => initbits s LENGTH)
      else Go (set_mode s LENGTH) input []
  | LENGTH =>
      if wrap s then needbits 32 s input (fun s => initbits s DONE)
      else Go (set_mode s DONE) input []
  | DONE => Leave s
  | BAD => Leave s
  end.

(** The [for (;;)] around the switch. *)
Fixpoint run (fuel : nat) (flush : Z) (s : inflate_state) (input : list uchar)
         (left : Z) (produced : list uchar) : inflate_state * list uchar * list uchar :=
  match fuel with
  | O => (s, input, produced)
  | S fuel' =>
      match step flush s input left with
      | Leave s' => (s', input, produced)
      | Go s' input' more =>
          run fuel' flush s' input' (left - Z.of_nat (length more)) (produced ++ more)
      end
  end.

Definition inflateInit2 (windowBits : Z) : Z * inflate_state :=
  (Z_OK, mk_state HEAD (0 <=? windowBits) false 0 0 0).

(** [inflate]: [TYPE] is entered as [TYPEDO]; the loop runs until it
    leaves; the value returned and [data_type] are those of [inf_leave]. *)
Definition inflate (s : inflate_state) (input : list uchar) (avail_out flush : Z)
  : z_result inflate_state :=
  let s0 := match mode s with TYPE => set_mode s TYPEDO | _ => s end in
  let '(s', rest, produced) :=
    run (8 * length input + 16)%nat flush s0 input avail_out [] in
  let used := Z.of_nat (length input) - Z.of_nat (length rest) in
  let ret := match mode s' with
             | DONE => Z_STREAM_END
             | BAD => Z_DATA_ERROR
             | _ => if (used =? 0) && (Z.of_nat (length produced) =? 0)
                    then Z_BUF_ERROR else Z_OK
             end in
  mk_z_result ret used produced
    (bits_ s' + (if last_ s' then 64 else 0)
     + (match mode s' with TYPE => 128 | _ => 0 end))
    s'.

(** [inflatePrime]: [bits] bits of [value] are put in front of the input. *)
Definition inflatePrime (s : inflate_state) (bits value : Z) : inflate_state :=
  mk_state (mode s) (wrap s) (last_ s)
           (hold s + Z.shiftl (Z.land value (Z.shiftl 1 bits - 1)) (bits_ s))
           (bits_ s + bits) (length_ s).

(** [inflateSetDictionary]: stored blocks never refer to the window. *)
Definition inflateSetDictionary (s : inflate_state) (dictionary : list uchar)
  : inflate_state := s.

(** The machine as an instance of the interface. *)
Definition zlib : Zlib :=
  Build_Zlib inflate_state inflateInit2 inflate inflatePrime inflateSetDictionary.

(** No allocation fails; unwritten memory reads as zero. *)
Definition runtime : Runtime := Build_Runtime (fun _ => true) (fun _ => 0).

Definition build_index (inp : FILE) (span : Z) : outcome (Z * option access) :=
  @build_index runtime zlib (length (contents inp) + 2)%nat inp span.

Definition extract (inp : FILE) (index : access) (offset : Z)
           (buf : list uchar) (len : Z) : outcome (Z * list uchar * FILE) :=
  @extract zlib (length (contents inp) + Z.to_nat offset + Z.to_nat len + 2)%nat
           inp index offset buf len.

(** A file opened for reading. *)
Definition fopen (bytes : list uchar) : FILE := mkFILE bytes 0 false false.

(** The gzip header without optional fields, a stored block, the trailer. *)
Definition gzip_header : list uchar := [31; 139; 8; 0; 0; 0; 0; 0; 0; 3].

Definition stored_block (final : bool) (data : list uchar) : list uchar :=
  let n := Z.of_nat (length data) in
  [if final then 1 else 0; Z.land n 255; Z.shiftr n 8;
   Z.land (Z.lxor n 65535) 255; Z.shiftr (Z.lxor n 65535) 8] ++ data.

(** A file system with one compressed file, and an index file kept as the
    bytes written to it; [writes_ok = false] makes every [gzwrite] fail. *)
Definition gzio (file : list uchar) (writes_ok : bool) : GzIO :=
  Build_GzIO (list uchar)
    (fun _ => Some (fopen file))
    (fun _ => Some [])
    (fun gz data => if writes_ok then (gz ++ data, Z.of_nat (length data)) else (gz, 0))
    (fun _ => 0).

(** A gzip member cut short in its first stored block. *)
Definition truncated : list uchar := gzip_header ++ [0; 3; 0].

(** A gzip member of one stored block holding "abc". *)
Definition abc : list uchar :=
  gzip_header ++ stored_block true [97; 98; 99] ++ [194; 65; 36; 53; 3; 0; 0; 0].

(** A gzip member of one stored block holding the bytes 'a', 0, 'b'. *)
Definition a0b : list uchar :=
  gzip_header ++ stored_block true [97; 0; 98] ++ [113; 120; 232; 21; 3; 0; 0; 0].

(** A session on it: one access point right after the header. *)
Definition a0b_session : seekgzip_t :=
  mk_seekgzip (fopen a0b) (mkaccess 1 1 [mkpoint 0 10 0 []]) 0 0.

(** A gzip member of three stored blocks of 3, 4 and 1 bytes. *)
Definition blocks_3_4_1 : list uchar :=
  gzip_header ++ stored_block false [97; 98; 99]
  ++ stored_block false [100; 101; 102; 103]
  ++ stored_block true [104] ++ [80; 42; 239; 174; 8; 0; 0; 0].

(** A gzip member of an empty stored block followed by the final (empty)
    stored block: a well-formed gzip file of 28 bytes that decompresses to
    nothing. *)
Definition empty_first_block : list uchar :=
  gzip_header ++ stored_block false [] ++ stored_block true []
  ++ [0; 0; 0; 0; 0; 0; 0; 0].

(** The header modes of the gzip wrapper. *)
Definition in_header (s : inflate_state) : Prop :=
  wrap s = true /\ last_ s = false /\
  (mode s = HEAD \/ mode s = FLAGS \/ mode s = TIME \/ mode s = OS).

End Stored.

(** ** An inflater for one run of literal bytes

    A second, minimal instance of the interface: the compressed data is a
    length byte [N] followed by [N] literal bytes.  [inflate] copies as
    many of them as its input and output allow and returns [Z_STREAM_END]
    with the last one.  It serves to show that the contract
    [inflate_resumes] can be met. *)
Module Plain.

Inductive inflate_state : Set :=
| Start                     (* the length byte is still to come *)
| Copying (remaining : Z)   (* bytes still to deliver, more than 0 *)
| Done.

Definition copy (remaining : Z) (input : list uchar) (avail_out used : Z)
  : z_result inflate_state :=
  let n := Z.min remaining (Z.min (Z.of_nat (length input)) avail_out) in
  let produced := take (Z.to_nat n) input in
  if remaining - n =? 0 then mk_z_result Z_STREAM_END (used + n) produced 0 Done
  else mk_z_result (if used + n =? 0 then Z_BUF_ERROR else Z_OK) (used + n) produced 0
                   (Copying (remaining - n)).

Definition inflate (s : inflate_state) (input : list uchar) (avail_out flush : Z)
  : z_result inflate_state :=
  match s with
  | Start =>
      match input with
      | [] => mk_z_result Z_BUF_ERROR 0 [] 0 Start
      | n :: rest => copy n rest avail_out 1
      end
  | Copying remaining => copy remaining input avail_out 0
  | Done => mk_z_result Z_STREAM_END 0 [] 0 Done
  end.

Definition zlib : Zlib :=
  Build_Zlib inflate_state (fun _ => (Z_OK, Start)) inflate
             (fun s _ _ => s) (fun s _ => s).

(** The compressed file for [data], with a one-byte trailer. *)
Definition deflate (data : list uchar) : list uchar :=
  Z.of_nat (length data) :: data ++ [0].

(** Where the inflater stands, for the file [deflate data]. *)
Definition resumes (data : list uchar) (s : inflate_state) (q k : Z) : Prop :=
  match s with
  | Start => q = 0 /\ k = 0
  | Copying remaining =>
      remaining = Z.of_nat (length data) - k /\ 0 <= k < Z.of_nat (length data) /\
      q = 1 + k
  | Done => q = 1 + Z.of_nat (length data) /\ k = Z.of_nat (length data)
  end.

(** A session on [deflate "abc"], with one access point at the start. *)
Definition abc : list uchar := [97; 98; 99].

Definition abc_session : seekgzip_t :=
  mk_seekgzip (mkFILE (deflate abc) 0 false false)
              (mkaccess 1 1 [mkpoint 0 0 0 []]) 0 0.

End Plain.

(** *** What the code relies on from zlib

    [inflate] writes no more than [avail_out] bytes. *)
Definition inflate_within_bounds `{ZL : Zlib} : Prop :=
  forall (s : zstate) (input : list uchar) (n flush : Z),
    0 <= n -> Z.of_nat (length (z_out (inflate s input n flush))) <= n.

(** Neighbours in the list are more than [span] apart in [out], or both at
    [out = 0]. *)
Definition spaced (span : Z) (l : list point) : Prop :=
  forall (i : nat) (p q : point),
    l !! i = Some p -> l !! S i = Some q ->
    span < out q - out p \/ (out p = 0 /\ out q = 0).

(** *** What the extractor relies on from zlib

    [resumes s q k] reads: the inflate state [s] has consumed the
    compressed file up to position [q] and delivered the decompressed
    stream [data] up to position [k].  [inflate_resumes] states zlib's
    contract for [inflate (_, Z_NO_FLUSH)] in such a state, on input that
    continues the file from [q] and with room for [n] bytes: it consumes
    some of the input, delivers the next bytes of [data], at most [n], and
    stays in step; it returns [Z_OK], [Z_BUF_ERROR] or [Z_STREAM_END];
    [Z_STREAM_END] comes when, and only after, all of [data] is delivered;
    otherwise it has used all its input or filled its output, and has not
    reached the end of the file (the trailer follows the deflate data). *)
Definition inflate_resumes `{ZL : Zlib} (file data : list uchar)
           (resumes : zstate -> Z -> Z -> Prop) : Prop :=
  forall (s : zstate) (q k : Z) (input : list uchar) (n : Z),
    resumes s q k ->
    (exists m : nat, input = take m (drop (Z.to_nat q) file)) ->
    input <> [] -> 0 <= n ->
    let r := inflate s input n Z_NO_FLUSH in
    0 <= z_used r <= Z.of_nat (length input) /\
    Z.of_nat (length (z_out r)) <= n /\
    z_out r = take (length (z_out r)) (drop (Z.to_nat k) data) /\
    (z_ret r = Z_OK \/ z_ret r = Z_BUF_ERROR \/ z_ret r = Z_STREAM_END) /\
    resumes (z_next r) (q + z_used r) (k + Z.of_nat (length (z_out r))) /\
    (z_ret r = Z_STREAM_END ->
       k + Z.of_nat (length (z_out r)) = Z.of_nat (length data)) /\
    (z_ret r <> Z_STREAM_END ->
       (z_used r = Z.of_nat (length input) \/ Z.of_nat (length (z_out r)) = n) /\
       q + z_used r < Z.of_nat (length file)).

(** The inflate state in which [extract] enters its loops for the access
    point [p]: raw inflate, primed with the leftover bits when there are
    some, the window of the point as dictionary. *)
Definition start_state `{ZL : Zlib} (file : list uchar) (p : point) : zstate :=
  let s0 := snd (inflateInit2 (-15)) in
  inflateSetDictionary
    (if bits p =? 0 then s0
     else inflatePrime s0 (bits p)
            (Z.shiftr (nth (Z.to_nat (in_ p - 1)) file 0) (8 - bits p)))
    (take (Z.to_nat WINSIZE) (window p)).

(** An access point from which inflation of [file] resumes: it lies inside
    the file, at position [out] of the stream. *)
Definition valid_point `{ZL : Zlib} (file data : list uchar)
           (resumes : zstate -> Z -> Z -> Prop) (p : point) : Prop :=
  0 <= out p <= Z.of_nat (length data) /\
  0 <= in_ p < Z.of_nat (length file) /\
  (bits p <> 0 -> 1 <= in_ p) /\
  resumes (start_state file p) (in_ p) (out p).

(** [src] written into [buf] from position [off] on. *)
Definition write_at (buf : list uchar) (off : Z) (src : list uchar) : list uchar :=
  take (Z.to_nat off) buf ++ src ++ drop (Z.to_nat off + length src) buf.

(** The file handle and the input buffer of [extract] are in step with an
    inflater that has consumed [file] up to [q]: the bytes at [next_in] are
    those from [q] to the file position. *)
Definition fed {S : Type} (file : list uchar) (st : estate S) (q : Z) : Prop :=
  contents (e_in st) = file /\ ioerr (e_in st) = false /\ ferror (e_in st) = false /\
  0 <= q <= pos (e_in st) /\ pos (e_in st) <= Z.of_nat (length file) /\
  next_in (e_strm st) = take (Z.to_nat (pos (e_in st) - q)) (drop (Z.to_nat q) file).

(** The number of bytes of [data] in [o, o + len). *)
Definition clipped (data : list uchar) (o len : Z) : Z :=
  Z.min len (Z.max 0 (Z.of_nat (length data) - o)).

(** [inflate (_, Z_BLOCK)] on a zlib or gzip stream returns at the end of
    the header, before the first block: while it is in the header
    ([in_header]) it writes nothing and does not end the stream, and it
    leaves the header only by failing or by returning with bit 7 of
    [data_type] set and bit 6 clear. *)
Definition starts_at_boundary `{ZL : Zlib} (in_header : zstate -> Prop) : Prop :=
  (forall s, inflateInit2 47 = (Z_OK, s) -> in_header s) /\
  (forall (s : zstate) (input : list uchar) (n : Z),
      in_header s ->
      let r := inflate s input n Z_BLOCK in
      z_out r = [] /\ z_ret r <> Z_STREAM_END /\
      (z_ret r = Z_DATA_ERROR \/ z_ret r = Z_MEM_ERROR \/ z_ret r = Z_NEED_DICT \/
       in_header (z_next r) \/
       (flag (z_data_type r) 128 = true /\ flag (z_data_type r) 64 = false))).

(** Either a point has been added, or the inflater is still in the header
    and nothing has been written. *)
Definition has_point_or_header {S : Type} (in_header : S -> Prop) (st : bstate S) : Prop :=
  b_index st <> None \/ (in_header (state (b_strm st)) /\ totout st = 0).

(** *** Invariants of the loops of build_index *)

(** The points and [last] are those the rule of the code gives on the
    events seen so far. *)
Definition follows_rule {S : Type} (span : Z) (st : bstate S) : Prop :=
  last st = fst (emitted rule_gt span (b_events st)) /\
  summary (b_index st) = map point_of (snd (emitted rule_gt span (b_events st))).

(** The index under construction: its count is the length of its list, it
    is not empty, its points are well formed and spaced, and the [out] of
    the newest is [last]. *)
Definition good_index (span lst : Z) (idx : access) : Prop :=
  access_ok idx /\
  (exists p, list.last (list_ idx) = Some p /\ out p = lst) /\
  (forall p, p ∈ list_ idx ->
     0 <= bits p <= 7 /\ Z.of_nat (length (window p)) = WINSIZE /\ 0 <= out p) /\
  spaced span (list_ idx).

Definition build_inv {S : Type} (span : Z) (st : bstate S) : Prop :=
  0 <= avail_out (b_strm st) <= WINSIZE /\
  Z.of_nat (length (b_window st)) = WINSIZE /\
  0 <= last st <= totout st /\
  match b_index st with
  | None => True
  | Some idx => good_index span (last st) idx
  end.

(** ** The lookup of zran.c

    The loop of [extract] that [findpoint] replaces, compiled when
    SEEKGZIP_OPTIMIZATION is not defined:
    [here = index->list; ret = index->have;
     while (--ret && here[1].out <= offset) here++;]
    on the position [here] in the list.  Reading [here[1]] past the filled
    entries is undefined. *)
Fixpoint scan_loop (fuel : nat) (l : list point) (offset ret here : Z) : outcome Z :=
  match fuel with
  | O => NoFuel
  | S fuel' =>
      let ret := ret - 1 in
      if ret =? 0 then Returns here
      else
        match l !! Z.to_nat (here + 1) with
        | None => Undefined
        | Some next =>
            if out next <=? offset then scan_loop fuel' l offset ret (here + 1)
            else Returns here
        end
  end.

Definition scanpoint (index : access) (offset : Z) : outcome point :=
  match scan_loop (S (Z.to_nat (have index))) (list_ index) offset (have index) 0 with
  | Returns here =>
      match list_ index !! Z.to_nat here with
      | Some p => Returns p
      | None => Undefined
      end
  | Undefined => Undefined
  | NoFuel => NoFuel
  end.

(** ** The index file read back: seekgzip_open *)

(** zlib's gz layer for reading: [gzopen (path, "rb")], [gzgetc] (the byte,
    or -1), [gzread (gz, buf, len)] (the bytes it stores at [buf], at most
    [len]; the count it returns is dropped by every caller), [gzclose]. *)
Class GzIn := {
  gzFile_in : Type;
  gzopen_rb : string -> option gzFile_in;
  gzgetc : gzFile_in -> gzFile_in * Z;
  gzread : gzFile_in -> Z -> gzFile_in * list uchar;
  gzclose_rb : gzFile_in -> Z
}.

(** The unsigned integer held by bytes in the byte order of the host, and
    its reading as a two's complement integer of [n] bytes. *)
Fixpoint host_value (bytes : list uchar) : Z :=
  match bytes with
  | [] => 0
  | b :: rest => b + 256 * host_value rest
  end.

Definition host_signed (n : Z) (u : Z) : Z :=
  if u <? 2 ^ (8 * n - 1) then u else u - 2 ^ (8 * n).

(** [sizeof (seekgzip_t)]: a pointer, a [struct access], an [off_t], an
    [int] and padding. *)
Definition sizeof_seekgzip_t : Z := 40.

Section Open.

Context `{RT : Runtime} `{IO : GzIO} `{GI : GzIn}.

(** [gzread (gz, dst, n)] on memory that holds [dst]: the bytes read replace
    the first bytes of [dst], the others stay as they were. *)
Definition gzread_into (gz : gzFile_in) (dst : list uchar) (n : Z)
  : gzFile_in * list uchar :=
  let '(gz', got) := gzread gz n in
  (gz', memcpy dst 0 got 0 (Z.min n (Z.of_nat (length got)))).

(** [read_uint32]: [v] is not initialized before [gzread] fills it. *)
Definition read_uint32 (gz : gzFile_in) : gzFile_in * Z :=
  let '(gz', v) := gzread_into gz (uninit 4) 4 in
  (gz', host_value v).

(** The body of the loop "Read entry points", on an entry of the list as
    [malloc] returned it. *)
Definition read_point (gz : gzFile_in) : gzFile_in * point :=
  let '(gz, o) := gzread_into gz (uninit 8) 8 in
  let '(gz, i) := gzread_into gz (uninit 8) 8 in
  let '(gz, b) := gzread_into gz (uninit 4) 4 in
  let '(gz, w) := gzread_into gz (uninit WINSIZE) WINSIZE in
  (gz, mkpoint (host_signed 8 (host_value o)) (host_signed 8 (host_value i))
               (host_signed 4 (host_value b)) w).

Fixpoint read_points (n : nat) (gz : gzFile_in) : gzFile_in * list point :=
  match n with
  | O => (gz, [])
  | S n' =>
      let '(gz, p) := read_point gz in
      let '(gz, ps) := read_points n' gz in
      (gz, p :: ps)
  end.

(** [seekgzip_open (target, &errorcode)]: the session ([None] is [NULL])
    and the value stored in [*errorcode].  When [gzclose] fails, control
    goes to [error_exit] with [gz] still set, and [gzclose (gz)] is called
    a second time on the closed handle, which zlib.h forbids: that path is
    [Undefined]. *)
Definition seekgzip_open (target : string) : outcome (option seekgzip_t * Z) :=
  (* Open the target gzip file for reading. *)
  match fopen target with
  | None => Returns (None, SEEKGZIP_OPENERROR)
  | Some fp =>
      (* Prepare the name for the index file. *)
      match get_index_file target with
      | None => Returns (None, SEEKGZIP_OUTOFMEMORY)
      | Some target_idx =>
          (* Open the index file for reading. *)
          match gzopen_rb target_idx with
          | None => Returns (None, SEEKGZIP_OPENERROR)
          | Some gz =>
              (* Read the magic string. *)
              let '(gz, c) := gzgetc gz in
              if negb (c =? 90) then Returns (None, SEEKGZIP_IMCOMPATIBLE) else
              let '(gz, c) := gzgetc gz in
              if negb (c =? 83) then Returns (None, SEEKGZIP_IMCOMPATIBLE) else
              let '(gz, c) := gzgetc gz in
              if negb (c =? 69) then Returns (None, SEEKGZIP_IMCOMPATIBLE) else
              let '(gz, c) := gzgetc gz in
              if negb (c =? 75) then Returns (None, SEEKGZIP_IMCOMPATIBLE) else
              (* Check the size of off_t. *)
              let '(gz, v) := read_uint32 gz in
              if negb (v =? 8) then Returns (None, SEEKGZIP_IMCOMPATIBLE) else
              (* Allocate a seekgzip_t instance. *)
              if negb (can_alloc sizeof_seekgzip_t) then Returns (None, SEEKGZIP_OUTOFMEMORY)
              else
                (* Read the number of entry points. *)
                let '(gz, v) := read_uint32 gz in
                let have := host_signed 4 v in            (* uint32_t to int *)
                (* Allocate an array for entry points. *)
                if negb (can_alloc ((sizeof_point * have) mod 2 ^ 64))
                then Returns (None, SEEKGZIP_OUTOFMEMORY)
                else
                  (* Read entry points. *)
                  let '(gz, points) := read_points (Z.to_nat have) gz in
                  (* Close the index file. *)
                  if negb (gzclose_rb gz =? 0) then Undefined
                  else
                    Returns (Some {| fp := fp;
                                     index := {| have := have; size_ := have;
                                                 list_ := points |};
                                     offset := 0; errorcode := 0 |}, 0)
          end
      end
  end.

End Open.

Definition seekgzip_error (sgz : seekgzip_t) : Z := errorcode sgz.

(** *** The index file as a byte string *)

(** What [seekgzip_build] passes to [gzwrite] for one point, and for the
    whole index: the magic string, [sizeof (off_t)], the number of points,
    the points. *)
Definition point_bytes (p : point) : list uchar :=
  host_bytes 8 (out p) ++ host_bytes 8 (in_ p) ++ host_bytes 4 (bits p)
  ++ take (Z.to_nat WINSIZE) (window p).

Definition index_bytes (index : access) : list uchar :=
  [90; 83; 69; 75] ++ host_bytes 4 (8 mod 2 ^ 32)
  ++ host_bytes 4 (have index mod 2 ^ 32)
  ++ concat (map point_bytes (take (Z.to_nat (have index)) (list_ index))).

(** [gzwrite] appends: [written gz] is what has been written through the
    handle, nothing when it is opened, and no write fails. *)
Definition gz_appends `{IO : GzIO} (written : gzFile -> list uchar) : Prop :=
  (forall path gz, gzopen path = Some gz -> written gz = []) /\
  (forall gz data, written (fst (gzwrite gz data)) = written gz ++ data).

(** The gz layer reads a byte string in order: [holds gz rest] says that
    [rest] is what is still to be read through the handle.  At the end
    [gzgetc] returns -1 and [gzread] stores what is left. *)
Definition gz_reads `{GI : GzIn} (holds : gzFile_in -> list uchar -> Prop) : Prop :=
  (forall gz rest, holds gz rest ->
     snd (gzgetc gz) = match rest with b :: _ => b | [] => -1 end /\
     holds (fst (gzgetc gz)) (drop 1 rest)) /\
  (forall gz rest n, holds gz rest -> 0 <= n ->
     snd (gzread gz n) = take (Z.to_nat n) rest /\
     holds (fst (gzread gz n)) (drop (Z.to_nat n) rest)).

(** Closing such a handle succeeds. *)
Definition gz_closes `{GI : GzIn} (holds : gzFile_in -> list uchar -> Prop) : Prop :=
  forall gz rest, holds gz rest -> gzclose_rb gz = 0.

(** A point and an index whose fields fit their C types. *)
Definition point_fits (p : point) : Prop :=
  - 2 ^ 63 <= out p < 2 ^ 63 /\ - 2 ^ 63 <= in_ p < 2 ^ 63 /\
  - 2 ^ 31 <= bits p < 2 ^ 31 /\ Z.of_nat (length (window p)) = WINSIZE.

Definition index_fits (index : access) : Prop :=
  access_ok index /\ have index < 2 ^ 31 /\
  forall p, p ∈ list_ index -> point_fits p.

(** An index file kept in memory: the handle is what is still to be read. *)
Module Mem.

Definition gzgetc (gz : list uchar) : list uchar * Z :=
  match gz with
  | [] => ([], -1)
  | b :: rest => (rest, b)
  end.

Definition gzin (file : list uchar) : GzIn :=
  Build_GzIn (list uchar)
    (fun _ => Some file)
    gzgetc
    (fun gz n => (drop (Z.to_nat n) gz, take (Z.to_nat n) gz))
    (fun _ => 0).

(** The same, with a [gzclose] that fails. *)
Definition gzin_close_fails (file : list uchar) : GzIn :=
  Build_GzIn (list uchar)
    (fun _ => Some file)
    gzgetc
    (fun gz n => (drop (Z.to_nat n) gz, take (Z.to_nat n) gz))
    (fun _ => Z_BUF_ERROR).

(** An index of one access point, right after a gzip header of ten
    bytes. *)
Definition one_point : access := mkaccess 1 1 [mkpoint 0 10 0 ramp].

End Mem.

(** ** export.cpp *)

(** [error_string]. *)
Definition error_string (errorcode : Z) : string :=
  if errorcode =? SEEKGZIP_SUCCESS then EmptyString
  else if errorcode =? SEEKGZIP_OPENERROR then "Failed to open a file"
  else if errorcode =? SEEKGZIP_READERROR then "Failed to read from a file"
  else if errorcode =? SEEKGZIP_WRITEERROR then "Failed to write to a file"
  else if errorcode =? SEEKGZIP_DATAERROR then "Data error"
  else if errorcode =? SEEKGZIP_OUTOFMEMORY then "Out of memory"
  else if errorcode =? SEEKGZIP_IMCOMPATIBLE then "Imcompatible data format"
  else if errorcode =? SEEKGZIP_ZLIBERROR then "ZLIB error"
  else "Unknown error".

(** The enumerators of seekgzip.h. *)
Definition named_codes : list Z :=
  [SEEKGZIP_SUCCESS; SEEKGZIP_ERROR; SEEKGZIP_OPENERROR; SEEKGZIP_READERROR;
   SEEKGZIP_WRITEERROR; SEEKGZIP_DATAERROR; SEEKGZIP_OUTOFMEMORY;
   SEEKGZIP_IMCOMPATIBLE; SEEKGZIP_ZLIBERROR].

(** [reader::reader (filename)]: [inl] is the message of the
    [std::invalid_argument] it throws; [a] is the address at which
    [seekgzip_open] allocates the session. *)
Definition reader_new `{RT : Runtime} `{IO : GzIO} `{GI : GzIn}
           (filename : string) (a : positive) (live : gmap positive seekgzip_t)
  : outcome (string + reader * gmap positive seekgzip_t) :=
  match seekgzip_open filename with
  | Returns (Some sgz, _) => Returns (inr (mk_reader (Some a), <[a := sgz]> live))
  | Returns (None, err) => Returns (inl (error_string err))
  | Undefined => Undefined
  | NoFuel => NoFuel
  end.

(** ** A client of the query session *)

(** A call of [seekgzip_seek] or of [seekgzip_read], and a sequence of
    them on one session. *)
Inductive call :=
| Seek (offset : Z)
| Read (buffer : list uchar) (size : Z).

Fixpoint calls `{ZL : Zlib} (fuel : nat) (cs : list call) (zs : seekgzip_t)
  : outcome seekgzip_t :=
  match cs with
  | [] => Returns zs
  | Seek o :: cs' => calls fuel cs' (seekgzip_seek zs o)
  | Read buffer size :: cs' =>
      match seekgzip_read fuel zs buffer size with
      | Returns (_, _, zs') => calls fuel cs' zs'
      | Undefined => Undefined
      | NoFuel => NoFuel
      end
  end.

(** ** Invariants of build_index and extract for the further properties *)

(** Until the first point is added the inflater is in the header and
    nothing has been written; the first point added is at [out = 0]. *)
Definition first_at_zero {S : Type} (in_header : S -> Prop) (st : bstate S) : Prop :=
  match b_index st with
  | None => in_header (state (b_strm st)) /\ totout st = 0
  | Some index => exists p0, head (list_ index) = Some p0 /\ out p0 = 0
  end.

(** [totin] counts the bytes of the file that [inflate] has consumed: with
    the [avail_in] bytes at [next_in] it makes up the [fetched] bytes read
    from the file so far, and no point lies beyond it. *)
Definition counts_input {S : Type} (fetched : Z) (st : bstate S) : Prop :=
  0 <= totin st /\
  totin st + Z.of_nat (length (next_in (b_strm st))) = fetched /\
  forall o i b, (o, i, b) ∈ summary (b_index st) -> 0 <= i <= totin st.

(** The caller's buffer in [extract]: it keeps the length and the bytes
    from [len] on of the buffer [buf] passed in, the file keeps its
    content, and while [next_out] points into the buffer [avail_out] is
    what is left of the [len] bytes. *)
Definition keeps_buffer {S : Type} (file buf : list uchar) (len : Z) (st : estate S) : Prop :=
  contents (e_in st) = file /\
  length (e_buf st) = length buf /\
  drop (Z.to_nat len) (e_buf st) = drop (Z.to_nat len) buf /\
  (e_tobuf st = true -> 0 <= avail_out (e_strm st) <= len).

(** The codes through which [extract] reports a failure of its loops. *)
Definition error_code (ret : Z) : Prop :=
  ret = Z_ERRNO \/ ret = Z_DATA_ERROR \/ ret = Z_MEM_ERROR.

(** zlib's contract for [inflate (_, Z_BLOCK)] as far as the loops of
    [build_index] depend on it, for a file that decompresses to [data]:
    [builds s q k] reads as [resumes] does.  A call on input that continues
    the file from [q], with room for [n > 0] bytes, stays within its input
    and its output and in step with the file, and unless it ends the stream
    or fails it has consumed input or delivered output. *)
Definition inflate_advances `{ZL : Zlib} (file data : list uchar)
           (builds : zstate -> Z -> Z -> Prop) : Prop :=
  (forall s, inflateInit2 47 = (Z_OK, s) -> builds s 0 0) /\
  forall (s : zstate) (q k : Z) (input : list uchar) (n : Z),
    builds s q k ->
    (exists m : nat, input = take m (drop (Z.to_nat q) file)) ->
    input <> [] -> 0 < n ->
    let r := inflate s input n Z_BLOCK in
    0 <= z_used r <= Z.of_nat (length input) /\
    Z.of_nat (length (z_out r)) <= n /\
    k + Z.of_nat (length (z_out r)) <= Z.of_nat (length data) /\
    builds (z_next r) (q + z_used r) (k + Z.of_nat (length (z_out r))) /\
    (z_ret r = Z_STREAM_END \/ z_ret r = Z_DATA_ERROR \/ z_ret r = Z_MEM_ERROR \/
     z_ret r = Z_NEED_DICT \/ 0 < z_used r + Z.of_nat (length (z_out r))).

(** The state of [build_index] is in step with the file read up to
    [fetched]: the inflater has consumed it up to [q] and delivered [k]
    bytes, and the bytes at [next_in] are those from [q] to [fetched]. *)
Definition in_step `{ZL : Zlib} (file data : list uchar)
           (builds : zstate -> Z -> Z -> Prop) (fetched q k : Z)
           (st : bstate zstate) : Prop :=
  builds (state (b_strm st)) q k /\
  0 <= q <= fetched /\ fetched <= Z.of_nat (length file) /\
  0 <= k <= Z.of_nat (length data) /\
  0 <= avail_out (b_strm st) <= WINSIZE /\
  next_in (b_strm st) = take (Z.to_nat (fetched - q)) (drop (Z.to_nat q) file).

(** As [fed], for a file cut short: the handle is on [cut], the first bytes
    of [file], and the bytes at [next_in] are those of [file] from [q] to
    the file position. *)
Definition fed_cut {S : Type} (cut file : list uchar) (st : estate S) (q : Z) : Prop :=
  contents (e_in st) = cut /\ ioerr (e_in st) = false /\ ferror (e_in st) = false /\
  0 <= q <= pos (e_in st) /\ pos (e_in st) <= Z.of_nat (length cut) /\
  next_in (e_strm st) = take (Z.to_nat (pos (e_in st) - q)) (drop (Z.to_nat q) file).

(** A session on [file] that reads without error, with an index of valid
    access points ordered by [out] and starting at [out = 0]. *)
Definition serves `{ZL : Zlib} (file data : list uchar)
           (resumes : zstate -> Z -> Z -> Prop) (zs : seekgzip_t) : Prop :=
  contents (fp zs) = file /\ ioerr (fp zs) = false /\ ferror (fp zs) = false /\
  access_ok (index zs) /\ sorted_by_out (list_ (index zs)) /\
  (exists p0, head (list_ (index zs)) = Some p0 /\ out p0 = 0) /\
  (forall p, p ∈ list_ (index zs) -> valid_point file data resumes p).

(** A session on the gzip member cut short in its first stored block, with
    the access point after the header. *)
Definition truncated_session : seekgzip_t :=
  mk_seekgzip (Stored.fopen Stored.truncated) (mkaccess 1 1 [mkpoint 0 10 0 []]) 0 0.

(** An allocator that grants every request but one for a single
    [struct point], the size to which [build_index] shrinks a list of one
    point. *)
Definition no_single_point : Runtime :=
  Build_Runtime (fun n => negb (n =? sizeof_point)) (fun _ => 0).

(** The point [seekgzip_open] finds in an entry that [gzread] did not
    fill. *)
Definition junk_point `{RT : Runtime} : point :=
  mkpoint (host_signed 8 (host_value (uninit 8))) (host_signed 8 (host_value (uninit 8)))
          (host_signed 4 (host_value (uninit 4))) (uninit WINSIZE).

(** ** From the index built to the bytes read *)

(** [w] is a window for position [k] of [data]: [WINSIZE] bytes that end
    with the bytes of [data] before [k], all of them or the last
    [WINSIZE]. *)
Definition window_of (data : list uchar) (k : Z) (w : list uchar) : Prop :=
  Z.of_nat (length w) = WINSIZE /\
  drop (Z.to_nat (WINSIZE - Z.min k WINSIZE)) w
  = take (Z.to_nat (Z.min k WINSIZE)) (drop (Z.to_nat (k - Z.min k WINSIZE)) data).

(** What the builder relies on from zlib, for a file that decompresses to
    [data]: [tracks s q k] reads as [resumes] does, for the inflater of the
    builder.  A call of [inflate (_, Z_BLOCK)] on input that continues the
    file from [q], when it neither fails nor ends the stream, stays within
    its input and its output, delivers the next bytes of [data] and stays
    in step; and when it returns at a block boundary that is not the end of
    the last block (bit 7 of [data_type] set, bit 6 clear), raw inflation
    resumes there: the position lies inside the file and, for any window
    [w] of the output position, a raw inflater primed with the
    [data_type & 7] leftover bits and given [w] as dictionary is in step
    with the file at that position. *)
Definition inflate_marks_blocks `{ZL : Zlib} (file data : list uchar)
           (tracks resumes : zstate -> Z -> Z -> Prop) : Prop :=
  (forall s, inflateInit2 47 = (Z_OK, s) -> tracks s 0 0) /\
  forall (s : zstate) (q k : Z) (input : list uchar) (n : Z),
    tracks s q k ->
    (exists m : nat, input = take m (drop (Z.to_nat q) file)) ->
    input <> [] -> 0 <= n ->
    let r := inflate s input n Z_BLOCK in
    z_ret r <> Z_MEM_ERROR -> z_ret r <> Z_DATA_ERROR ->
    z_ret r <> Z_NEED_DICT -> z_ret r <> Z_STREAM_END ->
    0 <= z_used r <= Z.of_nat (length input) /\
    Z.of_nat (length (z_out r)) <= n /\
    z_out r = take (length (z_out r)) (drop (Z.to_nat k) data) /\
    tracks (z_next r) (q + z_used r) (k + Z.of_nat (length (z_out r))) /\
    (flag (z_data_type r) 128 = true -> flag (z_data_type r) 64 = false ->
     forall w : list uchar,
       window_of data (k + Z.of_nat (length (z_out r))) w ->
       valid_point file data resumes
         (mkpoint (k + Z.of_nat (length (z_out r))) (q + z_used r)
                  (Z.land (z_data_type r) 7) w)).

(** The state of [build_index] while it passes over [file], of which
    [fetched] bytes have been read: the inflater is in step at the
    counters [totin] and [totout], the bytes at [next_in] are those from
    [totin] to [fetched], the sliding window in chronological order is a
    window of position [totout], and every point added so far is a valid
    access point. *)
Definition building `{ZL : Zlib} (file data : list uchar)
           (tracks resumes : zstate -> Z -> Z -> Prop) (fetched : Z)
           (st : bstate zstate) : Prop :=
  tracks (state (b_strm st)) (totin st) (totout st) /\
  0 <= totin st <= fetched /\ fetched <= Z.of_nat (length file) /\
  0 <= totout st /\
  0 <= avail_out (b_strm st) <= WINSIZE /\
  next_in (b_strm st)
  = take (Z.to_nat (fetched - totin st)) (drop (Z.to_nat (totin st)) file) /\
  window_of data (totout st) (chronological (avail_out (b_strm st)) (b_window st)) /\
  Z.of_nat (length (b_window st)) = WINSIZE /\
  match b_index st with
  | None => True
  | Some index => forall p, p ∈ list_ index -> valid_point file data resumes p
  end.

(** *** The inflater for stored blocks, from a state to the end of the stream *)

(** [stored_finishes s input out rest]: started in state [s] on [input],
    with room for the bytes [out], the machine runs to the end of the
    stream; it writes [out] and leaves [rest] of the input unread. *)
Definition stored_finishes (s : Stored.inflate_state) (input out rest : list uchar)
  : Prop :=
  exists (fuel : nat) (s' : Stored.inflate_state),
    Stored.run fuel Z_NO_FLUSH s input (Z.of_nat (length out)) [] = (s', rest, out) /\
    Stored.mode s' = Stored.DONE.

(** What holds of the states the machine passes through: the bit
    accumulator holds fewer than 64 bits, and none at a block boundary,
    while a stored block is copied, and when the last block has ended. *)
Definition stored_sane (s : Stored.inflate_state) : Prop :=
  0 <= Stored.bits_ s < 64 /\
  match Stored.mode s with
  | Stored.HEAD => Stored.last_ s = false
  | Stored.TYPE | Stored.COPY => Stored.hold s = 0 /\ Stored.bits_ s = 0
  | Stored.TYPEDO => Stored.last_ s = true -> Stored.bits_ s = 0
  | _ => True
  end.

(** A bound on the moves the machine makes without consuming input. *)
Definition stored_rank (s : Stored.inflate_state) : Z :=
  match Stored.mode s with
  | Stored.DONE | Stored.BAD => 0
  | Stored.LENGTH => 1
  | Stored.CHECK => 2
  | Stored.TYPEDO =>
      if Stored.last_ s then 3 else if 3 <=? Stored.bits_ s then 7 else 3
  | Stored.TYPE => 4
  | Stored.COPY => 5
  | Stored.STORED => 6
  | Stored.OS => 5
  | Stored.TIME => 6
  | Stored.FLAGS => 7
  | Stored.HEAD => 8
  end.

(** A state of the gzip inflater and the state of a raw inflater at the
    same place in the deflate data. *)
Definition stored_twin (s t : Stored.inflate_state) : Prop :=
  Stored.mode t = Stored.mode s /\ Stored.wrap s = true /\ Stored.wrap t = false /\
  Stored.last_ t = Stored.last_ s /\ Stored.hold t = Stored.hold s /\
  Stored.bits_ t = Stored.bits_ s /\
  (Stored.mode s = Stored.COPY -> Stored.length_ t = Stored.length_ s).

(** The machine is inside the deflate data. *)
Definition stored_in_blocks (s : Stored.inflate_state) : Prop :=
  Stored.mode s = Stored.TYPE \/ Stored.mode s = Stored.TYPEDO \/
  Stored.mode s = Stored.STORED \/ Stored.mode s = Stored.COPY \/
  Stored.mode s = Stored.BAD.

(** The raw inflater (of [extract]) has consumed [file] up to [q] and
    delivered [data] up to [k]: from its state the machine finishes on the
    rest of the file with the rest of [data], short of the end of the file
    (the trailer is left). *)
Definition stored_resumes (file data : list uchar) (s : Stored.inflate_state)
           (q k : Z) : Prop :=
  stored_sane s /\ 0 <= q /\ 0 <= k <= Z.of_nat (length data) /\
  exists rest, rest <> [] /\
    stored_finishes s (drop (Z.to_nat q) file) (drop (Z.to_nat k) data) rest.

(** The same for the gzip inflater (of [build_index]). *)
Definition stored_tracks (file data : list uchar) (s : Stored.inflate_state)
           (q k : Z) : Prop :=
  stored_sane s /\ Stored.wrap s = true /\ 0 <= q /\ 0 <= k <= Z.of_nat (length data) /\
  exists rest,
    stored_finishes s (drop (Z.to_nat q) file) (drop (Z.to_nat k) data) rest.

(** [file] is a gzip member that the inflater for stored blocks reads to
    its end, writing [data]. *)
Definition stored_decodes (file data : list uchar) : Prop :=
  stored_finishes (snd (Stored.inflateInit2 47)) file data [].

(** The stream of the file [Stored.blocks_3_4_1]. *)
Definition abcdefgh : list uchar := [97; 98; 99; 100; 101; 102; 103; 104].

(** Case analysis over one move of the machine. *)
Ltac stored_step_cases H :=
  unfold Stored.step, Stored.needbits in H;
  repeat match type of H with
         | context [match Stored.mode ?s with _ => _ end] =>
             let Hm := fresh "Hmode" in destruct (Stored.mode s) eqn:Hm
         | context [if ?c then _ else _] => destruct c eqn:?
         | context [match ?l with [] => _ | _ :: _ => _ end] => destruct l eqn:?
         end;
  try discriminate.

(** * Properties *)

(** ** findpoint *)

Lemma strictly_sorted_sorted l : strictly_sorted_by_out l -> sorted_by_out l.
Proof.
  intros Hs i j p q Hi Hj Hij.
  destruct (decide (i = j)) as [->|Hne].
  - rewrite Hi in Hj. injection Hj as ->. lia.
  - assert (out p < out q) by (eapply Hs; eauto; lia). lia.
Qed.

Lemma strictly_sorted_outs_correct l :
  strictly_sorted_outs l = true -> strictly_sorted_by_out l.
Proof.
  induction l as [|p l IH]; intros Hb i j x y Hi Hj Hij.
  - rewrite lookup_nil in Hi. discriminate.
  - assert (Hrest : strictly_sorted_outs l = true).
    { destruct l as [|q l]; [reflexivity|]. simpl in Hb.
      apply andb_prop in Hb as [_ Hb]. exact Hb. }
    assert (Hhd : forall (k : nat) z, l !! k = Some z -> out p < out z).
    { clear i j x y Hi Hj Hij. intros k. induction k as [|k IHk]; intros z Hz.
      - destruct l as [|q l]; [discriminate|]. simpl in Hb, Hz.
        injection Hz as <-. apply andb_prop in Hb as [Hb _]. lia.
      - destruct (l !! k) as [w|] eqn:Hw.
        + specialize (IHk w eq_refl).
          assert (out w < out z); [|lia].
          apply (IH Hrest k (S k) w z Hw Hz). lia.
        + apply lookup_ge_None in Hw. apply lookup_lt_Some in Hz. lia. }
    destruct i as [|i], j as [|j]; try lia.
    + simpl in Hi. injection Hi as <-. simpl in Hj. eapply Hhd; eauto.
    + simpl in Hi, Hj. apply (IH Hrest i j x y Hi Hj). lia.
Qed.

Lemma shiftr1_bounds len : 0 < len -> 0 <= Z.shiftr len 1 < len.
Proof.
  intros H. rewrite Z.shiftr_div_pow2 by lia.
  change (2 ^ 1) with 2. split.
  - apply Z.div_pos; lia.
  - apply Z.div_lt; lia.
Qed.

(** The loop returns the partition position of [offset]: every entry before
    it has [out <= offset], every entry from it on has [offset < out]. *)
Lemma findpoint_loop_spec (l : list point) (offset : Z) :
  sorted_by_out l ->
  forall (fuel : nat) (first len : Z),
    0 <= first -> 0 <= len -> first + len <= Z.of_nat (length l) ->
    len <= Z.of_nat fuel ->
    (forall (i : nat) p, l !! i = Some p -> Z.of_nat i < first -> out p <= offset) ->
    (forall (i : nat) p, l !! i = Some p -> first + len <= Z.of_nat i -> offset < out p) ->
    let r := findpoint_loop fuel l offset first len in
    first <= r <= first + len /\
    (forall (i : nat) p, l !! i = Some p -> Z.of_nat i < r -> out p <= offset) /\
    (forall (i : nat) p, l !! i = Some p -> r <= Z.of_nat i -> offset < out p).
Proof.
  intros Hsort fuel. induction fuel as [|fuel IH]; intros first len Hf Hl Hb Hfuel Hlo Hhi.
  - simpl. assert (len = 0) by lia. subst len.
    split; [lia|]. split; [exact Hlo|].
    intros i p Hi Hr. apply (Hhi i p Hi). lia.
  - simpl. destruct (0 <? len) eqn:Hpos.
    + apply Z.ltb_lt in Hpos.
      pose proof (shiftr1_bounds len Hpos) as Hhalf.
      set (half := Z.shiftr len 1) in *.
      destruct (l !! Z.to_nat (first + half)) as [m|] eqn:Hm.
      * destruct (offset <? out m) eqn:Hcmp.
        -- apply Z.ltb_lt in Hcmp.
           destruct (IH first half) as (Hr1 & Hr2 & Hr3); try lia.
           ++ exact Hlo.
           ++ intros i p Hi Hge.
              assert (out m <= out p); [|lia].
              eapply Hsort; eauto. lia.
           ++ split; [lia|]. split; assumption.
        -- apply Z.ltb_ge in Hcmp.
           destruct (IH (first + half + 1) (len - half - 1)) as (Hr1 & Hr2 & Hr3); try lia.
           ++ intros i p Hi Hlt.
              assert (out p <= out m); [|lia].
              eapply Hsort; eauto. lia.
           ++ intros i p Hi Hge. apply (Hhi i p Hi). lia.
           ++ split; [lia|]. split; assumption.
      * apply lookup_ge_None in Hm. lia.
    + apply Z.ltb_ge in Hpos. assert (len = 0) by lia. subst len.
      split; [lia|]. split; [exact Hlo|].
      intros i p Hi Hr. apply (Hhi i p Hi). lia.
Qed.

(** [findpoint] on an ordered list: the entry returned is the last one with
    [out <= offset]; [NULL] is returned when no entry has [out <= offset]. *)
Lemma findpoint_spec (index : access) (offset : Z) :
  access_ok index -> sorted_by_out (list_ index) ->
  match findpoint index offset with
  | Some p =>
      exists k : nat, list_ index !! k = Some p /\ out p <= offset /\
        (forall (j : nat) q, list_ index !! j = Some q -> out q <= offset -> (j <= k)%nat)
  | None => forall (j : nat) q, list_ index !! j = Some q -> offset < out q
  end.
Proof.
  intros Hok Hsort. unfold findpoint. red in Hok.
  destruct (findpoint_loop_spec (list_ index) offset Hsort
              (Z.to_nat (have index)) 0 (have index)) as (Hr1 & Hr2 & Hr3); try lia.
  - intros i p Hi Hge. apply lookup_lt_Some in Hi. lia.
  - set (r := findpoint_loop _ _ _ _ _) in *.
    destruct (r =? 0) eqn:Hr0.
    + apply Z.eqb_eq in Hr0. intros j q Hj. apply (Hr3 j q Hj). lia.
    + apply Z.eqb_neq in Hr0.
      destruct (list_ index !! Z.to_nat (r - 1)) as [p|] eqn:Hp.
      * exists (Z.to_nat (r - 1)). split; [exact Hp|]. split.
        -- apply (Hr2 _ _ Hp). lia.
        -- intros j q Hj Hq.
           destruct (Z_lt_le_dec (Z.of_nat j) r) as [Hlt|Hge]; [lia|].
           specialize (Hr3 j q Hj Hge). lia.
      * apply lookup_ge_None in Hp. lia.
Qed.

(** C2. For an index whose points are strictly increasing in [out],
    [findpoint] returns the point with the greatest [out <= offset]; it
    returns [NULL] exactly when [offset] is below the [out] of the first
    point; and on [NULL] [extract] returns 0, leaving the buffer and the
    file as they were. *)
Theorem findpoint_greatest_le `{ZL : Zlib} (index : access) (offset : Z) :
  access_ok index -> strictly_sorted_by_out (list_ index) ->
  (forall p, findpoint index offset = Some p ->
     p ∈ list_ index /\ out p <= offset /\
     forall q, q ∈ list_ index -> out q <= offset -> out q <= out p) /\
  (forall p0, head (list_ index) = Some p0 ->
     (findpoint index offset = None <-> offset < out p0)) /\
  (forall fuel inp buf len, findpoint index offset = None ->
     extract fuel inp index offset buf len = Returns (0, buf, inp)).
Proof.
  intros Hok Hstrict.
  pose proof (strictly_sorted_sorted _ Hstrict) as Hsort.
  pose proof (findpoint_spec index offset Hok Hsort) as Hspec.
  split; [|split].
  - intros p Hp. rewrite Hp in Hspec. destruct Hspec as (k & Hk & Hle & Hmax).
    split; [eapply list_elem_of_lookup_2; eauto|]. split; [exact Hle|].
    intros q Hq Hqle. apply list_elem_of_lookup_1 in Hq as [j Hj].
    eapply Hsort; eauto.
  - intros p0 Hhd. split.
    + intros Hnone. rewrite Hnone in Hspec. apply (Hspec O p0).
      rewrite <- head_lookup. exact Hhd.
    + intros Hlt. destruct (findpoint index offset) as [p|] eqn:Hp; [|reflexivity].
      destruct Hspec as (k & Hk & Hle & _).
      assert (out p0 <= out p); [|lia].
      eapply (Hsort O k); eauto; [|lia]. rewrite <- head_lookup. exact Hhd.
  - intros fuel inp buf len Hnone. unfold extract. rewrite Hnone.
    destruct (len <? 0); reflexivity.
Qed.

Lemma findpoint_greatest_le_witness :
  let index := mkaccess 2 8 [mkpoint 0 10 0 []; mkpoint 7 27 0 []] in
  access_ok index /\ strictly_sorted_by_out (list_ index) /\
  findpoint index 9 = Some (mkpoint 7 27 0 []) /\
  (forall q, q ∈ list_ index -> out q <= 9 -> out q <= 7) /\
  (findpoint index (-1) = None <-> -1 < 0).
Proof.
  intros index.
  assert (Hok : access_ok index) by reflexivity.
  assert (Hs : strictly_sorted_by_out (list_ index))
    by (apply strictly_sorted_outs_correct; reflexivity).
  split; [exact Hok|]. split; [exact Hs|]. split; [reflexivity|].
  split.
  - destruct (findpoint_greatest_le (ZL := Stored.zlib) index 9 Hok Hs) as (H1 & _ & _).
    apply (H1 (mkpoint 7 27 0 []) eq_refl).
  - destruct (findpoint_greatest_le (ZL := Stored.zlib) index (-1) Hok Hs) as (_ & H2 & _).
    apply (H2 (mkpoint 0 10 0 []) eq_refl).
Defined.

(** ** addpoint *)

Lemma length_uninit `{RT : Runtime} (n : Z) : length (uninit n) = Z.to_nat n.
Proof. unfold uninit. rewrite length_map, length_seq. reflexivity. Qed.

(** The window stored by [fill_entry]: [left] bytes from
    [window + WINSIZE - left], then the first [WINSIZE - left] bytes. *)
Lemma fill_entry_window `{RT : Runtime} (index : access) (bits in_ out left : Z)
      (buf : list uchar) :
  0 <= left <= WINSIZE -> Z.of_nat (length buf) = WINSIZE ->
  list_ (fill_entry index bits in_ out left buf)
  = list_ index ++ [mkpoint out in_ bits (chronological left buf)].
Proof.
  intros Hleft Hlen. unfold fill_entry, chronological. cbn [list_]. do 3 f_equal.
  pose proof (length_uninit WINSIZE) as Hw0.
  set (w0 := uninit WINSIZE) in *.
  assert (HW : length buf = Z.to_nat WINSIZE) by lia.
  destruct (left =? 0) eqn:H0.
  - apply Z.eqb_eq in H0. subst left.
    assert ((0 <? WINSIZE) = true) as -> by reflexivity.
    unfold memcpy. rewrite Z.sub_0_r, Z.add_0_l.
    change (Z.to_nat 0) with 0%nat. rewrite take_0, drop_0.
    rewrite (drop_ge w0) by lia. rewrite (drop_ge buf) by lia.
    rewrite take_ge by lia.
    rewrite app_nil_l, app_nil_r. reflexivity.
  - apply Z.eqb_neq in H0.
    destruct (left <? WINSIZE) eqn:Hlt.
    + apply Z.ltb_lt in Hlt. unfold memcpy.
      change (Z.to_nat 0) with 0%nat. rewrite take_0, drop_0, Z.add_0_l, app_nil_l.
      set (A := drop (Z.to_nat (WINSIZE - left)) buf).
      assert (HA : length A = Z.to_nat left)
        by (unfold A; rewrite length_drop; lia).
      rewrite (take_ge A) by lia.
      rewrite take_app_length' by (symmetry; exact HA).
      rewrite drop_ge by (rewrite length_app, length_drop; lia).
      rewrite app_nil_r. reflexivity.
    + apply Z.ltb_ge in Hlt. assert (left = WINSIZE) by lia. subst left.
      unfold memcpy. rewrite Z.sub_diag, Z.add_0_l.
      change (Z.to_nat 0) with 0%nat.
      rewrite !take_0, !drop_0, app_nil_l, app_nil_r.
      rewrite take_ge by lia. rewrite app_nil_r. reflexivity.
Qed.

(** What [addpoint] does when it does not run out of memory: one entry is
    appended, with the window in chronological order. *)
Lemma addpoint_appends `{RT : Runtime} (index : option access)
      (bits0 in0 out0 left : Z) (buf : list uchar) (index' : access) :
  0 <= left <= WINSIZE -> Z.of_nat (length buf) = WINSIZE ->
  addpoint index bits0 in0 out0 left buf = Some index' ->
  list_ index' = match index with Some i => list_ i | None => [] end
                 ++ [mkpoint out0 in0 bits0 (chronological left buf)] /\
  have index' = match index with Some i => have i | None => 0 end + 1.
Proof.
  intros Hleft Hlen Hadd. unfold addpoint in Hadd. destruct index as [i|].
  - destruct (have i =? size_ i).
    + destruct (can_alloc _); [|discriminate]. injection Hadd as <-.
      rewrite fill_entry_window by assumption. split; reflexivity.
    + injection Hadd as <-. rewrite fill_entry_window by assumption. split; reflexivity.
  - destruct (can_alloc sizeof_access); [|discriminate].
    destruct (can_alloc _); [|discriminate]. injection Hadd as <-.
    rewrite fill_entry_window by assumption. split; reflexivity.
Qed.

Lemma chronological_length (left : Z) (buf : list uchar) :
  0 <= left <= WINSIZE -> Z.of_nat (length buf) = WINSIZE ->
  Z.of_nat (length (chronological left buf)) = WINSIZE.
Proof.
  intros Hleft Hlen. unfold chronological.
  rewrite length_app, length_drop, length_take. lia.
Qed.

(** C4, as amended.  The window [addpoint] stores is the sliding window in
    chronological order: the [left] bytes from [window + WINSIZE - left],
    then the first [WINSIZE - left] bytes; it has [WINSIZE] bytes, and for
    [left = WINSIZE] it is the buffer unrotated. *)
Theorem addpoint_window_chronological `{RT : Runtime} (index : option access)
        (bits in_ out left : Z) (buf : list uchar) (index' : access) :
  0 <= left <= WINSIZE -> Z.of_nat (length buf) = WINSIZE ->
  addpoint index bits in_ out left buf = Some index' ->
  exists p : point,
    list_ index' = match index with Some i => list_ i | None => [] end ++ [p] /\
    window p = take (Z.to_nat left) (drop (Z.to_nat (WINSIZE - left)) buf)
               ++ take (Z.to_nat (WINSIZE - left)) buf /\
    Z.of_nat (length (window p)) = WINSIZE /\
    (left = WINSIZE -> window p = buf).
Proof.
  intros Hleft Hlen Hadd.
  exists (mkpoint out in_ bits (chronological left buf)).
  destruct (addpoint_appends _ _ _ _ _ _ _ Hleft Hlen Hadd) as [Hlist _].
  split; [exact Hlist|]. cbn [window]. unfold chronological.
  assert (HW : length buf = Z.to_nat WINSIZE) by lia.
  split; [|split].
  - rewrite (take_ge (drop _ buf)) by (rewrite length_drop; lia). reflexivity.
  - rewrite length_app, length_drop, length_take. lia.
  - intros ->. rewrite Z.sub_diag. change (Z.to_nat 0) with 0%nat.
    rewrite drop_0, take_0, app_nil_r. reflexivity.
Qed.

Lemma addpoint_window_chronological_witness :
  exists (index' : access) (p : point),
    addpoint (RT := Stored.runtime) None 0 10 0 32767 ramp = Some index' /\
    list_ index' = [p] /\
    window p = take (Z.to_nat 32767) (drop (Z.to_nat (WINSIZE - 32767)) ramp)
               ++ take (Z.to_nat (WINSIZE - 32767)) ramp.
Proof.
  assert (Hlen : Z.of_nat (length ramp) = WINSIZE).
  { unfold ramp. rewrite length_map, length_seq. apply Z2Nat.id. discriminate. }
  assert (Hleft : 0 <= 32767 <= WINSIZE) by (split; discriminate).
  destruct (addpoint_window_chronological (RT := Stored.runtime) None 0 10 0 32767 ramp
              _ Hleft Hlen eq_refl) as (p & Hl & Hw & _).
  eexists. exists p. split; [reflexivity|]. split; [exact Hl | exact Hw].
Defined.

(** C4, as the claim words it ([WINSIZE - avail_out] bytes from
    [buf + WINSIZE - avail_out], then the first [avail_out] bytes), fails:
    with one byte written since the window wrapped, the second byte stored
    is [buf[2]], not [buf[0]]. *)
Lemma addpoint_window_not_spec_window :
  exists p : point,
    addpoint (RT := Stored.runtime) None 0 10 0 32767 ramp = Some (mkaccess 1 8 [p]) /\
    window p !! 1%nat = Some 2 /\
    spec_window 32767 ramp !! 1%nat = Some 0 /\
    window p <> spec_window 32767 ramp.
Proof.
  eexists. split; [reflexivity|].
  assert (H2 : spec_window 32767 ramp !! 1%nat = Some 0) by (lazy; reflexivity).
  split; [|split; [exact H2|]].
  - lazy. reflexivity.
  - intros Heq. pose proof H2 as H3. rewrite <- Heq in H3.
    lazy in H3. discriminate.
Qed.

(** ** seekgzip_build *)

(** Whatever the value switched on, the switch of [seekgzip_build] leaves
    [SEEKGZIP_ERROR] in [ret]: every entry falls through to [default]. *)
Lemma build_error_switch (len ret : Z) :
  switch_fallthrough build_error_cases len ret = SEEKGZIP_ERROR.
Proof.
  unfold switch_fallthrough, build_error_cases. cbn [switch_entry].
  repeat (case_decide; cbn [drop fold_left snd]; try reflexivity); congruence.
Qed.

(** C7. When [build_index] fails with a negative code, [seekgzip_build]
    returns [SEEKGZIP_ERROR], also for [Z_MEM_ERROR], [Z_DATA_ERROR] and
    [Z_ERRNO], whose own codes are overwritten on the way to [default]. *)
Theorem seekgzip_build_error_collapses `{RT : Runtime} `{ZL : Zlib} `{IO : GzIO}
        (fuel : nat) (target : string) (fp : FILE) (len : Z) (built : option access) :
  fopen target = Some fp ->
  build_index fuel fp SPAN = Returns (len, built) ->
  len < 0 ->
  seekgzip_build fuel target = Returns (SEEKGZIP_ERROR, None) /\
  SEEKGZIP_ERROR <> SEEKGZIP_OUTOFMEMORY /\
  SEEKGZIP_ERROR <> SEEKGZIP_DATAERROR /\
  SEEKGZIP_ERROR <> SEEKGZIP_READERROR.
Proof.
  intros Hopen Hbuild Hneg. split; [|repeat split; discriminate].
  unfold seekgzip_build. rewrite Hopen, Hbuild.
  apply Z.ltb_lt in Hneg. rewrite Hneg. rewrite build_error_switch. reflexivity.
Qed.

Lemma seekgzip_build_error_collapses_witness :
  build_index (RT := Stored.runtime) (ZL := Stored.zlib) 20
    (Stored.fopen Stored.truncated) SPAN = Returns (Z_DATA_ERROR, None) /\
  seekgzip_build (RT := Stored.runtime) (ZL := Stored.zlib)
    (IO := Stored.gzio Stored.truncated true) 20 "a.gz"
  = Returns (SEEKGZIP_ERROR, None).
Proof.
  assert (Hb : build_index (RT := Stored.runtime) (ZL := Stored.zlib) 20
                 (Stored.fopen Stored.truncated) SPAN = Returns (Z_DATA_ERROR, None))
    by (lazy; reflexivity).
  split; [exact Hb|].
  apply (seekgzip_build_error_collapses (IO := Stored.gzio Stored.truncated true)
           20 "a.gz" (Stored.fopen Stored.truncated) Z_DATA_ERROR None eq_refl Hb).
  reflexivity.
Defined.

(** C10. [seekgzip_build] never returns [SEEKGZIP_WRITEERROR]; and once the
    stream is indexed, the name allocated and the index file opened, it
    returns [SEEKGZIP_SUCCESS] whatever the calls of [gzwrite] return. *)
Theorem seekgzip_build_ignores_gzwrite `{RT : Runtime} `{ZL : Zlib} `{IO : GzIO}
        (fuel : nat) (target : string) :
  (forall ret gz, seekgzip_build fuel target = Returns (ret, gz) ->
                  ret <> SEEKGZIP_WRITEERROR) /\
  (forall fp len index target_idx gz,
      fopen target = Some fp ->
      build_index fuel fp SPAN = Returns (len, Some index) -> 0 <= len ->
      get_index_file target = Some target_idx ->
      gzopen target_idx = Some gz ->
      exists gz', seekgzip_build fuel target = Returns (SEEKGZIP_SUCCESS, Some gz')).
Proof.
  split.
  - intros ret gz. unfold seekgzip_build.
    destruct (fopen target) as [fp|]; [|intros [= <- _]; discriminate].
    destruct (build_index fuel fp SPAN) as [[len index]| |]; try discriminate.
    destruct (len <? 0).
    { rewrite build_error_switch. intros [= <- _]. discriminate. }
    destruct (get_index_file target) as [target_idx|]; [|intros [= <- _]; discriminate].
    destruct (gzopen target_idx) as [gz0|]; [|intros [= <- _]; discriminate].
    destruct index as [index|]; [|discriminate].
    intros [= <- _]. discriminate.
  - intros fp len index target_idx gz Hopen Hbuild Hlen Hname Hgz.
    unfold seekgzip_build. rewrite Hopen, Hbuild.
    apply Z.ltb_ge in Hlen. rewrite Hlen, Hname, Hgz. eexists. reflexivity.
Qed.

Lemma seekgzip_build_ignores_gzwrite_witness :
  (forall (gz : list uchar) data,
      snd (gzwrite (GzIO := Stored.gzio Stored.abc false) gz data) = 0) /\
  exists gz',
    seekgzip_build (RT := Stored.runtime) (ZL := Stored.zlib)
      (IO := Stored.gzio Stored.abc false) 40 "abc.gz"
    = Returns (SEEKGZIP_SUCCESS, Some gz').
Proof.
  split; [reflexivity|].
  destruct (seekgzip_build_ignores_gzwrite (RT := Stored.runtime) (ZL := Stored.zlib)
              (IO := Stored.gzio Stored.abc false) 40 "abc.gz") as [_ H].
  eapply (H (Stored.fopen Stored.abc) 1); [reflexivity| |lia|reflexivity|reflexivity].
  lazy -[memcpy uninit]. reflexivity.
Defined.

(** ** Closing a session *)

(** C8, as amended.  Closing a reader is idempotent: [reader::close] on a
    reader that is open (its handle is a live session) or already closed
    returns, leaves the handle [NULL], and a second [close] changes
    nothing; [seekgzip_close (NULL)] changes nothing either. *)
Theorem reader_close_idempotent (r : reader) (live : gmap positive seekgzip_t) :
  (forall a, m_obj r = Some a -> is_Some (live !! a)) ->
  exists r' live',
    reader_close r live = Returns (r', live') /\
    m_obj r' = None /\
    reader_close r' live' = Returns (r', live') /\
    seekgzip_close (m_obj r') live' = Returns live'.
Proof.
  intros Hopen. unfold reader_close. destruct r as [[a|]]; cbn [m_obj] in *.
  - destruct (Hopen a eq_refl) as [zs Hzs]. unfold seekgzip_close. rewrite Hzs.
    eexists _, _. repeat split.
  - eexists _, _. repeat split.
Qed.

Lemma reader_close_idempotent_witness :
  exists r' live',
    reader_close (mk_reader (Some 1%positive)) {[ 1%positive := Stored.a0b_session ]}
    = Returns (r', live') /\
    reader_close r' live' = Returns (r', live').
Proof.
  destruct (reader_close_idempotent (mk_reader (Some 1%positive))
              {[ 1%positive := Stored.a0b_session ]}) as (r' & live' & H1 & _ & H2 & _).
  - intros a [= <-]. rewrite lookup_singleton_eq. eexists. reflexivity.
  - exists r', live'. split; assumption.
Defined.

(** C8, as the claim words it for the session itself, fails: a second
    [seekgzip_close] on the handle of a session reads and frees a block
    that the first call freed. *)
Lemma seekgzip_close_twice_undefined :
  exists live',
    seekgzip_close (Some 1%positive) {[ 1%positive := Stored.a0b_session ]}
    = Returns live' /\
    seekgzip_close (Some 1%positive) live' = Undefined.
Proof.
  exists (delete 1%positive {[ 1%positive := Stored.a0b_session ]}).
  unfold seekgzip_close. rewrite lookup_singleton_eq. split; [reflexivity|].
  rewrite lookup_delete_eq. reflexivity.
Qed.

(** ** reader::read *)



(** The string taken from a buffer whose byte [n] is zero depends on the
    first [n] bytes only. *)
Lemma c_str_terminated (buffer : list uchar) (n : nat) :
  (n < length buffer)%nat -> c_str (<[n := 0]> buffer) = c_str (take n buffer).
Proof.
  revert n. induction buffer as [|b buffer IH]; intros n Hn; [simpl in Hn; lia|].
  destruct n as [|n]; [reflexivity|]. simpl.
  destruct (b =? 0); [reflexivity|]. rewrite IH; [reflexivity|]. simpl in Hn. lia.
Qed.


(** X23. When [seekgzip_read] reports an error, a negative [n], the
    assignment [buffer[n] = 0] of [reader::read] writes before the buffer:
    the call leaves defined behaviour instead of reporting the error. *)
Lemma reader_read_error_undefined `{RT : Runtime} `{ZL : Zlib} (fuel : nat) (r : reader)
      (live : gmap positive seekgzip_t) (size : Z) (a : positive)
      (zs zs' : seekgzip_t) (n : Z) (buffer : list uchar) :
  m_obj r = Some a -> live !! a = Some zs -> 0 <= size ->
  seekgzip_read fuel zs (uninit (size + 1)) size = Returns (n, buffer, zs') ->
  n < 0 ->
  reader_read fuel r live size = Undefined.
Proof.
  intros Hobj Hlive Hsize Hread Hn. unfold reader_read. rewrite Hobj, Hlive.
  destruct (INT_MAX <? size + 1); [reflexivity|].
  assert ((size + 1 <? 0) = false) as -> by lia.
  rewrite Hread. assert ((0 <=? n) = false) as -> by lia. reflexivity.
Qed.


(** ** The start of extract *)

(** C6. For the access point [here] that [extract] selected, on a file
    that reads without error: the file is positioned by [fseeko] to
    [in - 1] when [bits] is not 0 and to [in] otherwise; when [bits] is not
    0 one byte [b] is read with [getc], which leaves the file at [in], and
    the inflater is primed with [bits] and [b >> (8 - bits)]; the window of
    the point is then set as the dictionary; and the loops are entered with
    that inflate state and no input given to it yet. *)
Theorem extract_start_positions_and_primes `{ZL : Zlib} (inp : FILE) (here : point)
        (offset : Z) (buf : list uchar) (s0 : zstate) :
  inflateInit2 (-15) = (Z_OK, s0) ->
  ioerr inp = false ->
  (bits here = 0 ->
     0 <= in_ here ->
     fseeko inp (in_ here) = (at_pos inp (in_ here), 0) /\
     extract_start inp here offset buf
     = inr (mk_estate (at_pos inp (in_ here))
              (mk_z_stream [] 0 0
                 (inflateSetDictionary s0 (take (Z.to_nat WINSIZE) (window here))))
              (offset - out here) true false buf)) /\
  (bits here <> 0 ->
     forall b, 1 <= in_ here ->
       contents inp !! Z.to_nat (in_ here - 1) = Some b -> 0 <= b ->
       fseeko inp (in_ here - 1) = (at_pos inp (in_ here - 1), 0) /\
       getc (at_pos inp (in_ here - 1)) = (at_pos inp (in_ here), b) /\
       extract_start inp here offset buf
       = inr (mk_estate (at_pos inp (in_ here))
                (mk_z_stream [] 0 0
                   (inflateSetDictionary
                      (inflatePrime s0 (bits here) (Z.shiftr b (8 - bits here)))
                      (take (Z.to_nat WINSIZE) (window here))))
                (offset - out here) true false buf)).
Proof.
  intros Hinit Hio. split.
  - intros Hbits Hin.
    assert (Hseek : fseeko inp (in_ here) = (at_pos inp (in_ here), 0)).
    { unfold fseeko. assert ((in_ here <? 0) = false) as -> by lia. reflexivity. }
    split; [exact Hseek|].
    unfold extract_start. rewrite Hinit, Hbits. cbn [Z.eqb negb].
    rewrite Z.sub_0_r, Hseek. reflexivity.
  - intros Hbits b Hin Hb Hb0.
    assert (Hseek : fseeko inp (in_ here - 1) = (at_pos inp (in_ here - 1), 0)).
    { unfold fseeko. assert ((in_ here - 1 <? 0) = false) as -> by lia. reflexivity. }
    assert (Hgetc : getc (at_pos inp (in_ here - 1)) = (at_pos inp (in_ here), b)).
    { unfold getc, at_pos. cbn [ioerr contents pos ferror]. rewrite Hio, Hb.
      replace (in_ here - 1 + 1) with (in_ here) by lia. reflexivity. }
    split; [exact Hseek|]. split; [exact Hgetc|].
    unfold extract_start. rewrite Hinit.
    apply Z.eqb_neq in Hbits. rewrite Hbits. cbn [Z.eqb negb].
    rewrite Hseek. cbn [Z.eqb]. rewrite Hgetc.
    assert ((b =? -1) = false) as -> by lia. reflexivity.
Qed.

Lemma extract_start_positions_and_primes_witness :
  extract_start (ZL := Stored.zlib) (Stored.fopen Stored.a0b)
    (mkpoint 0 10 0 []) 2 [0; 0]
  = inr (mk_estate (mkFILE Stored.a0b 10 false false)
           (@mk_z_stream Stored.inflate_state [] 0 0
              (Stored.inflateSetDictionary (Stored.mk_state Stored.HEAD false false 0 0 0)
                 (take (Z.to_nat WINSIZE) [])))
           (2 - 0) true false [0; 0]) /\
  extract_start (ZL := Stored.zlib) (Stored.fopen Stored.a0b)
    (mkpoint 0 11 3 []) 2 [0; 0]
  = inr (mk_estate (mkFILE Stored.a0b 11 false false)
           (@mk_z_stream Stored.inflate_state [] 0 0
              (Stored.inflateSetDictionary
                 (Stored.inflatePrime (Stored.mk_state Stored.HEAD false false 0 0 0)
                    3 (Z.shiftr 1 (8 - 3)))
                 (take (Z.to_nat WINSIZE) [])))
           (2 - 0) true false [0; 0]).
Proof.
  split.
  - apply (extract_start_positions_and_primes (ZL := Stored.zlib)
             (Stored.fopen Stored.a0b) (mkpoint 0 10 0 []) 2 [0; 0] _ eq_refl eq_refl);
      [reflexivity | discriminate].
  - apply (extract_start_positions_and_primes (ZL := Stored.zlib)
             (Stored.fopen Stored.a0b) (mkpoint 0 11 3 []) 2 [0; 0] _ eq_refl eq_refl).
    + discriminate.
    + cbn [in_]. lia.
    + reflexivity.
    + lia.
Defined.

(** ** build_index: where access points are emitted *)

Section Build.

Context `{RT : Runtime} `{ZL : Zlib}.

Lemma want_point_rule_gt (data_type totout last span : Z) :
  want_point data_type totout last span
  = flag data_type 128 && negb (flag data_type 64) && rule_gt totout last span.
Proof. reflexivity. Qed.

Lemma summary_addpoint (index : option access) (bits0 in0 out0 left : Z)
      (buf : list uchar) (index' : access) :
  addpoint index bits0 in0 out0 left buf = Some index' ->
  summary (Some index') = summary index ++ [(out0, in0, bits0)].
Proof.
  unfold addpoint, summary. intros Hadd.
  assert (Hfill : forall i, map (fun p => (out p, in_ p, bits p))
                              (list_ (fill_entry i bits0 in0 out0 left buf))
                            = map (fun p => (out p, in_ p, bits p)) (list_ i)
                              ++ [(out0, in0, bits0)]).
  { intros i. unfold fill_entry. cbn [list_]. rewrite map_app. reflexivity. }
  destruct index as [i|].
  - destruct (have i =? size_ i).
    + destruct (can_alloc _); [|discriminate]. injection Hadd as <-.
      rewrite Hfill. reflexivity.
    + injection Hadd as <-. apply Hfill.
  - destruct (can_alloc sizeof_access); [|discriminate].
    destruct (can_alloc _); [|discriminate]. injection Hadd as <-.
    rewrite Hfill. reflexivity.
Qed.

Lemma emitted_snoc rule span events e :
  emitted rule span (events ++ [e]) = emit rule span (emitted rule span events) e.
Proof. unfold emitted. rewrite fold_left_app. reflexivity. Qed.

Lemma build_inner_follows_rule (span : Z) (fuel : nat) :
  forall st ret st',
    follows_rule span st ->
    build_inner fuel span st = BuildExit ret st' ->
    follows_rule span st'.
Proof.
  induction fuel as [|fuel IH]; intros st ret st' Hinv Hrun; [discriminate|].
  cbn [build_inner] in Hrun.
  destruct (inflate_call _ Z_BLOCK) as [[r produced] strm2] eqn:Hcall.
  set (ret1 := if r =? Z_NEED_DICT then Z_DATA_ERROR else r) in *.
  destruct ((ret1 =? Z_MEM_ERROR) || (ret1 =? Z_DATA_ERROR)); [discriminate|].
  destruct (ret1 =? Z_STREAM_END).
  { injection Hrun as _ <-. exact Hinv. }
  set (strm1 := if avail_out (b_strm st) =? 0
                then set_avail_out (b_strm st) WINSIZE else b_strm st) in *.
  set (totin2 := totin st + avail_in strm1 - avail_in strm2) in *.
  set (totout2 := totout st + avail_out strm1 - avail_out strm2) in *.
  set (e := mk_event (data_type strm2) totin2 totout2 (avail_out strm2)) in *.
  destruct Hinv as [Hlast Hsum].
  rewrite want_point_rule_gt in Hrun.
  assert (Hemit : emitted rule_gt span (b_events st ++ [e])
                  = if flag (data_type strm2) 128 && negb (flag (data_type strm2) 64)
                       && rule_gt totout2 (last st) span
                    then (totout2, snd (emitted rule_gt span (b_events st)) ++ [e])
                    else emitted rule_gt span (b_events st)).
  { rewrite emitted_snoc. unfold emit. cbn [ev_data_type ev_totout e].
    rewrite <- Hlast. reflexivity. }
  destruct (flag (data_type strm2) 128 && negb (flag (data_type strm2) 64)
            && rule_gt totout2 (last st) span) eqn:Hwant.
  - destruct (addpoint _ _ _ _ _ _) as [index'|] eqn:Hadd; [|discriminate].
    assert (Hnew : follows_rule span
                     (mk_bstate strm2 totin2 totout2 totout2 (Some index') 
                        (memcpy (b_window st) (WINSIZE - avail_out strm1) produced 0
                                (Z.of_nat (length produced)))
                        (b_events st ++ [e]))).
    { unfold follows_rule. cbn [last b_index b_events]. rewrite Hemit. cbn [fst snd].
      split; [reflexivity|].
      rewrite (summary_addpoint _ _ _ _ _ _ _ Hadd), Hsum, map_app. reflexivity. }
    destruct (avail_in strm2 =? 0).
    + injection Hrun as _ <-. exact Hnew.
    + eapply IH; eauto.
  - assert (Hnew : follows_rule span
                     (mk_bstate strm2 totin2 totout2 (last st) (b_index st)
                        (memcpy (b_window st) (WINSIZE - avail_out strm1) produced 0
                                (Z.of_nat (length produced)))
                        (b_events st ++ [e]))).
    { unfold follows_rule. cbn [last b_index b_events]. rewrite Hemit.
      split; assumption. }
    destruct (avail_in strm2 =? 0).
    + injection Hrun as _ <-. exact Hnew.
    + eapply IH; eauto.
Qed.

Lemma build_outer_follows_rule (span : Z) (ifuel fuel : nat) :
  forall inp st st',
    follows_rule span st ->
    build_outer fuel ifuel span inp st = Returns (Z_STREAM_END, st') ->
    follows_rule span st'.
Proof.
  induction fuel as [|fuel IH]; intros inp st st' Hinv Hrun; [discriminate|].
  cbn [build_outer] in Hrun.
  destruct (fread inp CHUNK) as [inp1 input].
  destruct (ferror inp1); [discriminate|].
  destruct (Z.of_nat (length input) =? 0); [discriminate|].
  destruct (build_inner ifuel span _) as [ret st1|ret|] eqn:Hinner; try discriminate.
  - apply build_inner_follows_rule in Hinner; [|exact Hinv].
    destruct (ret =? Z_STREAM_END) eqn:Hend.
    + injection Hrun as _ <-. exact Hinner.
    + exact (IH inp1 st1 st' Hinner Hrun).
  - injection Hrun as _ <-. exact Hinv.
Qed.

(** What a run of [build_index] that returns an index went through. *)
Lemma build_index_returns (fuel : nat) (inp : FILE) (span n : Z) (index : access) :
  build_index fuel inp span = Returns (n, Some index) ->
  exists s st index0,
    inflateInit2 47 = (Z_OK, s) /\
    build_outer fuel fuel span inp (build_start s) = Returns (Z_STREAM_END, st) /\
    b_index st = Some index0 /\
    n = have index0 /\
    index = mkaccess (have index0) (have index0) (list_ index0).
Proof.
  unfold build_index. intros Hrun.
  destruct (inflateInit2 47) as [ret s].
  destruct (ret =? Z_OK) eqn:Hret; cbn [negb] in Hrun; [|discriminate].
  apply Z.eqb_eq in Hret. subst ret.
  destruct (build_outer fuel fuel span inp (build_start s)) as [[ret st]| |] eqn:Hout;
    try discriminate.
  destruct (ret =? Z_STREAM_END) eqn:Hend; [|discriminate].
  apply Z.eqb_eq in Hend. subst ret.
  destruct (b_index st) as [index0|] eqn:Hidx; [|discriminate].
  destruct (can_alloc _); [|discriminate].
  injection Hrun as <- <-. exists s, st, index0. repeat split; assumption.
Qed.

(** C3, as amended.  In a run of [build_index] that returns an index, the
    points of the index are those emitted, over the returns of [inflate]
    in order, at a block boundary (bit 7 of [data_type]) that is not the
    end of the last block (bit 6) precisely when [totout == 0] or
    [totout - last > span], with [last] then set to [totout]. *)
Theorem build_index_emits_by_rule_gt (fuel : nat) (inp : FILE) (span n : Z)
        (index : access) :
  build_index fuel inp span = Returns (n, Some index) ->
  exists s st,
    inflateInit2 47 = (Z_OK, s) /\
    build_outer fuel fuel span inp (build_start s) = Returns (Z_STREAM_END, st) /\
    summary (Some index) = map point_of (snd (emitted rule_gt span (b_events st))) /\
    last st = fst (emitted rule_gt span (b_events st)) /\
    (forall acc e,
        emit rule_gt span acc e
        = if flag (ev_data_type e) 128 && negb (flag (ev_data_type e) 64)
             && ((ev_totout e =? 0) || (span <? ev_totout e - fst acc))
          then (ev_totout e, snd acc ++ [e]) else acc).
Proof.
  intros Hrun.
  destruct (build_index_returns _ _ _ _ _ Hrun) as (s & st & index0 & Hs & Hout & Hidx & _ & ->).
  exists s, st. split; [exact Hs|]. split; [exact Hout|].
  assert (Hinv : follows_rule span st).
  { eapply build_outer_follows_rule; [|exact Hout]. split; reflexivity. }
  destruct Hinv as [Hlast Hsum]. rewrite Hidx in Hsum.
  split; [exact Hsum|]. split; [exact Hlast|]. reflexivity.
Qed.

End Build.

(** ** build_index: the index it returns *)

Lemma memcpy_length (dst src : list uchar) (doff soff n : Z) :
  0 <= doff -> 0 <= n -> doff + n <= Z.of_nat (length dst) ->
  n <= Z.of_nat (length (drop (Z.to_nat soff) src)) ->
  length (memcpy dst doff src soff n) = length dst.
Proof.
  intros Hd Hn Hfit Hsrc. unfold memcpy.
  rewrite !length_app, !length_take, !length_drop. rewrite length_drop in Hsrc. lia.
Qed.

Lemma land_7_bounds (a : Z) : 0 <= Z.land a 7 <= 7.
Proof.
  change (Z.land a 7) with (Z.land a (Z.ones 3)). rewrite Z.land_ones by lia.
  change (2 ^ 3) with 8. pose proof (Z.mod_pos_bound a 8 ltac:(lia)). lia.
Qed.

Lemma spaced_sorted (span : Z) (l : list point) :
  0 <= span -> spaced span l -> sorted_by_out l.
Proof.
  intros Hspan Hsp i j. revert i. induction j as [|j IH]; intros i p q Hi Hj Hij.
  - assert (i = O) by lia. subst i. rewrite Hi in Hj. injection Hj as ->. lia.
  - destruct (decide (i = S j)) as [->|Hne].
    + rewrite Hi in Hj. injection Hj as ->. lia.
    + destruct (l !! j) as [m|] eqn:Hm.
      * assert (out p <= out m) by (eapply IH; eauto; lia).
        destruct (Hsp j m q Hm Hj); lia.
      * apply lookup_ge_None in Hm. apply lookup_lt_Some in Hj. lia.
Qed.

Section BuildIndex.

Context `{RT : Runtime} `{ZL : Zlib}.

Lemma addpoint_good (span lst : Z) (index : option access) (bits0 in0 out0 left : Z)
      (buf : list uchar) (index' : access) :
  match index with None => True | Some idx => good_index span lst idx end ->
  0 <= left <= WINSIZE -> Z.of_nat (length buf) = WINSIZE ->
  0 <= bits0 <= 7 -> 0 <= lst <= out0 ->
  span < out0 - lst \/ out0 = 0 ->
  addpoint index bits0 in0 out0 left buf = Some index' ->
  good_index span out0 index'.
Proof.
  intros Hgood Hleft Hlen Hbits Hlst Hrule Hadd.
  destruct (addpoint_appends _ _ _ _ _ _ _ Hleft Hlen Hadd) as [Hlist Hhave].
  pose proof (chronological_length left buf Hleft Hlen) as Hwin.
  set (p := mkpoint out0 in0 bits0 (chronological left buf)) in *.
  assert (Hpo : out p = out0) by reflexivity.
  assert (Hpb : bits p = bits0) by reflexivity.
  assert (Hpw : window p = chronological left buf) by reflexivity.
  clearbody p.
  unfold good_index. rewrite Hlist. split; [|split; [|split]].
  - unfold access_ok. rewrite Hlist, Hhave, length_app. cbn [length].
    destruct index as [i|]; [destruct Hgood as [Hok _]; red in Hok|]; cbn [length]; lia.
  - exists p. split; [apply last_snoc|exact Hpo].
  - intros q Hq. apply elem_of_app in Hq as [Hq|Hq].
    + destruct index as [i|]; [|apply elem_of_nil in Hq; contradiction].
      destruct Hgood as (_ & _ & Hall & _). apply Hall. exact Hq.
    + apply list_elem_of_singleton in Hq. subst q. rewrite Hpo, Hpb, Hpw.
      repeat split; lia.
  - intros k a b Ha Hb. destruct index as [i|].
    + destruct Hgood as (_ & (pl & Hpl & Hplo) & Hall & Hsp).
      destruct (decide (S k < length (list_ i))%nat) as [Hlt|Hge].
      * rewrite lookup_app_l in Ha by lia. rewrite lookup_app_l in Hb by lia.
        eapply Hsp; eauto.
      * apply lookup_lt_Some in Hb as Hb'. rewrite length_app in Hb'. cbn [length] in Hb'.
        assert (S k = length (list_ i)) as Hk by lia.
        rewrite lookup_app_r in Hb by lia. rewrite Hk, Nat.sub_diag in Hb.
        injection Hb as <-.
        rewrite lookup_app_l in Ha by lia.
        rewrite last_lookup in Hpl. rewrite <- Hk in Hpl. cbn [pred] in Hpl.
        rewrite Ha in Hpl. injection Hpl as ->.
        rewrite Hpo, Hplo. destruct Hrule as [Hr|Hr]; [left; exact Hr|right; lia].
    + destruct k; cbn in Hb; discriminate.
Qed.

Lemma build_inner_inv (span : Z) (Hbound : inflate_within_bounds) (fuel : nat) :
  forall st ret st',
    build_inv span st ->
    build_inner fuel span st = BuildExit ret st' ->
    build_inv span st'.
Proof.
  induction fuel as [|fuel IH]; intros st ret st' Hinv Hrun; [discriminate|].
  cbn [build_inner] in Hrun.
  destruct Hinv as (Hav & Hwin & Hlast & Hidx).
  set (strm1 := if avail_out (b_strm st) =? 0
                then set_avail_out (b_strm st) WINSIZE else b_strm st) in *.
  assert (Hav1 : 0 < avail_out strm1 <= WINSIZE).
  { unfold strm1. destruct (avail_out (b_strm st) =? 0) eqn:H0.
    - cbn [set_avail_out avail_out]. unfold WINSIZE. lia.
    - apply Z.eqb_neq in H0. lia. }
  unfold inflate_call in Hrun.
  pose proof (Hbound (state strm1) (next_in strm1) (avail_out strm1) Z_BLOCK
                     ltac:(lia)) as Hout.
  set (r := inflate (state strm1) (next_in strm1) (avail_out strm1) Z_BLOCK) in *.
  set (strm2 := mk_z_stream (drop (Z.to_nat (z_used r)) (next_in strm1))
                            (avail_out strm1 - Z.of_nat (length (z_out r)))
                            (z_data_type r) (z_next r)) in *.
  set (window2 := memcpy (b_window st) (WINSIZE - avail_out strm1) (z_out r) 0
                         (Z.of_nat (length (z_out r)))) in *.
  assert (Hwin2 : Z.of_nat (length window2) = WINSIZE).
  { unfold window2. rewrite memcpy_length; try lia.
    change (Z.to_nat 0) with 0%nat. rewrite drop_0. lia. }
  assert (Hav2 : 0 <= avail_out strm2 <= WINSIZE) by (cbn [strm2 avail_out]; lia).
  set (totin2 := totin st + avail_in strm1 - avail_in strm2) in *.
  set (totout2 := totout st + avail_out strm1 - avail_out strm2) in *.
  assert (Htot : totout st <= totout2) by (unfold totout2; cbn [strm2 avail_out]; lia).
  set (ret1 := if z_ret r =? Z_NEED_DICT then Z_DATA_ERROR else z_ret r) in *.
  destruct ((ret1 =? Z_MEM_ERROR) || (ret1 =? Z_DATA_ERROR)); [discriminate|].
  destruct (ret1 =? Z_STREAM_END).
  { injection Hrun as _ <-. unfold build_inv. cbn [b_strm b_window last totout b_index].
    split; [lia|]; split; [lia|]; split; [lia|]. exact Hidx. }
  destruct (want_point (data_type strm2) totout2 (last st) span) eqn:Hwant.
  - destruct (addpoint _ _ _ _ _ _) as [index'|] eqn:Hadd; [|discriminate].
    assert (Hnew : build_inv span
                     (mk_bstate strm2 totin2 totout2 totout2 (Some index') window2
                        (b_events st ++ [mk_event (data_type strm2) totin2 totout2
                                                  (avail_out strm2)]))).
    { unfold build_inv. cbn [b_strm b_window last totout b_index].
      split; [lia|]; split; [lia|]; split; [lia|].
      eapply (addpoint_good span (last st) (b_index st));
        [exact Hidx | | | | | | exact Hadd];
        [exact Hav2 | exact Hwin2 | apply land_7_bounds | lia | ].
      unfold want_point in Hwant. apply andb_prop in Hwant as [_ Hrule].
      apply orb_prop in Hrule as [H0|Hgt]; [right|left]; lia. }
    destruct (avail_in strm2 =? 0).
    + injection Hrun as _ <-. exact Hnew.
    + eapply IH; eauto.
  - assert (Hnew : build_inv span
                     (mk_bstate strm2 totin2 totout2 (last st) (b_index st) window2
                        (b_events st ++ [mk_event (data_type strm2) totin2 totout2
                                                  (avail_out strm2)]))).
    { unfold build_inv. cbn [b_strm b_window last totout b_index].
      split; [lia|]; split; [lia|]; split; [lia|]. exact Hidx. }
    destruct (avail_in strm2 =? 0).
    + injection Hrun as _ <-. exact Hnew.
    + eapply IH; eauto.
Qed.

Lemma build_outer_inv (span : Z) (Hbound : inflate_within_bounds) (ifuel fuel : nat) :
  forall inp st st',
    build_inv span st ->
    build_outer fuel ifuel span inp st = Returns (Z_STREAM_END, st') ->
    build_inv span st'.
Proof.
  induction fuel as [|fuel IH]; intros inp st st' Hinv Hrun; [discriminate|].
  cbn [build_outer] in Hrun.
  destruct (fread inp CHUNK) as [inp1 input].
  destruct (ferror inp1); [discriminate|].
  destruct (Z.of_nat (length input) =? 0); [discriminate|].
  destruct (build_inner ifuel span _) as [ret st1|ret|] eqn:Hinner; try discriminate.
  - apply build_inner_inv in Hinner; [|exact Hbound|exact Hinv].
    destruct (ret =? Z_STREAM_END) eqn:Hend.
    + injection Hrun as _ <-. exact Hinner.
    + exact (IH inp1 st1 st' Hinner Hrun).
  - injection Hrun as _ <-. exact Hinv.
Qed.

(** C5, as amended.  The index a successful [build_index] returns: its
    points are ordered by [out], neighbours being more than [span] apart
    or both at [out = 0]; every [bits] lies in [0,7]; every window has
    [WINSIZE] bytes; there is at least one point, and the value returned is
    their number. *)
Theorem build_index_invariants (fuel : nat) (inp : FILE) (span n : Z) (index : access) :
  0 <= span -> inflate_within_bounds ->
  build_index fuel inp span = Returns (n, Some index) ->
  sorted_by_out (list_ index) /\
  (forall (i : nat) p q,
      list_ index !! i = Some p -> list_ index !! S i = Some q ->
      span < out q - out p \/ (out p = 0 /\ out q = 0)) /\
  (forall p, p ∈ list_ index ->
      0 <= bits p <= 7 /\ Z.of_nat (length (window p)) = WINSIZE) /\
  1 <= have index /\ n = have index /\ access_ok index.
Proof.
  intros Hspan Hbound Hrun.
  destruct (build_index_returns _ _ _ _ _ Hrun)
    as (s & st & index0 & Hs & Hout & Hidx & -> & ->).
  assert (Hinv : build_inv span st).
  { eapply build_outer_inv; [exact Hbound| |exact Hout].
    unfold build_inv, build_start. cbn [b_strm avail_out b_window last totout b_index].
    rewrite length_uninit. unfold WINSIZE. repeat split; lia. }
  destruct Hinv as (_ & _ & _ & Hgood). rewrite Hidx in Hgood.
  destruct Hgood as (Hok & (pl & Hpl & _) & Hall & Hsp). cbn [list_ have].
  split; [apply (spaced_sorted span); assumption|].
  split; [exact Hsp|].
  split; [intros p Hp; destruct (Hall p Hp) as (? & ? & ?); split; assumption|].
  red in Hok. split; [|split; [reflexivity|exact Hok]].
  destruct (list_ index0) as [|x l]; [discriminate|]. cbn [length] in Hok. lia.
Qed.

End BuildIndex.

(** *** The inflater for stored blocks stays within bounds *)

Lemma stored_step_more flush s input left s' input' more :
  Stored.step flush s input left = Stored.Go s' input' more ->
  0 <= left -> Z.of_nat (length more) <= left.
Proof.
  unfold Stored.step, Stored.needbits. intros Hstep Hleft.
  destruct (Stored.mode s);
    repeat match type of Hstep with
           | context [if ?c then _ else _] => destruct c eqn:?
           | context [match ?l with [] => _ | _ :: _ => _ end] => destruct l
           end;
    try discriminate; injection Hstep as <- <- <-; cbn [length]; try lia.
  rewrite length_take. lia.
Qed.

Lemma stored_run_bound fuel flush :
  forall s input left produced s' rest out,
    0 <= left ->
    Stored.run fuel flush s input left produced = (s', rest, out) ->
    Z.of_nat (length out) <= Z.of_nat (length produced) + left.
Proof.
  induction fuel as [|fuel IH]; intros s input left produced s' rest out Hleft Hrun.
  - injection Hrun as <- <- <-. lia.
  - cbn [Stored.run] in Hrun.
    destruct (Stored.step flush s input left) as [s1 input1 more|s1] eqn:Hstep.
    + pose proof (stored_step_more _ _ _ _ _ _ _ Hstep Hleft) as Hmore.
      apply IH in Hrun; [|lia]. rewrite length_app in Hrun. lia.
    + injection Hrun as <- <- <-. lia.
Qed.

Lemma stored_inflate_within_bounds : inflate_within_bounds (ZL := Stored.zlib).
Proof.
  intros s input n flush Hn. cbn [inflate Stored.zlib]. unfold Stored.inflate.
  destruct (Stored.run _ _ _ _ _ _) as [[s' rest] produced] eqn:Hrun.
  cbn [z_out]. apply stored_run_bound in Hrun; [|exact Hn]. cbn [length] in Hrun. lia.
Qed.

Lemma build_index_invariants_witness :
  exists index,
    build_index (RT := Stored.runtime) (ZL := Stored.zlib) 50
      (Stored.fopen Stored.blocks_3_4_1) 2 = Returns (3, Some index) /\
    map out (list_ index) = [0; 3; 7] /\
    sorted_by_out (list_ index) /\
    (forall p, p ∈ list_ index ->
        0 <= bits p <= 7 /\ Z.of_nat (length (window p)) = WINSIZE) /\
    1 <= have index.
Proof.
  assert (Hrun : exists index,
             build_index (RT := Stored.runtime) (ZL := Stored.zlib) 50
               (Stored.fopen Stored.blocks_3_4_1) 2 = Returns (3, Some index) /\
             map out (list_ index) = [0; 3; 7]).
  { eexists. split; lazy -[memcpy uninit]; reflexivity. }
  destruct Hrun as (index & Hrun & Houts).
  assert (Hspan : 0 <= 2) by lia.
  destruct (build_index_invariants (RT := Stored.runtime) (ZL := Stored.zlib)
              _ _ _ _ _ Hspan stored_inflate_within_bounds Hrun)
    as (Hsorted & _ & Hall & Hhave & _).
  exists index. repeat split; try assumption; apply Hall; assumption.
Defined.

(** C5, as the claim words it (strictly increasing in [out]), fails: for
    the gzip file whose first deflate block is an empty stored block,
    [inflate] returns at a block boundary twice with [totout = 0], after
    the header and after the empty block, and both times an access point
    is added. *)
Lemma build_index_not_strictly_sorted :
  exists index,
    build_index (RT := Stored.runtime) (ZL := Stored.zlib) 50
      (Stored.fopen Stored.empty_first_block) SPAN = Returns (2, Some index) /\
    map (fun p => (out p, in_ p, bits p)) (list_ index) = [(0, 10, 0); (0, 15, 0)] /\
    ~ strictly_sorted_by_out (list_ index).
Proof.
  assert (Hrun : exists index,
             build_index (RT := Stored.runtime) (ZL := Stored.zlib) 50
               (Stored.fopen Stored.empty_first_block) SPAN = Returns (2, Some index) /\
             map (fun p => (out p, in_ p, bits p)) (list_ index)
             = [(0, 10, 0); (0, 15, 0)]).
  { eexists. split; lazy -[memcpy uninit]; reflexivity. }
  destruct Hrun as (index & Hrun & Houts).
  exists index. split; [exact Hrun|]. split; [exact Houts|].
  intros Hstrict. clear Hrun.
  destruct (list_ index) as [|p [|q l]]; try discriminate Houts.
  injection Houts as Hp _ _ Hq _ _ _.
  specialize (Hstrict 0%nat 1%nat p q eq_refl eq_refl). lia.
Qed.

(** *** build_index never ends with an empty index *)

Section BuildHeader.

Context `{RT : Runtime} `{ZL : Zlib}.
Variable in_header : zstate -> Prop.
Hypothesis Hheader : starts_at_boundary in_header.

Lemma addpoint_not_null index bits0 in0 out0 left buf index' :
  addpoint index bits0 in0 out0 left buf = Some index' -> Some index' <> None.
Proof. discriminate. Qed.

Lemma build_inner_has_point (span : Z) (fuel : nat) :
  forall st ret st',
    has_point_or_header in_header st ->
    build_inner fuel span st = BuildExit ret st' ->
    b_index st' <> None \/
    (ret <> Z_STREAM_END /\ in_header (state (b_strm st')) /\ totout st' = 0).
Proof.
  induction fuel as [|fuel IH]; intros st ret st' Hinv Hrun; [discriminate|].
  cbn [build_inner] in Hrun. unfold inflate_call in Hrun.
  set (strm1 := if avail_out (b_strm st) =? 0
                then set_avail_out (b_strm st) WINSIZE else b_strm st) in *.
  assert (Hstate : state strm1 = state (b_strm st))
    by (unfold strm1; destruct (avail_out (b_strm st) =? 0); reflexivity).
  set (r := inflate (state strm1) (next_in strm1) (avail_out strm1) Z_BLOCK) in *.
  set (strm2 := mk_z_stream (drop (Z.to_nat (z_used r)) (next_in strm1))
                            (avail_out strm1 - Z.of_nat (length (z_out r)))
                            (z_data_type r) (z_next r)) in *.
  set (window2 := memcpy (b_window st) (WINSIZE - avail_out strm1) (z_out r) 0
                         (Z.of_nat (length (z_out r)))) in *.
  set (totin2 := totin st + avail_in strm1 - avail_in strm2) in *.
  set (totout2 := totout st + avail_out strm1 - avail_out strm2) in *.
  set (ret1 := if z_ret r =? Z_NEED_DICT then Z_DATA_ERROR else z_ret r) in *.
  destruct ((ret1 =? Z_MEM_ERROR) || (ret1 =? Z_DATA_ERROR)) eqn:Herr; [discriminate|].
  apply orb_false_elim in Herr as [Hmem Hdata].
  apply Z.eqb_neq in Hmem. apply Z.eqb_neq in Hdata.
  assert (Hhead : in_header (state (b_strm st)) -> totout st = 0 ->
                  z_ret r <> Z_STREAM_END /\ totout2 = 0 /\
                  (in_header (z_next r) \/
                   want_point (data_type strm2) totout2 (last st) span = true)).
  { intros Hin Htot. destruct Hheader as [_ Hstep].
    destruct (Hstep (state strm1) (next_in strm1) (avail_out strm1)) as (Hout & Hne & Hcase).
    { rewrite Hstate. exact Hin. }
    fold r in Hout, Hne, Hcase.
    assert (Htot2 : totout2 = 0).
    { unfold totout2. cbn [strm2 avail_out]. rewrite Hout. cbn [length]. lia. }
    split; [exact Hne|]. split; [exact Htot2|].
    unfold ret1 in Hmem, Hdata.
    destruct Hcase as [He|[He|[He|[Hin'|[H128 H64]]]]].
    - rewrite He in Hdata. exfalso. apply Hdata. reflexivity.
    - rewrite He in Hmem. exfalso. apply Hmem. reflexivity.
    - rewrite He in Hdata. exfalso. apply Hdata. reflexivity.
    - left. exact Hin'.
    - right. unfold want_point. cbn [strm2 data_type]. rewrite H128, H64, Htot2.
      reflexivity. }
  destruct (ret1 =? Z_STREAM_END) eqn:Hend.
  { injection Hrun as _ <-. cbn [b_index]. destruct Hinv as [Hidx|[Hin Htot]].
    - left. exact Hidx.
    - exfalso. destruct (Hhead Hin Htot) as (Hne & _).
      apply Z.eqb_eq in Hend. unfold ret1 in Hend.
      destruct (z_ret r =? Z_NEED_DICT); [discriminate|]. contradiction. }
  apply Z.eqb_neq in Hend.
  destruct (want_point (data_type strm2) totout2 (last st) span) eqn:Hwant.
  - destruct (addpoint _ _ _ _ _ _) as [index'|] eqn:Hadd; [|discriminate].
    assert (Hnew : has_point_or_header in_header
                     (mk_bstate strm2 totin2 totout2 totout2 (Some index') window2
                        (b_events st ++ [mk_event (data_type strm2) totin2 totout2
                                                  (avail_out strm2)])))
      by (left; discriminate).
    destruct (avail_in strm2 =? 0).
    + injection Hrun as _ <-. left. discriminate.
    + exact (IH _ _ _ Hnew Hrun).
  - assert (Hnew : has_point_or_header in_header
                     (mk_bstate strm2 totin2 totout2 (last st) (b_index st) window2
                        (b_events st ++ [mk_event (data_type strm2) totin2 totout2
                                                  (avail_out strm2)]))).
    { destruct Hinv as [Hidx|[Hin Htot]]; [left; exact Hidx|].
      destruct (Hhead Hin Htot) as (_ & Htot2 & [Hin'|Hw]); [|congruence].
      right. split; [exact Hin'|exact Htot2]. }
    destruct (avail_in strm2 =? 0).
    + injection Hrun as <- <-. destruct Hnew as [Hidx|[Hin Htot]]; [left; exact Hidx|].
      right. split; [exact Hend|]. split; assumption.
    + exact (IH _ _ _ Hnew Hrun).
Qed.

Lemma build_inner_error (span : Z) (fuel : nat) :
  forall st ret,
    build_inner fuel span st = BuildError ret ->
    ret = Z_MEM_ERROR \/ ret = Z_DATA_ERROR.
Proof.
  induction fuel as [|fuel IH]; intros st ret Hrun; [discriminate|].
  cbn [build_inner] in Hrun.
  destruct (inflate_call _ Z_BLOCK) as [[r produced] strm2].
  set (ret1 := if r =? Z_NEED_DICT then Z_DATA_ERROR else r) in *.
  destruct ((ret1 =? Z_MEM_ERROR) || (ret1 =? Z_DATA_ERROR)) eqn:Herr.
  { injection Hrun as <-. apply orb_prop in Herr as [H|H]; apply Z.eqb_eq in H; auto. }
  destruct (ret1 =? Z_STREAM_END); [discriminate|].
  destruct (want_point _ _ _ _).
  - destruct (addpoint _ _ _ _ _ _); [|injection Hrun as <-; left; reflexivity].
    destruct (avail_in strm2 =? 0); [discriminate|]. eapply IH; eauto.
  - destruct (avail_in strm2 =? 0); [discriminate|]. eapply IH; eauto.
Qed.

(** Under zlib's contract for the header, a pass that reaches the end of
    the stream has added at least one access point: [index] is not [NULL]
    where [build_index] reads [index->have]. *)
Lemma build_outer_has_point (span : Z) (ifuel fuel : nat) :
  forall inp st st',
    has_point_or_header in_header st ->
    build_outer fuel ifuel span inp st = Returns (Z_STREAM_END, st') ->
    b_index st' <> None.
Proof.
  induction fuel as [|fuel IH]; intros inp st st' Hinv Hrun; [discriminate|].
  cbn [build_outer] in Hrun.
  destruct (fread inp CHUNK) as [inp1 input].
  destruct (ferror inp1); [discriminate|].
  destruct (Z.of_nat (length input) =? 0); [discriminate|].
  destruct (build_inner ifuel span _) as [ret st1|ret|] eqn:Hinner; try discriminate.
  - apply build_inner_has_point in Hinner; [|exact Hinv].
    destruct (ret =? Z_STREAM_END) eqn:Hend.
    + injection Hrun as _ <-. apply Z.eqb_eq in Hend.
      destruct Hinner as [Hidx|[Hne _]]; [exact Hidx|contradiction].
    + apply (IH inp1 st1 st'); [|exact Hrun].
      destruct Hinner as [Hidx|(_ & Hin & Htot)]; [left; exact Hidx|].
      right. split; assumption.
  - apply build_inner_error in Hinner. injection Hrun as -> _.
    destruct Hinner; discriminate.
Qed.

Lemma build_outer_defined (span : Z) (ifuel fuel : nat) :
  forall inp st, build_outer fuel ifuel span inp st <> Undefined.
Proof.
  induction fuel as [|fuel IH]; intros inp st; [discriminate|].
  cbn [build_outer].
  destruct (fread inp CHUNK) as [inp1 input].
  destruct (ferror inp1); [discriminate|].
  destruct (Z.of_nat (length input) =? 0); [discriminate|].
  destruct (build_inner ifuel span _) as [ret st1|ret|]; try discriminate.
  destruct (ret =? Z_STREAM_END); [discriminate|]. apply IH.
Qed.

(** So the only undefined behaviour left in [build_index] is the final
    [realloc] returning [NULL]. *)
Lemma build_index_undefined (fuel : nat) (inp : FILE) (span : Z) :
  build_index fuel inp span = Undefined ->
  exists n, can_alloc (sizeof_point * n) = false.
Proof.
  unfold build_index. intros Hrun.
  destruct (inflateInit2 47) as [ret s] eqn:Hinit.
  destruct (ret =? Z_OK) eqn:Hret; cbn [negb] in Hrun; [|discriminate].
  apply Z.eqb_eq in Hret. subst ret.
  destruct (build_outer fuel fuel span inp (build_start s)) as [[ret st]| |] eqn:Hout;
    try discriminate.
  - destruct (ret =? Z_STREAM_END) eqn:Hend; [|discriminate].
    apply Z.eqb_eq in Hend. subst ret.
    apply build_outer_has_point in Hout.
    + destruct (b_index st) as [index|]; [|contradiction].
      destruct (can_alloc (sizeof_point * have index)) eqn:Halloc; [discriminate|].
      exists (have index). exact Halloc.
    + right. split; [|reflexivity]. destruct Hheader as [H0 _]. apply H0. exact Hinit.
  - exfalso. eapply build_outer_defined. exact Hout.
Qed.

End BuildHeader.

(** *** The inflater for stored blocks returns at the end of the header *)

Lemma stored_step_header (s : Stored.inflate_state) (input : list uchar) (left : Z) :
  Stored.in_header s ->
  match Stored.step Z_BLOCK s input left with
  | Stored.Go s' input' more =>
      more = [] /\
      (Stored.in_header s' \/
       (Stored.mode s' = Stored.TYPE /\ Stored.bits_ s' = 0 /\ Stored.last_ s' = false) \/
       Stored.mode s' = Stored.BAD)
  | Stored.Leave s' => s' = s
  end.
Proof.
  intros (Hwrap & Hlast & Hmode). unfold Stored.step, Stored.needbits.
  destruct Hmode as [Hm|[Hm|[Hm|Hm]]]; rewrite Hm; rewrite ?Hwrap; cbn [negb];
    repeat match goal with
           | |- context [if ?c then _ else _] => destruct c
           | |- context [match ?l with [] => _ | _ :: _ => _ end] => destruct l
           end;
    try reflexivity; (split; [reflexivity|]);
    unfold Stored.in_header, Stored.initbits, Stored.set_mode, Stored.pullbyte;
    cbn [Stored.mode Stored.wrap Stored.last_ Stored.bits_]; rewrite ?Hm; tauto.
Qed.

Lemma stored_run_header (fuel : nat) :
  forall s input left produced s' rest out,
    Stored.in_header s \/
    (Stored.mode s = Stored.TYPE /\ Stored.bits_ s = 0 /\ Stored.last_ s = false) \/
    Stored.mode s = Stored.BAD ->
    Stored.run fuel Z_BLOCK s input left produced = (s', rest, out) ->
    out = produced /\
    (Stored.in_header s' \/
     (Stored.mode s' = Stored.TYPE /\ Stored.bits_ s' = 0 /\ Stored.last_ s' = false) \/
     Stored.mode s' = Stored.BAD).
Proof.
  induction fuel as [|fuel IH]; intros s input left produced s' rest out Hs Hrun.
  - injection Hrun as <- <- <-. split; [reflexivity|exact Hs].
  - cbn [Stored.run] in Hrun. destruct Hs as [Hh|[(Hm & Hb & Hl)|Hm]].
    + pose proof (stored_step_header s input left Hh) as Hstep.
      destruct (Stored.step Z_BLOCK s input left) as [s1 input1 more|s1].
      * destruct Hstep as [-> Hs1]. rewrite app_nil_r in Hrun.
        eapply IH; eauto.
      * subst s1. injection Hrun as <- <- <-. split; [reflexivity|left; exact Hh].
    + unfold Stored.step in Hrun. rewrite Hm in Hrun. cbn [Z.eqb Z_BLOCK] in Hrun.
      injection Hrun as <- <- <-. split; [reflexivity|]. right. left. tauto.
    + unfold Stored.step in Hrun. rewrite Hm in Hrun.
      injection Hrun as <- <- <-. split; [reflexivity|]. right. right. exact Hm.
Qed.

Lemma stored_starts_at_boundary :
  starts_at_boundary (ZL := Stored.zlib) Stored.in_header.
Proof.
  split.
  - intros s [= <-]. unfold Stored.in_header. cbn. tauto.
  - intros s input n Hin r. subst r. cbn [inflate Stored.zlib]. unfold Stored.inflate.
    cbv zeta.
    match goal with |- context [Stored.run _ _ ?x _ _ _] => set (s0 := x) end.
    assert (Hs0 : s0 = s).
    { unfold s0. destruct Hin as (_ & _ & [Hm|[Hm|[Hm|Hm]]]); rewrite Hm; reflexivity. }
    rewrite Hs0.
    destruct (Stored.run _ _ _ _ _ _) as [[s' rest] produced] eqn:Hrun.
    apply stored_run_header in Hrun as [-> Hs']; [|left; exact Hin].
    cbn [z_out z_ret z_next z_data_type]. split; [reflexivity|].
    destruct Hs' as [Hh|[(Hm & Hb & Hl)|Hm]].
    + pose proof Hh as (_ & _ & [Hm|[Hm|[Hm|Hm]]]); rewrite Hm;
        (split; [destruct (_ && _); discriminate|]); right; right; right; left; exact Hh.
    + rewrite Hm, Hb, Hl. split; [destruct (_ && _); discriminate|].
      right. right. right. right. split; reflexivity.
    + rewrite Hm. split; [discriminate|]. left. reflexivity.
Qed.

(** On every file, with the inflater for stored blocks and an allocator
    that never fails, [build_index] stays within defined behaviour. *)
Lemma stored_build_index_defined (fuel : nat) (inp : FILE) (span : Z) :
  build_index (RT := Stored.runtime) (ZL := Stored.zlib) fuel inp span <> Undefined.
Proof.
  intros Hrun.
  apply (build_index_undefined (RT := Stored.runtime) (ZL := Stored.zlib)
           Stored.in_header stored_starts_at_boundary) in Hrun
    as [n Hn].
  discriminate.
Qed.

Lemma build_index_emits_by_rule_gt_witness :
  exists index st,
    build_index (RT := Stored.runtime) (ZL := Stored.zlib) 50
      (Stored.fopen Stored.blocks_3_4_1) 3 = Returns (2, Some index) /\
    build_outer (RT := Stored.runtime) (ZL := Stored.zlib) 50 50 3
      (Stored.fopen Stored.blocks_3_4_1)
      (build_start (RT := Stored.runtime) (snd (inflateInit2 (Zlib := Stored.zlib) 47)))
    = Returns (Z_STREAM_END, st) /\
    summary (Some index) = map point_of (snd (emitted rule_gt 3 (b_events st))).
Proof.
  assert (Hrun : exists index,
             build_index (RT := Stored.runtime) (ZL := Stored.zlib) 50
               (Stored.fopen Stored.blocks_3_4_1) 3 = Returns (2, Some index)).
  { eexists. lazy -[memcpy uninit]. reflexivity. }
  destruct Hrun as [index Hrun].
  destruct (build_index_emits_by_rule_gt (RT := Stored.runtime) (ZL := Stored.zlib)
              _ _ _ _ _ Hrun) as (s & st & Hs & Hout & Hsum & _).
  exists index, st. split; [exact Hrun|].
  injection Hs as <-. split; [exact Hout | exact Hsum].
Defined.

(** C3, as the claim words it ([totout - last >= span]), fails: with
    [span = 3] and stored blocks of 3, 4 and 1 bytes, the boundary after
    the first block has [totout - last = span] and gets no access point. *)
Lemma build_index_not_rule_ge :
  exists st,
    build_outer (RT := Stored.runtime) (ZL := Stored.zlib) 50 50 3
      (Stored.fopen Stored.blocks_3_4_1)
      (build_start (RT := Stored.runtime) (snd (inflateInit2 (Zlib := Stored.zlib) 47)))
    = Returns (Z_STREAM_END, st) /\
    map (fun e => (ev_data_type e, ev_totin e, ev_totout e)) (b_events st)
    = [(128, 10, 0); (128, 18, 3); (128, 27, 7); (192, 33, 8)] /\
    summary (b_index st) = [(0, 10, 0); (7, 27, 0)] /\
    map point_of (snd (emitted rule_ge 3 (b_events st)))
    = [(0, 10, 0); (3, 18, 0); (7, 27, 0)].
Proof.
  eexists. split; [lazy -[memcpy uninit]; reflexivity|].
  split; [|split]; lazy -[memcpy uninit]; reflexivity.
Qed.

(** ** extract and seekgzip_read *)

Lemma memcpy_write_at (buf src : list uchar) (off : Z) :
  0 <= off ->
  memcpy buf off src 0 (Z.of_nat (length src)) = write_at buf off src.
Proof.
  intros Hoff. unfold memcpy, write_at.
  change (Z.to_nat 0) with 0%nat. rewrite drop_0, Nat2Z.id.
  rewrite (take_ge src) by lia.
  replace (Z.to_nat (off + Z.of_nat (length src))) with (Z.to_nat off + length src)%nat
    by lia.
  reflexivity.
Qed.

Lemma write_at_nil (buf : list uchar) (off : Z) : write_at buf off [] = buf.
Proof.
  unfold write_at. cbn [length app]. rewrite Nat.add_0_r. apply take_drop.
Qed.

Lemma write_at_app (buf p1 p2 : list uchar) (off : Z) :
  0 <= off -> off + Z.of_nat (length p1) <= Z.of_nat (length buf) ->
  write_at (write_at buf off p1) (off + Z.of_nat (length p1)) p2
  = write_at buf off (p1 ++ p2).
Proof.
  intros Hoff Hfit. unfold write_at.
  replace (Z.to_nat (off + Z.of_nat (length p1))) with (Z.to_nat off + length p1)%nat
    by lia.
  set (o := Z.to_nat off).
  assert (Ho : (o + length p1 <= length buf)%nat) by lia.
  assert (Hlen : length (take o buf ++ p1) = (o + length p1)%nat)
    by (rewrite length_app, length_take; lia).
  set (B := take o buf ++ p1 ++ drop (o + length p1) buf).
  assert (HB : B = (take o buf ++ p1) ++ drop (o + length p1) buf)
    by (unfold B; rewrite app_assoc; reflexivity).
  assert (Htake : take (o + length p1) B = take o buf ++ p1)
    by (rewrite HB; apply take_app_length'; lia).
  assert (Hdrop : drop (o + length p1 + length p2) B
                  = drop (o + length (p1 ++ p2)) buf).
  { rewrite HB. rewrite <- Hlen at 1. rewrite <- drop_drop, drop_app_length.
    rewrite drop_drop, length_app. f_equal. lia. }
  rewrite Htake, Hdrop, <- !app_assoc. reflexivity.
Qed.

Lemma write_at_length (buf src : list uchar) (off : Z) :
  0 <= off -> off + Z.of_nat (length src) <= Z.of_nat (length buf) ->
  length (write_at buf off src) = length buf.
Proof.
  intros Hoff Hfit. unfold write_at.
  rewrite !length_app, length_take, length_drop. lia.
Qed.

Lemma take_prefix_app (l : list uchar) (k : nat) (p1 p2 : list uchar) :
  p1 = take (length p1) (drop k l) ->
  p2 = take (length p2) (drop (k + length p1) l) ->
  p1 ++ p2 = take (length (p1 ++ p2)) (drop k l).
Proof.
  intros H1 H2. rewrite length_app, <- take_take_drop, drop_drop, <- H1, <- H2.
  reflexivity.
Qed.

Lemma take_length_take (l : list uchar) (n : nat) :
  take (length (take n l)) l = take n l.
Proof.
  rewrite length_take. destruct (Nat.le_ge_cases n (length l)) as [H|H].
  - rewrite Nat.min_l by lia. reflexivity.
  - rewrite Nat.min_r by lia. rewrite !take_ge by lia. reflexivity.
Qed.

Lemma fread_ok (f : FILE) (n : Z) :
  ioerr f = false ->
  fread f n
  = (mkFILE (contents f)
       (pos f + Z.of_nat (length (take (Z.to_nat n) (drop (Z.to_nat (pos f)) (contents f)))))
       false (ferror f),
     take (Z.to_nat n) (drop (Z.to_nat (pos f)) (contents f))).
Proof. intros Hio. unfold fread. rewrite Hio. reflexivity. Qed.

Section Extract.

Context `{ZL : Zlib}.
Variable file data : list uchar.
Variable resumes : zstate -> Z -> Z -> Prop.
Hypothesis Hcontract : inflate_resumes file data resumes.

#[local] Abbreviation fed := (fed file).
#[local] Abbreviation clipped := (clipped data).

(** The refill at the head of the inner loop leaves input to inflate. *)
Lemma refill_spec (st : estate zstate) (q : Z) :
  fed st q -> q < Z.of_nat (length file) ->
  exists inp1 input filled,
    (if avail_in (e_strm st) =? 0 then
       let '(inp1, input) := fread (e_in st) CHUNK in
       (inp1, set_next_in (e_strm st) input, true)
     else (e_in st, e_strm st, false))
    = (inp1, set_next_in (e_strm st) input, filled) /\
    fed (mk_estate inp1 (set_next_in (e_strm st) input) (e_offset st) (e_skip st)
                   (e_tobuf st) (e_buf st)) q /\
    input <> [] /\ ferror inp1 = false.
Proof.
  intros (Hfile & Hio & Hferr & Hq & Hpos & Hin) Hlt.
  unfold avail_in. destruct (Z.of_nat (length (next_in (e_strm st))) =? 0) eqn:Hav.
  - apply Z.eqb_eq in Hav.
    assert (Hpq : pos (e_in st) = q).
    { rewrite Hin, length_take, length_drop in Hav. lia. }
    rewrite (fread_ok _ _ Hio), Hfile, Hpq.
    set (got := take (Z.to_nat CHUNK) (drop (Z.to_nat q) file)).
    assert (Hgot : (0 < length got)%nat).
    { unfold got. rewrite length_take, length_drop. unfold CHUNK. lia. }
    exists (mkFILE file (q + Z.of_nat (length got)) false (ferror (e_in st))), got, true.
    split; [reflexivity|]. split; [|split].
    + unfold fed. cbn [e_in e_strm contents ioerr ferror pos set_next_in next_in].
      assert (Hle : (length got <= length file - Z.to_nat q)%nat).
      { unfold got. rewrite length_take, length_drop. lia. }
      repeat split; try assumption; try lia.
      replace (Z.to_nat (q + Z.of_nat (length got) - q)) with (length got) by lia.
      unfold got. rewrite take_length_take. reflexivity.
    + intros ->. cbn in Hgot. lia.
    + exact Hferr.
  - exists (e_in st), (next_in (e_strm st)), false.
    assert (Hset : set_next_in (e_strm st) (next_in (e_strm st)) = e_strm st)
      by (destruct (e_strm st); reflexivity).
    rewrite Hset. split; [reflexivity|]. split; [|split].
    + unfold fed. cbn [e_in e_strm]. repeat split; try assumption; lia.
    + intros Hnil. rewrite Hnil in Hav. cbn in Hav. discriminate.
    + exact Hferr.
Qed.

Lemma extract_inner_unfold (fuel : nat) (len : Z) (st : estate zstate) :
  extract_inner (S fuel) len st =
  let '(inp1, strm1, filled) :=
    (if avail_in (e_strm st) =? 0 then
       let '(inp1, input) := fread (e_in st) CHUNK in
       (inp1, set_next_in (e_strm st) input, true)
     else (e_in st, e_strm st, false)) in
  let st1 := mk_estate inp1 strm1 (e_offset st) (e_skip st) (e_tobuf st) (e_buf st) in
  if filled && ferror inp1 then ExtractError Z_ERRNO st1
  else if filled && (avail_in strm1 =? 0) then ExtractError Z_DATA_ERROR st1
  else
    let '(ret, produced, strm2) := inflate_call strm1 Z_NO_FLUSH in
    let buf2 := if e_tobuf st
                then memcpy (e_buf st) (len - avail_out strm1) produced 0
                            (Z.of_nat (length produced))
                else e_buf st in
    let st2 := mk_estate inp1 strm2 (e_offset st) (e_skip st) (e_tobuf st) buf2 in
    let ret := if ret =? Z_NEED_DICT then Z_DATA_ERROR else ret in
    if (ret =? Z_MEM_ERROR) || (ret =? Z_DATA_ERROR) then ExtractError ret st2
    else if ret =? Z_STREAM_END then ExtractExit ret st2
    else if avail_out strm2 =? 0 then ExtractExit ret st2
    else extract_inner fuel len st2.
Proof. reflexivity. Qed.

(** The inner loop of [extract]: it delivers the next bytes of [data] until
    [avail_out] is used up or the stream ends, and is left through neither
    error exit. *)
Lemma extract_inner_spec (len : Z) (fuel : nat) :
  forall (st : estate zstate) (q k : Z),
    fed st q -> resumes (state (e_strm st)) q k ->
    q < Z.of_nat (length file) -> 0 <= k ->
    0 <= avail_out (e_strm st) ->
    (e_tobuf st = true ->
       0 <= len - avail_out (e_strm st) /\ len <= Z.of_nat (length (e_buf st))) ->
    (Z.to_nat (Z.of_nat (length file) - q) < fuel)%nat ->
    exists ret st' q' produced,
      extract_inner fuel len st = ExtractExit ret st' /\
      fed st' q' /\
      resumes (state (e_strm st')) q' (k + Z.of_nat (length produced)) /\
      produced = take (length produced) (drop (Z.to_nat k) data) /\
      avail_out (e_strm st') = avail_out (e_strm st) - Z.of_nat (length produced) /\
      0 <= avail_out (e_strm st') /\
      ((ret = Z_STREAM_END /\
        k + Z.of_nat (length produced) = Z.of_nat (length data)) \/
       (ret <> Z_STREAM_END /\ avail_out (e_strm st') = 0 /\
        q' < Z.of_nat (length file))) /\
      e_offset st' = e_offset st /\ e_skip st' = e_skip st /\
      e_tobuf st' = e_tobuf st /\
      e_buf st' = if e_tobuf st
                  then write_at (e_buf st) (len - avail_out (e_strm st)) produced
                  else e_buf st.
Proof.
  induction fuel as [|fuel IH]; intros st q k Hfed Hres Hq Hk Hav Hbuf Hfuel; [lia|].
  rewrite extract_inner_unfold.
  destruct (refill_spec st q Hfed Hq) as (inp1 & input & filled & -> & Hfed1 & Hne & Hferr).
  cbv zeta. rewrite Hferr, andb_false_r.
  assert (Hin1 : (avail_in (set_next_in (e_strm st) input) =? 0) = false).
  { unfold avail_in. cbn [set_next_in next_in]. destruct input; [contradiction|].
    cbn [length]. apply Z.eqb_neq. lia. }
  rewrite Hin1, andb_false_r.
  unfold inflate_call. cbn [set_next_in state next_in avail_out].
  destruct Hfed1 as (Hfile & Hio & _ & Hqpos & Hpos & Hnext).
  cbn [e_in e_strm set_next_in next_in] in *.
  destruct (Hcontract (state (e_strm st)) q k input (avail_out (e_strm st)) Hres
              (ex_intro _ _ Hnext) Hne Hav)
    as (Hused & Hout & Hpre & Hret & Hres' & Hend & Hprog).
  set (r := inflate (state (e_strm st)) input (avail_out (e_strm st)) Z_NO_FLUSH) in *.
  assert (Hnd : (z_ret r =? Z_NEED_DICT) = false)
    by (apply Z.eqb_neq; unfold Z_NEED_DICT, Z_OK, Z_BUF_ERROR, Z_STREAM_END in *; lia).
  rewrite Hnd.
  assert (Herr : (z_ret r =? Z_MEM_ERROR) || (z_ret r =? Z_DATA_ERROR) = false).
  { apply orb_false_intro; apply Z.eqb_neq;
      unfold Z_MEM_ERROR, Z_DATA_ERROR, Z_OK, Z_BUF_ERROR, Z_STREAM_END in *; lia. }
  rewrite Herr.
  set (strm2 := mk_z_stream (drop (Z.to_nat (z_used r)) input)
                            (avail_out (e_strm st) - Z.of_nat (length (z_out r)))
                            (z_data_type r) (z_next r)).
  set (buf2 := if e_tobuf st
               then memcpy (e_buf st) (len - avail_out (e_strm st)) (z_out r) 0
                           (Z.of_nat (length (z_out r)))
               else e_buf st).
  set (st2 := mk_estate inp1 strm2 (e_offset st) (e_skip st) (e_tobuf st) buf2).
  assert (Hbuf2 : buf2 = if e_tobuf st
                         then write_at (e_buf st) (len - avail_out (e_strm st)) (z_out r)
                         else e_buf st).
  { unfold buf2. destruct (e_tobuf st); [|reflexivity].
    apply memcpy_write_at. destruct (Hbuf eq_refl). lia. }
  assert (Hfed2 : fed st2 (q + z_used r)).
  { assert (Hlen_in : Z.of_nat (length input) <= pos inp1 - q).
    { rewrite Hnext, length_take. lia. }
    unfold fed, st2, strm2. cbn [e_in e_strm next_in].
    split; [exact Hfile|]. split; [exact Hio|]. split; [exact Hferr|].
    split; [lia|]. split; [lia|].
    rewrite Hnext at 1. rewrite skipn_firstn_comm, drop_drop.
    f_equal; [lia|]. f_equal. lia. }
  assert (Hexit :
             ((z_ret r = Z_STREAM_END /\
               k + Z.of_nat (length (z_out r)) = Z.of_nat (length data)) \/
              (z_ret r <> Z_STREAM_END /\ avail_out (e_strm st2) = 0 /\
               q + z_used r < Z.of_nat (length file))) ->
             exists ret st' q' produced,
               ExtractExit (z_ret r) st2 = ExtractExit ret st' /\
               fed st' q' /\
               resumes (state (e_strm st')) q' (k + Z.of_nat (length produced)) /\
               produced = take (length produced) (drop (Z.to_nat k) data) /\
               avail_out (e_strm st')
               = avail_out (e_strm st) - Z.of_nat (length produced) /\
               0 <= avail_out (e_strm st') /\
               ((ret = Z_STREAM_END /\
                 k + Z.of_nat (length produced) = Z.of_nat (length data)) \/
                (ret <> Z_STREAM_END /\ avail_out (e_strm st') = 0 /\
                 q' < Z.of_nat (length file))) /\
               e_offset st' = e_offset st /\ e_skip st' = e_skip st /\
               e_tobuf st' = e_tobuf st /\
               e_buf st' = if e_tobuf st
                           then write_at (e_buf st) (len - avail_out (e_strm st)) produced
                           else e_buf st).
  { intros Hcase.
    exists (z_ret r), st2, (q + z_used r), (z_out r).
    split; [reflexivity|]. split; [exact Hfed2|]. split; [exact Hres'|].
    split; [exact Hpre|]. split; [reflexivity|].
    split; [cbn [st2 strm2 e_strm avail_out]; lia|].
    split; [exact Hcase|]. repeat split. exact Hbuf2. }
  destruct (z_ret r =? Z_STREAM_END) eqn:Hse.
  { apply Z.eqb_eq in Hse. apply Hexit.
    left. split; [exact Hse|]. apply Hend. exact Hse. }
  apply Z.eqb_neq in Hse. destruct (Hprog Hse) as [Hprogress Hmore].
  change (avail_out (e_strm st) - Z.of_nat (length (z_out r)) =? 0)
    with (avail_out strm2 =? 0).
  destruct (avail_out strm2 =? 0) eqn:Hfull.
  { apply Z.eqb_eq in Hfull. apply Hexit.
    right. split; [exact Hse|]. split; [exact Hfull|exact Hmore]. }
  apply Z.eqb_neq in Hfull. clear Hexit.
  assert (Hall : z_used r = Z.of_nat (length input)).
  { destruct Hprogress as [H|H]; [exact H|]. cbn [strm2 avail_out] in Hfull. lia. }
  assert (Hpos1 : 0 < Z.of_nat (length input)).
  { destruct input; [contradiction|]. cbn [length]. lia. }
  destruct (IH st2 (q + z_used r) (k + Z.of_nat (length (z_out r))))
    as (ret & st' & q' & rest & Hrun & Hfed' & Hres2 & Hpre2 & Hav2 & Hav2' & Hcase
        & Hoff & Hskip & Htobuf & Hbuf');
    try assumption; try lia.
  - cbn [st2 strm2 e_strm avail_out]. lia.
  - intros Htb. cbn [st2 strm2 e_strm avail_out e_buf e_tobuf] in *.
    destruct (Hbuf Htb) as [Hb1 Hb2]. split; [lia|].
    rewrite Hbuf2, Htb, write_at_length; lia.
  - exists ret, st', q', (z_out r ++ rest).
    rewrite length_app, Nat2Z.inj_add, Z.add_assoc.
    split; [exact Hrun|]. split; [exact Hfed'|]. split; [exact Hres2|].
    split.
    { rewrite <- length_app. apply take_prefix_app; [exact Hpre|].
      replace (Z.to_nat k + length (z_out r))%nat
        with (Z.to_nat (k + Z.of_nat (length (z_out r))))
        by (rewrite Z2Nat.inj_add, Nat2Z.id
              by (first [exact Hk|apply Nat2Z.is_nonneg]); reflexivity).
      exact Hpre2. }
    split; [rewrite Hav2; cbn [st2 strm2 e_strm avail_out]; lia|].
    split; [exact Hav2'|]. split; [exact Hcase|].
    split; [exact Hoff|]. split; [exact Hskip|]. split; [exact Htobuf|].
    rewrite Hbuf'. cbn [st2 e_tobuf e_buf e_strm strm2 avail_out].
    destruct (e_tobuf st) eqn:Htb; [|rewrite Hbuf2; reflexivity].
    rewrite Hbuf2. destruct (Hbuf eq_refl) as [Hb1 Hb2].
    replace (len - (avail_out (e_strm st) - Z.of_nat (length (z_out r))))
      with (len - avail_out (e_strm st) + Z.of_nat (length (z_out r))) by lia.
    apply write_at_app; lia.
Qed.

Lemma extract_outer_unfold (fuel ifuel : nat) (len : Z) (st : estate zstate) :
  extract_outer (S fuel) ifuel len st =
  let st1 :=
    if (e_offset st =? 0) && e_skip st then
      mk_estate (e_in st) (set_avail_out (e_strm st) len) (e_offset st)
                false true (e_buf st)
    else st in
  let st2 :=
    if WINSIZE <? e_offset st1 then
      mk_estate (e_in st1) (set_avail_out (e_strm st1) WINSIZE)
                (e_offset st1 - WINSIZE) (e_skip st1) false (e_buf st1)
    else if negb (e_offset st1 =? 0) then
      mk_estate (e_in st1) (set_avail_out (e_strm st1) (e_offset st1 mod 2 ^ 32))
                0 (e_skip st1) false (e_buf st1)
    else st1 in
  match extract_inner ifuel len st2 with
  | ExtractFuel => ExtractFuel
  | ExtractError ret st3 => ExtractError ret st3
  | ExtractExit ret st3 =>
      if ret =? Z_STREAM_END then ExtractExit ret st3
      else if e_skip st3 then extract_outer fuel ifuel len st3
      else ExtractExit ret st3
  end.
Proof. reflexivity. Qed.

(** The outer loop of [extract], entered while skipping with [e_offset]
    bytes to go before position [o]: it leaves with the bytes of [data]
    from [o] in the buffer, and the count of them to return. *)
Lemma extract_outer_spec (len : Z) (ifuel : nat) (o : Z) (fuel : nat) :
  (length file < ifuel)%nat ->
  forall (st : estate zstate) (q k : Z),
    fed st q -> resumes (state (e_strm st)) q k ->
    q < Z.of_nat (length file) -> 0 <= k <= Z.of_nat (length data) ->
    0 <= e_offset st -> k + e_offset st = o ->
    e_skip st = true -> e_tobuf st = false ->
    0 <= len <= Z.of_nat (length (e_buf st)) ->
    (Z.to_nat (e_offset st) < fuel)%nat ->
    exists ret st',
      extract_outer fuel ifuel len st = ExtractExit ret st' /\
      (if e_skip st' then 0 else len - avail_out (e_strm st')) = clipped o len /\
      e_buf st' = write_at (e_buf st) 0
                    (take (Z.to_nat (clipped o len)) (drop (Z.to_nat o) data)) /\
      exists q', fed st' q'.
Proof.
  intros Hifuel.
  induction fuel as [|fuel IH];
    intros st q k Hfed Hres Hq Hk Hoff Ho Hskip Htobuf Hlen Hfuel; [lia|].
  rewrite extract_outer_unfold. cbv zeta. rewrite Hskip, andb_true_r.
  pose proof Hfed as (_ & _ & _ & Hq0 & _).
  destruct (e_offset st =? 0) eqn:H0.
  - (* at offset now *)
    apply Z.eqb_eq in H0. cbn [e_offset]. rewrite H0.
    assert ((WINSIZE <? 0) = false) as -> by reflexivity.
    cbn [Z.eqb negb].
    set (st1 := mk_estate (e_in st) (set_avail_out (e_strm st) len) 0 false true (e_buf st)).
    destruct (extract_inner_spec len ifuel st1 q k)
      as (ret & st' & q' & produced & Hrun & Hfed' & _ & Hpre & Hav & Hav' & Hcase
          & _ & Hskip' & _ & Hbuf');
      try assumption; try (cbn [st1 e_strm set_avail_out avail_out state]; lia);
      try (cbn [st1 e_strm set_avail_out avail_out e_buf]; intros _; lia).
    rewrite Hrun. cbn [st1 e_skip e_tobuf e_buf e_strm set_avail_out avail_out] in *.
    assert (Hk' : k = o) by lia. subst k.
    assert (Hple : Z.of_nat (length produced) <= Z.of_nat (length data) - o).
    { pose proof (f_equal length Hpre) as Hl.
      rewrite length_take, length_drop in Hl. lia. }
    assert (Hn : Z.of_nat (length produced) = clipped o len).
    { unfold clipped. destruct Hcase as [[_ He]|[_ [Hz _]]]; lia. }
    assert (Hfinal : (if e_skip st' then 0 else len - avail_out (e_strm st'))
                     = clipped o len
                     /\ e_buf st' = write_at (e_buf st) 0
                          (take (Z.to_nat (clipped o len)) (drop (Z.to_nat o) data))
                     /\ exists q', fed st' q').
    { rewrite Hskip', Hav, Hbuf', Z.sub_diag, <- Hn, Nat2Z.id, <- Hpre.
      split; [lia|]. split; [reflexivity|]. exists q'. exact Hfed'. }
    destruct (ret =? Z_STREAM_END).
    + exists ret, st'. split; [reflexivity|exact Hfinal].
    + rewrite Hskip'. exists ret, st'. split; [reflexivity|exact Hfinal].
  - (* still skipping *)
    apply Z.eqb_neq in H0.
    set (a := if WINSIZE <? e_offset st then WINSIZE else e_offset st).
    set (rest := if WINSIZE <? e_offset st then e_offset st - WINSIZE else 0).
    assert (Ha : 0 < a <= e_offset st /\ a <= WINSIZE /\ a + rest = e_offset st
                 /\ 0 <= rest).
    { unfold a, rest. destruct (WINSIZE <? e_offset st) eqn:Hw.
      - apply Z.ltb_lt in Hw. unfold WINSIZE in *. lia.
      - apply Z.ltb_ge in Hw. lia. }
    set (st2 := mk_estate (e_in st) (set_avail_out (e_strm st) a) rest true false
                          (e_buf st)).
    assert (Hst2 : (if WINSIZE <? e_offset st
                    then mk_estate (e_in st) (set_avail_out (e_strm st) WINSIZE)
                           (e_offset st - WINSIZE) (e_skip st) false (e_buf st)
                    else if negb (e_offset st =? 0)
                         then mk_estate (e_in st)
                                (set_avail_out (e_strm st) (e_offset st mod 2 ^ 32))
                                0 (e_skip st) false (e_buf st)
                         else st) = st2).
    { unfold st2, a, rest. rewrite Hskip. destruct (WINSIZE <? e_offset st) eqn:Hw.
      - reflexivity.
      - apply Z.ltb_ge in Hw. apply Z.eqb_neq in H0. rewrite H0. cbn [negb].
        rewrite Z.mod_small; [reflexivity|]. unfold WINSIZE in Hw. lia. }
    rewrite Hst2.
    destruct (extract_inner_spec len ifuel st2 q k)
      as (ret & st' & q' & produced & Hrun & Hfed' & Hres' & Hpre & Hav & Hav' & Hcase
          & Hoff' & Hskip' & Htobuf' & Hbuf');
      try assumption; try (cbn [st2 e_strm set_avail_out avail_out state]; lia);
      try (cbn [st2 e_tobuf]; discriminate).
    rewrite Hrun. cbn [st2 e_skip e_tobuf e_buf e_strm set_avail_out avail_out e_offset] in *.
    assert (Hple : Z.of_nat (length produced) <= Z.of_nat (length data) - k).
    { pose proof (f_equal length Hpre) as Hl.
      rewrite length_take, length_drop in Hl. lia. }
    destruct Hcase as [[Hend Hall]|[Hne [Hzero Hq']]].
    + (* the stream ended before the offset was passed *)
      apply Z.eqb_eq in Hend as Hend'. rewrite Hend'.
      exists ret, st'. split; [reflexivity|].
      assert (Hn : clipped o len = 0) by (unfold clipped; lia).
      rewrite Hskip', Hbuf', Hn. change (Z.to_nat 0) with 0%nat.
      rewrite take_0, write_at_nil.
      split; [reflexivity|]. split; [reflexivity|]. exists q'. exact Hfed'.
    + apply Z.eqb_neq in Hne as Hne'. rewrite Hne', Hskip'. rewrite <- Hbuf'.
      apply (IH st' q' (k + Z.of_nat (length produced))); try assumption; try lia.
      rewrite Hbuf'. exact Hlen.
Qed.

(** The start of [extract] at a valid access point, on a file that reads
    without error. *)
Lemma extract_start_valid (inp : FILE) (here : point) (o : Z) (buf : list uchar) :
  fst (inflateInit2 (-15)) = Z_OK ->
  contents inp = file -> ioerr inp = false -> ferror inp = false ->
  (forall b, b ∈ file -> 0 <= b) ->
  valid_point file data resumes here ->
  extract_start inp here o buf
  = inr (mk_estate (mkFILE file (in_ here) false false)
           (mk_z_stream [] 0 0 (start_state file here))
           (o - out here) true false buf).
Proof.
  intros Hinit Hfile Hio Hferr Hbytes (Hout & Hin & Hbits & _).
  unfold extract_start, start_state.
  destruct (inflateInit2 (-15)) as [ret s0]. cbn [fst snd] in *. subst ret.
  cbn [Z.eqb negb Z_OK].
  destruct (bits here =? 0) eqn:Hb; cbn [negb].
  - unfold fseeko. rewrite Z.sub_0_r.
    assert ((in_ here <? 0) = false) as -> by lia.
    cbn [Z.eqb]. rewrite Hfile, Hio, Hferr. reflexivity.
  - apply Z.eqb_neq in Hb. specialize (Hbits Hb).
    unfold fseeko. assert ((in_ here - 1 <? 0) = false) as -> by lia.
    cbn [Z.eqb]. unfold getc. cbn [ioerr contents pos ferror]. rewrite Hio, Hfile.
    destruct (file !! Z.to_nat (in_ here - 1)) as [b|] eqn:Hbyte.
    + assert (Hb0 : 0 <= b) by (apply Hbytes; eapply list_elem_of_lookup_2; eauto).
      assert ((b =? -1) = false) as -> by (apply Z.eqb_neq; lia).
      rewrite (nth_lookup_Some _ _ _ _ Hbyte), Hferr.
      replace (in_ here - 1 + 1) with (in_ here) by lia. reflexivity.
    + apply lookup_ge_None in Hbyte. exfalso. unfold uchar in *. lia.
Qed.

End Extract.

(** *** The sliding window of build_index *)

(** X14. [chronological left buf] is the content of the circular buffer in
    the order it was written: a call of [inflate] that writes [produced] at
    the write position [WINSIZE - left], as in the inner loop of
    [build_index], drops the oldest bytes and appends [produced]. *)
Lemma chronological_write (left : Z) (buf produced : list uchar) :
  0 <= left <= WINSIZE -> Z.of_nat (length buf) = WINSIZE ->
  Z.of_nat (length produced) <= left ->
  chronological (left - Z.of_nat (length produced))
    (memcpy buf (WINSIZE - left) produced 0 (Z.of_nat (length produced)))
  = drop (length produced) (chronological left buf) ++ produced.
Proof.
  intros Hleft Hlen Hfit. rewrite memcpy_write_at by lia.
  unfold chronological, write_at.
  set (w := Z.to_nat (WINSIZE - left)).
  set (n := length produced).
  replace (Z.to_nat (WINSIZE - (left - Z.of_nat n))) with (w + n)%nat by lia.
  assert (Hw : (w + n <= length buf)%nat) by lia.
  assert (Hpre : length (take w buf ++ produced) = (w + n)%nat)
    by (rewrite length_app, length_take; lia).
  rewrite app_assoc.
  rewrite drop_app_length' by (symmetry; exact Hpre).
  rewrite take_app_length' by (symmetry; exact Hpre).
  rewrite drop_app_le by (rewrite length_drop; lia).
  rewrite drop_drop, <- !app_assoc. reflexivity.
Qed.

(** Resetting [avail_out] from 0 to [WINSIZE] changes nothing. *)
Lemma chronological_reset (buf : list uchar) :
  Z.of_nat (length buf) = WINSIZE ->
  chronological WINSIZE buf = chronological 0 buf.
Proof.
  intros Hlen. unfold chronological. rewrite Z.sub_diag, Z.sub_0_r.
  change (Z.to_nat 0) with 0%nat.
  rewrite drop_0, take_0, app_nil_r, drop_ge, take_ge by lia. reflexivity.
Qed.

(** *** The inflater for literal bytes meets the contract *)

Lemma plain_copy_spec (data rest : list uchar) (k n used0 : Z) (m : nat) :
  0 <= k <= Z.of_nat (length data) -> 0 <= n -> 0 <= used0 ->
  rest = take m (drop (Z.to_nat k) data ++ [0]) ->
  let r := Plain.copy (Z.of_nat (length data) - k) rest n used0 in
  used0 <= z_used r <= used0 + Z.of_nat (length rest) /\
  Z.of_nat (length (z_out r)) <= n /\
  z_out r = take (length (z_out r)) (drop (Z.to_nat k) data) /\
  (z_ret r = Z_OK \/ z_ret r = Z_BUF_ERROR \/ z_ret r = Z_STREAM_END) /\
  z_used r = used0 + Z.of_nat (length (z_out r)) /\
  (z_ret r = Z_STREAM_END ->
     z_next r = Plain.Done /\
     k + Z.of_nat (length (z_out r)) = Z.of_nat (length data)) /\
  (z_ret r <> Z_STREAM_END ->
     z_next r = Plain.Copying (Z.of_nat (length data) - (k + Z.of_nat (length (z_out r)))) /\
     k + Z.of_nat (length (z_out r)) < Z.of_nat (length data) /\
     (z_used r = used0 + Z.of_nat (length rest) \/ Z.of_nat (length (z_out r)) = n)).
Proof.
  intros Hk Hn Hu Hrest. unfold Plain.copy.
  set (N := Z.of_nat (length data)) in *.
  set (c := Z.min (N - k) (Z.min (Z.of_nat (length rest)) n)).
  assert (Hc : 0 <= c <= N - k /\ c <= Z.of_nat (length rest) /\ c <= n) by lia.
  assert (Hlen : length (take (Z.to_nat c) rest) = Z.to_nat c)
    by (rewrite length_take; lia).
  assert (Hpre : take (Z.to_nat c) rest = take (Z.to_nat c) (drop (Z.to_nat k) data)).
  { rewrite Hrest, take_take.
    assert (Hm : (Z.to_nat c <= m)%nat).
    { rewrite Hrest, length_take in Hc. lia. }
    rewrite Nat.min_l by exact Hm.
    apply take_app_le. rewrite length_drop. unfold N in Hc. lia. }
  destruct (N - k - c =? 0) eqn:Hz; cbn [z_used z_out z_ret z_next]; rewrite Hlen.
  - apply Z.eqb_eq in Hz.
    split; [lia|]. split; [lia|]. split; [exact Hpre|].
    split; [right; right; reflexivity|]. split; [lia|].
    split; [intros _; split; [reflexivity|lia]|].
    intros Hne. contradiction.
  - apply Z.eqb_neq in Hz.
    split; [lia|]. split; [lia|]. split; [exact Hpre|].
    split; [destruct (used0 + c =? 0); [right; left|left]; reflexivity|].
    split; [lia|].
    split; [destruct (used0 + c =? 0); discriminate|].
    intros _. split; [f_equal; lia|]. lia.
Qed.

Lemma plain_inflate_resumes (data : list uchar) :
  inflate_resumes (ZL := Plain.zlib) (Plain.deflate data) data (Plain.resumes data).
Proof.
  intros s q k input n Hres [m Hin] Hne Hn. cbn [inflate Plain.zlib zstate] in *.
  assert (Hfile : length (Plain.deflate data) = S (length data + 1))
    by (unfold Plain.deflate; cbn [length]; rewrite length_app; reflexivity).
  destruct s as [|remaining|]; cbn [Plain.resumes] in Hres.
  - (* the length byte first *)
    destruct Hres as [-> ->]. change (Z.to_nat 0) with 0%nat in Hin.
    rewrite drop_0 in Hin. unfold Plain.deflate in Hin.
    destruct m as [|m]; [rewrite take_0 in Hin; contradiction|].
    cbn [take] in Hin. subst input. cbn [Plain.inflate length].
    destruct (plain_copy_spec data (take m (data ++ [0])) 0 n 1 m)
      as (Hused & Hout & Hpre & Hret & Hu & Hend & Hprog); try lia.
    { reflexivity. }
    rewrite Z.sub_0_r in *.
    set (r := Plain.copy (Z.of_nat (length data)) (take m (data ++ [0])) n 1) in *.
    assert (Hl : Z.of_nat (length (take m (data ++ [0]))) <= Z.of_nat (length data) + 1).
    { rewrite length_take, length_app. cbn [length]. lia. }
    split; [lia|]. split; [exact Hout|]. split; [exact Hpre|]. split; [exact Hret|].
    split; [|split].
    + destruct (Z.eq_dec (z_ret r) Z_STREAM_END) as [He|He].
      * destruct (Hend He) as [-> Hk]. cbn [Plain.resumes]. lia.
      * destruct (Hprog He) as (-> & Hk & _). cbn [Plain.resumes]. lia.
    + intros He. destruct (Hend He) as [_ Hk]. lia.
    + intros He. destruct (Hprog He) as (_ & Hk & Hp). split; [lia|]. unfold uchar in *. lia.
  - (* copying *)
    destruct Hres as (-> & Hk & ->).
    assert (Hdrop : drop (Z.to_nat (1 + k)) (Plain.deflate data)
                    = drop (Z.to_nat k) data ++ [0]).
    { unfold Plain.deflate. replace (Z.to_nat (1 + k)) with (S (Z.to_nat k)) by lia.
      cbn [drop]. apply drop_app_le. lia. }
    rewrite Hdrop in Hin. cbn [Plain.inflate].
    destruct (plain_copy_spec data input k n 0 m)
      as (Hused & Hout & Hpre & Hret & Hu & Hend & Hprog); try lia.
    { exact Hin. }
    set (r := Plain.copy (Z.of_nat (length data) - k) input n 0) in *.
    assert (Hl : Z.of_nat (length input) <= Z.of_nat (length data) - k + 1).
    { rewrite Hin, length_take, length_app, length_drop. cbn [length]. lia. }
    split; [lia|]. split; [exact Hout|]. split; [exact Hpre|]. split; [exact Hret|].
    split; [|split].
    + destruct (Z.eq_dec (z_ret r) Z_STREAM_END) as [He|He].
      * destruct (Hend He) as [-> Hk']. cbn [Plain.resumes]. lia.
      * destruct (Hprog He) as (-> & Hk' & _). cbn [Plain.resumes]. lia.
    + intros He. destruct (Hend He) as [_ Hk']. lia.
    + intros He. destruct (Hprog He) as (_ & Hk' & Hp). split; [lia|]. unfold uchar in *. lia.
  - (* done *)
    destruct Hres as [-> ->]. cbn [Plain.inflate z_used z_out z_ret z_next length].
    rewrite !Z.add_0_r.
    split; [lia|]. split; [lia|]. split; [reflexivity|].
    split; [right; right; reflexivity|]. split; [split; reflexivity|].
    split; [intros _; lia|]. intros He. contradiction.
Qed.

(** * Further properties of the code *)

(** ** findpoint on an index with equal neighbours, and the scan it replaces *)

Lemma filter_none {A : Type} (P : A -> Prop) `{!forall x, Decision (P x)} (l : list A) :
  (forall x, x ∈ l -> ~ P x) -> filter P l = [].
Proof.
  induction l as [|x l IH]; intros Hall; [reflexivity|].
  rewrite filter_cons_False by (apply Hall; left).
  apply IH. intros y Hy. apply Hall. right. exact Hy.
Qed.

(** X1. On an index ordered by [out], equal neighbours allowed, [findpoint]
    returns the last of the points with [out <= offset], and [NULL] when
    there is none: of several points with the same [out] it takes the one
    added last. *)
Theorem findpoint_last_of_filter (index : access) (offset : Z) :
  access_ok index -> sorted_by_out (list_ index) ->
  findpoint index offset = list.last (filter (fun p => out p <= offset) (list_ index)).
Proof.
  intros Hok Hsorted.
  pose proof (findpoint_spec index offset Hok Hsorted) as Hspec.
  destruct (findpoint index offset) as [p|].
  - destruct Hspec as (k & Hk & Hle & Hmax).
    rewrite <- (take_drop_middle _ _ _ Hk), filter_app, filter_cons_True by exact Hle.
    rewrite (filter_none _ (drop (S k) (list_ index))).
    + symmetry. apply last_snoc.
    + intros q Hq Hqle. apply list_elem_of_lookup in Hq as [j Hj].
      rewrite lookup_drop in Hj. specialize (Hmax _ _ Hj Hqle). lia.
  - rewrite filter_none; [reflexivity|].
    intros q Hq Hqle. apply list_elem_of_lookup in Hq as [j Hj].
    specialize (Hspec _ _ Hj). lia.
Qed.

Lemma findpoint_last_of_filter_witness :
  findpoint (mkaccess 3 4 [mkpoint 0 10 0 []; mkpoint 0 15 0 []; mkpoint 9 30 0 []]) 5
  = Some (mkpoint 0 15 0 []).
Proof.
  rewrite (findpoint_last_of_filter
             (mkaccess 3 4 [mkpoint 0 10 0 []; mkpoint 0 15 0 []; mkpoint 9 30 0 []]) 5).
  - reflexivity.
  - reflexivity.
  - intros i j p q Hi Hj Hij.
    destruct i as [|[|[|i]]]; destruct j as [|[|[|j]]]; cbn in Hi, Hj;
      try discriminate; try lia;
      injection Hi as <-; injection Hj as <-; cbn; lia.
Defined.

(** The loop of zran.c stops at a position whose successors, up to it, are
    all at or below [offset], and whose next point, if any, is above. *)
Lemma scan_loop_spec (l : list point) (offset : Z) (fuel : nat) :
  forall ret here,
    0 <= here -> 1 <= ret -> here + ret = Z.of_nat (length l) ->
    (Z.to_nat ret <= fuel)%nat ->
    exists i, scan_loop fuel l offset ret here = Returns i /\
      here <= i < Z.of_nat (length l) /\
      (forall (j : nat) q, here < Z.of_nat j <= i -> l !! j = Some q -> out q <= offset) /\
      (forall q, l !! Z.to_nat (i + 1) = Some q -> offset < out q).
Proof.
  induction fuel as [|fuel IH]; intros ret here Hhere Hret Hsum Hfuel; [lia|].
  cbn [scan_loop]. destruct (ret - 1 =? 0) eqn:Hz.
  - apply Z.eqb_eq in Hz. exists here. split; [reflexivity|]. split; [lia|]. split.
    + intros j q Hj. lia.
    + intros q Hq. apply lookup_lt_Some in Hq. lia.
  - apply Z.eqb_neq in Hz.
    destruct (l !! Z.to_nat (here + 1)) as [next|] eqn:Hnext.
    + destruct (out next <=? offset) eqn:Hle.
      * apply Z.leb_le in Hle.
        destruct (IH (ret - 1) (here + 1)) as (i & Hrun & Hi & Hbelow & Habove); try lia.
        exists i. split; [exact Hrun|]. split; [lia|]. split; [|exact Habove].
        intros j q Hj Hq.
        destruct (decide (Z.of_nat j = here + 1)) as [Heq|Hne].
        -- replace (Z.to_nat (here + 1)) with j in Hnext by lia. congruence.
        -- apply (Hbelow j q); [lia|exact Hq].
      * apply Z.leb_gt in Hle. exists here. split; [reflexivity|]. split; [lia|]. split.
        -- intros j q Hj. lia.
        -- intros q Hq. congruence.
    + apply lookup_ge_None in Hnext. lia.
Qed.

(** X2. [findpoint] against the scan of zran.c it replaces, on an index
    ordered by [out] with a first point [p0]: from [out p0] on they return
    the same point; below it [findpoint] returns [NULL], where the scan
    returns [p0]. *)
Theorem findpoint_agrees_with_scanpoint (index : access) (offset : Z) (p0 : point) :
  access_ok index -> sorted_by_out (list_ index) ->
  head (list_ index) = Some p0 ->
  (out p0 <= offset ->
     exists p, findpoint index offset = Some p /\ scanpoint index offset = Returns p) /\
  (offset < out p0 ->
     findpoint index offset = None /\ scanpoint index offset = Returns p0).
Proof.
  intros Hok Hsorted Hhead. red in Hok.
  assert (Hlen : 1 <= Z.of_nat (length (list_ index))).
  { destruct (list_ index); [discriminate|]. cbn [length]. lia. }
  rewrite head_lookup in Hhead.
  pose proof (findpoint_spec index offset Hok Hsorted) as Hspec.
  destruct (scan_loop_spec (list_ index) offset (S (Z.to_nat (have index))) (have index) 0)
    as (i & Hrun & Hi & Hbelow & Habove); try lia.
  unfold scanpoint. rewrite Hrun.
  destruct (list_ index !! Z.to_nat i) as [pi|] eqn:Hpi;
    [|apply lookup_ge_None in Hpi; lia].
  split.
  - intros Hle.
    destruct (findpoint index offset) as [p|].
    + exists p. split; [reflexivity|]. f_equal.
      destruct Hspec as (k & Hk & Hpk & Hmax).
      assert (Hpile : out pi <= offset).
      { destruct (decide (i = 0)) as [->|Hne].
        - change (Z.to_nat 0) with 0%nat in Hpi. congruence.
        - apply (Hbelow (Z.to_nat i) pi); [lia|exact Hpi]. }
      pose proof (Hmax _ _ Hpi Hpile) as Hik.
      destruct (decide (Z.to_nat i = k)) as [Heq|Hne]; [congruence|].
      exfalso.
      destruct (list_ index !! Z.to_nat (i + 1)) as [q|] eqn:Hq.
      * specialize (Habove q eq_refl).
        pose proof (Hsorted (Z.to_nat (i + 1)) k q p Hq Hk ltac:(lia)). lia.
      * apply lookup_ge_None in Hq. apply lookup_lt_Some in Hk. lia.
    + exfalso. specialize (Hspec _ _ Hhead). lia.
  - intros Hlt.
    assert (Hnone : findpoint index offset = None).
    { destruct (findpoint index offset) as [p|]; [|reflexivity].
      destruct Hspec as (k & Hk & Hpk & _).
      pose proof (Hsorted 0%nat k p0 p Hhead Hk ltac:(lia)). lia. }
    split; [exact Hnone|]. f_equal.
    destruct (decide (i = 0)) as [->|Hne].
    + change (Z.to_nat 0) with 0%nat in Hpi. congruence.
    + exfalso.
      pose proof (Hbelow (Z.to_nat i) pi ltac:(lia) Hpi).
      pose proof (Hsorted 0%nat (Z.to_nat i) p0 pi Hhead Hpi ltac:(lia)). lia.
Qed.

Lemma findpoint_agrees_with_scanpoint_witness :
  exists p,
    findpoint (mkaccess 3 4 [mkpoint 0 10 0 []; mkpoint 0 15 0 []; mkpoint 9 30 0 []]) 5
    = Some p /\
    scanpoint (mkaccess 3 4 [mkpoint 0 10 0 []; mkpoint 0 15 0 []; mkpoint 9 30 0 []]) 5
    = Returns p.
Proof.
  apply (findpoint_agrees_with_scanpoint
           (mkaccess 3 4 [mkpoint 0 10 0 []; mkpoint 0 15 0 []; mkpoint 9 30 0 []]) 5
           (mkpoint 0 10 0 [])).
  - reflexivity.
  - intros i j p q Hi Hj Hij.
    destruct i as [|[|[|i]]]; destruct j as [|[|[|j]]]; cbn in Hi, Hj;
      try discriminate; try lia;
      injection Hi as <-; injection Hj as <-; cbn; lia.
  - reflexivity.
  - cbn. lia.
Defined.

(** ** addpoint: the capacity of the list *)

(** X3. [addpoint] keeps the list within its allocation: given a list with
    [have <= size] entries filled, the index it returns has one entry
    more, still [have <= size], with [size] doubled when the list was
    full and 8 for a new list. *)
Theorem addpoint_within_capacity `{RT : Runtime} (index : option access)
        (bits0 in0 out0 left : Z) (buf : list uchar) (index' : access) :
  match index with
  | Some i => access_ok i /\ have i <= size_ i /\ 1 <= size_ i
  | None => True
  end ->
  addpoint index bits0 in0 out0 left buf = Some index' ->
  access_ok index' /\ have index' <= size_ index' /\ 1 <= size_ index' /\
  have index' = match index with Some i => have i | None => 0 end + 1 /\
  size_ index' = match index with
                 | Some i => if have i =? size_ i then 2 * size_ i else size_ i
                 | None => 8
                 end.
Proof.
  intros Hinv Hadd. unfold addpoint in Hadd. destruct index as [i|].
  - destruct Hinv as (Hok & Hle & Hsize). red in Hok.
    destruct (have i =? size_ i) eqn:Hfull.
    + apply Z.eqb_eq in Hfull.
      destruct (can_alloc _); [|discriminate]. injection Hadd as <-.
      unfold fill_entry, access_ok. cbn [have size_ list_].
      rewrite length_app, Z.shiftl_mul_pow2 by lia. cbn [length]. lia.
    + apply Z.eqb_neq in Hfull. injection Hadd as <-.
      unfold fill_entry, access_ok. cbn [have size_ list_].
      rewrite length_app. cbn [length]. lia.
  - destruct (can_alloc sizeof_access); [|discriminate].
    destruct (can_alloc _); [|discriminate]. injection Hadd as <-.
    unfold fill_entry, access_ok. cbn [have size_ list_ length app]. lia.
Qed.

Lemma addpoint_within_capacity_witness :
  exists index',
    addpoint (RT := Stored.runtime) (Some (mkaccess 1 1 [mkpoint 0 10 0 []])) 0 20 7 0 []
    = Some index' /\ have index' = 2 /\ size_ index' = 2.
Proof.
  destruct (addpoint (RT := Stored.runtime) (Some (mkaccess 1 1 [mkpoint 0 10 0 []]))
              0 20 7 0 []) as [index'|] eqn:Hadd.
  - exists index'. split; [reflexivity|].
    destruct (addpoint_within_capacity (RT := Stored.runtime)
                (Some (mkaccess 1 1 [mkpoint 0 10 0 []])) 0 20 7 0 [] index')
      as (_ & _ & _ & Hhave & Hsize).
    + cbn. unfold access_ok. cbn. lia.
    + exact Hadd.
    + split; [exact Hhave|exact Hsize].
  - exfalso. unfold addpoint in Hadd. cbn in Hadd. discriminate.
Defined.

(** ** build_index: the first access point *)

Section BuildFirst.

Context `{RT : Runtime} `{ZL : Zlib}.
Variable in_header : zstate -> Prop.
Hypothesis Hheader : starts_at_boundary in_header.

Lemma addpoint_head (index : option access) (bits0 in0 out0 left : Z)
      (buf : list uchar) (index' : access) :
  addpoint index bits0 in0 out0 left buf = Some index' ->
  match index with
  | Some i =>
      forall p0, head (list_ i) = Some p0 -> head (list_ index') = Some p0
  | None => exists p0, head (list_ index') = Some p0 /\ out p0 = out0
  end.
Proof.
  intros Hadd. unfold addpoint in Hadd. destruct index as [i|].
  - assert (Hlist : exists p, list_ index' = list_ i ++ [p]).
    { destruct (have i =? size_ i).
      - destruct (can_alloc _); [|discriminate]. injection Hadd as <-.
        eexists. reflexivity.
      - injection Hadd as <-. eexists. reflexivity. }
    destruct Hlist as [p ->]. intros p0 Hp0.
    destruct (list_ i); [discriminate|]. exact Hp0.
  - destruct (can_alloc sizeof_access); [|discriminate].
    destruct (can_alloc _); [|discriminate]. injection Hadd as <-.
    eexists. split; reflexivity.
Qed.

Lemma build_inner_first_at_zero (span : Z) (fuel : nat) :
  forall st ret st',
    first_at_zero in_header st ->
    build_inner fuel span st = BuildExit ret st' ->
    first_at_zero in_header st'.
Proof.
  induction fuel as [|fuel IH]; intros st ret st' Hinv Hrun; [discriminate|].
  cbn [build_inner] in Hrun. unfold inflate_call in Hrun.
  set (strm1 := if avail_out (b_strm st) =? 0
                then set_avail_out (b_strm st) WINSIZE else b_strm st) in *.
  assert (Hstate : state strm1 = state (b_strm st))
    by (unfold strm1; destruct (avail_out (b_strm st) =? 0); reflexivity).
  set (r := inflate (state strm1) (next_in strm1) (avail_out strm1) Z_BLOCK) in *.
  set (strm2 := mk_z_stream (drop (Z.to_nat (z_used r)) (next_in strm1))
                            (avail_out strm1 - Z.of_nat (length (z_out r)))
                            (z_data_type r) (z_next r)) in *.
  set (window2 := memcpy (b_window st) (WINSIZE - avail_out strm1) (z_out r) 0
                         (Z.of_nat (length (z_out r)))) in *.
  set (totin2 := totin st + avail_in strm1 - avail_in strm2) in *.
  set (totout2 := totout st + avail_out strm1 - avail_out strm2) in *.
  set (ret1 := if z_ret r =? Z_NEED_DICT then Z_DATA_ERROR else z_ret r) in *.
  destruct ((ret1 =? Z_MEM_ERROR) || (ret1 =? Z_DATA_ERROR)) eqn:Herr; [discriminate|].
  apply orb_false_elim in Herr as [Hmem Hdata].
  apply Z.eqb_neq in Hmem. apply Z.eqb_neq in Hdata.
  assert (Hhead : b_index st = None ->
                  z_ret r <> Z_STREAM_END /\ totout2 = 0 /\
                  (in_header (z_next r) \/
                   want_point (data_type strm2) totout2 (last st) span = true)).
  { intros Hnone. unfold first_at_zero in Hinv. rewrite Hnone in Hinv.
    destruct Hinv as [Hin Htot]. destruct Hheader as [_ Hstep].
    destruct (Hstep (state strm1) (next_in strm1) (avail_out strm1)) as (Hout & Hne & Hcase).
    { rewrite Hstate. exact Hin. }
    fold r in Hout, Hne, Hcase.
    assert (Htot2 : totout2 = 0).
    { unfold totout2. cbn [strm2 avail_out]. rewrite Hout. cbn [length]. lia. }
    split; [exact Hne|]. split; [exact Htot2|].
    unfold ret1 in Hmem, Hdata.
    destruct Hcase as [He|[He|[He|[Hin'|[H128 H64]]]]].
    - rewrite He in Hdata. exfalso. apply Hdata. reflexivity.
    - rewrite He in Hmem. exfalso. apply Hmem. reflexivity.
    - rewrite He in Hdata. exfalso. apply Hdata. reflexivity.
    - left. exact Hin'.
    - right. unfold want_point. cbn [strm2 data_type]. rewrite H128, H64, Htot2.
      reflexivity. }
  destruct (ret1 =? Z_STREAM_END) eqn:Hend.
  { injection Hrun as _ <-. unfold first_at_zero in *. cbn [b_index].
    destruct (b_index st) as [i|] eqn:Hidx; [exact Hinv|].
    exfalso. destruct (Hhead eq_refl) as (Hne & _).
    apply Z.eqb_eq in Hend. unfold ret1 in Hend.
    destruct (z_ret r =? Z_NEED_DICT); [discriminate|]. contradiction. }
  destruct (want_point (data_type strm2) totout2 (last st) span) eqn:Hwant.
  - destruct (addpoint _ _ _ _ _ _) as [index'|] eqn:Hadd; [|discriminate].
    assert (Hnew : first_at_zero in_header
                     (mk_bstate strm2 totin2 totout2 totout2 (Some index') window2
                        (b_events st ++ [mk_event (data_type strm2) totin2 totout2
                                                  (avail_out strm2)]))).
    { unfold first_at_zero in *. cbn [b_index].
      apply addpoint_head in Hadd.
      destruct (b_index st) as [i|] eqn:Hidx.
      - destruct Hinv as (p0 & Hp0 & Hout0). exists p0. split; [|exact Hout0].
        apply Hadd. exact Hp0.
      - destruct Hadd as (p0 & Hp0 & Hout0). exists p0. split; [exact Hp0|].
        destruct (Hhead eq_refl) as (_ & Htot2 & _). congruence. }
    destruct (avail_in strm2 =? 0).
    + injection Hrun as _ <-. exact Hnew.
    + exact (IH _ _ _ Hnew Hrun).
  - assert (Hnew : first_at_zero in_header
                     (mk_bstate strm2 totin2 totout2 (last st) (b_index st) window2
                        (b_events st ++ [mk_event (data_type strm2) totin2 totout2
                                                  (avail_out strm2)]))).
    { unfold first_at_zero in *. cbn [b_index b_strm state totout].
      destruct (b_index st) as [i|] eqn:Hidx; [exact Hinv|].
      destruct (Hhead eq_refl) as (_ & Htot2 & [Hin'|Hw]); [|congruence].
      split; [exact Hin'|exact Htot2]. }
    destruct (avail_in strm2 =? 0).
    + injection Hrun as _ <-. exact Hnew.
    + exact (IH _ _ _ Hnew Hrun).
Qed.

Lemma build_outer_first_at_zero (span : Z) (ifuel fuel : nat) :
  forall inp st st',
    first_at_zero in_header st ->
    build_outer fuel ifuel span inp st = Returns (Z_STREAM_END, st') ->
    first_at_zero in_header st'.
Proof.
  induction fuel as [|fuel IH]; intros inp st st' Hinv Hrun; [discriminate|].
  cbn [build_outer] in Hrun.
  destruct (fread inp CHUNK) as [inp1 input].
  destruct (ferror inp1); [discriminate|].
  destruct (Z.of_nat (length input) =? 0); [discriminate|].
  destruct (build_inner ifuel span _) as [ret st1|ret|] eqn:Hinner; try discriminate.
  - apply build_inner_first_at_zero in Hinner; [|exact Hinv].
    destruct (ret =? Z_STREAM_END) eqn:Hend.
    + injection Hrun as _ <-. exact Hinner.
    + exact (IH inp1 st1 st' Hinner Hrun).
  - apply build_inner_error in Hinner. injection Hrun as -> _.
    destruct Hinner; discriminate.
Qed.

(** X4. Under zlib's contract that [inflate (_, Z_BLOCK)] returns at the
    end of the header and writes no more than [avail_out] bytes, the index
    [build_index] returns starts with a point at [out = 0], so that
    [findpoint] finds a point for every offset from 0 on. *)
Theorem build_index_covers_offsets (fuel : nat) (inp : FILE) (span n : Z)
        (index : access) :
  0 <= span -> inflate_within_bounds ->
  build_index fuel inp span = Returns (n, Some index) ->
  (exists p0, head (list_ index) = Some p0 /\ out p0 = 0) /\
  forall offset, 0 <= offset ->
    exists p, findpoint index offset = Some p /\ out p <= offset.
Proof.
  intros Hspan Hbound Hrun.
  destruct (build_index_returns _ _ _ _ _ Hrun)
    as (s & st & index0 & Hs & Hout & Hidx & -> & ->).
  assert (Hfirst : first_at_zero in_header st).
  { eapply build_outer_first_at_zero; [|exact Hout].
    unfold first_at_zero, build_start. cbn [b_index b_strm state totout].
    split; [|reflexivity]. destruct Hheader as [H0 _]. apply H0. exact Hs. }
  assert (Hinv : build_inv span st).
  { eapply build_outer_inv; [exact Hbound| |exact Hout].
    unfold build_inv, build_start. cbn [b_strm avail_out b_window last totout b_index].
    rewrite length_uninit. unfold WINSIZE. repeat split; lia. }
  unfold first_at_zero in Hfirst. rewrite Hidx in Hfirst.
  destruct Hinv as (_ & _ & _ & Hgood). rewrite Hidx in Hgood.
  destruct Hgood as (Hok & _ & _ & Hsp). cbn [list_].
  split; [exact Hfirst|]. intros offset Hoff.
  destruct Hfirst as (p0 & Hp0 & Hout0).
  pose proof (findpoint_spec (mkaccess (have index0) (have index0) (list_ index0)) offset
                Hok (spaced_sorted span _ Hspan Hsp)) as Hspec.
  destruct (findpoint _ offset) as [p|].
  - destruct Hspec as (k & _ & Hle & _). exists p. split; [reflexivity|exact Hle].
  - exfalso. cbn [list_] in Hspec. rewrite head_lookup in Hp0.
    specialize (Hspec _ _ Hp0). lia.
Qed.

End BuildFirst.

Lemma build_index_covers_offsets_witness :
  exists index,
    build_index (RT := Stored.runtime) (ZL := Stored.zlib) 50
      (Stored.fopen Stored.blocks_3_4_1) 2 = Returns (3, Some index) /\
    exists p, findpoint index 5 = Some p /\ out p <= 5.
Proof.
  assert (Hrun : exists index,
             build_index (RT := Stored.runtime) (ZL := Stored.zlib) 50
               (Stored.fopen Stored.blocks_3_4_1) 2 = Returns (3, Some index)).
  { eexists. lazy -[memcpy uninit]. reflexivity. }
  destruct Hrun as (index & Hrun).
  assert (Hspan : 0 <= 2) by lia.
  destruct (build_index_covers_offsets (RT := Stored.runtime) (ZL := Stored.zlib)
              Stored.in_header stored_starts_at_boundary
              _ _ _ _ _ Hspan stored_inflate_within_bounds Hrun)
    as (_ & Hfind).
  exists index. split; [exact Hrun|]. apply Hfind. lia.
Defined.

(** ** build_index: how it fails *)

Section BuildFails.

Context `{RT : Runtime} `{ZL : Zlib}.

Lemma build_outer_codes (span : Z) (ifuel fuel : nat) :
  forall inp st ret st',
    build_outer fuel ifuel span inp st = Returns (ret, st') ->
    (ret = Z_STREAM_END \/ ret = Z_ERRNO \/ ret = Z_DATA_ERROR \/ ret = Z_MEM_ERROR) /\
    (ioerr inp = false -> ferror inp = false -> ret <> Z_ERRNO).
Proof.
  induction fuel as [|fuel IH]; intros inp st ret st' Hrun; [discriminate|].
  cbn [build_outer] in Hrun.
  destruct (fread inp CHUNK) as [inp1 input] eqn:Hread.
  assert (Hfile : ioerr inp = false -> ferror inp = false ->
                  ioerr inp1 = false /\ ferror inp1 = false).
  { intros Hio Hferr. rewrite (fread_ok _ _ Hio) in Hread. injection Hread as <- _.
    split; [reflexivity|exact Hferr]. }
  destruct (ferror inp1) eqn:Hf.
  { injection Hrun as <- _. split; [auto|]. intros Hio Hferr.
    destruct (Hfile Hio Hferr). congruence. }
  destruct (Z.of_nat (length input) =? 0).
  { injection Hrun as <- _. split; [auto|discriminate]. }
  destruct (build_inner ifuel span _) as [r st1|r|] eqn:Hinner; try discriminate.
  - destruct (r =? Z_STREAM_END) eqn:Hend.
    + injection Hrun as <- _. apply Z.eqb_eq in Hend. split; [auto|].
      intros _ _. rewrite Hend. discriminate.
    + destruct (IH _ _ _ _ Hrun) as [Hcodes Herrno]. split; [exact Hcodes|].
      intros Hio Hferr. destruct (Hfile Hio Hferr) as [Hio1 _]. apply Herrno; assumption.
  - apply build_inner_error in Hinner. injection Hrun as <- _.
    split; [destruct Hinner as [->| ->]; auto|].
    intros _ _. destruct Hinner as [->| ->]; discriminate.
Qed.

(** X5. When [build_index] fails it leaves [*built] unset and returns
    [Z_ERRNO], [Z_DATA_ERROR], [Z_MEM_ERROR] or the code of a failed
    [inflateInit2]; on a file that reads without error, with inflate
    initialized, the code is [Z_DATA_ERROR] or [Z_MEM_ERROR]. *)
Theorem build_index_failure_codes (fuel : nat) (inp : FILE) (span ret : Z) :
  build_index fuel inp span = Returns (ret, None) ->
  (ret = Z_ERRNO \/ ret = Z_DATA_ERROR \/ ret = Z_MEM_ERROR \/
   (ret = fst (inflateInit2 47) /\ ret <> Z_OK)) /\
  (ioerr inp = false -> ferror inp = false -> fst (inflateInit2 47) = Z_OK ->
   ret = Z_DATA_ERROR \/ ret = Z_MEM_ERROR).
Proof.
  unfold build_index. intros Hrun.
  destruct (inflateInit2 47) as [r0 s]. cbn [fst].
  destruct (r0 =? Z_OK) eqn:Hr0; cbn [negb] in Hrun.
  - apply Z.eqb_eq in Hr0.
    destruct (build_outer fuel fuel span inp (build_start s)) as [[r st]| |] eqn:Hout;
      try discriminate.
    destruct (build_outer_codes _ _ _ _ _ _ _ Hout) as [Hcodes Herrno].
    destruct (r =? Z_STREAM_END) eqn:Hend.
    + destruct (b_index st); [|discriminate].
      destruct (can_alloc _); discriminate.
    + injection Hrun as <-. apply Z.eqb_neq in Hend.
      split.
      * destruct Hcodes as [H|[H|[H|H]]]; auto. contradiction.
      * intros Hio Hferr _. specialize (Herrno Hio Hferr).
        destruct Hcodes as [H|[H|[H|H]]]; auto; contradiction.
  - injection Hrun as <-. apply Z.eqb_neq in Hr0. split.
    + right. right. right. split; [reflexivity|exact Hr0].
    + intros _ _ H. contradiction.
Qed.

(** X6. An empty file: [build_index] finds no input and fails with
    [Z_DATA_ERROR]; [seekgzip_build] reports it as [SEEKGZIP_ERROR] and
    does not open an index file. *)
Theorem seekgzip_build_empty_file `{IO : GzIO} (fuel : nat) (target : string) (f : FILE) :
  fopen target = Some f -> contents f = [] -> ioerr f = false -> ferror f = false ->
  fst (inflateInit2 47) = Z_OK ->
  build_index (S fuel) f SPAN = Returns (Z_DATA_ERROR, None) /\
  seekgzip_build (S fuel) target = Returns (SEEKGZIP_ERROR, None).
Proof.
  intros Hopen Hempty Hio Hferr Hinit.
  assert (Hbuild : build_index (S fuel) f SPAN = Returns (Z_DATA_ERROR, None)).
  { unfold build_index. destruct (inflateInit2 47) as [r0 s]. cbn [fst] in Hinit.
    subst r0. cbn [Z.eqb Z_OK negb build_outer].
    rewrite (fread_ok _ _ Hio), Hempty, drop_nil, take_nil, Hferr.
    reflexivity. }
  split; [exact Hbuild|].
  unfold seekgzip_build. rewrite Hopen, Hbuild.
  cbn [Z.ltb Z.compare Z_DATA_ERROR]. rewrite build_error_switch. reflexivity.
Qed.

End BuildFails.

Lemma build_index_failure_codes_witness :
  build_index (RT := Stored.runtime) (ZL := Stored.zlib) 50
    (Stored.fopen Stored.truncated) SPAN = Returns (Z_DATA_ERROR, None) /\
  (Z_DATA_ERROR = Z_DATA_ERROR \/ Z_DATA_ERROR = Z_MEM_ERROR).
Proof.
  assert (Hrun : build_index (RT := Stored.runtime) (ZL := Stored.zlib) 50
                   (Stored.fopen Stored.truncated) SPAN = Returns (Z_DATA_ERROR, None)).
  { lazy -[memcpy uninit]. reflexivity. }
  split; [exact Hrun|].
  apply (build_index_failure_codes (RT := Stored.runtime) (ZL := Stored.zlib)
           _ _ _ _ Hrun); reflexivity.
Defined.

Lemma seekgzip_build_empty_file_witness :
  seekgzip_build (RT := Stored.runtime) (ZL := Stored.zlib) (IO := Stored.gzio [] true)
    1 "empty.gz" = Returns (SEEKGZIP_ERROR, None).
Proof.
  apply (seekgzip_build_empty_file (RT := Stored.runtime) (ZL := Stored.zlib)
           (IO := Stored.gzio [] true) 0 "empty.gz" (Stored.fopen []));
    reflexivity.
Defined.

(** ** build_index: where it leaves defined behaviour *)

Section BuildUndefined.

Context `{RT : Runtime} `{ZL : Zlib}.
Variable in_header : zstate -> Prop.
Hypothesis Hheader : starts_at_boundary in_header.

(** X7. After its loops [build_index] reads [index->have] and shrinks the
    list with [realloc] without testing either pointer.  Under zlib's
    contract for the header the index is not [NULL] there, and the
    function leaves defined behaviour exactly when that [realloc] returns
    [NULL]. *)
Theorem build_index_undefined_iff (fuel : nat) (inp : FILE) (span : Z) :
  build_index fuel inp span = Undefined <->
  exists s st index,
    inflateInit2 47 = (Z_OK, s) /\
    build_outer fuel fuel span inp (build_start s) = Returns (Z_STREAM_END, st) /\
    b_index st = Some index /\
    can_alloc (sizeof_point * have index) = false.
Proof.
  unfold build_index. split.
  - intros Hrun.
    destruct (inflateInit2 47) as [ret s] eqn:Hinit.
    destruct (ret =? Z_OK) eqn:Hret; cbn [negb] in Hrun; [|discriminate].
    apply Z.eqb_eq in Hret. subst ret.
    destruct (build_outer fuel fuel span inp (build_start s)) as [[ret st]| |] eqn:Hout;
      try discriminate.
    + destruct (ret =? Z_STREAM_END) eqn:Hend; [|discriminate].
      apply Z.eqb_eq in Hend. subst ret.
      pose proof Hout as Hpoint.
      apply (build_outer_has_point in_header Hheader) in Hpoint.
      * destruct (b_index st) as [index|] eqn:Hidx; [|contradiction].
        destruct (can_alloc (sizeof_point * have index)) eqn:Halloc; [discriminate|].
        exists s, st, index. repeat split; assumption.
      * right. split; [|reflexivity]. destruct Hheader as [H0 _]. apply H0. exact Hinit.
    + exfalso. eapply build_outer_defined. exact Hout.
  - intros (s & st & index & Hinit & Hout & Hidx & Halloc).
    rewrite Hinit. cbn [Z.eqb Z_OK negb]. rewrite Hout.
    cbn [Z.eqb Z_STREAM_END Pos.eqb]. rewrite Hidx, Halloc. reflexivity.
Qed.

End BuildUndefined.

Lemma build_index_undefined_iff_witness :
  build_index (RT := no_single_point) (ZL := Stored.zlib) 50
    (Stored.fopen Stored.abc) SPAN = Undefined.
Proof.
  apply (build_index_undefined_iff (RT := no_single_point) (ZL := Stored.zlib)
           Stored.in_header stored_starts_at_boundary).
  eexists _, _, _. split; [reflexivity|].
  split; [lazy -[memcpy uninit]; reflexivity|].
  split; reflexivity.
Defined.

(** ** build_index: the compressed offsets of the points *)

Section BuildInput.

Context `{RT : Runtime} `{ZL : Zlib}.

Lemma build_inner_counts_input (span fetched : Z) (fuel : nat) :
  forall st ret st',
    counts_input fetched st ->
    build_inner fuel span st = BuildExit ret st' ->
    counts_input fetched st' /\
    (ret <> Z_STREAM_END -> next_in (b_strm st') = []).
Proof.
  induction fuel as [|fuel IH]; intros st ret st' Hinv Hrun; [discriminate|].
  cbn [build_inner] in Hrun. unfold inflate_call in Hrun.
  destruct Hinv as (Htotin & Hsum & Hpoints).
  set (strm1 := if avail_out (b_strm st) =? 0
                then set_avail_out (b_strm st) WINSIZE else b_strm st) in *.
  assert (Hin1 : next_in strm1 = next_in (b_strm st))
    by (unfold strm1; destruct (avail_out (b_strm st) =? 0); reflexivity).
  set (r := inflate (state strm1) (next_in strm1) (avail_out strm1) Z_BLOCK) in *.
  set (strm2 := mk_z_stream (drop (Z.to_nat (z_used r)) (next_in strm1))
                            (avail_out strm1 - Z.of_nat (length (z_out r)))
                            (z_data_type r) (z_next r)) in *.
  set (window2 := memcpy (b_window st) (WINSIZE - avail_out strm1) (z_out r) 0
                         (Z.of_nat (length (z_out r)))) in *.
  set (totin2 := totin st + avail_in strm1 - avail_in strm2) in *.
  set (totout2 := totout st + avail_out strm1 - avail_out strm2) in *.
  set (ret1 := if z_ret r =? Z_NEED_DICT then Z_DATA_ERROR else z_ret r) in *.
  assert (Hin2 : totin st <= totin2 /\
                 totin2 + Z.of_nat (length (next_in strm2)) = fetched).
  { unfold totin2, avail_in. cbn [strm2 next_in]. rewrite Hin1, length_drop. lia. }
  destruct ((ret1 =? Z_MEM_ERROR) || (ret1 =? Z_DATA_ERROR)); [discriminate|].
  destruct (ret1 =? Z_STREAM_END) eqn:Hend.
  { injection Hrun as <- <-. split.
    - unfold counts_input. cbn [totin b_strm b_index].
      split; [lia|]. split; [lia|]. intros o i b Hp. specialize (Hpoints o i b Hp). lia.
    - intros Hne. apply Z.eqb_eq in Hend. contradiction. }
  assert (Hexit : forall st2 : bstate zstate,
             b_strm st2 = strm2 -> counts_input fetched st2 ->
             (if avail_in strm2 =? 0 then BuildExit ret1 st2
              else build_inner fuel span st2) = BuildExit ret st' ->
             counts_input fetched st' /\
             (ret <> Z_STREAM_END -> next_in (b_strm st') = [])).
  { intros st2 Hstrm Hnew Hgo. destruct (avail_in strm2 =? 0) eqn:Hav.
    - injection Hgo as <- <-. split; [exact Hnew|]. intros _. rewrite Hstrm.
      apply Z.eqb_eq in Hav. unfold avail_in in Hav.
      destruct (next_in strm2); [reflexivity|cbn [length] in Hav; lia].
    - exact (IH _ _ _ Hnew Hgo). }
  destruct (want_point (data_type strm2) totout2 (last st) span).
  - destruct (addpoint _ _ _ _ _ _) as [index'|] eqn:Hadd; [|discriminate].
    match type of Hrun with context [BuildExit ret1 ?s] =>
      refine (Hexit s eq_refl _ Hrun) end.
    unfold counts_input. cbn [totin b_strm b_index].
    split; [lia|]. split; [lia|]. intros o i b Hp.
    rewrite (summary_addpoint _ _ _ _ _ _ _ Hadd) in Hp.
    apply elem_of_app in Hp as [Hp|Hp].
    + specialize (Hpoints o i b Hp). lia.
    + apply list_elem_of_singleton in Hp. injection Hp as _ -> _. lia.
  - match type of Hrun with context [BuildExit ret1 ?s] =>
      refine (Hexit s eq_refl _ Hrun) end.
    unfold counts_input. cbn [totin b_strm b_index].
    split; [lia|]. split; [lia|]. intros o i b Hp. specialize (Hpoints o i b Hp). lia.
Qed.

Lemma build_outer_counts_input (span : Z) (ifuel fuel : nat) :
  forall inp st st',
    0 <= pos inp <= Z.of_nat (length (contents inp)) ->
    counts_input (pos inp) st -> next_in (b_strm st) = [] ->
    build_outer fuel ifuel span inp st = Returns (Z_STREAM_END, st') ->
    exists fetched,
      counts_input fetched st' /\ fetched <= Z.of_nat (length (contents inp)).
Proof.
  induction fuel as [|fuel IH]; intros inp st st' Hpos Hinv Hnil Hrun; [discriminate|].
  cbn [build_outer] in Hrun.
  destruct (ioerr inp) eqn:Hio.
  { unfold fread in Hrun. rewrite Hio in Hrun. cbn [ferror] in Hrun. discriminate. }
  rewrite (fread_ok _ _ Hio) in Hrun. cbn [ferror] in Hrun.
  set (input := take (Z.to_nat CHUNK) (drop (Z.to_nat (pos inp)) (contents inp))) in *.
  set (inp1 := mkFILE (contents inp) (pos inp + Z.of_nat (length input)) false (ferror inp))
    in *.
  assert (Hpos1 : 0 <= pos inp1 <= Z.of_nat (length (contents inp1))).
  { cbn [inp1 pos contents]. unfold input. rewrite length_take, length_drop. lia. }
  destruct (ferror inp); [discriminate|].
  destruct (Z.of_nat (length input) =? 0); [discriminate|].
  destruct (build_inner ifuel span _) as [ret st1|ret|] eqn:Hinner; try discriminate.
  - apply (build_inner_counts_input span (pos inp1)) in Hinner as [Hinv1 Hnil1].
    + destruct (ret =? Z_STREAM_END) eqn:Hend.
      * injection Hrun as _ <-. exists (pos inp1). split; [exact Hinv1|apply Hpos1].
      * apply Z.eqb_neq in Hend.
        destruct (IH inp1 st1 st' Hpos1 Hinv1 (Hnil1 Hend) Hrun) as (F & HF & Hle).
        exists F. split; [exact HF|exact Hle].
    + destruct Hinv as (Htotin & Hsum & Hpoints).
      unfold counts_input. cbn [totin b_strm set_next_in next_in b_index inp1 pos].
      rewrite Hnil in Hsum. cbn [length] in Hsum.
      split; [lia|]. split; [lia|]. exact Hpoints.
  - apply build_inner_error in Hinner. injection Hrun as -> _.
    destruct Hinner; discriminate.
Qed.

Lemma build_outer_points_inside (fuel : nat) (inp : FILE) (span : Z) (s : zstate)
      (st : bstate zstate) (index : access) :
  pos inp = 0 ->
  build_outer fuel fuel span inp (build_start s) = Returns (Z_STREAM_END, st) ->
  b_index st = Some index ->
  forall p, p ∈ list_ index -> 0 <= in_ p <= Z.of_nat (length (contents inp)).
Proof.
  intros Hpos Hout Hidx p Hp.
  destruct (build_outer_counts_input span fuel fuel inp (build_start s) st)
    as (F & (Htotin & Hsum & Hpoints) & HF); try assumption.
  - lia.
  - rewrite Hpos. unfold counts_input, build_start.
    cbn [totin b_strm next_in b_index summary length].
    split; [lia|]. split; [lia|]. intros o i b Hin. apply elem_of_nil in Hin. contradiction.
  - reflexivity.
  - specialize (Hpoints (out p) (in_ p) (bits p)).
    rewrite Hidx in Hpoints. cbn [summary] in Hpoints.
    assert (Hmem : (out p, in_ p, bits p)
                   ∈ map (fun p => (out p, in_ p, bits p)) (list_ index)).
    { apply (list_elem_of_fmap_2 (fun p => (out p, in_ p, bits p))). exact Hp. }
    specialize (Hpoints Hmem). lia.
Qed.

(** X8. Every access point of the index [build_index] returns for a file
    read from its start lies inside the file: [0 <= in <= ] the length of
    the file, whatever [inflate] reports as consumed. *)
Theorem build_index_points_inside_file (fuel : nat) (inp : FILE) (span n : Z)
        (index : access) :
  pos inp = 0 ->
  build_index fuel inp span = Returns (n, Some index) ->
  forall p, p ∈ list_ index -> 0 <= in_ p <= Z.of_nat (length (contents inp)).
Proof.
  intros Hpos Hrun p Hp.
  destruct (build_index_returns _ _ _ _ _ Hrun)
    as (s & st & index0 & Hs & Hout & Hidx & -> & ->).
  exact (build_outer_points_inside _ _ _ _ _ _ Hpos Hout Hidx p Hp).
Qed.

End BuildInput.

Lemma build_index_points_inside_file_witness :
  exists index,
    build_index (RT := Stored.runtime) (ZL := Stored.zlib) 50
      (Stored.fopen Stored.blocks_3_4_1) 2 = Returns (3, Some index) /\
    forall p, p ∈ list_ index -> 0 <= in_ p <= 41.
Proof.
  assert (Hrun : exists index,
             build_index (RT := Stored.runtime) (ZL := Stored.zlib) 50
               (Stored.fopen Stored.blocks_3_4_1) 2 = Returns (3, Some index)).
  { eexists. lazy -[memcpy uninit]. reflexivity. }
  destruct Hrun as (index & Hrun). exists index. split; [exact Hrun|].
  exact (build_index_points_inside_file (RT := Stored.runtime) (ZL := Stored.zlib)
           50 (Stored.fopen Stored.blocks_3_4_1) 2 3 index eq_refl Hrun).
Defined.

(** ** extract: the caller's buffer and the value returned *)

Lemma fread_contents (f : FILE) (n : Z) : contents (fst (fread f n)) = contents f.
Proof. unfold fread. destruct (ioerr f); reflexivity. Qed.

Lemma fseeko_contents (f : FILE) (off : Z) : contents (fst (fseeko f off)) = contents f.
Proof. unfold fseeko. destruct (off <? 0); reflexivity. Qed.

Lemma getc_contents (f : FILE) : contents (fst (getc f)) = contents f.
Proof.
  unfold getc. destruct (ioerr f); [reflexivity|].
  destruct (contents f !! Z.to_nat (pos f)); reflexivity.
Qed.

Section ExtractBuffer.

Context `{ZL : Zlib}.
Hypothesis Hbound : inflate_within_bounds.
Variable file buf : list uchar.
Variable len : Z.
Hypothesis Hlen : 0 <= len <= Z.of_nat (length buf).

#[local] Abbreviation keeps := (keeps_buffer file buf len).

Lemma extract_inner_keeps (fuel : nat) :
  forall st,
    keeps st ->
    match extract_inner fuel len st with
    | ExtractExit ret st' =>
        keeps st' /\ e_skip st' = e_skip st /\ e_tobuf st' = e_tobuf st
    | ExtractError ret st' => keeps st' /\ error_code ret
    | ExtractFuel => True
    end.
Proof.
  induction fuel as [|fuel IH]; intros st Hinv; [exact I|].
  rewrite extract_inner_unfold.
  destruct Hinv as (Hfile & Hlength & Hdrop & Hav).
  set (refill := if avail_in (e_strm st) =? 0
                 then let '(inp1, input) := fread (e_in st) CHUNK in
                      (inp1, set_next_in (e_strm st) input, true)
                 else (e_in st, e_strm st, false)).
  assert (Hrefill : contents (fst (fst refill)) = file /\
                    avail_out (snd (fst refill)) = avail_out (e_strm st)).
  { unfold refill. destruct (avail_in (e_strm st) =? 0).
    - pose proof (fread_contents (e_in st) CHUNK) as Hc.
      destruct (fread (e_in st) CHUNK) as [inp1 input]. cbn [fst snd] in *.
      split; [congruence|reflexivity].
    - cbn [fst snd]. split; [exact Hfile|reflexivity]. }
  destruct refill as [[inp1 strm1] filled]. cbn [fst snd] in Hrefill.
  destruct Hrefill as [Hfile1 Hav1]. cbv zeta.
  destruct (filled && ferror inp1).
  { split; [|left; reflexivity].
    unfold keeps_buffer. cbn [e_in e_buf e_tobuf e_strm]. rewrite Hav1. tauto. }
  destruct (filled && (avail_in strm1 =? 0)).
  { split; [|right; left; reflexivity].
    unfold keeps_buffer. cbn [e_in e_buf e_tobuf e_strm]. rewrite Hav1. tauto. }
  unfold inflate_call.
  set (r := inflate (state strm1) (next_in strm1) (avail_out strm1) Z_NO_FLUSH).
  set (strm2 := mk_z_stream (drop (Z.to_nat (z_used r)) (next_in strm1))
                            (avail_out strm1 - Z.of_nat (length (z_out r)))
                            (z_data_type r) (z_next r)).
  set (buf2 := if e_tobuf st
               then memcpy (e_buf st) (len - avail_out strm1) (z_out r) 0
                           (Z.of_nat (length (z_out r)))
               else e_buf st).
  set (st2 := mk_estate inp1 strm2 (e_offset st) (e_skip st) (e_tobuf st) buf2).
  assert (Hnew : keeps st2).
  { unfold keeps_buffer. cbn [st2 e_in e_buf e_tobuf e_strm strm2 avail_out].
    split; [exact Hfile1|]. unfold buf2.
    destruct (e_tobuf st) eqn:Htobuf.
    - specialize (Hav eq_refl). rewrite Hav1.
      pose proof (Hbound (state strm1) (next_in strm1) (avail_out strm1) Z_NO_FLUSH
                         ltac:(lia)) as Hout.
      fold r in Hout. rewrite Hav1 in Hout.
      rewrite memcpy_write_at by lia.
      split; [|split].
      + rewrite write_at_length by lia. exact Hlength.
      + unfold write_at.
        assert (Hl1 : length (take (Z.to_nat (len - avail_out (e_strm st))) (e_buf st))
                      = Z.to_nat (len - avail_out (e_strm st)))
          by (rewrite length_take; lia).
        rewrite drop_app_ge by lia. rewrite Hl1.
        rewrite drop_app_ge by lia. rewrite drop_drop, <- Hdrop. f_equal. lia.
      + intros _. lia.
    - split; [exact Hlength|]. split; [exact Hdrop|]. discriminate. }
  set (ret1 := if z_ret r =? Z_NEED_DICT then Z_DATA_ERROR else z_ret r).
  destruct ((ret1 =? Z_MEM_ERROR) || (ret1 =? Z_DATA_ERROR)) eqn:Herr.
  { split; [exact Hnew|].
    apply orb_prop in Herr as [H|H]; apply Z.eqb_eq in H; rewrite H;
      [right; right|right; left]; reflexivity. }
  destruct (ret1 =? Z_STREAM_END).
  { split; [exact Hnew|]. split; reflexivity. }
  destruct (avail_out strm2 =? 0).
  { split; [exact Hnew|]. split; reflexivity. }
  specialize (IH st2 Hnew).
  destruct (extract_inner fuel len st2) as [ret st'|ret st'|]; [|exact IH|exact I].
  destruct IH as (Hk & Hs & Ht). split; [exact Hk|]. split; assumption.
Qed.

Lemma extract_outer_keeps (ifuel fuel : nat) :
  forall st,
    keeps st -> e_skip st = true ->
    match extract_outer fuel ifuel len st with
    | ExtractExit ret st' => keeps st' /\ (e_skip st' = false -> e_tobuf st' = true)
    | ExtractError ret st' => keeps st' /\ error_code ret
    | ExtractFuel => True
    end.
Proof.
  induction fuel as [|fuel IH]; intros st Hinv Hskip; [exact I|].
  rewrite extract_outer_unfold. cbv zeta. rewrite Hskip, andb_true_r.
  destruct Hinv as (Hfile & Hlength & Hdrop & Hav).
  set (st1 := if e_offset st =? 0
              then mk_estate (e_in st) (set_avail_out (e_strm st) len) (e_offset st)
                             false true (e_buf st)
              else st).
  set (st2 := if WINSIZE <? e_offset st1
              then mk_estate (e_in st1) (set_avail_out (e_strm st1) WINSIZE)
                             (e_offset st1 - WINSIZE) (e_skip st1) false (e_buf st1)
              else if negb (e_offset st1 =? 0)
                   then mk_estate (e_in st1)
                          (set_avail_out (e_strm st1) (e_offset st1 mod 2 ^ 32))
                          0 (e_skip st1) false (e_buf st1)
                   else st1).
  assert (H2 : keeps st2 /\ (e_skip st2 = false -> e_tobuf st2 = true)).
  { unfold st2, st1. destruct (e_offset st =? 0) eqn:H0.
    - apply Z.eqb_eq in H0. cbn [e_offset]. rewrite H0.
      assert ((WINSIZE <? 0) = false) as -> by reflexivity. cbn [Z.eqb negb].
      unfold keeps_buffer. cbn [e_in e_buf e_tobuf e_strm set_avail_out avail_out e_skip].
      repeat split; try assumption; lia.
    - destruct (WINSIZE <? e_offset st).
      + unfold keeps_buffer. cbn [e_in e_buf e_tobuf e_skip]. rewrite Hskip.
        repeat split; try assumption; discriminate.
      + rewrite H0. cbn [negb].
        unfold keeps_buffer. cbn [e_in e_buf e_tobuf e_skip]. rewrite Hskip.
        repeat split; try assumption; discriminate. }
  destruct H2 as [Hk2 Hs2].
  pose proof (extract_inner_keeps ifuel st2 Hk2) as Hinner.
  destruct (extract_inner ifuel len st2) as [ret st3|ret st3|]; [|exact Hinner|exact I].
  destruct Hinner as (Hk3 & Hskip3 & Htobuf3).
  assert (Hdone : keeps st3 /\ (e_skip st3 = false -> e_tobuf st3 = true)).
  { split; [exact Hk3|]. rewrite Hskip3, Htobuf3. exact Hs2. }
  destruct (ret =? Z_STREAM_END); [exact Hdone|].
  destruct (e_skip st3) eqn:Hs3.
  - apply IH; [exact Hk3|exact Hs3].
  - split; [exact Hk3|]. intros _. rewrite Htobuf3. apply Hs2. symmetry. exact Hskip3.
Qed.

Lemma extract_start_contents (inp : FILE) (here : point) (offset : Z) :
  contents inp = file ->
  match extract_start inp here offset buf with
  | inl (ret, inp1) =>
      contents inp1 = file /\
      (error_code ret \/ (ret = fst (inflateInit2 (-15)) /\ ret <> Z_OK))
  | inr st => keeps st /\ e_skip st = true
  end.
Proof.
  intros Hfile. unfold extract_start.
  destruct (inflateInit2 (-15)) as [ret s]. cbn [fst].
  destruct (ret =? Z_OK) eqn:Hret; cbn [negb].
  2:{ apply Z.eqb_neq in Hret. split; [exact Hfile|]. right. split; [reflexivity|exact Hret]. }
  pose proof (fseeko_contents inp (in_ here - (if negb (bits here =? 0) then 1 else 0)))
    as Hc1.
  destruct (fseeko inp _) as [inp1 r1]. cbn [fst] in Hc1.
  destruct (r1 =? -1) eqn:Hr1.
  { apply Z.eqb_eq in Hr1. split; [congruence|]. left. left. exact Hr1. }
  assert (Hstart : forall inp2 (s2 : zstate), contents inp2 = file ->
            keeps (mk_estate inp2 (mk_z_stream [] 0 0 s2) (offset - out here)
                             true false buf)).
  { intros inp2 s2 Hc. unfold keeps_buffer. cbn [e_in e_buf e_tobuf].
    repeat split; try assumption; discriminate. }
  destruct (negb (bits here =? 0)).
  - pose proof (getc_contents inp1) as Hc2.
    destruct (getc inp1) as [inp2 r2]. cbn [fst] in Hc2.
    destruct (r2 =? -1).
    + split; [congruence|]. left.
      destruct (ferror inp2); [left|right; left]; reflexivity.
    + split; [apply Hstart; congruence|reflexivity].
  - split; [apply Hstart; congruence|reflexivity].
Qed.

End ExtractBuffer.

(** X9. Given that [inflate] writes no more than [avail_out] bytes,
    [extract] with [len] no more than the size of the buffer leaves the
    buffer at its length, with its bytes from [len] on as they were, and the
    file with its content; the value it returns is a count between 0 and
    [len] or one of [Z_ERRNO], [Z_DATA_ERROR], [Z_MEM_ERROR] and the code of
    a failed [inflateInit2]. *)
Theorem extract_stays_in_buffer `{ZL : Zlib} (fuel : nat) (inp : FILE) (index : access)
        (offset : Z) (buf : list uchar) (len ret : Z) (buf' : list uchar) (inp' : FILE) :
  inflate_within_bounds -> len <= Z.of_nat (length buf) ->
  extract fuel inp index offset buf len = Returns (ret, buf', inp') ->
  length buf' = length buf /\
  drop (Z.to_nat len) buf' = drop (Z.to_nat len) buf /\
  contents inp' = contents inp /\
  (0 <= ret <= Z.max 0 len \/ ret = Z_ERRNO \/ ret = Z_DATA_ERROR \/ ret = Z_MEM_ERROR \/
   (ret = fst (inflateInit2 (-15)) /\ ret <> Z_OK)).
Proof.
  intros Hbound Hlen Hrun. unfold extract in Hrun.
  destruct (len <? 0) eqn:Hneg.
  { injection Hrun as <- <- <-. repeat split; try reflexivity. left. lia. }
  apply Z.ltb_ge in Hneg.
  destruct (findpoint index offset) as [here|].
  2:{ injection Hrun as <- <- <-. repeat split; try reflexivity. left. lia. }
  pose proof (extract_start_contents (contents inp) buf len inp here offset eq_refl)
    as Hstart.
  destruct (extract_start inp here offset buf) as [[r inp1]|st].
  { injection Hrun as <- <- <-. destruct Hstart as [Hc Hcode].
    split; [reflexivity|]. split; [reflexivity|]. split; [exact Hc|].
    destruct Hcode as [[H|[H|H]]|H]; auto. }
  destruct Hstart as [Hk Hskip].
  pose proof (extract_outer_keeps Hbound (contents inp) buf len (conj Hneg Hlen)
                fuel fuel st Hk Hskip) as Houter.
  destruct (extract_outer fuel fuel len st) as [r st'|r st'|]; [| |discriminate].
  - injection Hrun as <- <- <-. destruct Houter as [(Hc & Hl & Hd & Hav) Hs].
    split; [exact Hl|]. split; [exact Hd|]. split; [exact Hc|]. left.
    destruct (e_skip st'); [lia|]. specialize (Hav (Hs eq_refl)). lia.
  - injection Hrun as <- <- <-. destruct Houter as [(Hc & Hl & Hd & _) Hcode].
    split; [exact Hl|]. split; [exact Hd|]. split; [exact Hc|].
    destruct Hcode as [H|[H|H]]; auto.
Qed.

Lemma extract_stays_in_buffer_witness :
  exists inp',
    extract (ZL := Stored.zlib) 10 (fp Stored.a0b_session) (index Stored.a0b_session) 1
            [7; 7; 7; 7] 2
    = Returns (2, [0; 98; 7; 7], inp') /\
    contents inp' = Stored.a0b.
Proof.
  assert (Hrun : exists inp',
             extract (ZL := Stored.zlib) 10 (fp Stored.a0b_session)
                     (index Stored.a0b_session) 1 [7; 7; 7; 7] 2
             = Returns (2, [0; 98; 7; 7], inp')).
  { eexists. vm_compute. reflexivity. }
  destruct Hrun as [inp' Hrun]. exists inp'. split; [exact Hrun|].
  assert (Hlen : 2 <= Z.of_nat (length [7; 7; 7; 7])) by (cbn; lia).
  exact (proj1 (proj2 (proj2
           (extract_stays_in_buffer (ZL := Stored.zlib) _ _ _ _ _ _ _ _ _
              stored_inflate_within_bounds Hlen Hrun)))).
Defined.

(** ** The session: what its calls never change *)

(** X10. Neither [seekgzip_seek] nor [seekgzip_read] ever assigns
    [errorcode] or touches the index: after any sequence of calls that
    return, failed reads among them, [seekgzip_error] returns what it
    returned before and the index is the same. *)
Theorem calls_keep_errorcode `{ZL : Zlib} (fuel : nat) (cs : list call) :
  forall zs, match calls fuel cs zs with
             | Returns zs' =>
                 seekgzip_error zs' = seekgzip_error zs /\ index zs' = index zs
             | _ => True
             end.
Proof.
  induction cs as [|c cs IH]; intros zs; cbn [calls]; [split; reflexivity|].
  destruct c as [o|buffer size].
  - apply (IH (seekgzip_seek zs o)).
  - unfold seekgzip_read.
    destruct (extract fuel (fp zs) (index zs) (offset zs) buffer size)
      as [[[n buffer'] fp']| |]; [|exact I|exact I].
    apply (IH (mk_seekgzip fp' (index zs)
                 (if 0 <? n then offset zs + n else offset zs) (errorcode zs))).
Qed.

(** ** Reads that follow one another *)

Section ReadTwice.

Context `{ZL : Zlib}.
Variable file data : list uchar.
Variable resumes : zstate -> Z -> Z -> Prop.
Hypothesis Hcontract : inflate_resumes file data resumes.
Hypothesis Hinit : fst (inflateInit2 (-15)) = Z_OK.
Hypothesis Hbytes : forall b, b ∈ file -> 0 <= b.

#[local] Abbreviation served := (serves file data resumes).

(** [seekgzip_read] at the offset of the session. *)
Lemma seekgzip_read_at (zs : seekgzip_t) (L : Z) (buffer : list uchar) (fuel : nat) :
  served zs -> 0 <= offset zs -> 0 <= L <= Z.of_nat (length buffer) ->
  (length file + Z.to_nat (offset zs) < fuel)%nat ->
  let n := clipped data (offset zs) L in
  exists zs',
    seekgzip_read fuel zs buffer L
    = Returns (n, take (Z.to_nat n) (drop (Z.to_nat (offset zs)) data)
                  ++ drop (Z.to_nat n) buffer, zs') /\
    served zs' /\ offset zs' = offset zs + n /\ errorcode zs' = errorcode zs.
Proof.
  intros (Hfile & Hio & Hferr & Hok & Hsorted & (p0 & Hhd & Hp0) & Hvalid) Ho HL Hfuel n.
  set (o := offset zs) in *.
  unfold seekgzip_read. fold o. unfold extract.
  assert ((L <? 0) = false) as -> by lia.
  pose proof (findpoint_spec (index zs) o Hok Hsorted) as Hfind.
  destruct (findpoint (index zs) o) as [here|].
  2:{ exfalso. specialize (Hfind 0%nat p0). rewrite <- head_lookup in Hfind.
      specialize (Hfind Hhd). lia. }
  destruct Hfind as (j & Hj & Hle & _).
  assert (Hhere : valid_point file data resumes here)
    by (apply Hvalid; eapply list_elem_of_lookup_2; eauto).
  rewrite (extract_start_valid file data resumes _ _ _ _ Hinit Hfile Hio Hferr Hbytes Hhere).
  destruct Hhere as (Hout & Hin & _ & Hres).
  set (st0 := mk_estate (mkFILE file (in_ here) false false)
                (mk_z_stream [] 0 0 (start_state file here))
                (o - out here) true false buffer).
  destruct (extract_outer_spec file data resumes Hcontract L fuel o fuel ltac:(lia)
              st0 (in_ here) (out here))
    as (ret & st' & Hrun & Hval & Hbuf & q' & Hcont & Hio' & Hferr' & _);
    try (cbn [st0 e_offset e_skip e_tobuf e_buf e_strm state]; first [assumption|lia|reflexivity]).
  { unfold fed. cbn [st0 e_in e_strm contents ioerr ferror pos next_in].
    rewrite Z.sub_diag. change (Z.to_nat 0) with 0%nat. rewrite take_0.
    repeat split; lia. }
  rewrite Hrun, Hval, Hbuf. fold n.
  assert (Hn : 0 <= n) by (unfold n, clipped; lia).
  assert (Hlen : length (take (Z.to_nat n) (drop (Z.to_nat o) data)) = Z.to_nat n).
  { rewrite length_take, length_drop. unfold n, clipped. lia. }
  assert (Hbuffer : write_at buffer 0 (take (Z.to_nat n) (drop (Z.to_nat o) data))
                    = take (Z.to_nat n) (drop (Z.to_nat o) data)
                      ++ drop (Z.to_nat n) buffer).
  { unfold write_at. change (Z.to_nat 0) with 0%nat. rewrite take_0, Hlen. reflexivity. }
  change (e_buf st0) with buffer. rewrite Hbuffer.
  eexists. split; [reflexivity|]. cbn [fp index offset errorcode].
  split; [|split; [|reflexivity]].
  - unfold serves. cbn [fp index].
    split; [exact Hcont|]. split; [exact Hio'|]. split; [exact Hferr'|].
    split; [exact Hok|]. split; [exact Hsorted|]. split; [|exact Hvalid].
    exists p0. split; assumption.
  - destruct (0 <? n) eqn:Hpos; [reflexivity|]. apply Z.ltb_ge in Hpos. lia.
Qed.

(** X11. Reads that follow one another deliver the stream in order:
    [seekgzip_seek] to [o] followed by [seekgzip_read] of [L1] bytes and
    [seekgzip_read] of [L2] bytes gives, piece after piece, the bytes that
    one read of [L1 + L2] bytes at [o] gives, and leaves the offset behind
    the last of them. *)
Theorem seekgzip_reads_concatenate (zs : seekgzip_t) (o L1 L2 : Z)
        (b1 b2 : list uchar) (fuel : nat) :
  served zs -> 0 <= o ->
  0 <= L1 <= Z.of_nat (length b1) -> 0 <= L2 <= Z.of_nat (length b2) ->
  (length file + Z.to_nat o + Z.to_nat L1 < fuel)%nat ->
  exists n1 n2 b1' b2' zs1 zs2,
    seekgzip_read fuel (seekgzip_seek zs o) b1 L1 = Returns (n1, b1', zs1) /\
    seekgzip_read fuel zs1 b2 L2 = Returns (n2, b2', zs2) /\
    n1 + n2 = clipped data o (L1 + L2) /\
    take (Z.to_nat n1) b1' ++ take (Z.to_nat n2) b2'
    = take (Z.to_nat (n1 + n2)) (drop (Z.to_nat o) data) /\
    seekgzip_tell zs2 = o + n1 + n2.
Proof.
  intros Hserves Ho HL1 HL2 Hfuel.
  destruct (seekgzip_read_at (seekgzip_seek zs o) L1 b1 fuel)
    as (zs1 & Hread1 & Hserves1 & Hoff1 & _); try assumption.
  { cbn [seekgzip_seek offset]. lia. }
  cbn [seekgzip_seek offset] in Hread1, Hoff1.
  set (n1 := clipped data o L1) in *.
  assert (Hn1 : 0 <= n1 <= L1) by (unfold n1, clipped; lia).
  destruct (seekgzip_read_at zs1 L2 b2 fuel)
    as (zs2 & Hread2 & _ & Hoff2 & _); try assumption; try lia.
  rewrite Hoff1 in Hread2, Hoff2.
  set (n2 := clipped data (o + n1) L2) in *.
  assert (Hn2 : 0 <= n2 <= L2) by (unfold n2, clipped; lia).
  eexists n1, n2, _, _, zs1, zs2.
  split; [exact Hread1|]. split; [exact Hread2|].
  assert (Hl1 : length (take (Z.to_nat n1) (drop (Z.to_nat o) data)) = Z.to_nat n1).
  { rewrite length_take, length_drop. unfold n1, clipped. lia. }
  assert (Hl2 : length (take (Z.to_nat n2) (drop (Z.to_nat (o + n1)) data)) = Z.to_nat n2).
  { rewrite length_take, length_drop. unfold n2, clipped. lia. }
  split; [unfold n2, n1, clipped; unfold uchar in *; lia|]. split.
  - rewrite (take_app_length' _ _ _ (eq_sym Hl1)), (take_app_length' _ _ _ (eq_sym Hl2)).
    replace (Z.to_nat (o + n1)) with (Z.to_nat o + Z.to_nat n1)%nat by lia.
    rewrite <- drop_drop, take_take_drop. f_equal. lia.
  - unfold seekgzip_tell. lia.
Qed.

End ReadTwice.

Lemma seekgzip_reads_concatenate_witness :
  exists n1 n2 b1' b2' zs1 zs2,
    seekgzip_read (ZL := Plain.zlib) 10 (seekgzip_seek Plain.abc_session 0) [0; 0] 2
    = Returns (n1, b1', zs1) /\
    seekgzip_read (ZL := Plain.zlib) 10 zs1 [0; 0; 0] 3 = Returns (n2, b2', zs2) /\
    n1 + n2 = clipped Plain.abc 0 (2 + 3) /\
    take (Z.to_nat n1) b1' ++ take (Z.to_nat n2) b2'
    = take (Z.to_nat (n1 + n2)) (drop (Z.to_nat 0) Plain.abc) /\
    seekgzip_tell zs2 = 0 + n1 + n2.
Proof.
  apply (seekgzip_reads_concatenate (ZL := Plain.zlib)
           (Plain.deflate Plain.abc) Plain.abc (Plain.resumes Plain.abc)
           (plain_inflate_resumes Plain.abc) eq_refl).
  - intros b Hb. vm_compute in Hb.
    repeat (apply elem_of_cons in Hb as [->|Hb]; [lia|]).
    apply elem_of_nil in Hb. contradiction.
  - unfold serves. split; [reflexivity|]. split; [reflexivity|]. split; [reflexivity|].
    split; [reflexivity|]. split; [|split].
    + apply strictly_sorted_sorted, strictly_sorted_outs_correct. reflexivity.
    + eexists. split; reflexivity.
    + intros p Hp. apply list_elem_of_singleton in Hp. subst p.
      unfold valid_point. cbn [out in_ bits]. vm_compute. repeat split; congruence.
  - lia.
  - cbn [length]. lia.
  - cbn [length]. lia.
  - vm_compute. lia.
Defined.

(** ** The index file: written by seekgzip_build, read by seekgzip_open *)

Lemma length_host_bytes (n : nat) (v : Z) : length (host_bytes n v) = n.
Proof. revert v. induction n as [|n IH]; intros v; cbn [host_bytes length]; [|rewrite IH]; reflexivity. Qed.

Lemma host_value_host_bytes (n : nat) (v : Z) :
  host_value (host_bytes n v) = v mod 2 ^ (8 * Z.of_nat n).
Proof.
  revert v. induction n as [|n IH]; intros v; cbn [host_bytes host_value].
  - change (8 * Z.of_nat 0) with 0. rewrite Z.pow_0_r, Z.mod_1_r. reflexivity.
  - rewrite IH. change 255 with (Z.ones 8). rewrite Z.land_ones by lia.
    rewrite Z.shiftr_div_pow2 by lia.
    replace (8 * Z.of_nat (S n)) with (8 + 8 * Z.of_nat n) by lia.
    rewrite Z.pow_add_r by lia. change (2 ^ 8) with 256.
    rewrite (Z.rem_mul_r v 256 (2 ^ (8 * Z.of_nat n))) by lia. reflexivity.
Qed.

Lemma host_signed_mod (n : nat) (v : Z) :
  (0 < n)%nat -> - 2 ^ (8 * Z.of_nat n - 1) <= v < 2 ^ (8 * Z.of_nat n - 1) ->
  host_signed (Z.of_nat n) (v mod 2 ^ (8 * Z.of_nat n)) = v.
Proof.
  intros Hn Hv. unfold host_signed.
  set (h := 2 ^ (8 * Z.of_nat n - 1)) in *.
  assert (Hpow : 2 ^ (8 * Z.of_nat n) = 2 * h).
  { unfold h. replace (8 * Z.of_nat n) with (1 + (8 * Z.of_nat n - 1)) at 1 by lia.
    rewrite Z.pow_add_r by lia. reflexivity. }
  assert (Hh : 0 < h) by (apply Z.pow_pos_nonneg; lia).
  rewrite Hpow. destruct (Z_lt_le_dec v 0) as [Hneg|Hpos].
  - assert (Hm : v mod (2 * h) = v + 2 * h).
    { symmetry. apply (Z.mod_unique _ _ (-1)); lia. }
    rewrite Hm. destruct (v + 2 * h <? h) eqn:Hlt; [apply Z.ltb_lt in Hlt; lia|lia].
  - rewrite Z.mod_small by lia.
    destruct (v <? h) eqn:Hlt; [reflexivity|apply Z.ltb_ge in Hlt; lia].
Qed.

Lemma host_bytes_8 (v : Z) :
  - 2 ^ 63 <= v < 2 ^ 63 -> host_signed 8 (host_value (host_bytes 8 v)) = v.
Proof.
  intros Hv. rewrite host_value_host_bytes.
  apply (host_signed_mod 8 v); [lia|exact Hv].
Qed.

Lemma host_bytes_4 (v : Z) :
  - 2 ^ 31 <= v < 2 ^ 31 -> host_signed 4 (host_value (host_bytes 4 v)) = v.
Proof.
  intros Hv. rewrite host_value_host_bytes.
  apply (host_signed_mod 4 v); [lia|exact Hv].
Qed.

Section IndexWritten.

Context `{RT : Runtime} `{ZL : Zlib} `{IO : GzIO}.
Variable written : gzFile -> list uchar.
Hypothesis Happends : gz_appends written.

Lemma write_point_written (gz : gzFile) (p : point) :
  written (write_point gz p) = written gz ++ point_bytes p.
Proof.
  destruct Happends as [_ Happ]. unfold write_point, point_bytes.
  rewrite !Happ, <- !app_assoc. reflexivity.
Qed.

Lemma write_points_written (ps : list point) :
  forall gz, written (fold_left write_point ps gz)
             = written gz ++ concat (map point_bytes ps).
Proof.
  induction ps as [|p ps IH]; intros gz; cbn [fold_left map concat].
  - rewrite app_nil_r. reflexivity.
  - rewrite IH, write_point_written, <- app_assoc. reflexivity.
Qed.

(** X12. The index file: when [seekgzip_build] returns with the index
    file opened, it has returned [SEEKGZIP_SUCCESS] for the index that
    [build_index] built, the file is the one named after the target with
    ".idx" appended, and, given that no [gzwrite] fails, what has been
    written to it is the magic "ZSEK", [sizeof (off_t)] = 8 and the number
    of points as 32-bit integers, then for every point [out] and [in] in 8
    bytes each, [bits] in 4 bytes and the 32768 bytes of the window. *)
Theorem seekgzip_build_index_file (fuel : nat) (target : string) (ret : Z) (gz : gzFile) :
  seekgzip_build fuel target = Returns (ret, Some gz) ->
  ret = SEEKGZIP_SUCCESS /\
  exists f n index gz0,
    fopen target = Some f /\
    build_index fuel f SPAN = Returns (n, Some index) /\
    gzopen (target +:+ ".idx") = Some gz0 /\
    written gz = index_bytes index.
Proof.
  unfold seekgzip_build, get_index_file. intros Hrun.
  destruct (fopen target) as [f|]; [|discriminate].
  destruct (build_index fuel f SPAN) as [[n index]| |] eqn:Hbuild; try discriminate.
  destruct (n <? 0); [discriminate|].
  destruct (can_alloc _); [|discriminate].
  destruct (gzopen (target +:+ ".idx")) as [gz0|] eqn:Hopen; [|discriminate].
  destruct index as [index|]; [|discriminate].
  injection Hrun as <- <-. split; [reflexivity|].
  exists f, n, index, gz0. split; [reflexivity|]. split; [exact Hbuild|].
  split; [reflexivity|].
  destruct Happends as [Hnew Happ].
  rewrite write_points_written. unfold write_uint32. rewrite !Happ.
  rewrite (Hnew _ _ Hopen). unfold index_bytes. rewrite <- !app_assoc. reflexivity.
Qed.

End IndexWritten.

Lemma stored_gzio_appends (file : list uchar) :
  gz_appends (IO := Stored.gzio file true) (fun gz => gz).
Proof.
  split.
  - intros path gz [= <-]. reflexivity.
  - intros gz data. reflexivity.
Qed.

Lemma seekgzip_build_index_file_witness :
  exists gz index,
    seekgzip_build (RT := Stored.runtime) (ZL := Stored.zlib)
      (IO := Stored.gzio Stored.abc true) 50 "abc.gz" = Returns (SEEKGZIP_SUCCESS, Some gz) /\
    build_index (RT := Stored.runtime) (ZL := Stored.zlib) 50 (Stored.fopen Stored.abc) SPAN
    = Returns (1, Some index) /\
    gz = index_bytes index.
Proof.
  assert (Hbuild : exists index,
             build_index (RT := Stored.runtime) (ZL := Stored.zlib) 50
               (Stored.fopen Stored.abc) SPAN = Returns (1, Some index)).
  { eexists. lazy -[memcpy uninit]. reflexivity. }
  destruct Hbuild as [index Hbuild].
  assert (Hrun : exists gz,
             seekgzip_build (RT := Stored.runtime) (ZL := Stored.zlib)
               (IO := Stored.gzio Stored.abc true) 50 "abc.gz"
             = Returns (SEEKGZIP_SUCCESS, Some gz)).
  { unfold seekgzip_build, get_index_file.
    cbn [fopen gzopen Stored.gzio can_alloc Stored.runtime].
    rewrite Hbuild. cbn [Z.ltb Z.compare]. eexists. reflexivity. }
  destruct Hrun as [gz Hrun].
  destruct (seekgzip_build_index_file (RT := Stored.runtime) (ZL := Stored.zlib)
              (IO := Stored.gzio Stored.abc true) (fun gz => gz)
              (stored_gzio_appends Stored.abc) _ _ _ _ Hrun)
    as (_ & f & n & index' & gz0 & Hf & Hbuild' & _ & Hgz).
  injection Hf as <-. rewrite Hbuild in Hbuild'. injection Hbuild' as <- <-.
  exists gz, index. split; [exact Hrun|]. split; [exact Hbuild|exact Hgz].
Defined.

Section IndexRead.

Context `{RT : Runtime} `{IO : GzIO} `{GI : GzIn}.
Variable holds : gzFile_in -> list uchar -> Prop.
Hypothesis Hreads : gz_reads holds.

Lemma gzgetc_holds (gz : gzFile_in) (b : uchar) (rest : list uchar) :
  holds gz (b :: rest) ->
  exists gz', gzgetc gz = (gz', b) /\ holds gz' rest.
Proof.
  intros Hgz. destruct Hreads as (Hgetc & _).
  destruct (Hgetc _ _ Hgz) as [Hb Hrest]. cbn [drop] in Hrest.
  destruct (gzgetc gz) as [gz' c]. cbn [fst snd] in *. subst c.
  exists gz'. split; [reflexivity|exact Hrest].
Qed.

Lemma gzread_into_holds (gz : gzFile_in) (dst bytes rest : list uchar) (n : Z) :
  holds gz (bytes ++ rest) ->
  Z.of_nat (length bytes) = n -> Z.of_nat (length dst) = n ->
  exists gz', gzread_into gz dst n = (gz', bytes) /\ holds gz' rest.
Proof.
  intros Hgz Hbytes Hdst. destruct Hreads as (_ & Hread).
  destruct (Hread _ _ n Hgz ltac:(lia)) as [Hgot Hrest].
  unfold gzread_into. destruct (gzread gz n) as [gz' got]. cbn [fst snd] in *.
  rewrite take_app_length' in Hgot by lia. rewrite drop_app_length' in Hrest by lia.
  subst got. exists gz'. split; [|exact Hrest]. f_equal.
  unfold memcpy. rewrite Z.min_l by lia. change (Z.to_nat 0) with 0%nat.
  rewrite take_0, drop_0, take_ge, drop_ge by lia. cbn [app]. apply app_nil_r.
Qed.

Lemma read_uint32_holds (gz : gzFile_in) (v : Z) (rest : list uchar) :
  holds gz (host_bytes 4 v ++ rest) ->
  exists gz', read_uint32 gz = (gz', v mod 2 ^ 32) /\ holds gz' rest.
Proof.
  intros Hgz.
  destruct (gzread_into_holds gz (uninit 4) (host_bytes 4 v) rest 4 Hgz)
    as (gz' & Hread & Hrest).
  - rewrite length_host_bytes. reflexivity.
  - rewrite length_uninit. reflexivity.
  - unfold read_uint32. rewrite Hread. exists gz'. split; [|exact Hrest].
    rewrite (host_value_host_bytes 4 v). reflexivity.
Qed.

Lemma read_point_holds (gz : gzFile_in) (p : point) (rest : list uchar) :
  point_fits p -> holds gz (point_bytes p ++ rest) ->
  exists gz', read_point gz = (gz', p) /\ holds gz' rest.
Proof.
  intros (Hout & Hin & Hbits & Hwin) Hgz. unfold point_bytes in Hgz.
  rewrite <- !app_assoc in Hgz.
  destruct (gzread_into_holds gz (uninit 8) _ _ 8 Hgz) as (gz1 & Hr1 & Hgz1);
    [rewrite length_host_bytes; reflexivity|rewrite length_uninit; reflexivity|].
  destruct (gzread_into_holds gz1 (uninit 8) _ _ 8 Hgz1) as (gz2 & Hr2 & Hgz2);
    [rewrite length_host_bytes; reflexivity|rewrite length_uninit; reflexivity|].
  destruct (gzread_into_holds gz2 (uninit 4) _ _ 4 Hgz2) as (gz3 & Hr3 & Hgz3);
    [rewrite length_host_bytes; reflexivity|rewrite length_uninit; reflexivity|].
  destruct (gzread_into_holds gz3 (uninit WINSIZE) _ _ WINSIZE Hgz3) as (gz4 & Hr4 & Hgz4);
    [rewrite length_take; lia|rewrite length_uninit; reflexivity|].
  unfold read_point. rewrite Hr1, Hr2, Hr3, Hr4.
  exists gz4. split; [|exact Hgz4]. f_equal.
  rewrite (host_bytes_8 _ Hout), (host_bytes_8 _ Hin), (host_bytes_4 _ Hbits).
  rewrite take_ge by lia. destruct p; reflexivity.
Qed.

Lemma read_points_holds (ps : list point) (rest : list uchar) :
  forall gz,
    (forall p, p ∈ ps -> point_fits p) ->
    holds gz (concat (map point_bytes ps) ++ rest) ->
    exists gz', read_points (length ps) gz = (gz', ps) /\ holds gz' rest.
Proof.
  induction ps as [|p ps IH]; intros gz Hfits Hgz; cbn [length read_points].
  - exists gz. split; [reflexivity|exact Hgz].
  - cbn [map concat] in Hgz. rewrite <- app_assoc in Hgz.
    destruct (read_point_holds gz p _ (Hfits p ltac:(left)) Hgz) as (gz1 & Hr1 & Hgz1).
    destruct (IH gz1 (fun q Hq => Hfits q ltac:(right; exact Hq)) Hgz1)
      as (gz2 & Hr2 & Hgz2).
    rewrite Hr1, Hr2. exists gz2. split; [reflexivity|exact Hgz2].
Qed.

Lemma seekgzip_open_reaches_close (target : string) (f : FILE) (gz : gzFile_in)
      (index : access) :
  fopen target = Some f ->
  can_alloc (Z.of_nat (String.length target) + 4 + 1) = true ->
  gzopen_rb (target +:+ ".idx") = Some gz ->
  holds gz (index_bytes index) -> index_fits index ->
  can_alloc sizeof_seekgzip_t = true ->
  can_alloc (sizeof_point * have index) = true ->
  exists gz',
    holds gz' [] /\
    seekgzip_open target
    = if negb (gzclose_rb gz' =? 0) then Undefined
      else Returns (Some (mk_seekgzip f (mkaccess (have index) (have index) (list_ index))
                                      0 0),
                    SEEKGZIP_SUCCESS).
Proof.
  intros Hfopen Hname Hopen Hgz (Hok & Hhave & Hfits) Hzs Hlist.
  red in Hok. unfold seekgzip_open, get_index_file.
  rewrite Hfopen, Hname, Hopen.
  unfold index_bytes in Hgz. cbn [app] in Hgz.
  destruct (gzgetc_holds _ _ _ Hgz) as (gz1 & -> & Hgz1). cbn [Z.eqb Pos.eqb negb].
  destruct (gzgetc_holds _ _ _ Hgz1) as (gz2 & -> & Hgz2). cbn [Z.eqb Pos.eqb negb].
  destruct (gzgetc_holds _ _ _ Hgz2) as (gz3 & -> & Hgz3). cbn [Z.eqb Pos.eqb negb].
  destruct (gzgetc_holds _ _ _ Hgz3) as (gz4 & -> & Hgz4). cbn [Z.eqb Pos.eqb negb].
  destruct (read_uint32_holds _ _ _ Hgz4) as (gz5 & -> & Hgz5).
  change (8 mod 2 ^ 32 mod 2 ^ 32 =? 8) with true. cbn [negb]. rewrite Hzs. cbn [negb].
  destruct (read_uint32_holds _ _ _ Hgz5) as (gz6 & -> & Hgz6).
  assert (Hrange : 0 <= have index < 2 ^ 31) by lia.
  rewrite Z.mod_mod by lia. rewrite (Z.mod_small (have index)) by lia.
  assert (Hsigned : host_signed 4 (have index) = have index).
  { unfold host_signed. change (2 ^ (8 * 4 - 1)) with (2 ^ 31).
    destruct (have index <? 2 ^ 31) eqn:Hlt; [reflexivity|apply Z.ltb_ge in Hlt; lia]. }
  rewrite Hsigned.
  rewrite Z.mod_small by (unfold sizeof_point; lia). rewrite Hlist. cbn [negb].
  rewrite <- (app_nil_r (concat _)) in Hgz6.
  rewrite take_ge in Hgz6 by lia.
  destruct (read_points_holds _ _ _ Hfits Hgz6) as (gz7 & Hpoints & Hgz7).
  replace (Z.to_nat (have index)) with (length (list_ index)) by lia.
  rewrite Hpoints. exists gz7. split; [exact Hgz7|reflexivity].
Qed.

(** X13. [seekgzip_open] reads back what [seekgzip_build] writes: when
    the index file delivers the bytes written for an index whose fields fit
    their C types, and the allocations succeed, it returns a session on the
    target file with that index, the offset 0 and the error code 0. *)
Theorem seekgzip_open_reads_index (target : string) (f : FILE) (gz : gzFile_in)
        (index : access) :
  gz_closes holds ->
  fopen target = Some f ->
  can_alloc (Z.of_nat (String.length target) + 4 + 1) = true ->
  gzopen_rb (target +:+ ".idx") = Some gz ->
  holds gz (index_bytes index) -> index_fits index ->
  can_alloc sizeof_seekgzip_t = true ->
  can_alloc (sizeof_point * have index) = true ->
  seekgzip_open target
  = Returns (Some (mk_seekgzip f (mkaccess (have index) (have index) (list_ index)) 0 0),
             SEEKGZIP_SUCCESS).
Proof.
  intros Hclose Hfopen Hname Hopen Hgz Hfits Hzs Hlist.
  destruct (seekgzip_open_reaches_close target f gz index) as (gz' & Hgz' & ->);
    try assumption.
  rewrite (Hclose _ _ Hgz'). reflexivity.
Qed.

(** X15. When [gzclose] reports an error for the index file,
    [seekgzip_open] goes to [error_exit] with the handle still set and
    calls [gzclose] on it a second time, which zlib forbids: the call
    leaves defined behaviour instead of returning [SEEKGZIP_ZLIBERROR]. *)
Theorem seekgzip_open_closes_twice (target : string) (f : FILE) (gz : gzFile_in)
        (index : access) :
  (forall gz', gzclose_rb gz' <> 0) ->
  fopen target = Some f ->
  can_alloc (Z.of_nat (String.length target) + 4 + 1) = true ->
  gzopen_rb (target +:+ ".idx") = Some gz ->
  holds gz (index_bytes index) -> index_fits index ->
  can_alloc sizeof_seekgzip_t = true ->
  can_alloc (sizeof_point * have index) = true ->
  seekgzip_open target = Undefined.
Proof.
  intros Hclose Hfopen Hname Hopen Hgz Hfits Hzs Hlist.
  destruct (seekgzip_open_reaches_close target f gz index) as (gz' & Hgz' & ->);
    try assumption.
  destruct (gzclose_rb gz' =? 0) eqn:H0; [|reflexivity].
  apply Z.eqb_eq in H0. exfalso. exact (Hclose gz' H0).
Qed.

(** X16. [seekgzip_open] never tests what [gzread] delivers for the points:
    an index file that ends right after its header, announcing [n] points,
    is opened without error, with [n] points that are whatever the
    allocated memory held. *)
Theorem seekgzip_open_short_index (target : string) (f : FILE) (gz : gzFile_in) (n : Z) :
  gz_closes holds ->
  fopen target = Some f ->
  can_alloc (Z.of_nat (String.length target) + 4 + 1) = true ->
  gzopen_rb (target +:+ ".idx") = Some gz ->
  holds gz ([90; 83; 69; 75] ++ host_bytes 4 8 ++ host_bytes 4 n) ->
  0 <= n < 2 ^ 31 ->
  can_alloc sizeof_seekgzip_t = true ->
  can_alloc (sizeof_point * n) = true ->
  seekgzip_open target
  = Returns (Some (mk_seekgzip f (mkaccess n n (replicate (Z.to_nat n) junk_point)) 0 0),
             SEEKGZIP_SUCCESS).
Proof.
  intros Hclose Hfopen Hname Hopen Hgz Hn Hzs Hlist.
  unfold seekgzip_open, get_index_file.
  rewrite Hfopen, Hname, Hopen. cbn [app] in Hgz.
  destruct (gzgetc_holds _ _ _ Hgz) as (gz1 & -> & Hgz1). cbn [Z.eqb Pos.eqb negb].
  destruct (gzgetc_holds _ _ _ Hgz1) as (gz2 & -> & Hgz2). cbn [Z.eqb Pos.eqb negb].
  destruct (gzgetc_holds _ _ _ Hgz2) as (gz3 & -> & Hgz3). cbn [Z.eqb Pos.eqb negb].
  destruct (gzgetc_holds _ _ _ Hgz3) as (gz4 & -> & Hgz4). cbn [Z.eqb Pos.eqb negb].
  destruct (read_uint32_holds _ _ _ Hgz4) as (gz5 & -> & Hgz5).
  change (8 mod 2 ^ 32 =? 8) with true. cbn [negb]. rewrite Hzs. cbn [negb].
  rewrite <- (app_nil_r (host_bytes 4 n)) in Hgz5.
  destruct (read_uint32_holds _ _ _ Hgz5) as (gz6 & -> & Hgz6).
  rewrite (Z.mod_small n) by lia.
  assert (Hsigned : host_signed 4 n = n).
  { unfold host_signed. change (2 ^ (8 * 4 - 1)) with (2 ^ 31).
    destruct (n <? 2 ^ 31) eqn:Hlt; [reflexivity|apply Z.ltb_ge in Hlt; lia]. }
  rewrite Hsigned.
  rewrite Z.mod_small by (unfold sizeof_point; lia). rewrite Hlist. cbn [negb].
  assert (Hjunk : forall gz0 dst m, holds gz0 [] -> 0 <= m ->
            exists gz', gzread_into gz0 dst m = (gz', dst) /\ holds gz' []).
  { intros gz0 dst m H0 Hm. destruct Hreads as (_ & Hread).
    destruct (Hread _ _ m H0 Hm) as [Hgot Hrest].
    unfold gzread_into. destruct (gzread gz0 m) as [gz' got]. cbn [fst snd] in *.
    rewrite take_nil in Hgot. rewrite drop_nil in Hrest. subst got.
    exists gz'. split; [|exact Hrest]. f_equal. unfold memcpy. cbn [length].
    rewrite Z.min_r by lia. change (Z.to_nat 0) with 0%nat. cbn [take drop app].
    reflexivity. }
  assert (Hpoints : forall k gz0, holds gz0 [] ->
            exists gz', read_points k gz0 = (gz', replicate k junk_point) /\ holds gz' []).
  { induction k as [|k IH]; intros gz0 H0; cbn [read_points replicate].
    - exists gz0. split; [reflexivity|exact H0].
    - unfold read_point.
      destruct (Hjunk gz0 (uninit 8) 8 H0 ltac:(lia)) as (g1 & -> & H1).
      destruct (Hjunk g1 (uninit 8) 8 H1 ltac:(lia)) as (g2 & -> & H2).
      destruct (Hjunk g2 (uninit 4) 4 H2 ltac:(lia)) as (g3 & -> & H3).
      destruct (Hjunk g3 (uninit WINSIZE) WINSIZE H3 ltac:(unfold WINSIZE; lia))
        as (g4 & -> & H4).
      destruct (IH g4 H4) as (g5 & -> & H5).
      exists g5. split; [reflexivity|exact H5]. }
  destruct (Hpoints (Z.to_nat n) gz6 Hgz6) as (gz7 & -> & Hgz7).
  rewrite (Hclose _ _ Hgz7). reflexivity.
Qed.

End IndexRead.

Lemma mem_gzin_reads (file : list uchar) :
  gz_reads (GI := Mem.gzin file) (fun gz rest => gz = rest).
Proof.
  split.
  - intros gz rest ->. destruct rest; split; reflexivity.
  - intros gz rest n -> _. split; reflexivity.
Qed.

Lemma mem_gzin_close_fails_reads (file : list uchar) :
  gz_reads (GI := Mem.gzin_close_fails file) (fun gz rest => gz = rest).
Proof.
  split.
  - intros gz rest ->. destruct rest; split; reflexivity.
  - intros gz rest n -> _. split; reflexivity.
Qed.

Lemma length_ramp : Z.of_nat (length ramp) = WINSIZE.
Proof. unfold ramp. rewrite length_map, length_seq. reflexivity. Qed.

Lemma one_point_fits : index_fits Mem.one_point.
Proof.
  split; [reflexivity|]. split; [reflexivity|].
  intros p Hp. apply list_elem_of_singleton in Hp. subst p.
  unfold point_fits. cbn [out in_ bits window].
  split; [lia|]. split; [lia|]. split; [lia|]. exact length_ramp.
Qed.

Lemma seekgzip_open_reads_index_witness :
  seekgzip_open (RT := Stored.runtime) (IO := Stored.gzio Stored.abc true)
                (GI := Mem.gzin (index_bytes Mem.one_point)) "abc.gz"
  = Returns (Some (mk_seekgzip (Stored.fopen Stored.abc) Mem.one_point 0 0),
             SEEKGZIP_SUCCESS).
Proof.
  apply (seekgzip_open_reads_index (RT := Stored.runtime)
           (IO := Stored.gzio Stored.abc true)
           (GI := Mem.gzin (index_bytes Mem.one_point))
           (fun gz rest => gz = rest) (mem_gzin_reads _)
           "abc.gz" (Stored.fopen Stored.abc) (index_bytes Mem.one_point) Mem.one_point).
  - intros gz rest _. reflexivity.
  - reflexivity.
  - reflexivity.
  - reflexivity.
  - reflexivity.
  - exact one_point_fits.
  - reflexivity.
  - reflexivity.
Defined.

Lemma seekgzip_open_closes_twice_witness :
  seekgzip_open (RT := Stored.runtime) (IO := Stored.gzio Stored.abc true)
                (GI := Mem.gzin_close_fails (index_bytes Mem.one_point)) "abc.gz"
  = Undefined.
Proof.
  apply (seekgzip_open_closes_twice (RT := Stored.runtime)
           (IO := Stored.gzio Stored.abc true)
           (GI := Mem.gzin_close_fails (index_bytes Mem.one_point))
           (fun gz rest => gz = rest) (mem_gzin_close_fails_reads _)
           "abc.gz" (Stored.fopen Stored.abc) (index_bytes Mem.one_point) Mem.one_point).
  - intros gz. discriminate.
  - reflexivity.
  - reflexivity.
  - reflexivity.
  - reflexivity.
  - exact one_point_fits.
  - reflexivity.
  - reflexivity.
Defined.

Lemma seekgzip_open_short_index_witness :
  seekgzip_open (RT := Stored.runtime) (IO := Stored.gzio Stored.abc true)
                (GI := Mem.gzin ([90; 83; 69; 75] ++ host_bytes 4 8 ++ host_bytes 4 2))
                "abc.gz"
  = Returns (Some (mk_seekgzip (Stored.fopen Stored.abc)
                     (mkaccess 2 2 (replicate (Z.to_nat 2) (junk_point (RT := Stored.runtime))))
                     0 0),
             SEEKGZIP_SUCCESS).
Proof.
  apply (seekgzip_open_short_index (RT := Stored.runtime)
           (IO := Stored.gzio Stored.abc true)
           (GI := Mem.gzin ([90; 83; 69; 75] ++ host_bytes 4 8 ++ host_bytes 4 2))
           (fun gz rest => gz = rest) (mem_gzin_reads _)
           "abc.gz" (Stored.fopen Stored.abc)
           ([90; 83; 69; 75] ++ host_bytes 4 8 ++ host_bytes 4 2) 2).
  - intros gz rest _. reflexivity.
  - reflexivity.
  - reflexivity.
  - reflexivity.
  - reflexivity.
  - lia.
  - reflexivity.
  - reflexivity.
Defined.

(** ** seekgzip_open: what it returns *)

Lemma seekgzip_open_cases `{RT : Runtime} `{IO : GzIO} `{GI : GzIn} (target : string) :
  match seekgzip_open target with
  | Returns (Some zs, err) =>
      err = SEEKGZIP_SUCCESS /\ offset zs = 0 /\ errorcode zs = 0 /\
      size_ (index zs) = have (index zs) /\ fopen target = Some (fp zs)
  | Returns (None, err) =>
      err = SEEKGZIP_OPENERROR \/ err = SEEKGZIP_OUTOFMEMORY \/
      err = SEEKGZIP_IMCOMPATIBLE
  | Undefined => exists gz, gzclose_rb gz <> 0
  | NoFuel => False
  end.
Proof.
  unfold seekgzip_open.
  destruct (fopen target) as [f|]; [|left; reflexivity].
  destruct (get_index_file target) as [target_idx|]; [|right; left; reflexivity].
  destruct (gzopen_rb target_idx) as [gz|]; [|left; reflexivity].
  destruct (gzgetc gz) as [gz1 c1].
  destruct (negb (c1 =? 90)); [right; right; reflexivity|].
  destruct (gzgetc gz1) as [gz2 c2].
  destruct (negb (c2 =? 83)); [right; right; reflexivity|].
  destruct (gzgetc gz2) as [gz3 c3].
  destruct (negb (c3 =? 69)); [right; right; reflexivity|].
  destruct (gzgetc gz3) as [gz4 c4].
  destruct (negb (c4 =? 75)); [right; right; reflexivity|].
  destruct (read_uint32 gz4) as [gz5 v5].
  destruct (negb (v5 =? 8)); [right; right; reflexivity|].
  destruct (negb (can_alloc sizeof_seekgzip_t)); [right; left; reflexivity|].
  destruct (read_uint32 gz5) as [gz6 v6].
  destruct (negb (can_alloc _)); [right; left; reflexivity|].
  destruct (read_points _ gz6) as [gz7 points].
  destruct (gzclose_rb gz7 =? 0) eqn:Hclose; cbn [negb].
  - repeat split.
  - apply Z.eqb_neq in Hclose. exists gz7. exact Hclose.
Qed.

(** X17. [seekgzip_open] returns [NULL] exactly when it stores a code other
    than [SEEKGZIP_SUCCESS], and that code is [SEEKGZIP_OPENERROR],
    [SEEKGZIP_OUTOFMEMORY] or [SEEKGZIP_IMCOMPATIBLE], never
    [SEEKGZIP_ZLIBERROR]; a session it returns is on the target file, at
    offset 0, with error code 0 and a list allocated for exactly its
    points. *)
Theorem seekgzip_open_null_iff_error `{RT : Runtime} `{IO : GzIO} `{GI : GzIn}
        (target : string) (zs : option seekgzip_t) (err : Z) :
  seekgzip_open target = Returns (zs, err) ->
  (zs = None <-> err <> SEEKGZIP_SUCCESS) /\
  (err = SEEKGZIP_SUCCESS \/ err = SEEKGZIP_OPENERROR \/ err = SEEKGZIP_OUTOFMEMORY \/
   err = SEEKGZIP_IMCOMPATIBLE) /\
  (forall s, zs = Some s ->
     fopen target = Some (fp s) /\ seekgzip_tell s = 0 /\ seekgzip_error s = 0 /\
     size_ (index s) = have (index s)).
Proof.
  intros Hrun. pose proof (seekgzip_open_cases target) as Hcases.
  rewrite Hrun in Hcases. destruct zs as [s|].
  - destruct Hcases as (-> & Hoff & Herr & Hsize & Hfp).
    split; [split; [discriminate|intros H; contradiction]|].
    split; [left; reflexivity|].
    intros s' [= <-]. repeat split; assumption.
  - split; [|split; [|discriminate]].
    + split; [|reflexivity]. intros _.
      destruct Hcases as [->|[->| ->]]; discriminate.
    + destruct Hcases as [H|[H|H]]; auto.
Qed.

Lemma seekgzip_open_null_iff_error_witness :
  seekgzip_open (RT := Stored.runtime) (IO := Stored.gzio Stored.abc true)
                (GI := Mem.gzin []) "abc.gz"
  = Returns (None, SEEKGZIP_IMCOMPATIBLE) /\
  (@None seekgzip_t = None <-> SEEKGZIP_IMCOMPATIBLE <> SEEKGZIP_SUCCESS).
Proof.
  assert (Hrun : seekgzip_open (RT := Stored.runtime) (IO := Stored.gzio Stored.abc true)
                   (GI := Mem.gzin []) "abc.gz"
                 = Returns (None, SEEKGZIP_IMCOMPATIBLE)) by reflexivity.
  split; [exact Hrun|].
  exact (proj1 (seekgzip_open_null_iff_error (RT := Stored.runtime)
                  (IO := Stored.gzio Stored.abc true) (GI := Mem.gzin [])
                  "abc.gz" None SEEKGZIP_IMCOMPATIBLE Hrun)).
Defined.

(** ** export.cpp: error_string and the reader *)

(** X18. [error_string] gives the empty string for [SEEKGZIP_SUCCESS]
    only, different messages for different enumerators of seekgzip.h, and
    for every other value the message of [SEEKGZIP_ERROR]. *)
Theorem error_string_messages :
  (forall c, error_string c = EmptyString <-> c = SEEKGZIP_SUCCESS) /\
  (forall c1 c2, c1 ∈ named_codes -> c2 ∈ named_codes ->
                 error_string c1 = error_string c2 -> c1 = c2) /\
  (forall c, c ∉ named_codes -> error_string c = error_string SEEKGZIP_ERROR).
Proof.
  split; [|split].
  - intros c. unfold error_string. split.
    + repeat match goal with
             | |- context [?x =? ?y] => destruct (x =? y) eqn:?
             end; try discriminate.
      intros _. apply Z.eqb_eq. assumption.
    + intros ->. reflexivity.
  - intros c1 c2 H1 H2. unfold named_codes in H1, H2.
    repeat (apply elem_of_cons in H1 as [->|H1]);
      [..|apply elem_of_nil in H1; contradiction];
      repeat (apply elem_of_cons in H2 as [->|H2]);
      try (apply elem_of_nil in H2; contradiction);
      intros H; first [reflexivity|discriminate H].
  - intros c Hc. unfold error_string.
    repeat match goal with
           | |- context [c =? ?y] =>
               destruct (c =? y) eqn:Heq;
               [apply Z.eqb_eq in Heq; exfalso; apply Hc; rewrite Heq;
                unfold named_codes; set_solver|clear Heq]
           end.
    reflexivity.
Qed.

(** X19. The constructor of [reader] throws exactly when [seekgzip_open]
    returns [NULL], with a message that is not empty; otherwise the reader
    holds the new session, [tell] gives 0, and no other session is
    touched. *)
Theorem reader_new_throws_or_opens `{RT : Runtime} `{IO : GzIO} `{GI : GzIn}
        (filename : string) (a : positive) (live : gmap positive seekgzip_t) :
  match reader_new filename a live with
  | Returns (inl message) =>
      message <> EmptyString /\ exists err, seekgzip_open filename = Returns (None, err)
  | Returns (inr (r, live')) =>
      m_obj r = Some a /\ reader_tell r live' = Returns 0 /\
      (exists sgz err, seekgzip_open filename = Returns (Some sgz, err)) /\
      forall b, b <> a -> live' !! b = live !! b
  | Undefined => seekgzip_open filename = Undefined
  | NoFuel => False
  end.
Proof.
  unfold reader_new. pose proof (seekgzip_open_cases filename) as Hcases.
  destruct (seekgzip_open filename) as [[[sgz|] err]| |].
  - destruct Hcases as (_ & Hoff & _). split; [reflexivity|]. split.
    + unfold reader_tell. cbn [m_obj]. rewrite lookup_insert_eq.
      unfold seekgzip_tell. rewrite Hoff. reflexivity.
    + split; [eexists _, _; reflexivity|].
      intros b Hb. apply lookup_insert_ne. congruence.
  - split; [|eexists; reflexivity].
    destruct Hcases as [->|[->| ->]]; discriminate.
  - reflexivity.
  - exact Hcases.
Qed.

Section Reader.

Context `{RT : Runtime} `{ZL : Zlib}.

(** X20. A reader that has been closed is inert: [tell] returns -1,
    [read] returns the empty string, [seek] does nothing, and none of them
    touches the heap. *)
Theorem reader_closed_is_inert (r r' : reader) (live live' : gmap positive seekgzip_t)
        (fuel : nat) (size offset : Z) :
  reader_close r live = Returns (r', live') ->
  reader_tell r' live' = Returns (-1) /\
  reader_read fuel r' live' size = Returns ([], live') /\
  reader_seek r' live' offset = Returns live'.
Proof.
  intros Hclose.
  assert (Hobj : m_obj r' = None).
  { unfold reader_close in Hclose. destruct (m_obj r) as [a|] eqn:Ha.
    - destruct (seekgzip_close (Some a) live); try discriminate.
      injection Hclose as <- _. reflexivity.
    - injection Hclose as <- _. exact Ha. }
  unfold reader_tell, reader_read, reader_seek. rewrite Hobj. repeat split.
Qed.

(** X21. The calls on a reader touch no session but its own: [seek],
    [read] and [close] leave every other live session as it was. *)
Theorem reader_leaves_other_sessions (r : reader) (live : gmap positive seekgzip_t)
        (b : positive) (fuel : nat) (size offset : Z) :
  m_obj r <> Some b ->
  (forall live', reader_seek r live offset = Returns live' -> live' !! b = live !! b) /\
  (forall s live', reader_read fuel r live size = Returns (s, live') ->
                   live' !! b = live !! b) /\
  (forall r' live', reader_close r live = Returns (r', live') -> live' !! b = live !! b).
Proof.
  intros Hb. unfold reader_seek, reader_read, reader_close, seekgzip_close.
  destruct (m_obj r) as [a|].
  - assert (Hab : a <> b) by congruence.
    destruct (live !! a) as [zs|]; [|repeat split; discriminate].
    split; [|split].
    + intros live' [= <-]. apply lookup_insert_ne. exact Hab.
    + intros s live' Hrun. destruct (INT_MAX <? size + 1); [discriminate|].
      destruct (size + 1 <? 0); [discriminate|].
      destruct (seekgzip_read _ _ _ _) as [[[n buffer] zs']| |]; try discriminate.
      destruct ((0 <=? n) && (n <? Z.of_nat (length buffer))); [|discriminate].
      injection Hrun as _ <-. apply lookup_insert_ne. exact Hab.
    + intros r' live' [= _ <-]. apply lookup_delete_ne. exact Hab.
  - split; [|split].
    + intros live' [= <-]. reflexivity.
    + intros s live' [= _ <-]. reflexivity.
    + intros r' live' [= _ <-]. reflexivity.
Qed.

Lemma c_str_length (l : list uchar) : (length (c_str l) <= length l)%nat.
Proof.
  induction l as [|b l IH]; cbn [c_str length]; [lia|].
  destruct (b =? 0); cbn [length]; lia.
Qed.

(** X22. [reader::read] moves the offset by the number of bytes
    [seekgzip_read] delivered, which the length of the string returned
    never exceeds: after a read, [tell] has advanced by at least the
    length of the string. *)
Theorem reader_read_advances_tell (fuel : nat) (r : reader)
        (live live' : gmap positive seekgzip_t) (size : Z) (a : positive)
        (zs : seekgzip_t) (s : list uchar) :
  m_obj r = Some a -> live !! a = Some zs ->
  reader_read fuel r live size = Returns (s, live') ->
  exists n zs',
    live' !! a = Some zs' /\ 0 <= n /\
    seekgzip_tell zs' = seekgzip_tell zs + n /\
    reader_tell r live' = Returns (seekgzip_tell zs + n) /\
    Z.of_nat (length s) <= n.
Proof.
  intros Hobj Hlive Hrun. unfold reader_read in Hrun. rewrite Hobj, Hlive in Hrun.
  destruct (INT_MAX <? size + 1); [discriminate|].
  destruct (size + 1 <? 0); [discriminate|].
  unfold seekgzip_read in Hrun.
  destruct (extract _ _ _ _ _ _) as [[[n buffer] fp']| |]; try discriminate.
  destruct ((0 <=? n) && (n <? Z.of_nat (length buffer))) eqn:Hn; [|discriminate].
  apply andb_prop in Hn as [Hn0 Hn1]. apply Z.leb_le in Hn0. apply Z.ltb_lt in Hn1.
  injection Hrun as <- <-.
  eexists n, _. split; [apply lookup_insert_eq|]. split; [exact Hn0|].
  assert (Hoff : (if 0 <? n then offset zs + n else offset zs) = offset zs + n).
  { destruct (0 <? n) eqn:Hpos; [reflexivity|]. apply Z.ltb_ge in Hpos. lia. }
  unfold seekgzip_tell, reader_tell. cbn [offset]. rewrite Hobj, lookup_insert_eq.
  cbn [offset]. rewrite Hoff.
  split; [reflexivity|]. split; [reflexivity|].
  rewrite c_str_terminated by lia.
  pose proof (c_str_length (take (Z.to_nat n) buffer)) as Hc.
  rewrite length_take in Hc. lia.
Qed.

End Reader.

Lemma reader_closed_is_inert_witness :
  reader_tell (mk_reader None) (delete 1%positive {[ 1%positive := Stored.a0b_session ]})
  = Returns (-1).
Proof.
  apply (reader_closed_is_inert (RT := Stored.runtime) (ZL := Stored.zlib)
           (mk_reader (Some 1%positive)) (mk_reader None)
           {[ 1%positive := Stored.a0b_session ]}
           (delete 1%positive {[ 1%positive := Stored.a0b_session ]}) 10 3 0).
  unfold reader_close, seekgzip_close. cbn [m_obj].
  rewrite lookup_singleton_eq. reflexivity.
Defined.

Lemma reader_leaves_other_sessions_witness :
  (<[ 1%positive := seekgzip_seek Stored.a0b_session 2 ]>
     ({[ 1%positive := Stored.a0b_session; 2%positive := Plain.abc_session ]}
        : gmap positive seekgzip_t)) !! 2%positive
  = ({[ 1%positive := Stored.a0b_session; 2%positive := Plain.abc_session ]}
       : gmap positive seekgzip_t) !! 2%positive.
Proof.
  assert (Hne : m_obj (mk_reader (Some 1%positive)) <> Some 2%positive)
    by (cbn [m_obj]; congruence).
  apply (proj1 (reader_leaves_other_sessions (RT := Stored.runtime) (ZL := Stored.zlib)
                  (mk_reader (Some 1%positive))
                  {[ 1%positive := Stored.a0b_session; 2%positive := Plain.abc_session ]}
                  2%positive 10 3 2 Hne)).
  unfold reader_seek. cbn [m_obj]. rewrite lookup_insert_eq. reflexivity.
Defined.

Lemma reader_read_advances_tell_witness :
  exists n zs',
    (<[ 1%positive := mk_seekgzip (mkFILE Stored.a0b 26 false false)
                        (index Stored.a0b_session) 3 0 ]>
       {[ 1%positive := Stored.a0b_session ]} : gmap positive seekgzip_t) !! 1%positive
    = Some zs' /\ 0 <= n /\
    seekgzip_tell zs' = seekgzip_tell Stored.a0b_session + n /\
    reader_tell (mk_reader (Some 1%positive))
      (<[ 1%positive := mk_seekgzip (mkFILE Stored.a0b 26 false false)
                          (index Stored.a0b_session) 3 0 ]>
         {[ 1%positive := Stored.a0b_session ]})
    = Returns (seekgzip_tell Stored.a0b_session + n) /\
    Z.of_nat (length [97]) <= n.
Proof.
  apply (reader_read_advances_tell (RT := Stored.runtime) (ZL := Stored.zlib) 10
           (mk_reader (Some 1%positive)) {[ 1%positive := Stored.a0b_session ]} _ 3
           1%positive Stored.a0b_session [97]).
  - reflexivity.
  - apply lookup_singleton_eq.
  - unfold reader_read. cbn [m_obj]. rewrite lookup_singleton_eq.
    assert (Hread : seekgzip_read (ZL := Stored.zlib) 10 Stored.a0b_session
                      (uninit (RT := Stored.runtime) (3 + 1)) 3
                    = Returns (3, [97; 0; 98; 0],
                               mk_seekgzip (mkFILE Stored.a0b 26 false false)
                                           (index Stored.a0b_session) 3 0))
      by (vm_compute; reflexivity).
    cbn [Z.ltb Z.add Z.compare Pos.add Pos.succ]. rewrite Hread. reflexivity.
Defined.

(** ** seekgzip_build: the codes it returns *)

(** X24. [seekgzip_build] returns [SEEKGZIP_SUCCESS] when, and only when,
    it has opened the index file; otherwise it returns [SEEKGZIP_ERROR],
    [SEEKGZIP_OPENERROR] or [SEEKGZIP_OUTOFMEMORY], and none of the other
    codes of seekgzip.h. *)
Theorem seekgzip_build_codes `{RT : Runtime} `{ZL : Zlib} `{IO : GzIO}
        (fuel : nat) (target : string) :
  match seekgzip_build fuel target with
  | Returns (ret, Some gz) => ret = SEEKGZIP_SUCCESS
  | Returns (ret, None) =>
      ret = SEEKGZIP_ERROR \/ ret = SEEKGZIP_OPENERROR \/ ret = SEEKGZIP_OUTOFMEMORY
  | _ => True
  end.
Proof.
  unfold seekgzip_build.
  destruct (fopen target) as [f|]; [|right; left; reflexivity].
  destruct (build_index fuel f SPAN) as [[n index]| |]; [|exact I|exact I].
  destruct (n <? 0); [left; apply build_error_switch|].
  destruct (get_index_file target) as [target_idx|]; [|right; right; reflexivity].
  destruct (gzopen target_idx) as [gz|]; [|right; left; reflexivity].
  destruct index as [index|]; [reflexivity|exact I].
Qed.

(** ** The sliding window and a failed read, on concrete inputs *)

Lemma chronological_write_witness :
  chronological (5 - Z.of_nat (length [1; 2; 3]))
    (memcpy ramp (WINSIZE - 5) [1; 2; 3] 0 (Z.of_nat (length [1; 2; 3])))
  = drop (length [1; 2; 3]) (chronological 5 ramp) ++ [1; 2; 3].
Proof.
  apply (chronological_write 5 ramp [1; 2; 3]).
  - unfold WINSIZE. lia.
  - unfold ramp. rewrite length_map, length_seq. reflexivity.
  - cbn [length]. lia.
Defined.

Lemma reader_read_error_undefined_witness :
  reader_read (RT := Stored.runtime) (ZL := Stored.zlib) 10
    (mk_reader (Some 1%positive)) {[ 1%positive := truncated_session ]} 3
  = Undefined.
Proof.
  assert (Hread : exists buffer zs',
             seekgzip_read (ZL := Stored.zlib) 10 truncated_session
               (uninit (RT := Stored.runtime) (3 + 1)) 3
             = Returns (Z_DATA_ERROR, buffer, zs')).
  { eexists _, _. vm_compute. reflexivity. }
  destruct Hread as (buffer & zs' & Hread).
  apply (reader_read_error_undefined (RT := Stored.runtime) (ZL := Stored.zlib) 10
           (mk_reader (Some 1%positive)) {[ 1%positive := truncated_session ]} 3
           1%positive truncated_session zs' Z_DATA_ERROR buffer).
  - reflexivity.
  - apply lookup_singleton_eq.
  - lia.
  - exact Hread.
  - unfold Z_DATA_ERROR. lia.
Defined.

(** ** From seekgzip_build to seekgzip_open *)

Section BuildThenOpen.

Context `{RT : Runtime} `{ZL : Zlib} `{IO : GzIO} `{GI : GzIn}.
Variable written : gzFile -> list uchar.
Variable holds : gzFile_in -> list uchar -> Prop.
Hypothesis Happends : gz_appends written.
Hypothesis Hreads : gz_reads holds.
Hypothesis Hcloses : gz_closes holds.
Hypothesis Hbound : inflate_within_bounds.

(** The index [build_index] returns fits the C types of its fields, given
    that the file has fewer than 2^63 bytes and that the counts that zlib
    determines, the number of points and their [out], fit theirs. *)
Lemma build_index_fits (fuel : nat) (f : FILE) (n : Z) (index : access) :
  pos f = 0 -> Z.of_nat (length (contents f)) < 2 ^ 63 ->
  build_index fuel f SPAN = Returns (n, Some index) ->
  have index < 2 ^ 31 -> (forall p, p ∈ list_ index -> out p < 2 ^ 63) ->
  index_fits index /\ size_ index = have index.
Proof.
  intros Hpos Hsize Hrun Hhave Hout.
  destruct (build_index_returns _ _ _ _ _ Hrun)
    as (s & st & index0 & Hs & Houter & Hidx & -> & ->).
  pose proof (build_outer_points_inside _ _ _ _ _ _ Hpos Houter Hidx) as Hin.
  assert (Hinv : build_inv SPAN st).
  { eapply build_outer_inv; [exact Hbound| |exact Houter].
    unfold build_inv, build_start. cbn [b_strm avail_out b_window last totout b_index].
    rewrite length_uninit. unfold WINSIZE. repeat split; lia. }
  destruct Hinv as (_ & _ & _ & Hgood). rewrite Hidx in Hgood.
  destruct Hgood as (Hok & _ & Hall & _). cbn [list_ have size_] in *.
  split; [|reflexivity]. split; [exact Hok|]. split; [exact Hhave|].
  intros p Hp. destruct (Hall p Hp) as (Hbits & Hwin & Hout0).
  specialize (Hin p Hp). specialize (Hout p Hp).
  unfold point_fits. repeat split; try lia; exact Hwin.
Qed.

(** X25. What [seekgzip_build] writes, [seekgzip_open] reads back: when
    the build has succeeded and the index file delivers what was written
    to it, [seekgzip_open] returns a session on the target file with the
    index that [build_index] built. *)
Theorem seekgzip_open_after_build (fuel : nat) (target : string) (f : FILE)
        (gzw : gzFile) (gzr : gzFile_in) (n : Z) (index : access) :
  seekgzip_build fuel target = Returns (SEEKGZIP_SUCCESS, Some gzw) ->
  fopen target = Some f -> pos f = 0 -> Z.of_nat (length (contents f)) < 2 ^ 63 ->
  build_index fuel f SPAN = Returns (n, Some index) ->
  have index < 2 ^ 31 -> (forall p, p ∈ list_ index -> out p < 2 ^ 63) ->
  gzopen_rb (target +:+ ".idx") = Some gzr -> holds gzr (written gzw) ->
  can_alloc sizeof_seekgzip_t = true ->
  can_alloc (sizeof_point * have index) = true ->
  seekgzip_open target = Returns (Some (mk_seekgzip f index 0 0), SEEKGZIP_SUCCESS).
Proof.
  intros Hbuild Hfopen Hpos Hsize Hindex Hhave Hout Hopen Hholds Hzs Hlist.
  destruct (build_index_fits _ _ _ _ Hpos Hsize Hindex Hhave Hout) as [Hfits Hsz].
  assert (Hwritten : written gzw = index_bytes index /\
                     can_alloc (Z.of_nat (String.length target) + 4 + 1) = true).
  { unfold seekgzip_build, get_index_file in Hbuild. rewrite Hfopen, Hindex in Hbuild.
    destruct (n <? 0); [discriminate|].
    destruct (can_alloc _); [|discriminate]. split; [|reflexivity].
    destruct (gzopen (target +:+ ".idx")) as [gz0|] eqn:Hgz0; [|discriminate].
    injection Hbuild as <-. destruct Happends as [Hnew Happ].
    rewrite (write_points_written written Happends). unfold write_uint32. rewrite !Happ.
    rewrite (Hnew _ _ Hgz0). unfold index_bytes. rewrite <- !app_assoc. reflexivity. }
  destruct Hwritten as [Hwritten Hname]. rewrite Hwritten in Hholds.
  destruct (seekgzip_open_reaches_close holds Hreads target f gzr index)
    as (gz' & Hgz' & ->); try assumption.
  rewrite (Hcloses _ _ Hgz'). cbn [Z.eqb negb].
  destruct index as [h sz l]. cbn [have size_ list_] in *. subst sz. reflexivity.
Qed.

End BuildThenOpen.

Lemma seekgzip_open_after_build_witness :
  exists index,
    build_index (RT := Stored.runtime) (ZL := Stored.zlib) 50 (Stored.fopen Stored.abc) SPAN
    = Returns (1, Some index) /\
    seekgzip_open (RT := Stored.runtime) (IO := Stored.gzio Stored.abc true)
                  (GI := Mem.gzin (index_bytes index)) "abc.gz"
    = Returns (Some (mk_seekgzip (Stored.fopen Stored.abc) index 0 0), SEEKGZIP_SUCCESS).
Proof.
  assert (Hbuild : exists index,
             build_index (RT := Stored.runtime) (ZL := Stored.zlib) 50
               (Stored.fopen Stored.abc) SPAN = Returns (1, Some index) /\
             have index = 1 /\ map out (list_ index) = [0]).
  { eexists. split; [|split]; lazy -[memcpy uninit]; reflexivity. }
  destruct Hbuild as (index & Hbuild & Hhave & Houts).
  exists index. split; [exact Hbuild|].
  assert (Hrun : exists gz,
             seekgzip_build (RT := Stored.runtime) (ZL := Stored.zlib)
               (IO := Stored.gzio Stored.abc true) 50 "abc.gz"
             = Returns (SEEKGZIP_SUCCESS, Some gz) /\ gz = index_bytes index).
  { unfold seekgzip_build, get_index_file.
    cbn [fopen gzopen Stored.gzio can_alloc Stored.runtime].
    rewrite Hbuild. cbn [Z.ltb Z.compare]. eexists. split; [reflexivity|].
    rewrite (write_points_written (IO := Stored.gzio Stored.abc true) (fun gz => gz)
               (stored_gzio_appends Stored.abc)).
    unfold index_bytes. reflexivity. }
  destruct Hrun as (gz & Hrun & Hgz).
  apply (seekgzip_open_after_build (RT := Stored.runtime) (ZL := Stored.zlib)
           (IO := Stored.gzio Stored.abc true) (GI := Mem.gzin (index_bytes index))
           (fun gz => gz) (fun gz rest => gz = rest)
           (stored_gzio_appends Stored.abc) (mem_gzin_reads _)
           (fun _ _ _ => eq_refl) stored_inflate_within_bounds
           50 "abc.gz" (Stored.fopen Stored.abc) gz (index_bytes index) 1 index).
  - exact Hrun.
  - reflexivity.
  - reflexivity.
  - vm_compute. reflexivity.
  - exact Hbuild.
  - rewrite Hhave. lia.
  - intros p Hp. clear Hbuild Hrun Hgz.
    destruct (list_ index) as [|p0 [|p1 l]]; try discriminate Houts.
    injection Houts as Hp0. apply list_elem_of_singleton in Hp. subst p. lia.
  - reflexivity.
  - symmetry. exact Hgz.
  - reflexivity.
  - reflexivity.
Defined.

(** ** extract on a file cut short *)

(** X26. A file cut short at or before the access point that [findpoint]
    selects: [extract] finds nothing to read there and returns
    [Z_DATA_ERROR], leaving the buffer as it was. *)
Theorem extract_truncated_file `{ZL : Zlib} (fuel : nat) (inp : FILE) (index : access)
        (offset : Z) (buf : list uchar) (len : Z) (here : point) :
  fst (inflateInit2 (-15)) = Z_OK ->
  ioerr inp = false -> ferror inp = false ->
  (forall b, b ∈ contents inp -> 0 <= b) ->
  0 <= len -> findpoint index offset = Some here ->
  0 <= in_ here - (if negb (bits here =? 0) then 1 else 0) ->
  Z.of_nat (length (contents inp)) <= in_ here ->
  exists inp',
    extract (S fuel) inp index offset buf len = Returns (Z_DATA_ERROR, buf, inp').
Proof.
  intros Hinit Hio Hferr Hbytes Hlen Hfind Hseek Hcut.
  unfold extract. assert ((len <? 0) = false) as -> by lia. rewrite Hfind.
  unfold extract_start. destruct (inflateInit2 (-15)) as [r0 s]. cbn [fst] in Hinit.
  subst r0. cbn [Z.eqb Z_OK negb]. unfold fseeko.
  assert ((in_ here - (if negb (bits here =? 0) then 1 else 0) <? 0) = false) as ->
      by lia.
  cbn [Z.eqb].
  set (inp1 := mkFILE (contents inp) (in_ here - (if negb (bits here =? 0) then 1 else 0))
                      (ioerr inp) (ferror inp)).
  assert (Hloops : forall (inp2 : FILE) (s2 : zstate),
             contents inp2 = contents inp -> ioerr inp2 = false -> ferror inp2 = false ->
             Z.of_nat (length (contents inp)) <= pos inp2 ->
             exists inp',
               match extract_outer (S fuel) (S fuel) len
                       (mk_estate inp2 (mk_z_stream [] 0 0 s2) (offset - out here)
                                  true false buf) with
               | ExtractFuel => NoFuel
               | ExtractError ret st' => Returns (ret, e_buf st', e_in st')
               | ExtractExit _ st' =>
                   Returns (if e_skip st' then 0 else len - avail_out (e_strm st'),
                            e_buf st', e_in st')
               end = Returns (Z_DATA_ERROR, buf, inp')).
  { intros inp2 s2 Hc Hio2 Hferr2 Hpos.
    rewrite extract_outer_unfold. cbv zeta.
    match goal with
    | |- context [extract_inner (S fuel) len ?st] =>
        assert (Hinner : exists inp',
                   extract_inner (S fuel) len st
                   = ExtractError Z_DATA_ERROR
                       (mk_estate inp' (set_next_in (e_strm st) []) (e_offset st)
                                  (e_skip st) (e_tobuf st) buf));
        [|destruct Hinner as [inp' ->]; exists inp'; reflexivity]
    end.
    match goal with
    | |- context [extract_inner (S fuel) len ?st] => set (st2 := st)
    end.
    assert (Hst2 : e_in st2 = inp2 /\ next_in (e_strm st2) = [] /\ e_buf st2 = buf).
    { unfold st2. cbn [e_offset e_skip e_in e_strm e_buf andb].
      rewrite andb_true_r.
      destruct (offset - out here =? 0); cbn [e_offset e_in e_strm e_buf];
        repeat match goal with
               | |- context [if ?c then _ else _] => destruct c
               end; cbn [e_in e_strm e_buf set_avail_out next_in]; repeat split. }
    destruct Hst2 as (Hin2 & Hnext2 & Hbuf2).
    rewrite extract_inner_unfold. unfold avail_in at 1. rewrite Hnext2. cbn [length].
    change (Z.of_nat 0 =? 0) with true. cbv iota. rewrite Hin2.
    rewrite (fread_ok _ _ Hio2), Hc.
    rewrite drop_ge by lia. rewrite take_nil. cbn [length].
    cbv zeta. cbn [ferror andb]. rewrite Hferr2.
    unfold avail_in. cbn [set_next_in next_in length]. change (Z.of_nat 0 =? 0) with true.
    cbn [andb]. rewrite Hbuf2. eexists. reflexivity. }
  destruct (negb (bits here =? 0)) eqn:Hbits.
  - unfold getc. cbn [inp1 ioerr contents pos ferror]. rewrite Hio.
    destruct (contents inp !! Z.to_nat (in_ here - 1)) as [b|] eqn:Hb.
    + assert (Hb0 : 0 <= b) by (apply Hbytes; eapply list_elem_of_lookup_2; eauto).
      assert ((b =? -1) = false) as -> by (apply Z.eqb_neq; lia).
      apply Hloops; cbn [contents ioerr ferror pos]; try reflexivity; try assumption. lia.
    + change (-1 =? -1) with true. cbv iota. cbn [inp1 ferror]. rewrite Hferr.
      exists inp1. reflexivity.
  - apply Hloops; cbn [inp1 contents ioerr ferror pos]; try reflexivity; try assumption.
    lia.
Qed.

Lemma extract_truncated_file_witness :
  exists inp',
    extract (ZL := Stored.zlib) 1 (Stored.fopen Stored.gzip_header)
            (mkaccess 1 1 [mkpoint 0 10 0 []]) 0 [7; 7] 2
    = Returns (Z_DATA_ERROR, [7; 7], inp').
Proof.
  apply (extract_truncated_file (ZL := Stored.zlib) 0 (Stored.fopen Stored.gzip_header)
           (mkaccess 1 1 [mkpoint 0 10 0 []]) 0 [7; 7] 2 (mkpoint 0 10 0 [])).
  - reflexivity.
  - reflexivity.
  - reflexivity.
  - intros b Hb. vm_compute in Hb.
    repeat (apply elem_of_cons in Hb as [->|Hb]; [lia|]).
    apply elem_of_nil in Hb. contradiction.
  - lia.
  - reflexivity.
  - cbn. lia.
  - cbn. lia.
Defined.

(** ** build_index: its loops end *)

Section BuildEnds.

Context `{RT : Runtime} `{ZL : Zlib}.
Variable file data : list uchar.
Variable builds : zstate -> Z -> Z -> Prop.
Hypothesis Hadvances : inflate_advances file data builds.

#[local] Abbreviation stepping := (in_step file data builds).

Lemma build_inner_ends (span fetched : Z) (fuel : nat) :
  forall st q k,
    stepping fetched q k st -> q < fetched ->
    (Z.to_nat (fetched - q + (Z.of_nat (length data) - k)) < fuel)%nat ->
    match build_inner fuel span st with
    | BuildFuel => False
    | BuildError _ => True
    | BuildExit ret st' =>
        ret = Z_STREAM_END \/ exists k', stepping fetched fetched k' st'
    end.
Proof.
  induction fuel as [|fuel IH]; intros st q k Hstep Hq Hfuel; [lia|].
  cbn [build_inner]. unfold inflate_call.
  destruct Hstep as (Hbuilds & Hqf & Hfetched & Hk & Hav & Hnext).
  set (strm1 := if avail_out (b_strm st) =? 0
                then set_avail_out (b_strm st) WINSIZE else b_strm st).
  assert (Hstrm1 : state strm1 = state (b_strm st) /\
                   next_in strm1 = next_in (b_strm st) /\
                   0 < avail_out strm1 <= WINSIZE).
  { unfold strm1. destruct (avail_out (b_strm st) =? 0) eqn:H0.
    - cbn [set_avail_out state next_in avail_out]. unfold WINSIZE. repeat split; lia.
    - apply Z.eqb_neq in H0. repeat split; lia. }
  destruct Hstrm1 as (Hstate1 & Hnext1 & Hav1).
  assert (Hne : next_in strm1 <> []).
  { rewrite Hnext1, Hnext. intros Hnil. apply (f_equal length) in Hnil.
    rewrite length_take, length_drop in Hnil. cbn [length] in Hnil. lia. }
  destruct Hadvances as [_ Hcall].
  destruct (Hcall (state strm1) q k (next_in strm1) (avail_out strm1))
    as (Hused & Hout & Hdata & Hbuilds' & Hprogress).
  { rewrite Hstate1. exact Hbuilds. }
  { rewrite Hnext1, Hnext. eexists. reflexivity. }
  { exact Hne. }
  { lia. }
  set (r := inflate (state strm1) (next_in strm1) (avail_out strm1) Z_BLOCK) in *.
  set (strm2 := mk_z_stream (drop (Z.to_nat (z_used r)) (next_in strm1))
                            (avail_out strm1 - Z.of_nat (length (z_out r)))
                            (z_data_type r) (z_next r)).
  set (window2 := memcpy (b_window st) (WINSIZE - avail_out strm1) (z_out r) 0
                         (Z.of_nat (length (z_out r)))).
  set (totin2 := totin st + avail_in strm1 - avail_in strm2).
  set (totout2 := totout st + avail_out strm1 - avail_out strm2).
  set (ret1 := if z_ret r =? Z_NEED_DICT then Z_DATA_ERROR else z_ret r).
  assert (Hlen1 : Z.of_nat (length (next_in strm1)) = fetched - q).
  { rewrite Hnext1, Hnext, length_take, length_drop. lia. }
  assert (Hnext2 : next_in strm2
                   = take (Z.to_nat (fetched - (q + z_used r)))
                          (drop (Z.to_nat (q + z_used r)) file)).
  { cbn [strm2 next_in]. rewrite Hnext1, Hnext.
    rewrite skipn_firstn_comm, drop_drop. f_equal; [lia|]. f_equal. lia. }
  destruct ((ret1 =? Z_MEM_ERROR) || (ret1 =? Z_DATA_ERROR)) eqn:Herr; [exact I|].
  destruct (ret1 =? Z_STREAM_END) eqn:Hend.
  { left. apply Z.eqb_eq in Hend. exact Hend. }
  assert (Hmoved : 0 < z_used r + Z.of_nat (length (z_out r))).
  { apply orb_false_elim in Herr as [Hmem Hdataerr].
    apply Z.eqb_neq in Hmem. apply Z.eqb_neq in Hdataerr. apply Z.eqb_neq in Hend.
    unfold ret1 in Hmem, Hdataerr, Hend.
    destruct (z_ret r =? Z_NEED_DICT) eqn:Hnd.
    - exfalso. apply Hdataerr. reflexivity.
    - apply Z.eqb_neq in Hnd.
      destruct Hprogress as [H|[H|[H|[H|H]]]]; try contradiction. exact H. }
  assert (Hgo : forall st2 : bstate zstate,
             b_strm st2 = strm2 ->
             match (if avail_in strm2 =? 0 then BuildExit ret1 st2
                    else build_inner fuel span st2) with
             | BuildFuel => False
             | BuildError _ => True
             | BuildExit ret st' =>
                 ret = Z_STREAM_END \/ exists k', stepping fetched fetched k' st'
             end).
  { intros st2 Hstrm.
    assert (Hstep2 : stepping fetched (q + z_used r) (k + Z.of_nat (length (z_out r))) st2).
    { unfold in_step. rewrite Hstrm. cbn [strm2 state avail_out].
      split; [exact Hbuilds'|]. split; [lia|]. split; [lia|]. split; [lia|].
      split; [lia|]. exact Hnext2. }
    destruct (avail_in strm2 =? 0) eqn:Hav2.
    - right. exists (k + Z.of_nat (length (z_out r))).
      apply Z.eqb_eq in Hav2. unfold avail_in in Hav2.
      rewrite Hnext2, length_take, length_drop in Hav2.
      assert (Hq2 : q + z_used r = fetched) by lia.
      rewrite Hq2 in Hstep2. exact Hstep2.
    - apply Z.eqb_neq in Hav2. unfold avail_in in Hav2.
      rewrite Hnext2, length_take, length_drop in Hav2.
      apply (IH st2 (q + z_used r) (k + Z.of_nat (length (z_out r)))); [exact Hstep2| |]; lia. }
  destruct (want_point (data_type strm2) totout2 (last st) span).
  - destruct (addpoint _ _ _ _ _ _) as [index'|]; [|exact I].
    apply Hgo. reflexivity.
  - apply Hgo. reflexivity.
Qed.

Lemma build_outer_ends (span : Z) (ifuel fuel : nat) :
  (length file + length data < ifuel)%nat ->
  forall inp st k,
    contents inp = file ->
    stepping (pos inp) (pos inp) k st ->
    (Z.to_nat (Z.of_nat (length file) - pos inp) < fuel)%nat ->
    build_outer fuel ifuel span inp st <> NoFuel.
Proof.
  intros Hifuel.
  induction fuel as [|fuel IH]; intros inp st k Hfile Hstep Hfuel; [lia|].
  cbn [build_outer].
  destruct (ioerr inp) eqn:Hio.
  { unfold fread. rewrite Hio. cbn [ferror]. discriminate. }
  rewrite (fread_ok _ _ Hio). cbn [ferror].
  set (input := take (Z.to_nat CHUNK) (drop (Z.to_nat (pos inp)) (contents inp))).
  destruct (ferror inp); [discriminate|].
  destruct (Z.of_nat (length input) =? 0) eqn:Hempty; [discriminate|].
  apply Z.eqb_neq in Hempty.
  destruct Hstep as (Hbuilds & Hq & Hfetched & Hk & Hav & Hnext).
  set (inp1 := mkFILE (contents inp) (pos inp + Z.of_nat (length input)) false false).
  assert (Hlen : Z.of_nat (length input) <= Z.of_nat (length file) - pos inp).
  { unfold input. rewrite Hfile, length_take, length_drop. lia. }
  set (st1 := mk_bstate (set_next_in (b_strm st) input) (totin st) (totout st)
                        (last st) (b_index st) (b_window st) (b_events st)).
  assert (Hstep1 : stepping (pos inp1) (pos inp) k st1).
  { unfold in_step. cbn [st1 b_strm set_next_in state avail_out next_in inp1 pos].
    split; [exact Hbuilds|]. split; [lia|]. split; [lia|]. split; [lia|].
    split; [lia|].
    replace (Z.to_nat (pos inp + Z.of_nat (length input) - pos inp))
      with (length input) by lia.
    unfold input. rewrite Hfile, take_length_take. reflexivity. }
  pose proof (build_inner_ends span (pos inp1) ifuel st1 (pos inp) k Hstep1) as Hinner.
  destruct (build_inner ifuel span st1) as [ret st'|ret|].
  - destruct (ret =? Z_STREAM_END) eqn:Hend; [discriminate|].
    apply Z.eqb_neq in Hend.
    destruct Hinner as [He|[k' Hstep']]; [cbn [inp1 pos]; lia| |contradiction|].
    { cbn [inp1 pos]. unfold uchar in *. lia. }
    apply (IH inp1 st' k'); [exact Hfile|exact Hstep'|]. cbn [inp1 pos]. lia.
  - discriminate.
  - exfalso. apply Hinner; cbn [inp1 pos]; unfold uchar in *; lia.
Qed.

(** X27. The loops of [build_index] end: given that every call of
    [inflate] that neither ends the stream nor fails consumes input or
    delivers output of a stream of [length data] bytes, [build_index] on a
    file read from its start returns (or reaches the unchecked [realloc])
    within as many rounds as the file and the stream have bytes. *)
Theorem build_index_ends (fuel : nat) (inp : FILE) (span : Z) :
  contents inp = file -> pos inp = 0 ->
  (length file + length data < fuel)%nat ->
  build_index fuel inp span <> NoFuel.
Proof.
  intros Hfile Hpos Hfuel. unfold build_index.
  destruct (inflateInit2 47) as [ret s] eqn:Hinit.
  destruct (ret =? Z_OK) eqn:Hret; cbn [negb]; [|discriminate].
  apply Z.eqb_eq in Hret. subst ret.
  pose proof (build_outer_ends span fuel fuel Hfuel inp (build_start s) 0 Hfile) as Hout.
  destruct (build_outer fuel fuel span inp (build_start s)) as [[ret st]| |].
  - destruct (ret =? Z_STREAM_END); [|discriminate].
    destruct (b_index st); [|discriminate]. destruct (can_alloc _); discriminate.
  - discriminate.
  - exfalso. apply Hout; [|lia|reflexivity].
    unfold in_step, build_start. cbn [b_strm state avail_out next_in]. rewrite Hpos.
    split; [destruct Hadvances as [H0 _]; apply H0; exact Hinit|].
    split; [lia|]. split; [lia|]. split; [lia|]. split; [unfold WINSIZE; lia|].
    reflexivity.
Qed.

End BuildEnds.

Lemma plain_inflate_advances (data : list uchar) :
  inflate_advances (ZL := Plain.zlib) (Plain.deflate data) data (Plain.resumes data).
Proof.
  split.
  - intros s [= <-]. split; reflexivity.
  - intros s q k input n Hres Hin Hne Hn r.
    pose proof (plain_inflate_resumes data s q k input n Hres Hin Hne ltac:(lia))
      as (Hused & Hout & Hpre & Hret & Hres' & Hend & Hprog).
    change (inflate s input n Z_NO_FLUSH) with r in *.
    split; [exact Hused|]. split; [exact Hout|].
    assert (Hk' : k + Z.of_nat (length (z_out r)) <= Z.of_nat (length data)).
    { cbn [zstate Plain.zlib] in *. destruct (z_next r); cbn [Plain.resumes] in Hres'; lia. }
    split; [exact Hk'|]. split; [exact Hres'|].
    destruct (Z.eq_dec (z_ret r) Z_STREAM_END) as [He|He]; [left; exact He|].
    right. right. right. right.
    destruct (Hprog He) as [[Hall|Hfull] _].
    + destruct input; [contradiction|]. cbn [length] in Hall. lia.
    + lia.
Qed.

Lemma build_index_ends_witness :
  build_index (RT := Stored.runtime) (ZL := Plain.zlib) 10
    (mkFILE (Plain.deflate Plain.abc) 0 false false) SPAN <> NoFuel.
Proof.
  apply (build_index_ends (RT := Stored.runtime) (ZL := Plain.zlib)
           (Plain.deflate Plain.abc) Plain.abc (Plain.resumes Plain.abc)
           (plain_inflate_advances Plain.abc)).
  - reflexivity.
  - reflexivity.
  - vm_compute. lia.
Defined.

(** ** Reading from a file cut short behind the access point *)

Section ExtractCut.

Context `{ZL : Zlib}.
Variable file data : list uchar.
Variable resumes : zstate -> Z -> Z -> Prop.
Hypothesis Hcontract : inflate_resumes file data resumes.
Variable m : nat.
Hypothesis Hm : (m <= length file)%nat.

#[local] Abbreviation cut := (take m file).
#[local] Abbreviation fedc := (fed_cut (take m file) file).

Lemma length_cut : length cut = m.
Proof. rewrite length_take. lia. Qed.

(** The refill at the head of the inner loop: it leaves input to inflate,
    or finds the file at its end. *)
Lemma refill_cut (st : estate zstate) (q : Z) :
  fedc st q ->
  (exists inp1 input filled,
     (if avail_in (e_strm st) =? 0 then
        let '(inp1, input) := fread (e_in st) CHUNK in
        (inp1, set_next_in (e_strm st) input, true)
      else (e_in st, e_strm st, false))
     = (inp1, set_next_in (e_strm st) input, filled) /\
     fedc (mk_estate inp1 (set_next_in (e_strm st) input) (e_offset st) (e_skip st)
                     (e_tobuf st) (e_buf st)) q /\
     input <> [] /\ ferror inp1 = false) \/
  (exists inp1,
     (if avail_in (e_strm st) =? 0 then
        let '(inp1, input) := fread (e_in st) CHUNK in
        (inp1, set_next_in (e_strm st) input, true)
      else (e_in st, e_strm st, false))
     = (inp1, set_next_in (e_strm st) [], true) /\ ferror inp1 = false).
Proof.
  intros (Hfile & Hio & Hferr & Hq & Hpos & Hin).
  pose proof length_cut as Hcut. rewrite Hcut in Hpos.
  unfold avail_in. destruct (Z.of_nat (length (next_in (e_strm st))) =? 0) eqn:Hav.
  - apply Z.eqb_eq in Hav.
    assert (Hpq : pos (e_in st) = q).
    { rewrite Hin, length_take, length_drop in Hav. lia. }
    rewrite (fread_ok _ _ Hio), Hfile, Hpq.
    set (got := take (Z.to_nat CHUNK) (drop (Z.to_nat q) cut)).
    assert (Hgot : got = take (length got) (drop (Z.to_nat q) file)).
    { unfold got. rewrite skipn_firstn_comm, take_take.
      symmetry. apply take_length_take. }
    assert (Hlen : (length got <= m - Z.to_nat q)%nat).
    { unfold got. rewrite length_take, length_drop, length_take. lia. }
    destruct (decide (got = [])) as [Hnil|Hnonnil].
    + right. rewrite Hnil. eexists. split; [reflexivity|]. exact Hferr.
    + left.
      exists (mkFILE cut (q + Z.of_nat (length got)) false (ferror (e_in st))), got, true.
      split; [reflexivity|]. split; [|split].
      * unfold fed_cut. cbn [e_in e_strm contents ioerr ferror pos set_next_in next_in].
        rewrite Hcut.
        split; [reflexivity|]. split; [reflexivity|]. split; [exact Hferr|].
        split; [lia|]. split; [lia|].
        replace (Z.to_nat (q + Z.of_nat (length got) - q)) with (length got) by lia.
        exact Hgot.
      * exact Hnonnil.
      * exact Hferr.
  - left. exists (e_in st), (next_in (e_strm st)), false.
    assert (Hset : set_next_in (e_strm st) (next_in (e_strm st)) = e_strm st)
      by (destruct (e_strm st); reflexivity).
    rewrite Hset. split; [reflexivity|]. split; [|split].
    + unfold fed_cut. cbn [e_in e_strm]. rewrite Hcut. repeat split; try assumption; lia.
    + intros Hnil. rewrite Hnil in Hav. cbn in Hav. discriminate.
    + exact Hferr.
Qed.

(** The inner loop of [extract] on the file cut short: it delivers the next
    bytes of [data], or finds the file at its end and leaves with
    [Z_DATA_ERROR]. *)
Lemma extract_inner_cut (len : Z) (fuel : nat) :
  forall (st : estate zstate) (q k : Z),
    fedc st q -> resumes (state (e_strm st)) q k -> 0 <= k ->
    0 <= avail_out (e_strm st) ->
    (e_tobuf st = true ->
       0 <= len - avail_out (e_strm st) /\ len <= Z.of_nat (length (e_buf st))) ->
    (Z.to_nat (Z.of_nat m - q) < fuel)%nat ->
    (exists ret st' q' produced,
       extract_inner fuel len st = ExtractExit ret st' /\
       fedc st' q' /\
       resumes (state (e_strm st')) q' (k + Z.of_nat (length produced)) /\
       produced = take (length produced) (drop (Z.to_nat k) data) /\
       avail_out (e_strm st') = avail_out (e_strm st) - Z.of_nat (length produced) /\
       0 <= avail_out (e_strm st') /\
       ((ret = Z_STREAM_END /\
         k + Z.of_nat (length produced) = Z.of_nat (length data)) \/
        (ret <> Z_STREAM_END /\ avail_out (e_strm st') = 0)) /\
       e_offset st' = e_offset st /\ e_skip st' = e_skip st /\
       e_tobuf st' = e_tobuf st /\
       e_buf st' = if e_tobuf st
                   then write_at (e_buf st) (len - avail_out (e_strm st)) produced
                   else e_buf st) \/
    (exists st', extract_inner fuel len st = ExtractError Z_DATA_ERROR st' /\
                 e_skip st' = e_skip st).
Proof.
  induction fuel as [|fuel IH]; intros st q k Hfed Hres Hk Hav Hbuf Hfuel; [lia|].
  rewrite extract_inner_unfold.
  destruct (refill_cut st q Hfed)
    as [(inp1 & input & filled & -> & Hfed1 & Hne & Hferr)|(inp1 & -> & Hferr)].
  2:{ right. cbv zeta. rewrite Hferr. cbn [andb]. unfold avail_in.
      cbn [set_next_in next_in length]. change (Z.of_nat 0 =? 0) with true.
      eexists. split; reflexivity. }
  cbv zeta. rewrite Hferr, andb_false_r.
  assert (Hin1 : (avail_in (set_next_in (e_strm st) input) =? 0) = false).
  { unfold avail_in. cbn [set_next_in next_in]. destruct input; [contradiction|].
    cbn [length]. apply Z.eqb_neq. lia. }
  rewrite Hin1, andb_false_r.
  unfold inflate_call. cbn [set_next_in state next_in avail_out].
  destruct Hfed1 as (Hfile & Hio & _ & Hqpos & Hpos & Hnext).
  cbn [e_in e_strm set_next_in next_in] in *.
  pose proof length_cut as Hcut. rewrite Hcut in Hpos.
  destruct (Hcontract (state (e_strm st)) q k input (avail_out (e_strm st)) Hres
              (ex_intro _ _ Hnext) Hne Hav)
    as (Hused & Hout & Hpre & Hret & Hres' & Hend & Hprog).
  set (r := inflate (state (e_strm st)) input (avail_out (e_strm st)) Z_NO_FLUSH) in *.
  assert (Hnd : (z_ret r =? Z_NEED_DICT) = false)
    by (apply Z.eqb_neq; unfold Z_NEED_DICT, Z_OK, Z_BUF_ERROR, Z_STREAM_END in *; lia).
  rewrite Hnd.
  assert (Herr : (z_ret r =? Z_MEM_ERROR) || (z_ret r =? Z_DATA_ERROR) = false).
  { apply orb_false_intro; apply Z.eqb_neq;
      unfold Z_MEM_ERROR, Z_DATA_ERROR, Z_OK, Z_BUF_ERROR, Z_STREAM_END in *; lia. }
  rewrite Herr.
  set (strm2 := mk_z_stream (drop (Z.to_nat (z_used r)) input)
                            (avail_out (e_strm st) - Z.of_nat (length (z_out r)))
                            (z_data_type r) (z_next r)).
  set (buf2 := if e_tobuf st
               then memcpy (e_buf st) (len - avail_out (e_strm st)) (z_out r) 0
                           (Z.of_nat (length (z_out r)))
               else e_buf st).
  set (st2 := mk_estate inp1 strm2 (e_offset st) (e_skip st) (e_tobuf st) buf2).
  assert (Hbuf2 : buf2 = if e_tobuf st
                         then write_at (e_buf st) (len - avail_out (e_strm st)) (z_out r)
                         else e_buf st).
  { unfold buf2. destruct (e_tobuf st); [|reflexivity].
    apply memcpy_write_at. destruct (Hbuf eq_refl). lia. }
  assert (Hlen_in : Z.of_nat (length input) = pos inp1 - q).
  { rewrite Hnext, length_take, length_drop. lia. }
  assert (Hfed2 : fedc st2 (q + z_used r)).
  { unfold fed_cut, st2, strm2. cbn [e_in e_strm next_in]. rewrite Hcut.
    split; [exact Hfile|]. split; [exact Hio|]. split; [exact Hferr|].
    split; [lia|]. split; [lia|].
    rewrite Hnext at 1. rewrite skipn_firstn_comm, drop_drop.
    f_equal; [lia|]. f_equal. lia. }
  assert (Hexit :
             ((z_ret r = Z_STREAM_END /\
               k + Z.of_nat (length (z_out r)) = Z.of_nat (length data)) \/
              (z_ret r <> Z_STREAM_END /\ avail_out (e_strm st2) = 0)) ->
             exists ret st' q' produced,
               ExtractExit (z_ret r) st2 = ExtractExit ret st' /\
               fedc st' q' /\
               resumes (state (e_strm st')) q' (k + Z.of_nat (length produced)) /\
               produced = take (length produced) (drop (Z.to_nat k) data) /\
               avail_out (e_strm st')
               = avail_out (e_strm st) - Z.of_nat (length produced) /\
               0 <= avail_out (e_strm st') /\
               ((ret = Z_STREAM_END /\
                 k + Z.of_nat (length produced) = Z.of_nat (length data)) \/
                (ret <> Z_STREAM_END /\ avail_out (e_strm st') = 0)) /\
               e_offset st' = e_offset st /\ e_skip st' = e_skip st /\
               e_tobuf st' = e_tobuf st /\
               e_buf st' = if e_tobuf st
                           then write_at (e_buf st) (len - avail_out (e_strm st)) produced
                           else e_buf st).
  { intros Hcase.
    exists (z_ret r), st2, (q + z_used r), (z_out r).
    split; [reflexivity|]. split; [exact Hfed2|]. split; [exact Hres'|].
    split; [exact Hpre|]. split; [reflexivity|].
    split; [cbn [st2 strm2 e_strm avail_out]; lia|].
    split; [exact Hcase|]. repeat split. exact Hbuf2. }
  destruct (z_ret r =? Z_STREAM_END) eqn:Hse.
  { left. apply Z.eqb_eq in Hse. apply Hexit.
    left. split; [exact Hse|]. apply Hend. exact Hse. }
  apply Z.eqb_neq in Hse. destruct (Hprog Hse) as [Hprogress _].
  change (avail_out (e_strm st) - Z.of_nat (length (z_out r)) =? 0)
    with (avail_out strm2 =? 0).
  destruct (avail_out strm2 =? 0) eqn:Hfull.
  { left. apply Z.eqb_eq in Hfull. apply Hexit.
    right. split; [exact Hse|exact Hfull]. }
  apply Z.eqb_neq in Hfull. clear Hexit.
  assert (Hall : z_used r = Z.of_nat (length input)).
  { destruct Hprogress as [H|H]; [exact H|]. cbn [strm2 avail_out] in Hfull. lia. }
  assert (Hpos1 : 0 < Z.of_nat (length input)).
  { destruct input; [contradiction|]. cbn [length]. lia. }
  destruct (IH st2 (q + z_used r) (k + Z.of_nat (length (z_out r))))
    as [(ret & st' & q' & rest & Hrun & Hfed' & Hres2 & Hpre2 & Hav2 & Hav2' & Hcase
         & Hoff & Hskip & Htobuf & Hbuf')|(st' & Hrun & Hskip)];
    try assumption; try lia.
  - cbn [st2 strm2 e_strm avail_out]. lia.
  - intros Htb. cbn [st2 strm2 e_strm avail_out e_buf e_tobuf] in *.
    destruct (Hbuf Htb) as [Hb1 Hb2]. split; [lia|].
    rewrite Hbuf2, Htb, write_at_length; lia.
  - left. exists ret, st', q', (z_out r ++ rest).
    rewrite length_app, Nat2Z.inj_add, Z.add_assoc.
    split; [exact Hrun|]. split; [exact Hfed'|]. split; [exact Hres2|].
    split.
    { rewrite <- length_app. apply take_prefix_app; [exact Hpre|].
      replace (Z.to_nat k + length (z_out r))%nat
        with (Z.to_nat (k + Z.of_nat (length (z_out r))))
        by (rewrite Z2Nat.inj_add, Nat2Z.id
              by (first [exact Hk|apply Nat2Z.is_nonneg]); reflexivity).
      exact Hpre2. }
    split; [rewrite Hav2; cbn [st2 strm2 e_strm avail_out]; lia|].
    split; [exact Hav2'|]. split; [exact Hcase|].
    split; [exact Hoff|]. split; [exact Hskip|]. split; [exact Htobuf|].
    rewrite Hbuf'. cbn [st2 e_tobuf e_buf e_strm strm2 avail_out].
    destruct (e_tobuf st) eqn:Htb; [|rewrite Hbuf2; reflexivity].
    rewrite Hbuf2. destruct (Hbuf eq_refl) as [Hb1 Hb2].
    replace (len - (avail_out (e_strm st) - Z.of_nat (length (z_out r))))
      with (len - avail_out (e_strm st) + Z.of_nat (length (z_out r))) by lia.
    apply write_at_app; lia.
  - right. exists st'. split; [exact Hrun|exact Hskip].
Qed.

(** The outer loop of [extract] on the file cut short. *)
Lemma extract_outer_cut (len : Z) (ifuel : nat) (o : Z) (fuel : nat) :
  (m < ifuel)%nat ->
  forall (st : estate zstate) (q k : Z),
    fedc st q -> resumes (state (e_strm st)) q k ->
    0 <= k <= Z.of_nat (length data) ->
    0 <= e_offset st -> k + e_offset st = o ->
    e_skip st = true -> e_tobuf st = false ->
    0 <= len <= Z.of_nat (length (e_buf st)) ->
    (Z.to_nat (e_offset st) < fuel)%nat ->
    (exists ret st',
       extract_outer fuel ifuel len st = ExtractExit ret st' /\
       (if e_skip st' then 0 else len - avail_out (e_strm st')) = clipped data o len /\
       e_buf st' = write_at (e_buf st) 0
                     (take (Z.to_nat (clipped data o len)) (drop (Z.to_nat o) data))) \/
    (exists st', extract_outer fuel ifuel len st = ExtractError Z_DATA_ERROR st').
Proof.
  intros Hifuel.
  induction fuel as [|fuel IH];
    intros st q k Hfed Hres Hk Hoff Ho Hskip Htobuf Hlen Hfuel; [lia|].
  rewrite extract_outer_unfold. cbv zeta. rewrite Hskip, andb_true_r.
  pose proof Hfed as (_ & _ & _ & Hq0 & _).
  destruct (e_offset st =? 0) eqn:H0.
  - (* at offset now *)
    apply Z.eqb_eq in H0. cbn [e_offset]. rewrite H0.
    assert ((WINSIZE <? 0) = false) as -> by reflexivity.
    cbn [Z.eqb negb].
    set (st1 := mk_estate (e_in st) (set_avail_out (e_strm st) len) 0 false true (e_buf st)).
    destruct (extract_inner_cut len ifuel st1 q k)
      as [(ret & st' & q' & produced & Hrun & Hfed' & _ & Hpre & Hav & Hav' & Hcase
           & _ & Hskip' & _ & Hbuf')|(st' & Hrun & _)];
      try assumption; try (cbn [st1 e_strm set_avail_out avail_out state]; lia);
      try (cbn [st1 e_strm set_avail_out avail_out e_buf]; intros _; lia).
    2:{ right. rewrite Hrun. exists st'. reflexivity. }
    left. rewrite Hrun. cbn [st1 e_skip e_tobuf e_buf e_strm set_avail_out avail_out] in *.
    assert (Hk' : k = o) by lia. subst k.
    assert (Hple : Z.of_nat (length produced) <= Z.of_nat (length data) - o).
    { pose proof (f_equal length Hpre) as Hl.
      rewrite length_take, length_drop in Hl. lia. }
    assert (Hn : Z.of_nat (length produced) = clipped data o len).
    { unfold clipped. destruct Hcase as [[_ He]|[_ Hz]]; lia. }
    assert (Hfinal : (if e_skip st' then 0 else len - avail_out (e_strm st'))
                     = clipped data o len
                     /\ e_buf st' = write_at (e_buf st) 0
                          (take (Z.to_nat (clipped data o len)) (drop (Z.to_nat o) data))).
    { rewrite Hskip', Hav, Hbuf', Z.sub_diag, <- Hn, Nat2Z.id, <- Hpre.
      split; [lia|reflexivity]. }
    destruct (ret =? Z_STREAM_END).
    + exists ret, st'. split; [reflexivity|exact Hfinal].
    + rewrite Hskip'. exists ret, st'. split; [reflexivity|exact Hfinal].
  - (* still skipping *)
    apply Z.eqb_neq in H0.
    set (a := if WINSIZE <? e_offset st then WINSIZE else e_offset st).
    set (rest := if WINSIZE <? e_offset st then e_offset st - WINSIZE else 0).
    assert (Ha : 0 < a <= e_offset st /\ a <= WINSIZE /\ a + rest = e_offset st
                 /\ 0 <= rest).
    { unfold a, rest. destruct (WINSIZE <? e_offset st) eqn:Hw.
      - apply Z.ltb_lt in Hw. unfold WINSIZE in *. lia.
      - apply Z.ltb_ge in Hw. lia. }
    set (st2 := mk_estate (e_in st) (set_avail_out (e_strm st) a) rest true false
                          (e_buf st)).
    assert (Hst2 : (if WINSIZE <? e_offset st
                    then mk_estate (e_in st) (set_avail_out (e_strm st) WINSIZE)
                           (e_offset st - WINSIZE) (e_skip st) false (e_buf st)
                    else if negb (e_offset st =? 0)
                         then mk_estate (e_in st)
                                (set_avail_out (e_strm st) (e_offset st mod 2 ^ 32))
                                0 (e_skip st) false (e_buf st)
                         else st) = st2).
    { unfold st2, a, rest. rewrite Hskip. destruct (WINSIZE <? e_offset st) eqn:Hw.
      - reflexivity.
      - apply Z.ltb_ge in Hw. apply Z.eqb_neq in H0. rewrite H0. cbn [negb].
        rewrite Z.mod_small; [reflexivity|]. unfold WINSIZE in Hw. lia. }
    rewrite Hst2.
    destruct (extract_inner_cut len ifuel st2 q k)
      as [(ret & st' & q' & produced & Hrun & Hfed' & Hres' & Hpre & Hav & Hav' & Hcase
           & Hoff' & Hskip' & Htobuf' & Hbuf')|(st' & Hrun & _)];
      try assumption; try (cbn [st2 e_strm set_avail_out avail_out state]; lia);
      try (cbn [st2 e_tobuf]; discriminate).
    2:{ right. rewrite Hrun. exists st'. reflexivity. }
    rewrite Hrun. cbn [st2 e_skip e_tobuf e_buf e_strm set_avail_out avail_out e_offset] in *.
    assert (Hple : Z.of_nat (length produced) <= Z.of_nat (length data) - k).
    { pose proof (f_equal length Hpre) as Hl.
      rewrite length_take, length_drop in Hl. lia. }
    destruct Hcase as [[Hend Hall]|[Hne Hzero]].
    + (* the stream ended before the offset was passed *)
      left. apply Z.eqb_eq in Hend as Hend'. rewrite Hend'.
      exists ret, st'. split; [reflexivity|].
      assert (Hn : clipped data o len = 0) by (unfold clipped; lia).
      rewrite Hskip', Hbuf', Hn. change (Z.to_nat 0) with 0%nat.
      rewrite take_0, write_at_nil. split; reflexivity.
    + apply Z.eqb_neq in Hne as Hne'. rewrite Hne', Hskip'. rewrite <- Hbuf'.
      apply (IH st' q' (k + Z.of_nat (length produced))); try assumption; try lia.
      rewrite Hbuf'. exact Hlen.
Qed.

Lemma extract_start_cut (inp : FILE) (here : point) (o : Z) (buf : list uchar) :
  fst (inflateInit2 (-15)) = Z_OK ->
  contents inp = cut -> ioerr inp = false -> ferror inp = false ->
  (forall b, b ∈ file -> 0 <= b) ->
  valid_point file data resumes here -> in_ here <= Z.of_nat m ->
  extract_start inp here o buf
  = inr (mk_estate (mkFILE cut (in_ here) false false)
           (mk_z_stream [] 0 0 (start_state file here))
           (o - out here) true false buf).
Proof.
  intros Hinit Hfile Hio Hferr Hbytes (Hout & Hin & Hbits & _) Hbelow.
  unfold extract_start, start_state.
  destruct (inflateInit2 (-15)) as [ret s0]. cbn [fst snd] in *. subst ret.
  cbn [Z.eqb negb Z_OK].
  destruct (bits here =? 0) eqn:Hb; cbn [negb].
  - unfold fseeko. rewrite Z.sub_0_r.
    assert ((in_ here <? 0) = false) as -> by lia.
    cbn [Z.eqb]. rewrite Hfile, Hio, Hferr. reflexivity.
  - apply Z.eqb_neq in Hb. specialize (Hbits Hb).
    unfold fseeko. assert ((in_ here - 1 <? 0) = false) as -> by lia.
    cbn [Z.eqb]. unfold getc. cbn [ioerr contents pos ferror]. rewrite Hio, Hfile.
    rewrite lookup_take_lt by lia.
    match goal with
    | |- context [match ?x with Some _ => _ | None => _ end] =>
        destruct x as [b|] eqn:Hbyte
    end.
    + assert (Hb0 : 0 <= b) by (apply Hbytes; eapply list_elem_of_lookup_2; eauto).
      assert ((b =? -1) = false) as -> by (apply Z.eqb_neq; lia).
      rewrite (nth_lookup_Some _ _ _ _ Hbyte), Hferr.
      replace (in_ here - 1 + 1) with (in_ here) by lia. reflexivity.
    + apply lookup_ge_None in Hbyte. exfalso. unfold uchar in *. lia.
Qed.

(** X28. A file cut short behind the access point: on a session whose file
    holds only the first [m] bytes of the file its index was built for,
    [seekgzip_seek] to [o] followed by [seekgzip_read] of [L] bytes either
    delivers exactly what the whole file would give and advances the
    offset, or returns [Z_DATA_ERROR] and leaves the offset at [o]; it
    never delivers other bytes, and it returns within the fuel given. *)
Theorem seekgzip_read_cut_file (zs : seekgzip_t) (o L : Z) (buffer : list uchar)
        (fuel : nat) (here : point) :
  fst (inflateInit2 (-15)) = Z_OK ->
  contents (fp zs) = take m file -> ioerr (fp zs) = false -> ferror (fp zs) = false ->
  (forall b, b ∈ file -> 0 <= b) ->
  access_ok (index zs) -> sorted_by_out (list_ (index zs)) ->
  (forall p, p ∈ list_ (index zs) -> valid_point file data resumes p) ->
  findpoint (index zs) o = Some here -> in_ here <= Z.of_nat m ->
  0 <= L <= Z.of_nat (length buffer) ->
  (m + Z.to_nat o < fuel)%nat ->
  let n := clipped data o L in
  (exists zs',
     seekgzip_read fuel (seekgzip_seek zs o) buffer L
     = Returns (n, take (Z.to_nat n) (drop (Z.to_nat o) data) ++ drop (Z.to_nat n) buffer,
                zs') /\
     seekgzip_tell zs' = o + n) \/
  (exists buffer' zs',
     seekgzip_read fuel (seekgzip_seek zs o) buffer L
     = Returns (Z_DATA_ERROR, buffer', zs') /\
     seekgzip_tell zs' = o).
Proof.
  intros Hinit Hfile Hio Hferr Hbytes Hok Hsorted Hvalid Hfind Hbelow HL Hfuel n.
  unfold seekgzip_read, seekgzip_seek. cbn [fp index offset errorcode]. unfold extract.
  assert ((L <? 0) = false) as -> by lia.
  pose proof (findpoint_spec (index zs) o Hok Hsorted) as Hspec.
  rewrite Hfind in *. destruct Hspec as (j & Hj & Hle & _).
  assert (Hhere : valid_point file data resumes here)
    by (apply Hvalid; eapply list_elem_of_lookup_2; eauto).
  rewrite (extract_start_cut _ _ _ _ Hinit Hfile Hio Hferr Hbytes Hhere Hbelow).
  destruct Hhere as (Hout & Hin & _ & Hres).
  set (st0 := mk_estate (mkFILE cut (in_ here) false false)
                (mk_z_stream [] 0 0 (start_state file here))
                (o - out here) true false buffer).
  destruct (extract_outer_cut L fuel o fuel ltac:(lia) st0 (in_ here) (out here))
    as [(ret & st' & Hrun & Hval & Hbuf)|(st' & Hrun)];
    try (cbn [st0 e_offset e_skip e_tobuf e_buf e_strm state]; first [assumption|lia|reflexivity]).
  { unfold fed_cut. cbn [st0 e_in e_strm contents ioerr ferror pos next_in].
    rewrite length_cut, Z.sub_diag. change (Z.to_nat 0) with 0%nat. rewrite take_0.
    repeat split; lia. }
  - left. rewrite Hrun, Hval, Hbuf. fold n.
    assert (Hn : 0 <= n) by (unfold n, clipped; lia).
    assert (Hlen : length (take (Z.to_nat n) (drop (Z.to_nat o) data)) = Z.to_nat n).
    { rewrite length_take, length_drop. unfold n, clipped. lia. }
    assert (Hbuffer : write_at buffer 0 (take (Z.to_nat n) (drop (Z.to_nat o) data))
                      = take (Z.to_nat n) (drop (Z.to_nat o) data)
                        ++ drop (Z.to_nat n) buffer).
    { unfold write_at. change (Z.to_nat 0) with 0%nat. rewrite take_0, Hlen. reflexivity. }
    change (e_buf st0) with buffer. rewrite Hbuffer.
    eexists. split; [reflexivity|]. unfold seekgzip_tell. cbn [offset].
    destruct (0 <? n) eqn:Hpos; [reflexivity|]. apply Z.ltb_ge in Hpos. lia.
  - right. rewrite Hrun. eexists _, _. split; [reflexivity|]. reflexivity.
Qed.

End ExtractCut.

Lemma seekgzip_read_cut_file_witness :
  exists buffer' zs',
    seekgzip_read (ZL := Plain.zlib) 10
      (seekgzip_seek (mk_seekgzip (mkFILE (take 3 (Plain.deflate Plain.abc)) 0 false false)
                                  (index Plain.abc_session) 0 0) 0)
      [0; 0; 0] 3
    = Returns (Z_DATA_ERROR, buffer', zs') /\ seekgzip_tell zs' = 0.
Proof.
  destruct (seekgzip_read_cut_file (ZL := Plain.zlib)
              (Plain.deflate Plain.abc) Plain.abc (Plain.resumes Plain.abc)
              (plain_inflate_resumes Plain.abc) 3 ltac:(cbn; lia)
              (mk_seekgzip (mkFILE (take 3 (Plain.deflate Plain.abc)) 0 false false)
                           (index Plain.abc_session) 0 0)
              0 3 [0; 0; 0] 10 (mkpoint 0 0 0 []))
    as [(zs' & Hread & _)|Herr].
  - reflexivity.
  - reflexivity.
  - reflexivity.
  - reflexivity.
  - intros b Hb. vm_compute in Hb.
    repeat (apply elem_of_cons in Hb as [->|Hb]; [lia|]).
    apply elem_of_nil in Hb. contradiction.
  - reflexivity.
  - apply strictly_sorted_sorted, strictly_sorted_outs_correct. reflexivity.
  - intros p Hp. apply list_elem_of_singleton in Hp. subst p.
    unfold valid_point. cbn [out in_ bits]. vm_compute. repeat split; congruence.
  - reflexivity.
  - cbn. lia.
  - cbn [length]. lia.
  - vm_compute. lia.
  - exfalso. revert Hread. vm_compute. discriminate.
  - exact Herr.
Defined.

(** * From the index built to the bytes read *)

(** ** The sliding window holds the output that precedes a point *)

Lemma window_of_start (data w : list uchar) :
  Z.of_nat (length w) = WINSIZE -> window_of data 0 w.
Proof.
  intros Hlen. split; [exact Hlen|].
  rewrite Z.min_l by (unfold WINSIZE; lia). rewrite Z.sub_0_r.
  change (Z.to_nat 0) with 0%nat. rewrite take_0. apply drop_ge. lia.
Qed.

(** Dropping the [n] oldest bytes of a window of position [k] and appending
    the next [n] bytes of the stream gives a window of position [k + n]. *)
Lemma window_slide (data C p : list uchar) (W kn n : nat) :
  length C = W -> (n <= W)%nat ->
  drop (W - Nat.min kn W) C = take (Nat.min kn W) (drop (kn - Nat.min kn W) data) ->
  p = take n (drop kn data) -> length p = n ->
  drop (W - Nat.min (kn + n) W) (drop n C ++ p)
  = take (Nat.min (kn + n) W) (drop (kn + n - Nat.min (kn + n) W) data).
Proof.
  intros HC Hn Hold Hp Hlen.
  set (m := Nat.min kn W) in *. set (m' := Nat.min (kn + n) W).
  assert (Hm : (n <= m' <= W /\ m' - n <= m /\ m <= kn /\ m' <= kn + n)%nat)
    by (unfold m, m'; lia).
  set (D := drop (kn + n - m') data).
  assert (Hp' : p = take n (drop (m' - n) D)).
  { unfold D. rewrite drop_drop. replace (kn + n - m' + (m' - n))%nat with kn by lia.
    exact Hp. }
  rewrite drop_app_le by (rewrite length_drop; lia).
  rewrite drop_drop.
  replace (n + (W - m'))%nat with ((W - m) + (m - (m' - n)))%nat by lia.
  rewrite <- drop_drop, Hold, skipn_firstn_comm, drop_drop.
  replace (m - (m - (m' - n)))%nat with (m' - n)%nat by lia.
  replace (kn - m + (m - (m' - n)))%nat with (kn + n - m')%nat by lia.
  fold D. rewrite Hp' at 1. rewrite take_take_drop.
  replace (m' - n + n)%nat with m' by lia. reflexivity.
Qed.

(** The write of [inflate] into the sliding window, as [build_index] has
    it, keeps the window in step with the output. *)
Lemma window_of_write (data buf p : list uchar) (k left : Z) :
  0 <= k -> 0 <= left <= WINSIZE -> Z.of_nat (length buf) = WINSIZE ->
  window_of data k (chronological left buf) ->
  p = take (length p) (drop (Z.to_nat k) data) -> Z.of_nat (length p) <= left ->
  window_of data (k + Z.of_nat (length p))
    (chronological (left - Z.of_nat (length p))
       (memcpy buf (WINSIZE - left) p 0 (Z.of_nat (length p)))).
Proof.
  intros Hk Hleft Hlen [HlenC Hold] Hp Hfit.
  assert (Hrot : chronological (left - Z.of_nat (length p))
                   (memcpy buf (WINSIZE - left) p 0 (Z.of_nat (length p)))
                 = drop (length p) (chronological left buf) ++ p).
  { rewrite memcpy_write_at by lia. unfold chronological, write_at.
    set (w := Z.to_nat (WINSIZE - left)). set (n := length p).
    replace (Z.to_nat (WINSIZE - (left - Z.of_nat n))) with (w + n)%nat by lia.
    assert (Hpre : length (take w buf ++ p) = (w + n)%nat)
      by (rewrite length_app, length_take; lia).
    rewrite app_assoc.
    rewrite drop_app_length' by (symmetry; exact Hpre).
    rewrite take_app_length' by (symmetry; exact Hpre).
    rewrite drop_app_le by (rewrite length_drop; lia).
    rewrite drop_drop, <- !app_assoc. reflexivity. }
  rewrite Hrot. split.
  - rewrite length_app, length_drop. lia.
  - pose proof (window_slide data (chronological left buf) p (Z.to_nat WINSIZE)
                  (Z.to_nat k) (length p)) as Hslide.
    replace (Z.to_nat (WINSIZE - Z.min (k + Z.of_nat (length p)) WINSIZE))
      with (Z.to_nat WINSIZE - Nat.min (Z.to_nat k + length p) (Z.to_nat WINSIZE))%nat
      by lia.
    replace (Z.to_nat (Z.min (k + Z.of_nat (length p)) WINSIZE))
      with (Nat.min (Z.to_nat k + length p) (Z.to_nat WINSIZE)) by lia.
    replace (Z.to_nat (k + Z.of_nat (length p)
                       - Z.min (k + Z.of_nat (length p)) WINSIZE))
      with (Z.to_nat k + length p
            - Nat.min (Z.to_nat k + length p) (Z.to_nat WINSIZE))%nat by lia.
    apply Hslide; [lia|lia| |exact Hp|reflexivity].
    replace (Z.to_nat WINSIZE - Nat.min (Z.to_nat k) (Z.to_nat WINSIZE))%nat
      with (Z.to_nat (WINSIZE - Z.min k WINSIZE)) by lia.
    replace (Nat.min (Z.to_nat k) (Z.to_nat WINSIZE))
      with (Z.to_nat (Z.min k WINSIZE)) by lia.
    replace (Z.to_nat k - Z.to_nat (Z.min k WINSIZE))%nat
      with (Z.to_nat (k - Z.min k WINSIZE)) by lia.
    exact Hold.
Qed.

(** ** build_index stores valid access points *)

Section BuildValid.

Context `{RT : Runtime} `{ZL : Zlib}.
Variable file data : list uchar.
Variable tracks resumes : zstate -> Z -> Z -> Prop.
Hypothesis Hmarks : inflate_marks_blocks file data tracks resumes.

#[local] Abbreviation built := (building file data tracks resumes).

Lemma build_inner_valid (span fetched : Z) (fuel : nat) :
  forall st ret st',
    built fetched st -> totin st < fetched ->
    build_inner fuel span st = BuildExit ret st' ->
    match b_index st' with
    | None => True
    | Some index => forall p, p ∈ list_ index -> valid_point file data resumes p
    end /\
    (ret <> Z_STREAM_END -> built fetched st' /\ totin st' = fetched).
Proof.
  induction fuel as [|fuel IH]; intros st ret st' Hinv Hlt Hrun; [discriminate|].
  cbn [build_inner] in Hrun. unfold inflate_call in Hrun.
  destruct Hinv as (Htracks & Hq & Hfetched & Hk & Hav & Hnext & Hwin & Hwlen & Hvalid).
  set (strm1 := if avail_out (b_strm st) =? 0
                then set_avail_out (b_strm st) WINSIZE else b_strm st) in *.
  assert (Hstrm1 : state strm1 = state (b_strm st) /\
                   next_in strm1 = next_in (b_strm st) /\
                   0 < avail_out strm1 <= WINSIZE /\
                   window_of data (totout st)
                     (chronological (avail_out strm1) (b_window st))).
  { unfold strm1. destruct (avail_out (b_strm st) =? 0) eqn:H0.
    - apply Z.eqb_eq in H0. rewrite H0 in Hwin.
      cbn [set_avail_out state next_in avail_out].
      rewrite chronological_reset by exact Hwlen.
      split; [reflexivity|]. split; [reflexivity|].
      split; [unfold WINSIZE; lia|exact Hwin].
    - apply Z.eqb_neq in H0.
      split; [reflexivity|]. split; [reflexivity|]. split; [lia|exact Hwin]. }
  destruct Hstrm1 as (Hstate1 & Hnext1 & Hav1 & Hwin1).
  assert (Hlen1 : Z.of_nat (length (next_in strm1)) = fetched - totin st).
  { rewrite Hnext1, Hnext, length_take, length_drop. lia. }
  assert (Hne : next_in strm1 <> []).
  { intros Hnil. rewrite Hnil in Hlen1. cbn [length] in Hlen1. lia. }
  set (r := inflate (state strm1) (next_in strm1) (avail_out strm1) Z_BLOCK) in *.
  set (strm2 := mk_z_stream (drop (Z.to_nat (z_used r)) (next_in strm1))
                            (avail_out strm1 - Z.of_nat (length (z_out r)))
                            (z_data_type r) (z_next r)) in *.
  set (window2 := memcpy (b_window st) (WINSIZE - avail_out strm1) (z_out r) 0
                         (Z.of_nat (length (z_out r)))) in *.
  set (totin2 := totin st + avail_in strm1 - avail_in strm2) in *.
  set (totout2 := totout st + avail_out strm1 - avail_out strm2) in *.
  set (ret1 := if z_ret r =? Z_NEED_DICT then Z_DATA_ERROR else z_ret r) in *.
  destruct ((ret1 =? Z_MEM_ERROR) || (ret1 =? Z_DATA_ERROR)) eqn:Herr; [discriminate|].
  destruct (ret1 =? Z_STREAM_END) eqn:Hend.
  { injection Hrun as <- <-. cbn [b_index]. split; [exact Hvalid|].
    apply Z.eqb_eq in Hend. intros Hne'. contradiction. }
  apply orb_false_elim in Herr as [Hmem Hdataerr].
  apply Z.eqb_neq in Hmem. apply Z.eqb_neq in Hdataerr. apply Z.eqb_neq in Hend.
  assert (Hret : z_ret r <> Z_MEM_ERROR /\ z_ret r <> Z_DATA_ERROR /\
                 z_ret r <> Z_NEED_DICT /\ z_ret r <> Z_STREAM_END).
  { unfold ret1 in Hmem, Hdataerr, Hend. destruct (z_ret r =? Z_NEED_DICT) eqn:Hnd.
    - exfalso. apply Hdataerr. reflexivity.
    - apply Z.eqb_neq in Hnd. repeat split; assumption. }
  destruct Hret as (Hr1 & Hr2 & Hr3 & Hr4).
  destruct Hmarks as [_ Hcall].
  destruct (Hcall (state strm1) (totin st) (totout st) (next_in strm1) (avail_out strm1))
    as (Hused & Hout & Hpre & Htracks' & Hpoint); try assumption.
  { rewrite Hstate1. exact Htracks. }
  { rewrite Hnext1, Hnext. eexists. reflexivity. }
  { lia. }
  fold r in Hused, Hout, Hpre, Htracks', Hpoint.
  assert (Htotin2 : totin2 = totin st + z_used r).
  { unfold totin2, avail_in. cbn [strm2 next_in]. rewrite length_drop. lia. }
  assert (Htotout2 : totout2 = totout st + Z.of_nat (length (z_out r)))
    by (unfold totout2; cbn [strm2 avail_out]; lia).
  assert (Hnext2 : next_in strm2
                   = take (Z.to_nat (fetched - totin2)) (drop (Z.to_nat totin2) file)).
  { rewrite Htotin2. cbn [strm2 next_in]. rewrite Hnext1, Hnext.
    rewrite skipn_firstn_comm, drop_drop. f_equal; [lia|]. f_equal. lia. }
  assert (Hwin2 : window_of data totout2 (chronological (avail_out strm2) window2)).
  { rewrite Htotout2. cbn [strm2 avail_out]. unfold window2.
    apply window_of_write; try assumption; lia. }
  assert (Hwlen2 : Z.of_nat (length window2) = WINSIZE).
  { unfold window2. rewrite memcpy_length; try lia.
    change (Z.to_nat 0) with 0%nat. rewrite drop_0. lia. }
  assert (Hgo : forall (lst : Z) (idx : option access) (events : list event),
             match idx with
             | None => True
             | Some index =>
                 forall p, p ∈ list_ index -> valid_point file data resumes p
             end ->
             (if avail_in strm2 =? 0
              then BuildExit ret1 (mk_bstate strm2 totin2 totout2 lst idx window2 events)
              else build_inner fuel span
                     (mk_bstate strm2 totin2 totout2 lst idx window2 events))
             = BuildExit ret st' ->
             match b_index st' with
             | None => True
             | Some index =>
                 forall p, p ∈ list_ index -> valid_point file data resumes p
             end /\
             (ret <> Z_STREAM_END -> built fetched st' /\ totin st' = fetched)).
  { intros lst idx events Hidx Hrun2.
    assert (Hinv2 : built fetched
                      (mk_bstate strm2 totin2 totout2 lst idx window2 events)).
    { unfold building. cbn [b_strm totin totout b_window b_index].
      split; [rewrite Htotin2, Htotout2; exact Htracks'|].
      split; [lia|]. split; [lia|]. split; [lia|].
      split; [cbn [strm2 avail_out]; lia|].
      split; [exact Hnext2|]. split; [exact Hwin2|]. split; [exact Hwlen2|exact Hidx]. }
    assert (Hlen2 : avail_in strm2 = fetched - totin2).
    { unfold avail_in. rewrite Hnext2, length_take, length_drop. lia. }
    destruct (avail_in strm2 =? 0) eqn:Hav2.
    - apply Z.eqb_eq in Hav2. injection Hrun2 as <- <-. cbn [b_index totin].
      split; [exact Hidx|]. intros _. split; [exact Hinv2|lia].
    - apply Z.eqb_neq in Hav2.
      apply (IH _ _ _ Hinv2); [cbn [totin]; lia|exact Hrun2]. }
  destruct (want_point (data_type strm2) totout2 (last st) span) eqn:Hwant.
  - destruct (addpoint _ _ _ _ _ _) as [index'|] eqn:Hadd; [|discriminate].
    apply (Hgo _ _ _) in Hrun; [exact Hrun|].
    assert (Hleft2 : 0 <= avail_out strm2 <= WINSIZE) by (cbn [strm2 avail_out]; lia).
    destruct (addpoint_appends _ _ _ _ _ _ _ Hleft2 Hwlen2 Hadd) as [Hlist _].
    intros p Hp. rewrite Hlist in Hp. apply elem_of_app in Hp as [Hp|Hp].
    + destruct (b_index st) as [index|]; [apply Hvalid; exact Hp|].
      apply elem_of_nil in Hp. contradiction.
    + apply list_elem_of_singleton in Hp. subst p.
      unfold want_point in Hwant. apply andb_prop in Hwant as [Hflags _].
      apply andb_prop in Hflags as [H128 H64]. apply negb_true_iff in H64.
      rewrite Htotin2, Htotout2. cbn [strm2 data_type] in *.
      apply Hpoint; [exact H128|exact H64|].
      rewrite <- Htotout2. exact Hwin2.
  - apply (Hgo _ _ _) in Hrun; [exact Hrun|exact Hvalid].
Qed.

Lemma build_outer_valid (span : Z) (ifuel fuel : nat) :
  forall inp st st',
    contents inp = file -> built (pos inp) st -> totin st = pos inp ->
    build_outer fuel ifuel span inp st = Returns (Z_STREAM_END, st') ->
    match b_index st' with
    | None => True
    | Some index => forall p, p ∈ list_ index -> valid_point file data resumes p
    end.
Proof.
  induction fuel as [|fuel IH]; intros inp st st' Hfile Hinv Htotin Hrun; [discriminate|].
  cbn [build_outer] in Hrun.
  destruct (ioerr inp) eqn:Hio.
  { unfold fread in Hrun. rewrite Hio in Hrun. cbn [ferror] in Hrun. discriminate. }
  rewrite (fread_ok _ _ Hio) in Hrun. cbn [ferror] in Hrun.
  set (input := take (Z.to_nat CHUNK) (drop (Z.to_nat (pos inp)) (contents inp))) in *.
  destruct (ferror inp); [discriminate|].
  destruct (Z.of_nat (length input) =? 0) eqn:Hempty; [discriminate|].
  apply Z.eqb_neq in Hempty.
  set (inp1 := mkFILE (contents inp) (pos inp + Z.of_nat (length input)) false false) in *.
  destruct Hinv as (Htracks & Hq & Hfetched & Hk & Hav & Hnext & Hwin & Hwlen & Hvalid).
  assert (Hlen : Z.of_nat (length input) <= Z.of_nat (length file) - pos inp).
  { unfold input. rewrite Hfile, length_take, length_drop. lia. }
  set (st1 := mk_bstate (set_next_in (b_strm st) input) (totin st) (totout st)
                        (last st) (b_index st) (b_window st) (b_events st)) in *.
  assert (Hinv1 : built (pos inp1) st1).
  { unfold building.
    cbn [st1 b_strm set_next_in state avail_out next_in inp1 pos totin totout
         b_window b_index].
    split; [exact Htracks|]. split; [lia|]. split; [lia|]. split; [lia|].
    split; [lia|]. split; [|split; [exact Hwin|split; [exact Hwlen|exact Hvalid]]].
    rewrite Htotin.
    replace (Z.to_nat (pos inp + Z.of_nat (length input) - pos inp))
      with (length input) by lia.
    unfold input. rewrite Hfile, take_length_take. reflexivity. }
  destruct (build_inner ifuel span st1) as [ret st2|ret|] eqn:Hinner; try discriminate.
  - assert (Hmore : totin st1 < pos inp1) by (cbn [st1 totin inp1 pos]; lia).
    destruct (build_inner_valid _ _ _ _ _ _ Hinv1 Hmore Hinner) as [Hidx Hnext'].
    destruct (ret =? Z_STREAM_END) eqn:Hend.
    + injection Hrun as _ <-. exact Hidx.
    + apply Z.eqb_neq in Hend. destruct (Hnext' Hend) as [Hinv2 Htotin2].
      apply (IH inp1 st2 st'); [exact Hfile|exact Hinv2|exact Htotin2|exact Hrun].
  - apply build_inner_error in Hinner. injection Hrun as -> _.
    destruct Hinner; discriminate.
Qed.

(** Every point of the index [build_index] returns is a valid access
    point: it lies inside the file, and raw inflation resumes there. *)
Lemma build_index_valid_points (fuel : nat) (inp : FILE) (span n : Z) (index : access) :
  contents inp = file -> pos inp = 0 ->
  build_index fuel inp span = Returns (n, Some index) ->
  forall p, p ∈ list_ index -> valid_point file data resumes p.
Proof.
  intros Hfile Hpos Hrun.
  destruct (build_index_returns _ _ _ _ _ Hrun)
    as (s & st & index0 & Hs & Hout & Hidx & _ & ->).
  pose proof (build_outer_valid span fuel fuel inp (build_start s) st Hfile) as Hvalid.
  rewrite Hidx in Hvalid. cbn [list_]. apply Hvalid; [|rewrite Hpos; reflexivity|exact Hout].
  unfold building, build_start.
  cbn [b_strm state avail_out next_in totin totout b_window b_index]. rewrite Hpos.
  split; [destruct Hmarks as [H0 _]; apply H0; exact Hs|].
  split; [lia|]. split; [apply Nat2Z.is_nonneg|]. split; [lia|].
  split; [unfold WINSIZE; lia|].
  split; [reflexivity|].
  assert (Hlen : Z.of_nat (length (uninit WINSIZE)) = WINSIZE)
    by (rewrite length_uninit; unfold WINSIZE; lia).
  split; [|split; [exact Hlen|exact I]].
  apply window_of_start. apply chronological_length; [unfold WINSIZE; lia|exact Hlen].
Qed.

End BuildValid.

(** ** The inflater for stored blocks meets the contracts *)

Lemma stored_run_acc (fuel : nat) (flush : Z) :
  forall s input left acc,
    Stored.run fuel flush s input left acc
    = let '(s', rest, out) := Stored.run fuel flush s input left [] in
      (s', rest, acc ++ out).
Proof.
  induction fuel as [|fuel IH]; intros s input left acc; cbn [Stored.run].
  - rewrite app_nil_r. reflexivity.
  - destruct (Stored.step flush s input left) as [s1 input1 more|s1].
    + rewrite (IH s1 input1 _ (acc ++ more)), (IH s1 input1 _ ([] ++ more)).
      destruct (Stored.run fuel flush s1 input1 _ []) as [[s' rest] out].
      cbn [app]. rewrite app_assoc. reflexivity.
    + rewrite app_nil_r. reflexivity.
Qed.

(** A move consumes a prefix of the input; what it writes, it copies from
    there. *)
Lemma stored_step_input flush s input left s' input' more :
  Stored.step flush s input left = Stored.Go s' input' more ->
  exists used, input = used ++ input'.
Proof.
  intros Hstep. stored_step_cases Hstep; injection Hstep as <- <- <-;
    try (exists []; reflexivity); try (eexists [_]; reflexivity).
  eexists. symmetry. apply take_drop.
Qed.

Lemma stored_run_input (fuel : nat) (flush : Z) :
  forall s input left acc s' rest out,
    Stored.run fuel flush s input left acc = (s', rest, out) ->
    exists used, input = used ++ rest.
Proof.
  induction fuel as [|fuel IH]; intros s input left acc s' rest out Hrun;
    cbn [Stored.run] in Hrun.
  - injection Hrun as <- <- <-. exists []. reflexivity.
  - destruct (Stored.step flush s input left) as [s1 input1 more|s1] eqn:Hstep.
    + apply stored_step_input in Hstep as [u1 ->].
      apply IH in Hrun as [u2 ->]. exists (u1 ++ u2). rewrite app_assoc. reflexivity.
    + injection Hrun as <- <- <-. exists []. reflexivity.
Qed.

(** The machine keeps its wrapper, and its states stay sane. *)
Lemma stored_bytebits_bits (b : Z) : 0 <= b -> 0 <= b - Z.land b 7 <= b.
Proof.
  intros Hb. change 7 with (Z.ones 3). rewrite Z.land_ones by lia.
  pose proof (Z.mod_pos_bound b (2 ^ 3) ltac:(lia)).
  pose proof (Z.mod_le b (2 ^ 3) Hb ltac:(lia)). lia.
Qed.

Lemma stored_step_sane flush s input left s' input' more :
  Stored.step flush s input left = Stored.Go s' input' more ->
  stored_sane s ->
  stored_sane s' /\ Stored.wrap s' = Stored.wrap s.
Proof.
  intros Hstep [Hbits Hsane].
  pose proof (stored_bytebits_bits (Stored.bits_ s) ltac:(lia)) as Hbb.
  stored_step_cases Hstep; injection Hstep as <- <- <-;
    unfold stored_sane, Stored.set_mode, Stored.initbits, Stored.pullbyte, Stored.bytebits in *;
    cbn [Stored.mode Stored.wrap Stored.last_ Stored.hold Stored.bits_ Stored.length_] in *;
    rewrite ?Hmode in *;
    repeat match goal with
           | H : (_ <=? _) = true |- _ => apply Z.leb_le in H
           | H : (_ <=? _) = false |- _ => apply Z.leb_gt in H
           end;
    (split; [|first [reflexivity|assumption|congruence]]);
    try (split; [lia|]); try exact I; try tauto; try (split; [reflexivity|lia]);
    try (intros; lia); try lia; try (intros; congruence).
Qed.

Lemma stored_bytebits_idem (s : Stored.inflate_state) :
  Stored.bytebits (Stored.bytebits s) = Stored.bytebits s.
Proof.
  unfold Stored.bytebits. cbn [Stored.mode Stored.wrap Stored.last_ Stored.hold
                                Stored.bits_ Stored.length_].
  assert (H0 : Z.land (Stored.bits_ s - Z.land (Stored.bits_ s) 7) 7 = 0).
  { change 7 with (Z.ones 3). rewrite !Z.land_ones by lia.
    rewrite Zminus_mod_idemp_r, Z.sub_diag. reflexivity. }
  rewrite H0, Z.shiftr_0_r, Z.sub_0_r. reflexivity.
Qed.

(** Where the machine leaves, it would leave again, and it moves on from
    there as from the state before. *)
Lemma stored_step_leave flush s input left s' :
  Stored.step flush s input left = Stored.Leave s' ->
  Stored.mode s' = Stored.mode s /\ Stored.wrap s' = Stored.wrap s /\
  (stored_sane s -> stored_sane s') /\
  (forall flush' X L, Stored.step flush' s' X L = Stored.step flush' s X L).
Proof.
  intros Hstep.
  assert (Hcase : s' = s \/ (Stored.mode s = Stored.STORED /\ s' = Stored.bytebits s)).
  { stored_step_cases Hstep; injection Hstep as <-; auto. }
  destruct Hcase as [->|[Hmode ->]]; [tauto|].
  split; [reflexivity|]. split; [reflexivity|]. split.
  - intros [Hbits _]. pose proof (stored_bytebits_bits (Stored.bits_ s) ltac:(lia)).
    split; [cbn; lia|]. cbn [Stored.bytebits Stored.mode]. rewrite Hmode. exact I.
  - intros flush' X L. unfold Stored.step. cbn [Stored.bytebits Stored.mode].
    rewrite Hmode. fold (Stored.bytebits s). rewrite stored_bytebits_idem. reflexivity.
Qed.

Lemma stored_leave_finishes flush s input left s' X out rest :
  Stored.step flush s input left = Stored.Leave s' ->
  stored_finishes s X out rest -> stored_finishes s' X out rest.
Proof.
  intros Hstep (fuel & sd & Hrun & Hdone).
  destruct (stored_step_leave _ _ _ _ _ Hstep) as (Hmode & _ & _ & Hsame).
  destruct fuel as [|fuel]; cbn [Stored.run] in Hrun.
  - injection Hrun as <- <- <-. exists 0%nat, s'. split; [reflexivity|congruence].
  - exists (S fuel), sd. split; [|exact Hdone]. cbn [Stored.run]. rewrite Hsame. exact Hrun.
Qed.

(** A move other than the copy of block data is the same on more input and
    with other room, and writes nothing. *)
Lemma stored_step_mono flush s input left s' input' more rest L :
  Stored.step flush s input left = Stored.Go s' input' more ->
  (Stored.mode s = Stored.COPY -> Stored.length_ s <= 0) ->
  more = [] /\
  Stored.step Z_NO_FLUSH s (input ++ rest) L = Stored.Go s' (input' ++ rest) [].
Proof.
  intros Hstep Hcopy.
  stored_step_cases Hstep; injection Hstep as <- <- <-;
    try (apply Z.ltb_lt in Heqb; specialize (Hcopy eq_refl); lia);
    (split; [reflexivity|]);
    unfold Stored.step, Stored.needbits; rewrite Hmode;
    repeat match goal with
           | H : ?c = _ |- context [if ?c then _ else _] => rewrite H
           end;
    cbn [app]; reflexivity.
Qed.

(** A finishing run copies the data of a stored block in one move. *)
Lemma stored_copy_all (fuel : nat) s X L sd rest out :
  Stored.mode s = Stored.COPY -> 0 < Stored.length_ s -> 0 <= L ->
  Stored.run (S fuel) Z_NO_FLUSH s X L [] = (sd, rest, out) ->
  Stored.mode sd = Stored.DONE ->
  Stored.length_ s <= Z.of_nat (length X) /\ Stored.length_ s <= L /\
  Stored.run fuel Z_NO_FLUSH
    (Stored.mk_state Stored.COPY (Stored.wrap s) (Stored.last_ s) (Stored.hold s)
                     (Stored.bits_ s) 0)
    (drop (Z.to_nat (Stored.length_ s)) X) (L - Stored.length_ s)
    (take (Z.to_nat (Stored.length_ s)) X)
  = (sd, rest, out).
Proof.
  intros Hmode Hlen HL Hrun Hdone.
  set (len := Stored.length_ s) in *.
  cbn [Stored.run] in Hrun. unfold Stored.step in Hrun. rewrite Hmode in Hrun.
  fold len in Hrun.
  assert ((0 <? len) = true) as Hpos by lia. rewrite Hpos in Hrun.
  set (c := Z.min len (Z.min (Z.of_nat (length X)) L)) in *.
  destruct (c =? 0) eqn:Hc.
  { injection Hrun as <- _ _. congruence. }
  apply Z.eqb_neq in Hc.
  assert (Hc' : 0 < c <= len) by lia.
  assert (Htake : Z.of_nat (length (take (Z.to_nat c) X)) = c)
    by (rewrite length_take; lia).
  rewrite Htake in Hrun. cbn [app] in Hrun.
  destruct (Z.eq_dec c len) as [Heq|Hne].
  - rewrite Heq in Hrun. rewrite Z.sub_diag in Hrun. split; [lia|]. split; [lia|].
    exact Hrun.
  - exfalso. assert (Hlt : c < len) by lia.
    destruct fuel as [|fuel]; cbn [Stored.run] in Hrun.
    + injection Hrun as <- _ _. cbn in Hdone. discriminate.
    + unfold Stored.step in Hrun. cbn [Stored.mode Stored.length_] in Hrun.
      assert ((0 <? len - c) = true) as Hpos2 by lia. rewrite Hpos2 in Hrun.
      assert (Hz : Z.min (len - c)
                     (Z.min (Z.of_nat (length (drop (Z.to_nat c) X))) (L - c)) = 0).
      { rewrite length_drop. lia. }
      rewrite Hz in Hrun. cbn [Z.eqb] in Hrun.
      injection Hrun as <- _ _. cbn in Hdone. discriminate.
Qed.

(** After a move on part of the input and with any room, the machine
    finishes as before the move, with what the move wrote taken off. *)
Lemma stored_go_finishes flush s input n s' input' m more out rest :
  Stored.step flush s input n = Stored.Go s' input' m -> 0 <= n ->
  stored_finishes s (input ++ more) out rest ->
  exists out', out = m ++ out' /\ stored_finishes s' (input' ++ more) out' rest.
Proof.
  intros Hstep Hn (fuel & sd & Hrun & Hdone).
  destruct fuel as [|fuel].
  { cbn [Stored.run] in Hrun. injection Hrun as <- _ _.
    unfold Stored.step in Hstep. rewrite Hdone in Hstep. discriminate. }
  destruct (Stored.mode s) eqn:Hmode;
    try (destruct (stored_step_mono _ _ _ _ _ _ _ more (Z.of_nat (length out)) Hstep)
           as [-> Hmono]; [rewrite Hmode; discriminate|];
         cbn [Stored.run] in Hrun; rewrite Hmono in Hrun;
         cbn [length app] in Hrun; rewrite Z.sub_0_r in Hrun;
         exists out; split; [reflexivity|]; exists fuel, sd; split; assumption).
  (* the copy of block data *)
  destruct (Z.ltb_spec 0 (Stored.length_ s)) as [Hlen|Hlen].
  2:{ destruct (stored_step_mono _ _ _ _ _ _ _ more (Z.of_nat (length out)) Hstep)
        as [-> Hmono]; [intros _; exact Hlen|].
      cbn [Stored.run] in Hrun. rewrite Hmono in Hrun.
      cbn [length app] in Hrun. rewrite Z.sub_0_r in Hrun.
      exists out. split; [reflexivity|]. exists fuel, sd. split; assumption. }
  set (X := input ++ more) in *. set (len := Stored.length_ s) in *.
  destruct (stored_copy_all _ _ _ _ _ _ _ Hmode Hlen (Nat2Z.is_nonneg _) Hrun Hdone)
    as (HlenX & HlenL & Hrest).
  fold len in HlenX, HlenL, Hrest.
  rewrite stored_run_acc in Hrest.
  destruct (Stored.run fuel Z_NO_FLUSH _ (drop (Z.to_nat len) X) _ [])
    as [[sa ra] oa] eqn:Hcanon.
  injection Hrest as -> -> Hout.
  assert (HtakeX : length (take (Z.to_nat len) X) = Z.to_nat len)
    by (rewrite length_take; lia).
  assert (HL : Z.of_nat (length out) - len = Z.of_nat (length oa)).
  { rewrite <- Hout, length_app, HtakeX. lia. }
  rewrite HL in Hcanon.
  unfold Stored.step in Hstep. rewrite Hmode in Hstep. fold len in Hstep.
  assert ((0 <? len) = true) as Hpos by lia. rewrite Hpos in Hstep.
  set (c := Z.min len (Z.min (Z.of_nat (length input)) n)) in *.
  destruct (c =? 0) eqn:Hc; [discriminate|]. apply Z.eqb_neq in Hc.
  injection Hstep as <- <- <-.
  assert (Hc' : 0 < c <= len /\ c <= Z.of_nat (length input)) by lia.
  assert (Hm : take (Z.to_nat c) input = take (Z.to_nat c) X)
    by (unfold X; rewrite take_app_le by lia; reflexivity).
  assert (Hi : drop (Z.to_nat c) input ++ more = drop (Z.to_nat c) X)
    by (unfold X; rewrite drop_app_le by lia; reflexivity).
  rewrite Hm, Hi.
  destruct (Z.eq_dec c len) as [Heq|Hne].
  - exists oa. rewrite Heq. split; [symmetry; exact Hout|].
    exists fuel, sd. split; [|exact Hdone]. rewrite Z.sub_diag. exact Hcanon.
  - assert (Hlt : c < len) by lia.
    set (d := len - c) in *.
    exists (take (Z.to_nat d) (drop (Z.to_nat c) X) ++ oa). split.
    + rewrite app_assoc, take_take_drop, <- Hout.
      replace (Z.to_nat c + Z.to_nat d)%nat with (Z.to_nat len) by lia. reflexivity.
    + exists (S fuel), sd. split; [|exact Hdone].
      cbn [Stored.run]. unfold Stored.step. cbn [Stored.mode Stored.length_].
      assert ((0 <? d) = true) as Hposd by lia. rewrite Hposd.
      assert (Htd : length (take (Z.to_nat d) (drop (Z.to_nat c) X)) = Z.to_nat d)
        by (rewrite length_take, length_drop; lia).
      assert (Hmin : Z.min d (Z.min (Z.of_nat (length (drop (Z.to_nat c) X)))
                                    (Z.of_nat (length (take (Z.to_nat d)
                                                         (drop (Z.to_nat c) X) ++ oa))))
                     = d).
      { rewrite length_app, Htd, length_drop. lia. }
      rewrite Hmin.
      assert ((d =? 0) = false) as Hd0 by lia. rewrite Hd0.
      rewrite Z.sub_diag, drop_drop, stored_run_acc.
      replace (Z.to_nat c + Z.to_nat d)%nat with (Z.to_nat len) by lia.
      replace (Z.of_nat (length (take (Z.to_nat d) (drop (Z.to_nat c) X) ++ oa))
               - Z.of_nat (length (take (Z.to_nat d) (drop (Z.to_nat c) X))))
        with (Z.of_nat (length oa)) by (rewrite length_app; lia).
      cbn [Stored.wrap Stored.last_ Stored.hold Stored.bits_].
      rewrite Hcanon. reflexivity.
Qed.

(** A run on part of the input and with any room, followed by the run to
    the end of the stream, gives what the run to the end gives at once. *)
Lemma stored_run_split (fuel : nat) (flush : Z) :
  forall s input n s1 rest1 out1 more out rest,
    0 <= n ->
    Stored.run fuel flush s input n [] = (s1, rest1, out1) ->
    stored_finishes s (input ++ more) out rest ->
    exists out2, out = out1 ++ out2 /\ stored_finishes s1 (rest1 ++ more) out2 rest.
Proof.
  induction fuel as [|fuel IH]; intros s input n s1 rest1 out1 more out rest Hn Hrun Hfin;
    cbn [Stored.run] in Hrun.
  - injection Hrun as <- <- <-. exists out. split; [reflexivity|exact Hfin].
  - destruct (Stored.step flush s input n) as [s' input' m|s'] eqn:Hstep.
    + rewrite stored_run_acc in Hrun.
      destruct (Stored.run fuel flush s' input' _ []) as [[sa ra] oa] eqn:Hnext.
      injection Hrun as <- <- <-. cbn [app].
      destruct (stored_go_finishes _ _ _ _ _ _ _ more _ _ Hstep Hn Hfin)
        as (out' & -> & Hfin').
      pose proof (stored_step_more _ _ _ _ _ _ _ Hstep Hn) as Hm.
      assert (Hn' : 0 <= n - Z.of_nat (length m)) by lia.
      destruct (IH _ _ _ _ _ _ more _ _ Hn' Hnext Hfin') as (out2 & -> & Hfin2).
      exists out2. split; [rewrite app_assoc; reflexivity|exact Hfin2].
    + injection Hrun as <- <- <-. exists out. split; [reflexivity|].
      eapply stored_leave_finishes; eauto.
Qed.

Lemma stored_run_sane (fuel : nat) (flush : Z) :
  forall s input left acc s' rest out,
    stored_sane s ->
    Stored.run fuel flush s input left acc = (s', rest, out) ->
    stored_sane s' /\ Stored.wrap s' = Stored.wrap s.
Proof.
  induction fuel as [|fuel IH]; intros s input left acc s' rest out Hsane Hrun;
    cbn [Stored.run] in Hrun.
  - injection Hrun as <- <- <-. split; [exact Hsane|reflexivity].
  - destruct (Stored.step flush s input left) as [s1 input1 more|s1] eqn:Hstep.
    + destruct (stored_step_sane _ _ _ _ _ _ _ Hstep Hsane) as [Hsane1 Hwrap1].
      destruct (IH _ _ _ _ _ _ _ Hsane1 Hrun) as [Hsane' Hwrap'].
      split; [exact Hsane'|congruence].
    + injection Hrun as <- <- <-.
      destruct (stored_step_leave _ _ _ _ _ Hstep) as (_ & Hwrap & Hs & _).
      split; [apply Hs; exact Hsane|exact Hwrap].
Qed.

Lemma stored_rank_bounds (s : Stored.inflate_state) : 0 <= stored_rank s <= 8.
Proof.
  unfold stored_rank. destruct (Stored.mode s); try lia.
  destruct (Stored.last_ s); [lia|]. destruct (3 <=? Stored.bits_ s); lia.
Qed.

(** Every move uses up input or brings the machine nearer to the point
    where it needs input. *)
Lemma stored_go_decreases flush s input left s' input' more :
  Stored.step flush s input left = Stored.Go s' input' more ->
  stored_sane s -> 0 <= left ->
  8 * Z.of_nat (length input') + stored_rank s'
  < 8 * Z.of_nat (length input) + stored_rank s.
Proof.
  intros Hstep [Hbits Hsane] Hleft.
  stored_step_cases Hstep; injection Hstep as <- <- <-;
    rewrite ?Hmode in Hsane;
    unfold stored_rank, Stored.set_mode, Stored.initbits, Stored.pullbyte, Stored.bytebits;
    cbn [Stored.mode Stored.wrap Stored.last_ Stored.hold Stored.bits_ Stored.length_];
    rewrite ?Hmode; rewrite ?length_drop; cbn [length];
    repeat match goal with
           | |- context [if ?c then _ else _] => destruct c eqn:?
           end;
    repeat match goal with
           | H : (_ <=? _) = true |- _ => apply Z.leb_le in H
           | H : (_ <=? _) = false |- _ => apply Z.leb_gt in H
           | H : (_ <? _) = true |- _ => apply Z.ltb_lt in H
           | H : (_ <? _) = false |- _ => apply Z.ltb_ge in H
           | H : (_ =? _) = true |- _ => apply Z.eqb_eq in H
           | H : (_ =? _) = false |- _ => apply Z.eqb_neq in H
           end;
    try congruence; try lia.
Qed.

(** With more rounds than eight for every byte of input and the rank of
    the state, the run ends where the machine leaves; [inflate] gives it
    eight for every byte and sixteen. *)
Lemma stored_run_stuck (fuel : nat) (flush : Z) :
  forall s input n acc s1 rest1 out1,
    stored_sane s -> 0 <= n ->
    8 * Z.of_nat (length input) + stored_rank s < Z.of_nat fuel ->
    Stored.run fuel flush s input n acc = (s1, rest1, out1) ->
    Stored.step flush s1 rest1 (n - (Z.of_nat (length out1) - Z.of_nat (length acc)))
    = Stored.Leave s1.
Proof.
  induction fuel as [|fuel IH]; intros s input n acc s1 rest1 out1 Hsane Hn Hfuel Hrun.
  { pose proof (stored_rank_bounds s). lia. }
  cbn [Stored.run] in Hrun.
  destruct (Stored.step flush s input n) as [s' input' m|s'] eqn:Hstep.
  - pose proof (stored_go_decreases _ _ _ _ _ _ _ Hstep Hsane Hn) as Hdec.
    pose proof (stored_step_more _ _ _ _ _ _ _ Hstep Hn) as Hm.
    destruct (stored_step_sane _ _ _ _ _ _ _ Hstep Hsane) as [Hsane' _].
    assert (Hn' : 0 <= n - Z.of_nat (length m)) by lia.
    assert (Hfuel' : 8 * Z.of_nat (length input') + stored_rank s' < Z.of_nat fuel) by lia.
    pose proof (IH _ _ _ _ _ _ _ Hsane' Hn' Hfuel' Hrun) as Hleave.
    rewrite length_app in Hleave.
    replace (n - (Z.of_nat (length out1) - Z.of_nat (length acc)))
      with (n - Z.of_nat (length m)
            - (Z.of_nat (length out1) - Z.of_nat (length acc + length m))) by lia.
    exact Hleave.
  - injection Hrun as <- <- <-. rewrite Z.sub_diag, Z.sub_0_r.
    destruct (stored_step_leave _ _ _ _ _ Hstep) as (_ & _ & _ & Hsame).
    rewrite Hsame. exact Hstep.
Qed.

(** Why the machine leaves. *)
Lemma stored_leave_cases flush s input left s' :
  Stored.step flush s input left = Stored.Leave s' -> 0 <= left ->
  Stored.mode s = Stored.DONE \/ Stored.mode s = Stored.BAD \/
  (Stored.mode s = Stored.TYPE /\ flush = Z_BLOCK) \/
  input = [] \/ left = 0.
Proof.
  intros Hstep Hleft.
  stored_step_cases Hstep; auto.
  - apply Z.eqb_eq in Heqb. auto.
  - apply Z.eqb_eq in Heqb0. apply Z.ltb_lt in Heqb.
    destruct input; [auto|]. cbn [length] in Heqb0. right. right. right. right. lia.
Qed.

(** *** The gzip inflater and the raw inflater on the same deflate data *)

Lemma stored_twin_step s t X L :
  stored_twin s t -> stored_sane s ->
  Stored.mode s = Stored.TYPE \/ Stored.mode s = Stored.TYPEDO \/
  Stored.mode s = Stored.STORED \/ Stored.mode s = Stored.COPY ->
  match Stored.step Z_NO_FLUSH s X L with
  | Stored.Go s' i m =>
      exists t', Stored.step Z_NO_FLUSH t X L = Stored.Go t' i m /\
                 stored_twin s' t' /\
                 (stored_in_blocks s' \/
                  (Stored.mode s' = Stored.CHECK /\ Stored.bits_ s' = 0))
  | Stored.Leave s' => Stored.mode s' = Stored.mode s
  end.
Proof.
  intros Htwin [Hbits Hsane] Hbody.
  destruct s as [m1 w1 l1 h1 b1 n1], t as [m2 w2 l2 h2 b2 n2].
  unfold stored_twin in Htwin.
  cbn [Stored.mode Stored.wrap Stored.last_ Stored.hold Stored.bits_ Stored.length_]
    in Htwin, Hsane, Hbody, Hbits.
  destruct Htwin as (-> & -> & -> & -> & -> & -> & Hlen).
  unfold stored_twin, stored_in_blocks.
  destruct Hbody as [-> | [-> | [-> | ->]]];
    unfold Stored.step, Stored.needbits, Stored.set_mode, Stored.bytebits,
           Stored.pullbyte, Stored.initbits;
    cbn [Stored.mode Stored.wrap Stored.last_ Stored.hold Stored.bits_ Stored.length_
         Z.eqb Z_NO_FLUSH Z_BLOCK];
    try (specialize (Hlen eq_refl); subst n2);
    repeat match goal with
           | |- context [if ?c then _ else _] => destruct c eqn:?
           | |- context [match ?l with [] => _ | _ :: _ => _ end] => destruct l
           end;
    try reflexivity;
    (eexists; split; [reflexivity|]);
    cbn [Stored.mode Stored.wrap Stored.last_ Stored.hold Stored.bits_ Stored.length_];
    (split; [repeat split; try reflexivity; try discriminate|]);
    try (left; tauto); try (right; split; [reflexivity|]).
  all: try (intros; congruence).
  all: try (specialize (Hsane eq_refl); subst b1; reflexivity).
Qed.

(** The trailer: the gzip inflater reads it and writes nothing; the raw
    inflater ends before it. *)
Lemma stored_tail_output (fuel : nat) (flush : Z) :
  forall s X L acc sd rest out,
    Stored.mode s = Stored.CHECK \/ Stored.mode s = Stored.LENGTH \/
    Stored.mode s = Stored.DONE \/ Stored.mode s = Stored.BAD ->
    Stored.run fuel flush s X L acc = (sd, rest, out) -> out = acc.
Proof.
  induction fuel as [|fuel IH]; intros s X L acc sd rest out Hmode Hrun;
    cbn [Stored.run] in Hrun.
  - injection Hrun as _ _ <-. reflexivity.
  - destruct (Stored.step flush s X L) as [s' i m|s'] eqn:Hstep.
    + assert (Hs' : m = [] /\
                    (Stored.mode s' = Stored.CHECK \/ Stored.mode s' = Stored.LENGTH \/
                     Stored.mode s' = Stored.DONE \/ Stored.mode s' = Stored.BAD)).
      { destruct Hmode as [Hm|[Hm|[Hm|Hm]]];
          unfold Stored.step, Stored.needbits in Hstep; rewrite Hm in Hstep;
          repeat match type of Hstep with
                 | context [if ?c then _ else _] => destruct c eqn:?
                 | context [match ?l with [] => _ | _ :: _ => _ end] => destruct l
                 end;
          try discriminate; injection Hstep as <- <- <-; cbn; rewrite ?Hm; tauto. }
      destruct Hs' as [-> Hs']. rewrite app_nil_r in Hrun. eapply IH; eauto.
    + injection Hrun as _ _ <-. reflexivity.
Qed.

Lemma stored_check_needs_input (fuel : nat) s X L acc sd rest out :
  Stored.mode s = Stored.CHECK -> Stored.wrap s = true -> Stored.bits_ s = 0 ->
  Stored.run fuel Z_NO_FLUSH s X L acc = (sd, rest, out) ->
  Stored.mode sd = Stored.DONE -> X <> [].
Proof.
  intros Hmode Hwrap Hbits Hrun Hdone ->.
  destruct fuel as [|fuel]; cbn [Stored.run] in Hrun.
  - injection Hrun as <- _ _. congruence.
  - unfold Stored.step, Stored.needbits in Hrun. rewrite Hmode, Hwrap, Hbits in Hrun.
    cbn [Z.leb Z.compare] in Hrun. injection Hrun as <- _ _. congruence.
Qed.

Lemma stored_raw_tail t X L acc :
  Stored.mode t = Stored.CHECK -> Stored.wrap t = false ->
  exists td, Stored.run 3 Z_NO_FLUSH t X L acc = (td, X, acc) /\
             Stored.mode td = Stored.DONE.
Proof.
  intros Hmode Hwrap. destruct t as [m2 w2 l2 h2 b2 n2].
  cbn [Stored.mode Stored.wrap] in Hmode, Hwrap. subst m2 w2.
  eexists. split; [cbn; rewrite !app_nil_r; reflexivity|reflexivity].
Qed.

Lemma stored_twin_run (fuel : nat) :
  forall s t X L acc sd rest out,
    stored_twin s t -> stored_sane s -> stored_in_blocks s ->
    Stored.run fuel Z_NO_FLUSH s X L acc = (sd, rest, out) ->
    Stored.mode sd = Stored.DONE ->
    exists fuel' td rest',
      Stored.run fuel' Z_NO_FLUSH t X L acc = (td, rest', out) /\
      Stored.mode td = Stored.DONE /\ rest' <> [].
Proof.
  induction fuel as [|fuel IH]; intros s t X L acc sd rest out Htwin Hsane Hin Hrun Hdone;
    cbn [Stored.run] in Hrun.
  { injection Hrun as <- _ _. exfalso. unfold stored_in_blocks in Hin.
    rewrite Hdone in Hin. destruct Hin as [H|[H|[H|[H|H]]]]; discriminate. }
  assert (Hbody : Stored.mode s = Stored.TYPE \/ Stored.mode s = Stored.TYPEDO \/
                  Stored.mode s = Stored.STORED \/ Stored.mode s = Stored.COPY).
  { destruct Hin as [H|[H|[H|[H|H]]]]; auto.
    exfalso. unfold Stored.step in Hrun. rewrite H in Hrun.
    injection Hrun as <- _ _. congruence. }
  pose proof (stored_twin_step s t X L Htwin Hsane Hbody) as Hstep.
  destruct (Stored.step Z_NO_FLUSH s X L) as [s' i m|s'] eqn:Hs.
  2:{ injection Hrun as <- _ _. exfalso. rewrite Hstep in Hdone.
      destruct Hbody as [H|[H|[H|H]]]; congruence. }
  destruct Hstep as (t' & Ht & Htwin' & Hnext).
  destruct (stored_step_sane _ _ _ _ _ _ _ Hs Hsane) as [Hsane' Hwrap'].
  destruct Hnext as [Hin'|[Hcheck Hbits0]].
  - destruct (IH _ _ _ _ _ _ _ _ Htwin' Hsane' Hin' Hrun Hdone)
      as (fuel' & td & rest' & Hrun' & Hdone' & Hne).
    exists (S fuel'), td, rest'. split; [|split; assumption].
    cbn [Stored.run]. rewrite Ht. exact Hrun'.
  - pose proof (stored_tail_output _ _ _ _ _ _ _ _ _ (or_introl Hcheck) Hrun) as ->.
    destruct Htwin' as (Hmt & Hws & Hwt & _).
    assert (Hi : i <> []).
    { eapply stored_check_needs_input; eauto. }
    destruct (stored_raw_tail t' i (L - Z.of_nat (length m)) (acc ++ m))
      as (td & Hrun' & Hdone'); [congruence|exact Hwt|].
    exists 4%nat, td, i. split; [|split; assumption].
    cbn [Stored.run]. rewrite Ht. exact Hrun'.
Qed.

Lemma stored_twin_finishes s t X out rest :
  stored_twin s t -> stored_sane s -> stored_in_blocks s ->
  stored_finishes s X out rest ->
  exists rest', rest' <> [] /\ stored_finishes t X out rest'.
Proof.
  intros Htwin Hsane Hin (fuel & sd & Hrun & Hdone).
  destruct (stored_twin_run _ _ _ _ _ _ _ _ _ Htwin Hsane Hin Hrun Hdone)
    as (fuel' & td & rest' & Hrun' & Hdone' & Hne).
  exists rest'. split; [exact Hne|]. exists fuel', td. split; assumption.
Qed.

(** At a block boundary that is not the end of the last block, a raw
    inflater started afresh finishes as the gzip inflater does, short of
    the trailer. *)
Lemma stored_boundary_resumes s X out rest :
  Stored.mode s = Stored.TYPE -> Stored.last_ s = false -> Stored.wrap s = true ->
  stored_sane s -> stored_finishes s X out rest ->
  exists rest', rest' <> [] /\
    stored_finishes (Stored.mk_state Stored.HEAD false false 0 0 0) X out rest'.
Proof.
  intros Hmode Hlast Hwrap Hsane (fuel & sd & Hrun & Hdone).
  pose proof Hsane as [Hbits Hs]. rewrite Hmode in Hs. destruct Hs as [Hhold Hbits0].
  destruct fuel as [|fuel]; cbn [Stored.run] in Hrun.
  { injection Hrun as <- _ _. congruence. }
  unfold Stored.step in Hrun. rewrite Hmode in Hrun.
  cbn [Z.eqb Z_NO_FLUSH Z_BLOCK length app] in Hrun. rewrite Z.sub_0_r in Hrun.
  assert (Hfin : stored_finishes (Stored.set_mode s Stored.TYPEDO) X out rest)
    by (exists fuel, sd; split; assumption).
  destruct (stored_twin_finishes (Stored.set_mode s Stored.TYPEDO)
              (Stored.mk_state Stored.TYPEDO false false 0 0 0) X out rest)
    as (rest' & Hne & (fuel' & td & Hrun' & Hdone')); try assumption.
  - unfold stored_twin. cbn. repeat split; try congruence; discriminate.
  - split; [cbn; lia|]. cbn. intros _. exact Hbits0.
  - right. left. reflexivity.
  - exists rest'. split; [exact Hne|]. exists (S fuel'), td. split; [|exact Hdone'].
    cbn [Stored.run]. unfold Stored.step. cbn [Stored.mode Stored.wrap negb].
    cbn [length app]. rewrite Z.sub_0_r. exact Hrun'.
Qed.

(** *** One call of inflate, in step with the file *)

Lemma stored_finishes_not_bad s X out rest :
  stored_finishes s X out rest -> Stored.mode s <> Stored.BAD.
Proof.
  intros (fuel & sd & Hrun & Hdone) Hbad.
  destruct fuel as [|fuel]; cbn [Stored.run] in Hrun.
  - injection Hrun as <- _ _. congruence.
  - unfold Stored.step in Hrun. rewrite Hbad in Hrun. injection Hrun as <- _ _. congruence.
Qed.

Lemma stored_finishes_done s X out rest :
  stored_finishes s X out rest -> Stored.mode s = Stored.DONE -> out = [].
Proof.
  intros (fuel & sd & Hrun & _) Hdone.
  eapply stored_tail_output; [|exact Hrun]. auto.
Qed.

Lemma stored_finishes_rest s X out rest :
  stored_finishes s X out rest -> (length rest <= length X)%nat.
Proof.
  intros (fuel & sd & Hrun & _). apply stored_run_input in Hrun as [used ->].
  rewrite length_app. lia.
Qed.

(** [inflate] enters a block boundary as the machine would move on from
    it. *)
Lemma stored_enter s X out rest :
  stored_sane s -> stored_finishes s X out rest ->
  let s0 := match Stored.mode s with
            | Stored.TYPE => Stored.set_mode s Stored.TYPEDO
            | _ => s
            end in
  stored_sane s0 /\ Stored.wrap s0 = Stored.wrap s /\ stored_finishes s0 X out rest /\
  stored_rank s0 <= 8.
Proof.
  intros Hsane Hfin s0.
  assert (Hrank : stored_rank s0 <= 8) by apply stored_rank_bounds.
  destruct (Stored.mode s) eqn:Hmode; subst s0;
    try (split; [exact Hsane|split; [reflexivity|split; [exact Hfin|exact Hrank]]]).
  assert (Hstep : Stored.step Z_NO_FLUSH s [] 0
                  = Stored.Go (Stored.set_mode s Stored.TYPEDO) [] []).
  { unfold Stored.step. rewrite Hmode. reflexivity. }
  destruct (stored_step_sane _ _ _ _ _ _ _ Hstep Hsane) as [Hsane' Hwrap'].
  destruct (stored_go_finishes _ _ _ _ _ _ _ X _ _ Hstep ltac:(lia) Hfin)
    as (out' & -> & Hfin').
  split; [exact Hsane'|split; [exact Hwrap'|split; [exact Hfin'|exact Hrank]]].
Qed.

Lemma land_128_small (x : Z) : 0 <= x < 128 -> Z.land x 128 = 0.
Proof.
  intros Hx. apply Z.bits_inj'. intros i Hi. rewrite Z.land_spec, Z.bits_0.
  destruct (Z.eq_dec i 7) as [->|Hne].
  - rewrite (Z.bits_above_log2 x 7); [reflexivity|lia|].
    destruct (Z.eq_dec x 0) as [->|Hx0]; [cbn; lia|].
    apply Z.log2_lt_pow2; lia.
  - change 128 with (2 ^ 7). rewrite (Z.pow2_bits_false 7 i) by lia.
    apply andb_false_r.
Qed.

(** A call of [inflate] in a state from which the machine finishes on the
    rest of the file: what it consumes and writes, and where it stops. *)
Lemma stored_inflate_in_step (file data : list uchar) s q k input n flush rest (m : nat) :
  stored_sane s -> 0 <= q -> 0 <= k <= Z.of_nat (length data) ->
  stored_finishes s (drop (Z.to_nat q) file) (drop (Z.to_nat k) data) rest ->
  input = take m (drop (Z.to_nat q) file) -> 0 <= n ->
  let r := Stored.inflate s input n flush in
  0 <= z_used r <= Z.of_nat (length input) /\
  Z.of_nat (length (z_out r)) <= n /\
  z_out r = take (length (z_out r)) (drop (Z.to_nat k) data) /\
  k + Z.of_nat (length (z_out r)) <= Z.of_nat (length data) /\
  stored_sane (z_next r) /\ Stored.wrap (z_next r) = Stored.wrap s /\
  stored_finishes (z_next r) (drop (Z.to_nat (q + z_used r)) file)
                  (drop (Z.to_nat (k + Z.of_nat (length (z_out r)))) data) rest /\
  (z_ret r = Z_STREAM_END \/
   (Stored.mode (z_next r) <> Stored.DONE /\ (z_ret r = Z_OK \/ z_ret r = Z_BUF_ERROR))) /\
  z_data_type r
  = Stored.bits_ (z_next r) + (if Stored.last_ (z_next r) then 64 else 0)
    + (match Stored.mode (z_next r) with Stored.TYPE => 128 | _ => 0 end) /\
  (z_ret r = Z_STREAM_END ->
     k + Z.of_nat (length (z_out r)) = Z.of_nat (length data)) /\
  (z_ret r <> Z_STREAM_END -> flush = Z_NO_FLUSH ->
     z_used r = Z.of_nat (length input) \/ Z.of_nat (length (z_out r)) = n).
Proof.
  intros Hsane Hq Hk Hfin Hin Hn r. subst r. unfold Stored.inflate.
  destruct (stored_enter _ _ _ _ Hsane Hfin) as (Hsane0 & Hwrap0 & Hfin0 & Hrank0).
  set (s0 := match Stored.mode s with
             | Stored.TYPE => Stored.set_mode s Stored.TYPEDO
             | _ => s
             end) in *.
  destruct (Stored.run _ flush s0 input n []) as [[s1 rest1] out1] eqn:Hrun.
  cbn [z_used z_out z_next z_ret z_data_type].
  set (more := drop m (drop (Z.to_nat q) file)).
  assert (Hfile : drop (Z.to_nat q) file = input ++ more)
    by (rewrite Hin; unfold more; symmetry; apply take_drop).
  rewrite Hfile in Hfin0.
  destruct (stored_run_split _ _ _ _ _ _ _ _ more _ _ Hn Hrun Hfin0)
    as (out2 & Hout & Hfin1).
  destruct (stored_run_input _ _ _ _ _ _ _ _ _ Hrun) as [used Hused].
  destruct (stored_run_sane _ _ _ _ _ _ _ _ _ Hsane0 Hrun) as [Hsane1 Hwrap1].
  pose proof (stored_run_bound _ _ _ _ _ _ _ _ _ Hn Hrun) as Hbound.
  cbn [length] in Hbound.
  assert (Hstuck : Stored.step flush s1 rest1 (n - Z.of_nat (length out1))
                   = Stored.Leave s1).
  { assert (Hfuel : 8 * Z.of_nat (length input) + stored_rank s0
                    < Z.of_nat (8 * length input + 16)) by lia.
    pose proof (stored_run_stuck _ _ _ _ _ _ _ _ _ Hsane0 Hn Hfuel Hrun) as H.
    cbn [length] in H. rewrite Z.sub_0_r in H. exact H. }
  assert (Hlen_in : length input = (length used + length rest1)%nat)
    by (rewrite Hused, length_app; reflexivity).
  assert (Hu : Z.of_nat (length input) - Z.of_nat (length rest1) = Z.of_nat (length used))
    by lia.
  rewrite Hu.
  assert (Hlen_out : length (drop (Z.to_nat k) data) = (length out1 + length out2)%nat)
    by (rewrite Hout, length_app; reflexivity).
  rewrite length_drop in Hlen_out.
  assert (Hdropq : drop (Z.to_nat (q + Z.of_nat (length used))) file = rest1 ++ more).
  { replace (Z.to_nat (q + Z.of_nat (length used)))
      with (Z.to_nat q + length used)%nat by lia.
    rewrite <- drop_drop, Hfile, Hused, <- app_assoc, drop_app_length. reflexivity. }
  assert (Hdropk : drop (Z.to_nat (k + Z.of_nat (length out1))) data = out2).
  { replace (Z.to_nat (k + Z.of_nat (length out1)))
      with (Z.to_nat k + length out1)%nat by lia.
    rewrite <- drop_drop, Hout, drop_app_length. reflexivity. }
  pose proof (stored_finishes_not_bad _ _ _ _ Hfin1) as Hnotbad.
  split; [lia|]. split; [lia|].
  split; [rewrite Hout, take_app_length; reflexivity|].
  split; [lia|]. split; [exact Hsane1|]. split; [congruence|].
  split; [rewrite Hdropq, Hdropk; exact Hfin1|].
  split; [|split; [reflexivity|split]].
  - destruct (Stored.mode s1) eqn:Hmode; try (left; reflexivity); try contradiction;
      right; (split; [discriminate|]); destruct (_ && _); auto.
  - intros Hend.
    assert (Hdone : Stored.mode s1 = Stored.DONE).
    { destruct (Stored.mode s1) eqn:Hmode; try reflexivity; try contradiction;
        destruct (_ && _); discriminate. }
    pose proof (stored_finishes_done _ _ _ _ Hfin1 Hdone) as ->.
    cbn [length] in Hlen_out. lia.
  - intros Hne ->.
    assert (Hnd : Stored.mode s1 <> Stored.DONE).
    { intros Hdone. rewrite Hdone in Hne. contradiction. }
    destruct (stored_leave_cases _ _ _ _ _ Hstuck ltac:(lia))
      as [H|[H|[[_ H]|[H|H]]]]; try contradiction; try discriminate.
    + left. rewrite H in Hlen_in. cbn [length] in Hlen_in. lia.
    + right. lia.
Qed.

(** *** The two contracts *)

(** The raw inflater for stored blocks meets the contract of [extract]. *)
Lemma stored_inflate_resumes (file data : list uchar) :
  inflate_resumes (ZL := Stored.zlib) file data (stored_resumes file data).
Proof.
  intros s q k input n (Hsane & Hq & Hk & rest & Hrest & Hfin) [m Hin] Hne Hn r.
  cbn [inflate Stored.zlib zstate] in *.
  destruct (stored_inflate_in_step file data s q k input n Z_NO_FLUSH rest m
              Hsane Hq Hk Hfin Hin Hn)
    as (Hused & Hout & Hpre & Hk' & Hsane' & _ & Hfin' & Hret & _ & Hend & Hprog).
  fold r in Hused, Hout, Hpre, Hk', Hsane', Hfin', Hret, Hend, Hprog.
  split; [exact Hused|]. split; [exact Hout|]. split; [exact Hpre|].
  split; [destruct Hret as [H|[_ [H|H]]]; auto|].
  split; [|split; [exact Hend|]].
  - split; [exact Hsane'|]. split; [lia|]. split; [lia|].
    exists rest. split; [exact Hrest|exact Hfin'].
  - intros Hnend. split; [apply Hprog; [exact Hnend|reflexivity]|].
    pose proof (stored_finishes_rest _ _ _ _ Hfin') as Hlen.
    rewrite length_drop in Hlen. destruct rest; [contradiction|].
    cbn [length] in Hlen. lia.
Qed.

(** The gzip inflater for stored blocks meets the contract of
    [build_index], on every file it reads to the end. *)
Lemma stored_inflate_marks_blocks (file data : list uchar) :
  stored_decodes file data ->
  inflate_marks_blocks (ZL := Stored.zlib) file data
    (stored_tracks file data) (stored_resumes file data).
Proof.
  intros Hdec. split.
  - intros s [= <-]. unfold stored_tracks.
    split; [split; [cbn; lia|reflexivity]|]. split; [reflexivity|].
    split; [lia|]. split; [lia|]. exists []. exact Hdec.
  - intros s q k input n (Hsane & Hwrap & Hq & Hk & rest & Hfin) [m Hin] Hne Hn r
           Hmem Hdata Hdict Hnend.
    cbn [inflate Stored.zlib zstate] in *.
    destruct (stored_inflate_in_step file data s q k input n Z_BLOCK rest m
                Hsane Hq Hk Hfin Hin Hn)
      as (Hused & Hout & Hpre & Hk' & Hsane' & Hwrap' & Hfin' & Hret & Htype & _ & _).
    fold r in Hused, Hout, Hpre, Hk', Hsane', Hwrap', Hfin', Hret, Htype.
    split; [exact Hused|]. split; [exact Hout|]. split; [exact Hpre|].
    split.
    { split; [exact Hsane'|]. split; [congruence|]. split; [lia|]. split; [lia|].
      exists rest. exact Hfin'. }
    intros H128 H64 w _.
    set (s1 := z_next r) in *.
    pose proof Hsane' as [Hbits Hmode1].
    assert (Hmode : Stored.mode s1 = Stored.TYPE).
    { destruct (Stored.mode s1) eqn:Hm; try reflexivity; exfalso;
        unfold flag in H128; rewrite Htype in H128;
        rewrite land_128_small in H128 by (destruct (Stored.last_ s1); lia);
        discriminate. }
    rewrite Hmode in Hmode1, Htype. destruct Hmode1 as [Hhold Hbits0].
    assert (Hlast : Stored.last_ s1 = false).
    { destruct (Stored.last_ s1); [|reflexivity].
      unfold flag in H64. rewrite Htype, Hbits0 in H64. discriminate. }
    rewrite Hlast, Hbits0 in Htype. cbn in Htype. rewrite Htype.
    destruct (stored_boundary_resumes _ _ _ _ Hmode Hlast ltac:(congruence) Hsane' Hfin')
      as (rest' & Hrest' & Hraw).
    pose proof (stored_finishes_rest _ _ _ _ Hraw) as Hlen.
    rewrite length_drop in Hlen.
    assert (Hinside : q + z_used r < Z.of_nat (length file)).
    { destruct rest'; [contradiction|]. cbn [length] in Hlen. lia. }
    unfold valid_point. cbn [out in_ bits window]. unfold uchar in *.
    split; [lia|]. split; [lia|]. split; [intros H; exfalso; apply H; reflexivity|].
    match goal with
    | |- stored_resumes _ _ ?s0 _ _ =>
        change s0 with (Stored.mk_state Stored.HEAD false false 0 0 0)
    end.
    split; [split; [cbn; lia|reflexivity]|]. unfold uchar in *.
    split; [lia|]. split; [lia|].
    exists rest'. split; [exact Hrest'|exact Hraw].
Qed.

(** ** Reading through the index that build_index built *)

Section ReadBuilt.

Context `{RT : Runtime} `{ZL : Zlib}.
Variable file data : list uchar.
Variable in_header : zstate -> Prop.
Variable tracks resumes : zstate -> Z -> Z -> Prop.
Hypothesis Hbound : inflate_within_bounds.
Hypothesis Hheader : starts_at_boundary in_header.
Hypothesis Hmarks : inflate_marks_blocks file data tracks resumes.
Hypothesis Hresumes : inflate_resumes file data resumes.

(** A session on the file with the index [build_index] returned for it
    serves the stream. *)
Lemma build_index_serves (fuel : nat) (inp : FILE) (span n : Z) (built : access)
      (zs : seekgzip_t) :
  0 <= span -> contents inp = file -> pos inp = 0 ->
  build_index fuel inp span = Returns (n, Some built) ->
  contents (fp zs) = file -> ioerr (fp zs) = false -> ferror (fp zs) = false ->
  index zs = built ->
  serves file data resumes zs.
Proof.
  intros Hspan Hfile Hpos Hrun Hfp Hio Hferr Hindex.
  pose proof (build_index_valid_points file data tracks resumes Hmarks
                _ _ _ _ _ Hfile Hpos Hrun) as Hvalid.
  destruct (build_index_returns _ _ _ _ _ Hrun)
    as (s & st & index0 & Hs & Hout & Hidx & _ & Hbuilt).
  assert (Hfirst : first_at_zero in_header st).
  { eapply (build_outer_first_at_zero in_header Hheader); [|exact Hout].
    unfold first_at_zero, build_start. cbn [b_index b_strm state totout].
    split; [|reflexivity]. destruct Hheader as [H0 _]. apply H0. exact Hs. }
  assert (Hinv : build_inv span st).
  { eapply build_outer_inv; [exact Hbound| |exact Hout].
    unfold build_inv, build_start. cbn [b_strm avail_out b_window last totout b_index].
    rewrite length_uninit. unfold WINSIZE. repeat split; lia. }
  unfold first_at_zero in Hfirst. rewrite Hidx in Hfirst.
  destruct Hinv as (_ & _ & _ & Hgood). rewrite Hidx in Hgood.
  destruct Hgood as (Hok & _ & _ & Hsp).
  unfold serves. rewrite Hindex, Hbuilt. cbn [list_].
  split; [exact Hfp|]. split; [exact Hio|]. split; [exact Hferr|].
  split; [exact Hok|]. split; [apply (spaced_sorted span); assumption|].
  split; [exact Hfirst|]. rewrite Hbuilt in Hvalid. exact Hvalid.
Qed.

(** C1. On a session on a compressed file with the index that
    [build_index] built for it, the file reading without error and
    decompressing to [data]: [seekgzip_seek] to [o >= 0] followed by
    [seekgzip_read] of [L >= 0] bytes returns, given fuel for the loops,
    the number [n] of bytes of [data] in [o, o+L), writes exactly those
    bytes at the start of the buffer, leaves the rest of the buffer as it
    was, and advances the cursor by [n].  zlib enters through its
    contracts: [inflate] writes no more than [avail_out] bytes
    ([inflate_within_bounds]), with [Z_BLOCK] it returns at the end of the
    header ([starts_at_boundary]) and at block boundaries where raw
    inflation can resume ([inflate_marks_blocks]), and raw inflation
    resumed there delivers the stream ([inflate_resumes]). *)
Theorem seekgzip_read_delivers_stream (bfuel : nat) (inp : FILE) (span have_ : Z)
        (built : access) (zs : seekgzip_t) (o L : Z) (buffer : list uchar)
        (fuel : nat) :
  fst (inflateInit2 (-15)) = Z_OK ->
  (forall b, b ∈ file -> 0 <= b) ->
  0 <= span -> contents inp = file -> pos inp = 0 ->
  build_index bfuel inp span = Returns (have_, Some built) ->
  contents (fp zs) = file -> ioerr (fp zs) = false -> ferror (fp zs) = false ->
  index zs = built ->
  0 <= o -> 0 <= L <= Z.of_nat (length buffer) ->
  (length file + Z.to_nat o < fuel)%nat ->
  let n := Z.min L (Z.max 0 (Z.of_nat (length data) - o)) in
  exists fp',
    seekgzip_read fuel (seekgzip_seek zs o) buffer L
    = Returns (n,
               take (Z.to_nat n) (drop (Z.to_nat o) data) ++ drop (Z.to_nat n) buffer,
               mk_seekgzip fp' built (o + n) (errorcode zs)) /\
    contents fp' = file /\ ioerr fp' = false /\ ferror fp' = false.
Proof.
  intros Hinit Hbytes Hspan Hfile Hpos Hrun Hfp Hio Hferr Hindex Ho HL Hfuel n.
  pose proof (build_index_serves _ _ _ _ _ (seekgzip_seek zs o) Hspan Hfile Hpos Hrun
                Hfp Hio Hferr Hindex) as Hserves.
  destruct (seekgzip_read_at file data resumes Hresumes Hinit Hbytes
              (seekgzip_seek zs o) L buffer fuel Hserves Ho HL Hfuel)
    as (zs' & Hread & Hserves' & Hoff & Herr).
  cbn [seekgzip_seek offset errorcode] in Hread, Hoff, Herr.
  unfold clipped in Hread, Hoff. fold n in Hread, Hoff.
  assert (Hidx : index zs' = built).
  { unfold seekgzip_read in Hread.
    destruct (extract _ _ _ _ _ _) as [[[len b'] fpx]| |]; try discriminate.
    injection Hread as _ _ <-. exact Hindex. }
  destruct Hserves' as (Hfp' & Hio' & Hferr' & _).
  exists (fp zs'). split; [|split; [exact Hfp'|split; [exact Hio'|exact Hferr']]].
  rewrite Hread. do 2 f_equal. destruct zs' as [fp' idx' off' err'].
  cbn [fp index offset errorcode] in *. subst. reflexivity.
Qed.

End ReadBuilt.

(** The file of three stored blocks decompresses to [abcdefgh]. *)
Lemma blocks_3_4_1_decodes : stored_decodes Stored.blocks_3_4_1 abcdefgh.
Proof. exists 60%nat. eexists. split; vm_compute; reflexivity. Qed.

Lemma seekgzip_read_delivers_stream_witness :
  exists built fp',
    build_index (RT := Stored.runtime) (ZL := Stored.zlib) 50
      (Stored.fopen Stored.blocks_3_4_1) 3 = Returns (2, Some built) /\
    map (fun p => (out p, in_ p, bits p)) (list_ built) = [(0, 10, 0); (7, 27, 0)] /\
    seekgzip_read (ZL := Stored.zlib) 60
      (seekgzip_seek (mk_seekgzip (Stored.fopen Stored.blocks_3_4_1) built 0 0) 7)
      [0; 0; 0; 0; 0; 0] 6
    = Returns (1, [104; 0; 0; 0; 0; 0], mk_seekgzip fp' built 8 0).
Proof.
  assert (Hrun : exists built,
             build_index (RT := Stored.runtime) (ZL := Stored.zlib) 50
               (Stored.fopen Stored.blocks_3_4_1) 3 = Returns (2, Some built) /\
             map (fun p => (out p, in_ p, bits p)) (list_ built)
             = [(0, 10, 0); (7, 27, 0)]).
  { eexists. split; lazy -[memcpy uninit]; reflexivity. }
  destruct Hrun as (built & Hrun & Hpoints).
  destruct (seekgzip_read_delivers_stream (RT := Stored.runtime) (ZL := Stored.zlib)
              Stored.blocks_3_4_1 abcdefgh Stored.in_header
              (stored_tracks Stored.blocks_3_4_1 abcdefgh)
              (stored_resumes Stored.blocks_3_4_1 abcdefgh)
              stored_inflate_within_bounds stored_starts_at_boundary
              (stored_inflate_marks_blocks _ _ blocks_3_4_1_decodes)
              (stored_inflate_resumes _ _)
              50 (Stored.fopen Stored.blocks_3_4_1) 3 2 built
              (mk_seekgzip (Stored.fopen Stored.blocks_3_4_1) built 0 0)
              7 6 [0; 0; 0; 0; 0; 0] 60) as (fp' & Hread & _).
  - reflexivity.
  - intros b Hb. vm_compute in Hb.
    repeat (apply elem_of_cons in Hb as [->|Hb]; [lia|]).
    apply elem_of_nil in Hb. contradiction.
  - lia.
  - reflexivity.
  - reflexivity.
  - exact Hrun.
  - reflexivity.
  - reflexivity.
  - reflexivity.
  - reflexivity.
  - lia.
  - cbn [length]. lia.
  - vm_compute. lia.
  - exists built, fp'. split; [exact Hrun|]. split; [exact Hpoints|exact Hread].
Defined.
